(** * bs log forwarder: the sinks and the parser

    A shallow embedding of [log/syslogforwarder.go] and of the parts of
    [config/config.go] it calls, together with the properties the
    specification states about them.  The lenient parser and the websocket
    sink, whose files are not given, are modelled from the specification
    and from their tests; their definitions say so.

    Go values are modelled as follows.
    - [int] is a 64-bit two's complement integer: a [Z] with the wrap-around
      of the arithmetic written out ([GoInt.wrap]).
    - [[]byte] and [string] contents are lists of 8-bit characters.
    - A slice value is a window [(array, offset, length, capacity)] on a
      backing array that lives in a store; [append] writes in place when the
      capacity allows it and moves to a fresh array otherwise, so the
      aliasing between [bufIdx.buffer], [headerBuf], [contentBuf] and
      [trailerBuf] in [splitParts] is the aliasing of the program.
    - [sync.Pool], the connection, the logger and the clock are components of
      an explicit [world]; what the environment decides (which pooled buffer
      [Get] returns, what a write reports) is read from an oracle.
    - A function that can panic or loop is a computation in the monad [M],
      whose results are a value, a panic, or exhaustion of the loop fuel. *)

From Stdlib Require Import ZArith List Ascii String Bool Arith Lia.
Import ListNotations.

Set Implicit Arguments.

Local Open Scope Z_scope.

(* [length] is the length of a list throughout, not of a [string]. *)
Abbreviation length := List.length.

(** ** Bytes and errors *)

Definition bytes : Type := list ascii.

(** [b "text"] is the byte sequence of a literal. *)
Definition b (s : string) : bytes := list_ascii_of_string s.

(** A Go [error]: [None] is [nil], [Some m] an error whose [Error()] is [m]. *)
Definition error : Type := option bytes.

Definition bytes_eqb (x y : bytes) : bool :=
  if list_eq_dec ascii_dec x y then true else false.

(** ** Machine integers *)

Module GoInt.

(** Reduction of a mathematical integer to Go's 64-bit [int]. *)
Definition wrap (z : Z) : Z := (z + 2 ^ 63) mod 2 ^ 64 - 2 ^ 63.

Definition in_range (z : Z) : Prop := - 2 ^ 63 <= z < 2 ^ 63.

Definition add (x y : Z) : Z := wrap (x + y).
Definition sub (x y : Z) : Z := wrap (x - y).

End GoInt.

(** ** Slices and their backing store *)

Record slice : Type := Slice {
  arr : nat;   (* identity of the backing array *)
  off : nat;   (* index of the first element in the array *)
  len : nat;
  cap : nat
}.

Definition lenZ (s : slice) : Z := Z.of_nat (len s).

Definition slice_eqb (s t : slice) : bool :=
  (arr s =? arr t)%nat && (off s =? off t)%nat &&
  (len s =? len t)%nat && (cap s =? cap t)%nat.

(** [s[lo:hi]]; [None] is the run-time panic "slice bounds out of range".
    For a slice the upper bound is checked against the capacity. *)
Definition slice_range (s : slice) (lo hi : Z) : option slice :=
  if (0 <=? lo) && (lo <=? hi) && (hi <=? Z.of_nat (cap s)) then
    Some (Slice (arr s) (off s + Z.to_nat lo) (Z.to_nat (hi - lo))
                (cap s - Z.to_nat lo))
  else None.

(** [s[:hi]] *)
Definition slice_to (s : slice) (hi : Z) : option slice := slice_range s 0 hi.

(** [s[lo:]] *)
Definition slice_from (s : slice) (lo : Z) : option slice :=
  slice_range s lo (lenZ s).

(** Contents of all arrays: [cells a i] is element [i] of array [a]. *)
Definition store_t : Type := nat -> nat -> ascii.

Definition store (c : store_t) (a pos : nat) (data : bytes) : store_t :=
  fun a' i =>
    if (a' =? a)%nat && (pos <=? i)%nat && (i <? pos + length data)%nat
    then nth (i - pos) data zero
    else c a' i.

Definition load (c : store_t) (s : slice) : bytes :=
  map (c (arr s)) (seq (off s) (len s)).

(** ** The world *)

Inductive logLevel : Type := LevelWarn | LevelError.

Record bufferWithIdx : Type := BufferWithIdx {
  buffer : slice;
  headerIdx : Z;
  contentIdx : Z
}.

Inductive event : Type :=
| EvGet (s : slice)                                   (* bufferPool.Get() *)
| EvPut (s : slice)                                   (* bufferPool.Put(s) *)
| EvSetWriteDeadline (conn : nat) (t : Z)
| EvWrite (conn : nat) (data : bytes) (n : Z) (err : error)
| EvSend (ch : nat) (m : bufferWithIdx) (accepted : bool)
| EvLog (at_time : Z) (level : logLevel) (line : bytes)
| EvDial (scheme host : bytes) (timeout : Z) (err : error)
| EvClearWriteDeadline (conn : nat)
| EvClose (conn : nat).

(** A [net.Conn]: its identity, the text of [RemoteAddr()], and, for a
    connection wrapped by [newBufferedConn], the flush period. *)
Record netConn : Type := mkConn {
  connId : nat;
  remoteAddr : bytes;
  flushPeriod : option Z
}.

(** What the environment decides.  Each answer is indexed by the number of
    events that happened before the question. *)
Record oracle : Type := Oracle {
  poolPick : nat -> nat;
  deadlineErr : nat -> error;
  writeRes : nat -> bytes -> Z * error;
  dialRes : nat -> bytes -> bytes -> netConn + bytes
}.

Record world : Type := World {
  cells : store_t;
  next : nat;              (* first array identity never allocated *)
  pool : list slice;       (* buffers held by the sync.Pool *)
  trace : list event;      (* oldest first *)
  now : Z;                 (* wall clock, nanoseconds *)
  env : oracle
}.

Definition set_cells (c : store_t) (w : world) : world :=
  World c (next w) (pool w) (trace w) (now w) (env w).

Definition set_pool (p : list slice) (w : world) : world :=
  World (cells w) (next w) p (trace w) (now w) (env w).

Definition emit (e : event) (w : world) : world :=
  World (cells w) (next w) (pool w) (trace w ++ [e]) (now w) (env w).

Definition set_now (t : Z) (w : world) : world :=
  World (cells w) (next w) (pool w) (trace w) t (env w).

(** A fresh array holding [data]. *)
Definition alloc (data : bytes) (w : world) : nat * world :=
  (next w,
   World (store (cells w) (next w) 0 data) (S (next w)) (pool w) (trace w)
         (now w) (env w)).

Definition read (w : world) (s : slice) : bytes := load (cells w) s.

(** ** The monad of Go computations *)

Inductive res (A : Type) : Type :=
| Val (a : A) (w : world)
| Panic (msg : string) (w : world)
| OutOfFuel (w : world).

Arguments Panic {A} msg w.
Arguments OutOfFuel {A} w.

Definition M (A : Type) : Type := world -> res A.

Definition ret {A : Type} (a : A) : M A := fun w => Val a w.

Definition bind {A B : Type} (c : M A) (k : A -> M B) : M B :=
  fun w =>
    match c w with
    | Val a w' => k a w'
    | Panic msg w' => Panic msg w'
    | OutOfFuel w' => OutOfFuel w'
    end.

Definition panic {A : Type} (msg : string) : M A := fun w => Panic msg w.

Declare Scope go_scope.
Delimit Scope go_scope with go.

Notation "x <- c ;; k" := (bind c (fun x => k))
  (at level 61, c at next level, right associativity) : go_scope.
Notation "c ;;; k" := (bind c (fun _ => k))
  (at level 61, right associativity) : go_scope.

Local Open Scope go_scope.

Definition world_of {A : Type} (r : res A) : world :=
  match r with
  | Val _ w => w
  | Panic _ w => w
  | OutOfFuel w => w
  end.

Definition get_world : M world := fun w => Val w w.
Definition modify (f : world -> world) : M unit := fun w => Val tt (f w).

(** A slice expression in monadic code. *)
Definition slicing (o : option slice) : M slice :=
  match o with
  | Some s => ret s
  | None => panic "slice bounds out of range"
  end.

(** [growslice]: capacity of the array [append] moves to.  Only
    [needed <= growslice oldcap needed] matters below. *)
Definition growslice (oldcap needed : nat) : nat := Nat.max needed (2 * oldcap).

(** [append(s, data...)] *)
Definition append (s : slice) (data : bytes) : M slice :=
  fun w =>
    let n := length data in
    if (len s + n <=? cap s)%nat then
      Val (Slice (arr s) (off s) (len s + n) (cap s))
          (set_cells (store (cells w) (arr s) (off s + len s) data) w)
    else
      let (a, w') := alloc (read w s ++ data) w in
      Val (Slice a 0 (len s + n) (growslice (cap s) (len s + n))) w'.

(** [append(s, src...)] where [src] is itself a slice: the source is read
    before the destination is written (memmove). *)
Definition append_slice (s src : slice) : M slice :=
  fun w => append s (read w src) w.

(** ** sync.Pool *)

Definition pool_New : M slice :=
  fun w =>
    let (a, w') := alloc (repeat zero 200) w in
    Val (Slice a 0 200 200) w'.

Fixpoint remove_nth {A : Type} (k : nat) (l : list A) : list A :=
  match l, k with
  | [], _ => []
  | _ :: l', O => l'
  | x :: l', S k' => x :: remove_nth k' l'
  end.

(** [Get] hands out one of the pooled buffers, or a new one: the pool may
    have dropped its content, and which buffer comes back is not specified. *)
Definition pool_Get : M slice :=
  fun w =>
    let k := poolPick (env w) (length (trace w)) in
    match nth_error (pool w) k with
    | Some s => Val s (emit (EvGet s) (set_pool (remove_nth k (pool w)) w))
    | None =>
        match pool_New w with
        | Val s w' => Val s (emit (EvGet s) w')
        | r => r
        end
    end.

Definition pool_Put (s : slice) : M unit :=
  fun w => Val tt (emit (EvPut s) (set_pool (s :: pool w) w)).

(** ** Text helpers: decimal digits and [strconv.Quote] *)

Definition digit (n : Z) : ascii := ascii_of_nat (48 + Z.to_nat (n mod 10)).

(** Two decimal digits of a value in [0, 99]. *)
Definition two_digits (n : Z) : bytes := [digit (n / 10); digit n].

Fixpoint decimal_fuel (fuel : nat) (n : Z) (acc : bytes) : bytes :=
  match fuel with
  | O => acc
  | S fuel' =>
      if n <? 10 then digit n :: acc
      else decimal_fuel fuel' (n / 10) (digit n :: acc)
  end.

(** Decimal rendering of an integer ([%d]). *)
Definition decimal (n : Z) : bytes :=
  if n <? 0 then "-"%char :: decimal_fuel (S (Z.to_nat (Z.log2 (- n)))) (- n) []
  else decimal_fuel (S (Z.to_nat (Z.log2 n))) n [].

Definition hex_digit (n : nat) : ascii :=
  nth n (b "0123456789abcdef") "0"%char.

(** One byte as [strconv.Quote] writes it.  Bytes above 0x7e other than DEL
    are taken to belong to printable UTF-8 text, which is copied. *)
Definition dquote : ascii := ascii_of_nat 34.
Definition backslash : ascii := ascii_of_nat 92.

Definition quote_byte (c : ascii) : bytes :=
  let n := nat_of_ascii c in
  if (n =? 34)%nat then [backslash; dquote]
  else if (n =? 92)%nat then b "\\"
  else if (n =? 7)%nat then b "\a"
  else if (n =? 8)%nat then b "\b"
  else if (n =? 12)%nat then b "\f"
  else if (n =? 10)%nat then b "\n"
  else if (n =? 13)%nat then b "\r"
  else if (n =? 9)%nat then b "\t"
  else if (n =? 11)%nat then b "\v"
  else if (n <? 32)%nat || (n =? 127)%nat then
    b "\x" ++ [hex_digit (n / 16); hex_digit (n mod 16)]
  else [c].

(** [strconv.Quote], which is what the verb [%q] prints for a string or a
    [Stringer]. *)
Definition quote (s : bytes) : bytes :=
  dquote :: flat_map quote_byte s ++ [dquote].

(** A byte that [quote] copies unchanged. *)
Definition plain_byte (c : ascii) : bool :=
  let n := nat_of_ascii c in
  negb ((n =? 34) || (n =? 92) || (n <? 32) || (n =? 127))%nat.

(** ** Time: instants, locations and the layouts used *)

Module GoTime.

Definition nanosecond : Z := 1.
Definition second : Z := 1000000000.
Definition minute : Z := 60 * second.

(** An instant: seconds and nanoseconds since the Unix epoch. *)
Record Instant : Type := mkInstant { unixSec : Z; nsec : Z }.

(** A [*time.Location]: the offset east of UTC, in seconds, in force at a
    given Unix time. *)
Record Location : Type := mkLocation {
  zoneName : bytes;
  offsetAt : Z -> Z
}.

Definition UTC : Location := mkLocation (b "UTC") (fun _ => 0).

Definition fixedZone (name : bytes) (offset : Z) : Location :=
  mkLocation name (fun _ => offset).

(** Civil date of a day number counted from 1970-01-01 (proleptic
    Gregorian calendar); [/] is floor division. *)
Definition civil (days : Z) : Z * Z * Z :=
  let z := days + 719468 in
  let era := z / 146097 in
  let doe := z - era * 146097 in
  let yoe := (doe - doe / 1460 + doe / 36524 - doe / 146096) / 365 in
  let doy := doe - (365 * yoe + yoe / 4 - yoe / 100) in
  let mp := (5 * doy + 2) / 153 in
  let d := doy - (153 * mp + 2) / 5 + 1 in
  let m := if mp <? 10 then mp + 3 else mp - 9 in
  let y := yoe + era * 400 + (if m <=? 2 then 1 else 0) in
  (y, m, d).

Definition monthNames : list bytes :=
  map b ["Jan"; "Feb"; "Mar"; "Apr"; "May"; "Jun";
         "Jul"; "Aug"; "Sep"; "Oct"; "Nov"; "Dec"]%string.

Definition monthName (m : Z) : bytes := nth (Z.to_nat (m - 1)) monthNames [].

(** Seconds since the epoch of the wall clock that [t.In(loc)] shows. *)
Definition wallSeconds (loc : Location) (t : Instant) : Z :=
  unixSec t + offsetAt loc (unixSec t).

Definition clock (wall : Z) : bytes :=
  let s := wall mod 86400 in
  two_digits (s / 3600) ++ b ":" ++ two_digits (s mod 3600 / 60) ++ b ":" ++
  two_digits (s mod 60).

(** The day of the month under [_2]: padded with a space to two columns. *)
Definition day_2 (d : Z) : bytes :=
  if d <? 10 then [" "%char; digit d] else two_digits d.

(** [t.In(loc).Format(time.Stamp)], the layout ["Jan _2 15:04:05"]. *)
Definition formatStamp (loc : Location) (t : Instant) : bytes :=
  let wall := wallSeconds loc t in
  let '(_, m, d) := civil (wall / 86400) in
  monthName m ++ b " " ++ day_2 d ++ b " " ++ clock wall.

Definition four_digits (n : Z) : bytes :=
  two_digits (n / 100) ++ two_digits (n mod 100).

Fixpoint trim_zeros_rev (l : bytes) : bytes :=
  match l with
  | c :: l' => if Ascii.eqb c "0"%char then trim_zeros_rev l' else l
  | [] => []
  end.

(** Fraction of a second: empty when zero, else a dot and the nanoseconds
    without trailing zeros. *)
Definition fraction (ns : Z) : bytes :=
  if ns =? 0 then []
  else
    let nine :=
      two_digits (ns / 10000000) ++ two_digits (ns / 100000 mod 100) ++
      two_digits (ns / 1000 mod 100) ++ two_digits (ns / 10 mod 100) ++
      [digit ns] in
    b "." ++ rev (trim_zeros_rev (rev nine)).

(** RFC 3339 rendering of the instant in UTC, for years 0 to 9999. *)
Definition formatRFC3339UTC (t : Instant) : bytes :=
  let wall := unixSec t in
  let '(y, m, d) := civil (wall / 86400) in
  four_digits y ++ b "-" ++ two_digits m ++ b "-" ++ two_digits d ++ b "T" ++
  clock wall ++ fraction (nsec t) ++ b "Z".

End GoTime.

Import GoTime.

(** ** The logger ([bslog]) and the clock *)

Definition bslog_Warnf (line : bytes) : M unit :=
  fun w => Val tt (emit (EvLog (now w) LevelWarn line) w).

Definition bslog_Errorf (line : bytes) : M unit :=
  fun w => Val tt (emit (EvLog (now w) LevelError line) w).

Definition time_Now : M Z := fun w => Val (now w) w.

(** ** The host: environment, time zones, interfaces, URL parsing *)

(** A parsed [*url.URL]; [urlString] is what its [String()] returns. *)
Record URL : Type := mkURL {
  Scheme : bytes;
  Host : bytes;
  urlString : bytes
}.

(** Results of calls that return [(value, error)]: [inl] is the value with a
    nil error, [inr] the error. *)
Record host : Type := mkHost {
  getenv : bytes -> bytes;                     (* os.Getenv *)
  expandEnv : bytes -> bytes;                  (* os.ExpandEnv *)
  forwardAddressList : list bytes;
    (* config.StringsEnvOrDefault(nil, "LOG_SYSLOG_FORWARD_ADDRESSES",
       "SYSLOG_FORWARD_ADDRESSES"), whose declaration is not part of
       config.go as given *)
  loadLocation : bytes -> Location + bytes;    (* time.LoadLocation *)
  timeLocal : Location;                        (* time.Local *)
  interfaceMTU : bytes -> Z + bytes;           (* net.InterfaceByName(n).MTU *)
  urlParse : bytes -> URL + bytes              (* url.Parse *)
}.

(** ** config/config.go *)

Definition DefaultInterval : Z := 60.
Definition DefaultBufferSize : Z := 1000000.
Definition DefaultWsPingInterval : Z := 30.

(** [strings.Join] *)
Fixpoint join (sep : bytes) (l : list bytes) : bytes :=
  match l with
  | [] => []
  | [x] => x
  | x :: rest => x ++ sep ++ join sep rest
  end.

Section EnvOrDefault.

Variable h : host.
Variable A : Type.
Variable convert : bytes -> option A.   (* [None]: the converter returned nil *)
Variable isZero : A -> bool.            (* the value is the zero of its type *)
Variable show : A -> bytes.             (* the verb [%v] *)

(** The loop of [envOrDefault] from index [i]; [first] is [envs[0]]. *)
Fixpoint envLookup (first : bytes) (i : nat) (envs : list bytes)
  : M (option A) :=
  match envs with
  | [] => ret None
  | env :: rest =>
      match convert (getenv h env) with
      | Some converted =>
          (if (0 <? i)%nat then
             bslog_Warnf (b "The environment variable " ++ env ++
                          b " is deprecated. Please set " ++ first ++
                          b " in the future.")
           else ret tt) ;;;
          ret (Some converted)
      | None => envLookup first (S i) rest
      end
  end.

Definition envOrDefault (defaultValue : A) (envs : list bytes) : M A :=
  found <- envLookup (hd [] envs) 0 envs ;;
  match found with
  | Some converted => ret converted
  | None =>
      (if negb (isZero defaultValue) then
         bslog_Warnf (b "invalid value for " ++ join (b " or ") envs ++
                      b ". Using the default value of " ++ show defaultValue)
       else ret tt) ;;;
      ret defaultValue
  end.

End EnvOrDefault.

Definition is_nil {A : Type} (l : list A) : bool :=
  match l with [] => true | _ => false end.

Definition StringEnvOrDefault (h : host) (defaultValue : bytes)
  (envs : list bytes) : M bytes :=
  envOrDefault h (fun v => if is_nil v then None else Some v)
               is_nil (fun v => v) defaultValue envs.

Definition is_digit (c : ascii) : bool :=
  (48 <=? nat_of_ascii c)%nat && (nat_of_ascii c <=? 57)%nat.

Fixpoint digits_value (acc : Z) (l : bytes) : option Z :=
  match l with
  | [] => Some acc
  | c :: l' =>
      if is_digit c
      then digits_value (acc * 10 + (Z.of_nat (nat_of_ascii c) - 48)) l'
      else None
  end.

(** [strconv.Atoi]: an optional sign, at least one decimal digit, and a
    value that fits an [int]; [None] is a non-nil error. *)
Definition atoi (s : bytes) : option Z :=
  let '(neg, ds) :=
    match s with
    | "-"%char :: r => (true, r)
    | "+"%char :: r => (false, r)
    | _ => (false, s)
    end in
  if is_nil ds then None
  else
    match digits_value 0 ds with
    | Some v =>
        let v' := if neg then - v else v in
        if (- 2 ^ 63 <=? v') && (v' <? 2 ^ 63) then Some v' else None
    | None => None
    end.

Definition IntEnvOrDefault (h : host) (defaultValue : Z)
  (envs : list bytes) : M Z :=
  envOrDefault h atoi (fun v => v =? 0) decimal defaultValue envs.

(** ** log/syslogforwarder.go: constants and types *)

Definition udpMessageDefaultMTU : Z := 1500.
Definition udpHeaderSz : Z := 100.

(** Modelled from the spec: the constant [containerIDTrimSize] is declared
    in a file of package [log] that is not given; the specification states
    that the short container id is the container id "truncated to the trim
    size (12)". *)
Definition containerIDTrimSize : Z := 12.

(** Modelled from the spec: the constant [forwardConnWriteTimeout] is
    declared in a file of package [log] that is not given; the specification
    states that that each write sets a write deadline of about 2 s. *)
Definition forwardConnWriteTimeout : Z := 2 * second.

(** The fields of [rawLogParts] that [sendMessage] reads; the type is
    declared in a file of package [log] that is not given. *)
Record rawLogParts : Type := mkParts {
  ts : Instant;
  priority : bytes;
  content : bytes;
  container : bytes
}.

(** A buffered channel of [LogMessage]: its capacity, the messages waiting,
    and whether a receiver is blocked on it. *)
Record chan : Type := Chan {
  chCap : nat;
  chQueue : list bufferWithIdx;
  chReceiver : bool
}.

(** A [*time.Timer] as seen through its channel [C]: [Some t] when a tick
    is, or from time [t] on will be, waiting in [C]; [None] once the tick was
    received and the timer not reset. *)
Record timer : Type := Timer { fireAt : option Z }.

Definition time_NewTimer (d : Z) : M timer :=
  fun w => Val (Timer (Some (now w + d))) w.

(** [select { case <-t.C: ...; default: }]: is a tick ready now? *)
Definition timer_ready (t : timer) (now : Z) : bool :=
  match fireAt t with
  | Some at_time => at_time <=? now
  | None => false
  end.

Definition timer_Reset (d : Z) : M timer :=
  fun w => Val (Timer (Some (now w + d))) w.

(** [syslogBackend]; [syslogLocation] and [nextNotify] are pointers, [None]
    is nil.  [quitChans] carries nothing but the stop signal and is left
    out. *)
Record syslogBackend : Type := SyslogBackend {
  syslogLocation : option Location;
  syslogExtraStart : bytes;
  syslogExtraEnd : bytes;
  msgChans : list chan;
  nextNotify : option timer
}.

Definition zeroBackend : syslogBackend := SyslogBackend None [] [] [] None.

(** [syslogForwarder]; [bufferPool] points to the pool of the world. *)
Record syslogForwarder : Type := SyslogForwarder {
  url : URL;
  mtu : Z;
  messageLimit : Z
}.

(** ** sendMessage *)

(** A send in a [select] with a [default] goes through when the buffer has
    room or a receiver is blocked on the channel. *)
Definition chan_ready (c : chan) : bool :=
  (length (chQueue c) <? chCap c)%nat || chReceiver c.

Definition chan_push (m : bufferWithIdx) (c : chan) : chan :=
  Chan (chCap c) (chQueue c ++ [m]) false.

(** The inner [select] of [sendMessage]: taken when the channel was full. *)
Definition notifyDrop (tm : option timer) : M (option timer) :=
  match tm with
  | None => panic "invalid memory address or nil pointer dereference"
  | Some t =>
      w <- get_world ;;
      if timer_ready t (now w) then
        bslog_Errorf
          (b "Dropping log messages to syslog due to full channel buffer.") ;;;
        t' <- timer_Reset minute ;;
        ret (Some t')
      else ret (Some t)
  end.

(** The loop [for i, ch := range b.msgChans] from index [i]. *)
Fixpoint fanOut (lenSyslogs i : nat) (chs : list chan) (buf : slice)
  (hIdx cIdx : Z) (tm : option timer) : M (list chan * option timer) :=
  match chs with
  | [] => ret ([], tm)
  | ch :: rest =>
      chBuffer <-
        (if (i =? lenSyslogs - 1)%nat then ret buf
         else
           got <- pool_Get ;;
           chBuffer <- slicing (slice_to got 0) ;;
           append_slice chBuffer buf) ;;
      let m := BufferWithIdx chBuffer hIdx cIdx in
      sent <-
        (if chan_ready ch then
           modify (emit (EvSend i m true)) ;;;
           ret (chan_push m ch, tm)
         else
           modify (emit (EvSend i m false)) ;;;
           tm' <- notifyDrop tm ;;
           ret (ch, tm')) ;;
      others <- fanOut lenSyslogs (S i) rest buf hIdx cIdx (snd sent) ;;
      ret (fst sent :: fst others, snd others)
  end.

(** [t.In(loc)] panics on a nil location. *)
Definition stampIn (loc : option Location) (t : Instant) : M bytes :=
  match loc with
  | Some l => ret (formatStamp l t)
  | None => panic "time: missing Location in call to Time.In"
  end.

(** The rendering part of [sendMessage]: the buffer and the two indexes. *)
Definition render (bk : syslogBackend) (parts : rawLogParts)
  (appName processName : bytes) : M bufferWithIdx :=
  let contID := container parts in
  let contID :=
    if containerIDTrimSize <? Z.of_nat (length contID)
    then firstn (Z.to_nat containerIDTrimSize) contID
    else contID in
  got <- pool_Get ;;
  buffer <- slicing (slice_to got 0) ;;
  buffer <- append buffer (b "<") ;;
  buffer <- append buffer (priority parts) ;;
  buffer <- append buffer (b ">") ;;
  stamp <- stampIn (syslogLocation bk) (ts parts) ;;
  buffer <- append buffer stamp ;;
  buffer <- append buffer (b " ") ;;
  buffer <- append buffer contID ;;
  buffer <- append buffer (b " ") ;;
  buffer <- append buffer appName ;;
  buffer <- append buffer (b "[") ;;
  buffer <- append buffer processName ;;
  buffer <- append buffer (b "]: ") ;;
  buffer <- append buffer (syslogExtraStart bk) ;;
  let headerIdx := lenZ buffer in
  buffer <- append buffer (content parts) ;;
  let contentIdx := lenZ buffer in
  buffer <- append buffer (syslogExtraEnd bk) ;;
  buffer <- append buffer [ascii_of_nat 10] ;;
  ret (BufferWithIdx buffer headerIdx contentIdx).

(** [sendMessage]; the argument [container] is not used by the function.
    The channels and the timer it acts on are returned in the backend. *)
Definition sendMessage (bk : syslogBackend) (parts : rawLogParts)
  (appName processName container : bytes) : M syslogBackend :=
  let lenSyslogs := length (msgChans bk) in
  if (lenSyslogs =? 0)%nat then ret bk
  else
    m <- render bk parts appName processName ;;
    r <- fanOut lenSyslogs 0 (msgChans bk) (buffer m) (headerIdx m)
                (contentIdx m) (nextNotify bk) ;;
    ret (SyslogBackend (syslogLocation bk) (syslogExtraStart bk)
                       (syslogExtraEnd bk) (fst r) (snd r)).

(** ** The forwarder: connect, writePart, splitParts, process *)

(** [fmt.Errorf("... %q: %s", f.url, err)] *)
Definition connectError (u : URL) (cause : bytes) : bytes :=
  b "[log forwarder] unable to connect to " ++ quote (urlString u) ++
  b ": " ++ cause.

Definition shortWriteError (conn : netConn) : bytes :=
  b "[log forwarder] short write trying to write log to " ++
  quote (remoteAddr conn).

Definition net_DialTimeout (scheme host_ : bytes) (timeout : Z)
  : M (netConn + bytes) :=
  fun w =>
    let r := dialRes (env w) (length (trace w)) scheme host_ in
    Val r (emit (EvDial scheme host_ timeout
                        (match r with inl _ => None | inr e => Some e end)) w).

Definition conn_SetWriteDeadline (conn : netConn) (t : Z) : M error :=
  fun w =>
    Val (deadlineErr (env w) (length (trace w)))
        (emit (EvSetWriteDeadline (connId conn) t) w).

Definition conn_Write (conn : netConn) (buf : slice) : M (Z * error) :=
  fun w =>
    let data := read w buf in
    let r := writeRes (env w) (length (trace w)) data in
    Val r (emit (EvWrite (connId conn) data (fst r) (snd r)) w).

Definition conn_Close (conn : netConn) : M unit :=
  modify (emit (EvClose (connId conn))).

(** [newBufferedConn(conn, period)], declared in a file of package [log]
    that is not given: the same connection behind a buffer that is flushed
    every [period]. *)
Definition newBufferedConn (conn : netConn) (period : Z) : netConn :=
  mkConn (connId conn) (remoteAddr conn) (Some period).

Section Dialing.

(** [forwardConnDialTimeout], declared in a file of package [log] that is
    not given. *)
Variable forwardConnDialTimeout : Z.

(** [connect] returns the connection or the error, and the forwarder as the
    call leaves it. *)
Definition connect (f : syslogForwarder)
  : M ((netConn + bytes) * syslogForwarder) :=
  r <- net_DialTimeout (Scheme (url f)) (Host (url f))
                       forwardConnDialTimeout ;;
  match r with
  | inr err => ret (inr (connectError (url f) err), f)
  | inl conn =>
      if bytes_eqb (Scheme (url f)) (b "tcp") then
        ret (inl (newBufferedConn conn second), f)
      else
        ret (inl conn,
             SyslogForwarder (url f) (mtu f) (GoInt.sub (mtu f) udpHeaderSz))
  end.

(** Modelled from the spec: [processMessages] is declared in a file of
    package [log] that is not given.  Its part at start-up follows the
    specification: "For each downstream URL, one goroutine-equivalent
    worker ... Dials with a bounded connect timeout" (4.5), over a "per-sink
    channel of configurable capacity" (4.4), and "Start performs all dials
    and binds; any failure aborts start-up and surfaces the first error
    unchanged" (4.7).  The worker it starts applies [process] to each message
    it receives from the channel. *)
Definition processMessages (f : syslogForwarder) (bufferSize : Z)
  : M (chan + bytes) :=
  r <- connect f ;;
  match fst r with
  | inr err => ret (inr err)
  | inl _ => ret (inl (Chan (Z.to_nat bufferSize) [] false))
  end.

(** The verb [%s] applied to an [error] that may be nil. *)
Definition show_error (e : error) : bytes :=
  match e with
  | Some m => m
  | None => b "%!s(<nil>)"
  end.

(** The loop [for _, addr := range forwardAddresses] of [initialize]. *)
Fixpoint initSinks (h : host) (mtu_ bufferSize : Z) (addrs : list bytes)
  (bk : syslogBackend) : M (syslogBackend * error) :=
  match addrs with
  | [] => ret (bk, None)
  | addr :: rest =>
      match urlParse h addr with
      | inr err =>
          ret (bk, Some (b "unable to parse " ++ quote addr ++ b ": " ++ err))
      | inl forwardUrl =>
          r <- processMessages (SyslogForwarder forwardUrl mtu_ 0)
                               bufferSize ;;
          match r with
          | inr err => ret (bk, Some err)
          | inl forwardChan =>
              initSinks h mtu_ bufferSize rest
                (SyslogBackend (syslogLocation bk) (syslogExtraStart bk)
                               (syslogExtraEnd bk)
                               (msgChans bk ++ [forwardChan]) (nextNotify bk))
          end
      end
  end.

(** The MTU [initialize] settles on, with the warning it logs. *)
Definition chooseMTU (h : host) : M Z :=
  let mtu_ := udpMessageDefaultMTU in
  mtuInterface <-
    StringEnvOrDefault h (b "eth0") [b "LOG_SYSLOG_MTU_NETWORK_INTERFACE"] ;;
  if negb (is_nil mtuInterface) then
    let warn (err : error) :=
      bslog_Warnf (b "unable to read mtu from interface, using default " ++
                   decimal mtu_ ++ b ": " ++ show_error err) in
    match interfaceMTU h mtuInterface with
    | inl ifaceMTU =>
        if 0 <? ifaceMTU then ret ifaceMTU else warn None ;;; ret mtu_
    | inr err => warn (Some err) ;;; ret mtu_
    end
  else ret mtu_.

(** [initialize] returns the backend as the call leaves it, and the error. *)
Definition initialize (h : host) (bk : syslogBackend)
  : M (syslogBackend * error) :=
  extra <- StringEnvOrDefault h [] [b "LOG_SYSLOG_MESSAGE_EXTRA_START"] ;;
  let extraStart :=
    if negb (is_nil extra) then expandEnv h extra ++ b " "
    else syslogExtraStart bk in
  extra <- StringEnvOrDefault h [] [b "LOG_SYSLOG_MESSAGE_EXTRA_END"] ;;
  let extraEnd :=
    if negb (is_nil extra) then b " " ++ expandEnv h extra
    else syslogExtraEnd bk in
  bufferSize <-
    IntEnvOrDefault h DefaultBufferSize
                    [b "LOG_SYSLOG_BUFFER_SIZE"; b "LOG_BUFFER_SIZE"] ;;
  let forwardAddresses := forwardAddressList h in
  if (length forwardAddresses =? 0)%nat then
    ret (SyslogBackend (syslogLocation bk) extraStart extraEnd (msgChans bk)
                       (nextNotify bk), None)
  else
    syslogTimezone <-
      StringEnvOrDefault h [] [b "LOG_SYSLOG_TIMEZONE"; b "SYSLOG_TIMEZONE"] ;;
    location <-
      (if negb (is_nil syslogTimezone) then
         match loadLocation h syslogTimezone with
         | inl tz => ret tz
         | inr err =>
             bslog_Warnf (b "unable to parse syslog timezone format: " ++
                          err) ;;;
             ret (timeLocal h)
         end
       else ret (timeLocal h)) ;;
    mtu_ <- chooseMTU h ;;
    modify (set_pool []) ;;;
    notify <- time_NewTimer 0 ;;
    initSinks h mtu_ bufferSize forwardAddresses
      (SyslogBackend (Some location) extraStart extraEnd (msgChans bk)
                     (Some notify)).

End Dialing.

Definition writePart (conn : netConn) (buf : slice) : M error :=
  t <- time_Now ;;
  err <- conn_SetWriteDeadline conn (t + forwardConnWriteTimeout) ;;
  match err with
  | Some e => ret (Some e)
  | None =>
      let lenMsg := lenZ buf in
      r <- conn_Write conn buf ;;
      match snd r with
      | Some e => ret (Some e)
      | None =>
          if fst r <? lenMsg then ret (Some (shortWriteError conn))
          else ret None
      end
  end.

(** The [for contentSz > availableSz] loop of [splitParts] and the code
    after it.  Each iteration consumes one unit of [fuel]. *)
Fixpoint splitLoop (fuel : nat) (conn : netConn) (availableSz : Z)
  (headerBuf trailerBuf contentBuf : slice) : M error :=
  let contentSz := lenZ contentBuf in
  if availableSz <? contentSz then
    match fuel with
    | O => fun w => OutOfFuel w
    | S fuel' =>
        got <- pool_Get ;;
        buffer <- slicing (slice_to got 0) ;;
        buffer <- append_slice buffer headerBuf ;;
        chunk <- slicing (slice_to contentBuf availableSz) ;;
        buffer <- append_slice buffer chunk ;;
        buffer <- append_slice buffer trailerBuf ;;
        err <- writePart conn buffer ;;
        pool_Put buffer ;;;
        match err with
        | Some e => ret (Some e)
        | None =>
            contentBuf' <- slicing (slice_from contentBuf availableSz) ;;
            splitLoop fuel' conn availableSz headerBuf trailerBuf contentBuf'
        end
    end
  else if 0 <? contentSz then
    let buffer := headerBuf in
    buffer <- append_slice buffer contentBuf ;;
    buffer <- append_slice buffer trailerBuf ;;
    writePart conn buffer
  else ret None.

Definition splitParts (fuel : nat) (f : syslogForwarder) (conn : netConn)
  (bufIdx : bufferWithIdx) : M error :=
  let fullLen := lenZ (buffer bufIdx) in
  if (messageLimit f <=? 0) || (fullLen <=? messageLimit f) then
    writePart conn (buffer bufIdx)
  else
    headerBuf <- slicing (slice_to (buffer bufIdx) (headerIdx bufIdx)) ;;
    trailerBuf <- slicing (slice_from (buffer bufIdx) (contentIdx bufIdx)) ;;
    contentBuf <- slicing (slice_range (buffer bufIdx) (headerIdx bufIdx)
                                       (contentIdx bufIdx)) ;;
    let availableSz :=
      GoInt.sub (messageLimit f)
                (GoInt.add (lenZ headerBuf) (lenZ trailerBuf)) in
    splitLoop fuel conn availableSz headerBuf trailerBuf contentBuf.

Definition process (fuel : nat) (f : syslogForwarder) (conn : netConn)
  (msg : bufferWithIdx) : M error :=
  let bufIdx := msg in
  err <- splitParts fuel f conn bufIdx ;;
  pool_Put (buffer bufIdx) ;;;
  ret err.

(** [close]: the deadline is reset to the zero time, then the connection is
    closed. *)
Definition close (conn : netConn) : M unit :=
  modify (emit (EvClearWriteDeadline (connId conn))) ;;;
  conn_Close conn.

(** * The components known through the specification and the tests *)

(** ** The lenient syslog parser *)

(** Modelled from the spec: the lenient parser ([LenientParser], its
    [Parse] and [Dump]) is declared in a file of package [log] that is not
    given; only its test is.  The model follows section 4.2: three shapes
    tried in order, (a) BSD with an ISO-8601 timestamp, (b) classic BSD,
    (c) RFC 5424; a record is always returned; the fields a shape does not
    have stay empty; [facility = PRI / 8], [severity = PRI % 8]; a tag
    [docker/<id>] gives the container id.  As in the test, shape (b) does
    not report the process id.  [year] is the current year, which shape (b)
    does not carry. *)
Record logParts : Type := mkLogParts {
  lpPriority : Z;
  lpFacility : Z;
  lpSeverity : Z;
  lpTimestamp : option Instant;
  lpHostname : bytes;
  lpTag : bytes;
  lpProcId : bytes;
  lpContent : bytes;
  lpRawmsg : bytes;
  lpContainerId : bytes
}.

Inductive shape : Type := ShapeISO | ShapeBSD | ShapeNumbered.

Definition obind {A B : Type} (o : option A) (k : A -> option B) : option B :=
  match o with
  | Some a => k a
  | None => None
  end.

Notation "x <-? c ;; k" := (obind c (fun x => k))
  (at level 61, c at next level, right associativity) : go_scope.

(** The longest prefix of bytes that satisfy [p], and the rest. *)
Fixpoint span (p : ascii -> bool) (l : bytes) : bytes * bytes :=
  match l with
  | c :: l' =>
      if p c then let (taken, rest) := span p l' in (c :: taken, rest)
      else ([], l)
  | [] => ([], [])
  end.

Definition expect (c : ascii) (l : bytes) : option bytes :=
  match l with
  | x :: rest => if Ascii.eqb x c then Some rest else None
  | [] => None
  end.

(** Exactly [n] decimal digits. *)
Fixpoint number (n : nat) (acc : Z) (l : bytes) : option (Z * bytes) :=
  match n with
  | O => Some (acc, l)
  | S n' =>
      match l with
      | c :: rest =>
          if is_digit c
          then number n' (acc * 10 + (Z.of_nat (nat_of_ascii c) - 48)) rest
          else None
      | [] => None
      end
  end.

Definition not_byte (c : ascii) : ascii -> bool :=
  fun x => negb (Ascii.eqb x c).

(** A non-empty run of bytes up to the next space. *)
Definition word (l : bytes) : option (bytes * bytes) :=
  let (taken, rest) := span (not_byte " ") l in
  if is_nil taken then None else Some (taken, rest).

(** [<PRI>]: one to three digits between angle brackets. *)
Definition parsePriority (l : bytes) : option (Z * bytes) :=
  l1 <-? expect "<" l ;;
  let (ds, l2) := span is_digit l1 in
  if (1 <=? length ds)%nat && (length ds <=? 3)%nat then
    v <-? digits_value 0 ds ;;
    l3 <-? expect ">" l2 ;;
    Some (v, l3)
  else None.

(** Day number, counted from 1970-01-01, of a civil date. *)
Definition daysFromCivil (y m d : Z) : Z :=
  let y' := if m <=? 2 then y - 1 else y in
  let era := y' / 400 in
  let yoe := y' - era * 400 in
  let mp := (m + 9) mod 12 in
  let doy := (153 * mp + 2) / 5 + d - 1 in
  let doe := yoe * 365 + yoe / 4 - yoe / 100 + doy in
  era * 146097 + doe - 719468.

Definition instantOf (y mo d hh mi ss ns : Z) : option Instant :=
  if (1 <=? mo) && (mo <=? 12) && (1 <=? d) && (d <=? 31) &&
     (hh <? 24) && (mi <? 60) && (ss <? 60)
  then Some (mkInstant (daysFromCivil y mo d * 86400 + hh * 3600 + mi * 60
                        + ss) ns)
  else None.

(** [hh:mm:ss] *)
Definition parseClock (l : bytes) : option (Z * Z * Z * bytes) :=
  r1 <-? number 2 0 l ;;
  l1 <-? expect ":" (snd r1) ;;
  r2 <-? number 2 0 l1 ;;
  l2 <-? expect ":" (snd r2) ;;
  r3 <-? number 2 0 l2 ;;
  Some (fst r1, fst r2, fst r3, snd r3).

(** [.d+]: up to nine digits of a fraction of a second, in nanoseconds. *)
Definition parseFraction (l : bytes) : Z * bytes :=
  match l with
  | "."%char :: l1 =>
      let (ds, l2) := span is_digit l1 in
      if (1 <=? length ds)%nat && (length ds <=? 9)%nat then
        match digits_value 0 ds with
        | Some v => (v * 10 ^ Z.of_nat (9 - length ds), l2)
        | None => (0, l)
        end
      else (0, l)
  | _ => (0, l)
  end.

(** [YYYY-MM-DDThh:mm:ss] with, for shape (c), a fraction, and [Z]. *)
Definition parseISO (fraction : bool) (l : bytes) : option (Instant * bytes) :=
  ry <-? number 4 0 l ;;
  l1 <-? expect "-" (snd ry) ;;
  rm <-? number 2 0 l1 ;;
  l2 <-? expect "-" (snd rm) ;;
  rd <-? number 2 0 l2 ;;
  l3 <-? expect "T" (snd rd) ;;
  rc <-? parseClock l3 ;;
  let '(hh, mi, ss, l4) := rc in
  let (ns, l5) := if fraction then parseFraction l4 else (0, l4) in
  l6 <-? expect "Z" l5 ;;
  t <-? instantOf (fst ry) (fst rm) (fst rd) hh mi ss ns ;;
  Some (t, l6).

Fixpoint index_of (x : bytes) (l : list bytes) (i : Z) : option Z :=
  match l with
  | [] => None
  | y :: rest => if bytes_eqb x y then Some i else index_of x rest (i + 1)
  end.

(** [Mon dd hh:mm:ss], the day padded with a space or a zero. *)
Definition parseStamp (year : Z) (l : bytes) : option (Instant * bytes) :=
  mo <-? index_of (firstn 3 l) monthNames 1 ;;
  l1 <-? expect " " (skipn 3 l) ;;
  rd <-? match l1 with
         | " "%char :: r => number 1 0 r
         | _ => number 2 0 l1
         end ;;
  l2 <-? expect " " (snd rd) ;;
  rc <-? parseClock l2 ;;
  let '(hh, mi, ss, l3) := rc in
  t <-? instantOf year mo (fst rd) hh mi ss 0 ;;
  Some (t, l3).

(** [ host tag[pid]: content] *)
Definition parseHostTag (l : bytes)
  : option (bytes * bytes * bytes * bytes) :=
  l1 <-? expect " " l ;;
  rh <-? word l1 ;;
  l2 <-? expect " " (snd rh) ;;
  let (tag, l3) :=
    span (fun c => not_byte "[" c && not_byte ":" c && not_byte " " c) l2 in
  rp <-? match l3 with
         | "["%char :: r =>
             let (pid, r') := span (not_byte "]") r in
             r'' <-? expect "]" r' ;;
             Some (pid, r'')
         | _ => Some ([], l3)
         end ;;
  l4 <-? expect ":" (snd rp) ;;
  let body := match l4 with " "%char :: r => r | _ => l4 end in
  Some (fst rh, tag, fst rp, body).

(** Structured data of shape (c): [-], or bracketed elements. *)
Fixpoint parseElements (fuel : nat) (l : bytes) : option bytes :=
  match fuel with
  | O => None
  | S fuel' =>
      match l with
      | "["%char :: r =>
          let (_, r') := span (not_byte "]") r in
          r'' <-? expect "]" r' ;;
          match r'' with
          | "["%char :: _ => parseElements fuel' r''
          | _ => Some r''
          end
      | _ => None
      end
  end.

Definition parseStructuredData (l : bytes) : option bytes :=
  match l with
  | "-"%char :: r => Some r
  | _ => parseElements (length l) l
  end.

(** [1 timestamp host app pid msgid sd content] *)
Definition parseNumbered (l : bytes)
  : option (Instant * bytes * bytes * bytes * bytes) :=
  l1 <-? expect "1" l ;;
  l2 <-? expect " " l1 ;;
  rt <-? parseISO true l2 ;;
  l3 <-? expect " " (snd rt) ;;
  rh <-? word l3 ;;
  l4 <-? expect " " (snd rh) ;;
  ra <-? word l4 ;;
  l5 <-? expect " " (snd ra) ;;
  rp <-? word l5 ;;
  l6 <-? expect " " (snd rp) ;;
  ri <-? word l6 ;;
  l7 <-? expect " " (snd ri) ;;
  l8 <-? parseStructuredData l7 ;;
  let body := match l8 with " "%char :: r => r | _ => l8 end in
  Some (fst rt, fst rh, fst ra, fst rp, body).

(** The short container id of a tag [docker/<id>]. *)
Definition containerOfTag (tag : bytes) : bytes :=
  let (prefix, rest) := span (not_byte "/") tag in
  match rest with
  | "/"%char :: id => if bytes_eqb prefix (b "docker") then id else []
  | _ => []
  end.

Definition recordOf (line : bytes) (pri : Z) (t : option Instant)
  (hostname tag procId content_ : bytes) : logParts :=
  mkLogParts pri (pri / 8) (pri mod 8) t hostname tag procId content_ line
             (containerOfTag tag).

(** Modelled from the spec: the shapes are tried in the order (a), (b),
    (c) of section 4.2; the result is the shape that matches and the
    record.  Without a match only the priority, when there is one, and the
    raw line are kept. *)
Definition parseShapes (year : Z) (line : bytes) : option shape * logParts :=
  match parsePriority line with
  | None => (None, recordOf line 0 None [] [] [] [])
  | Some (pri, rest) =>
      match (rt <-? parseISO false rest ;;
             rh <-? parseHostTag (snd rt) ;;
             Some (fst rt, rh)) with
      | Some (t, (hostname, tag, pid, body)) =>
          (Some ShapeISO, recordOf line pri (Some t) hostname tag pid body)
      | None =>
          match (rt <-? parseStamp year rest ;;
                 rh <-? parseHostTag (snd rt) ;;
                 Some (fst rt, rh)) with
          | Some (t, (hostname, tag, _, body)) =>
              (Some ShapeBSD, recordOf line pri (Some t) hostname tag [] body)
          | None =>
              match parseNumbered rest with
              | Some (t, hostname, app, pid, body) =>
                  (Some ShapeNumbered,
                   recordOf line pri (Some t) hostname app pid body)
              | None => (None, recordOf line pri None [] [] [] [])
              end
          end
      end
  end.

(** Modelled from the spec: [Parse] followed by [Dump], that is the record
    and the error, which is nil for every line. *)
Definition Parse (year : Z) (line : bytes) : logParts * error :=
  (snd (parseShapes year line), None).

(** ** The websocket sink *)

(** Modelled from the spec: the websocket forwarder is declared in a file of
    package [log] that is not given; only its tests are.  The model follows
    sections 3, 4.6, 6 and 7.  An enriched record is the parsed record with
    the identity the resolver found for its container. *)
Record enrichedRecord : Type := mkEnriched {
  erTimestamp : Instant;
  erContent : bytes;
  erAppName : bytes;
  erProcessName : bytes;
  erFullContainerId : bytes
}.

(** *** JSON text *)

(** One byte of a string as [encoding/json] writes it: the quote and the
    backslash behind a backslash, [\n], [\r] and [\t] by their letters, the
    other control bytes and the three bytes that matter to HTML as
    [\u00XX].  Bytes above 0x7f are taken to belong to well-formed UTF-8
    text, which is copied. *)
Definition json_escape_byte (c : ascii) : bytes :=
  let n := nat_of_ascii c in
  if (n =? 34)%nat then [backslash; dquote]
  else if (n =? 92)%nat then [backslash; backslash]
  else if (n =? 10)%nat then [backslash; "n"%char]
  else if (n =? 13)%nat then [backslash; "r"%char]
  else if (n =? 9)%nat then [backslash; "t"%char]
  else if (n <? 32)%nat || (n =? 60)%nat || (n =? 62)%nat || (n =? 38)%nat then
    [backslash; "u"%char; "0"%char; "0"%char;
     hex_digit (n / 16); hex_digit (n mod 16)]
  else [c].

Definition json_string (s : bytes) : bytes :=
  [dquote] ++ flat_map json_escape_byte s ++ [dquote].

Definition json_member (kv : bytes * bytes) : bytes :=
  json_string (fst kv) ++ b ":" ++ json_string (snd kv).

(** An object whose values are all strings, members in the given order. *)
Definition json_object (members : list (bytes * bytes)) : bytes :=
  b "{" ++ join (b ",") (map json_member members) ++ b "}".

(** Reading it back.  [hex_value] is the value of one hexadecimal digit. *)
Definition hex_value (c : ascii) : option nat :=
  let n := nat_of_ascii c in
  if (48 <=? n)%nat && (n <=? 57)%nat then Some (n - 48)%nat
  else if (97 <=? n)%nat && (n <=? 102)%nat then Some (n - 87)%nat
  else if (65 <=? n)%nat && (n <=? 70)%nat then Some (n - 55)%nat
  else None.

(** The byte a one-letter escape stands for. *)
Definition json_escape_letter (c : ascii) : option ascii :=
  let n := nat_of_ascii c in
  if (n =? 34)%nat || (n =? 92)%nat || (n =? 47)%nat then Some c
  else if (n =? 98)%nat then Some (ascii_of_nat 8)
  else if (n =? 102)%nat then Some (ascii_of_nat 12)
  else if (n =? 110)%nat then Some (ascii_of_nat 10)
  else if (n =? 114)%nat then Some (ascii_of_nat 13)
  else if (n =? 116)%nat then Some (ascii_of_nat 9)
  else None.

(** The contents of a string up to its closing quote, escapes undone, and
    what follows the quote.  A raw control byte is not JSON; a [\u] escape
    above 0x7f is outside what the forwarder writes and is refused. *)
Fixpoint json_unquote (l : bytes) : option (bytes * bytes) :=
  match l with
  | [] => None
  | c :: t =>
      if Ascii.eqb c dquote then Some ([], t)
      else if Ascii.eqb c backslash then
        match t with
        | [] => None
        | e :: t1 =>
            if Ascii.eqb e "u" then
              match t1 with
              | h1 :: h2 :: h3 :: h4 :: t2 =>
                  match hex_value h1, hex_value h2, hex_value h3, hex_value h4 with
                  | Some O, Some O, Some x, Some y =>
                      if (x <? 8)%nat then
                        match json_unquote t2 with
                        | Some (s, rest) => Some (ascii_of_nat (16 * x + y) :: s, rest)
                        | None => None
                        end
                      else None
                  | _, _, _, _ => None
                  end
              | _ => None
              end
            else
              match json_escape_letter e with
              | Some x =>
                  match json_unquote t1 with
                  | Some (s, rest) => Some (x :: s, rest)
                  | None => None
                  end
              | None => None
              end
        end
      else if (nat_of_ascii c <? 32)%nat then None
      else
        match json_unquote t with
        | Some (s, rest) => Some (c :: s, rest)
        | None => None
        end
  end.

Definition json_string_at (l : bytes) : option (bytes * bytes) :=
  l1 <-? expect dquote l ;; json_unquote l1.

(** The members that follow an opening brace or a comma, up to the closing
    brace. *)
Fixpoint json_members (fuel : nat) (l : bytes)
  : option (list (bytes * bytes) * bytes) :=
  match fuel with
  | O => None
  | S fuel' =>
      k <-? json_string_at l ;;
      l1 <-? expect ":" (snd k) ;;
      v <-? json_string_at l1 ;;
      match snd v with
      | c :: l2 =>
          if Ascii.eqb c "," then
            ms <-? json_members fuel' l2 ;;
            Some ((fst k, fst v) :: fst ms, snd ms)
          else if Ascii.eqb c "}" then Some ([(fst k, fst v)], l2)
          else None
      | [] => None
      end
  end.

(** The members of an object of strings that makes up the whole text. *)
Definition json_decode (l : bytes) : option (list (bytes * bytes)) :=
  l1 <-? expect "{" l ;;
  ms <-? json_members (length l1) l1 ;;
  if is_nil (snd ms) then Some (fst ms) else None.

(** [strings.Split] on one byte. *)
Fixpoint splitOn (sep : ascii) (l : bytes) : list bytes :=
  match l with
  | [] => [[]]
  | c :: l' =>
      if Ascii.eqb c sep then [] :: splitOn sep l'
      else
        match splitOn sep l' with
        | first :: others => (c :: first) :: others
        | [] => [[c]]
        end
  end.

(** *** What goes on the wire *)

(** Modelled from the spec: the five members of the object sent for a
    record, in the order of the wire format (sections 4.6 and 6); the
    instant is written as RFC 3339 in UTC. *)
Definition wsMembers (r : enrichedRecord) : list (bytes * bytes) :=
  [ (b "Date", formatRFC3339UTC (erTimestamp r));
    (b "Message", erContent r);
    (b "Source", erProcessName r);
    (b "AppName", erAppName r);
    (b "Unit", erFullContainerId r) ].

Definition wsObject (r : enrichedRecord) : bytes := json_object (wsMembers r).

(** Modelled from the spec: one object per line, a newline after each. *)
Definition wsLine (r : enrichedRecord) : bytes := wsObject r ++ [ascii_of_nat 10].

(** *** [time.Duration] as text *)

(** [v] on [prec] digits behind a dot, trailing zeros dropped; nothing
    when [v] is zero. *)
Definition fmtFrac (v : Z) (prec : nat) : bytes :=
  let ds := decimal v in
  let padded := repeat "0"%char (prec - length ds) ++ ds in
  match rev (trim_zeros_rev (rev padded)) with
  | [] => []
  | l => "."%char :: l
  end.

(** [Duration.String] of a number of nanoseconds. *)
Definition durationMagnitude (u : Z) : bytes :=
  if u =? 0 then b "0s"
  else if u <? 1000 then decimal u ++ b "ns"
  else if u <? 1000000 then
    decimal (u / 1000) ++ fmtFrac (u mod 1000) 3 ++
    [ascii_of_nat 194; ascii_of_nat 181; "s"%char]
  else if u <? second then
    decimal (u / 1000000) ++ fmtFrac (u mod 1000000) 6 ++ b "ms"
  else
    let s := u / second in
    let secs := decimal (s mod 60) ++ fmtFrac (u mod second) 9 ++ b "s" in
    let m := s / 60 in
    if m =? 0 then secs
    else if m / 60 =? 0 then decimal m ++ b "m" ++ secs
    else decimal (m / 60) ++ b "h" ++ decimal (m mod 60) ++ b "m" ++ secs.

Definition durationString (d : Z) : bytes :=
  if d <? 0 then "-"%char :: durationMagnitude (- d) else durationMagnitude d.

(** *** The session *)

(** Where the forwarder connects, with which token, and how often it pings
    (nanoseconds; [DefaultWsPingInterval] seconds unless configured). *)
Record wsConfig : Type := mkWsConfig {
  wsURL : bytes;
  wsToken : bytes;
  wsPingInterval : Z
}.

Inductive wsPhase : Type := Disconnected | Dialing | Connected | Closing.

(** What happens to the forwarder: the heartbeat interval elapses, a pong
    frame arrives, a record arrives on the channel, the pending dial ends,
    a send on the session fails, the supervisor stops the forwarder. *)
Inductive wsEvent : Type :=
| WsTick
| WsPong (payload : bytes)
| WsRecord (r : enrichedRecord)
| WsDialResult (err : error)
| WsSendError (cause : bytes)
| WsStop.

(** What the forwarder does: it enters a phase, dials with a request
    header, sends a text or a ping frame, closes the session, logs. *)
Inductive wsAction : Type :=
| WsEnter (p : wsPhase)
| WsDial (url : bytes) (header : list (bytes * bytes))
| WsText (data : bytes)
| WsPing (payload : bytes)
| WsClose
| WsLog (level : logLevel) (line : bytes).

(** [wsAwaiting] is the payload of the ping that has not been answered;
    [wsPings] counts the pings sent, [wsDone] lists what the forwarder did,
    oldest first. *)
Record wsForwarder : Type := mkWs {
  wsPhaseOf : wsPhase;
  wsAwaiting : option bytes;
  wsPings : nat;
  wsStopped : bool;
  wsDone : list wsAction
}.

Definition wsIdle : wsForwarder := mkWs Disconnected None 0 false [].

Definition wsHeader (cfg : wsConfig) : list (bytes * bytes) :=
  [(b "Authorization", b "bearer " ++ wsToken cfg)].

(** The payload of the [n]-th ping: opaque to the peer, which echoes it. *)
Definition pingPayload (n : nat) : bytes := decimal (Z.of_nat n).

Definition noPongLine (cfg : wsConfig) : bytes :=
  b "no pong response in " ++ durationString (wsPingInterval cfg).

(** The line logged for a dial that failed after start. *)
Definition wsDialError (cfg : wsConfig) (cause : bytes) : bytes :=
  b "[log forwarder] unable to connect to " ++ quote (wsURL cfg) ++ b ": " ++
  cause.

Definition wsDo (acts : list wsAction) (p : wsPhase) (awaiting : option bytes)
    (f : wsForwarder) : wsForwarder :=
  mkWs p awaiting (wsPings f) (wsStopped f) (wsDone f ++ acts).

(** The dial, with the same settings every time. *)
Definition wsDialActions (cfg : wsConfig) : list wsAction :=
  [WsEnter Dialing; WsDial (wsURL cfg) (wsHeader cfg)].

(** The forwarder starts by dialling. *)
Definition wsStart (cfg : wsConfig) : wsForwarder :=
  wsDo (wsDialActions cfg) Dialing None wsIdle.

(** Close and reconnect: [Connected -> Closing -> Disconnected -> Dialing]. *)
Definition wsReconnect (cfg : wsConfig) : list wsAction :=
  [WsEnter Closing; WsClose; WsEnter Disconnected] ++ wsDialActions cfg.

(** Modelled from the spec: the heartbeat of section 4.6.  A tick in a
    session sends a ping when none is outstanding; when the pong of the
    ping before has not arrived, the session is declared dead: one line is
    logged at error level, the session is closed and dialled again.  A tick
    of a disconnected forwarder makes it dial. *)
Definition wsTick (cfg : wsConfig) (f : wsForwarder) : wsForwarder :=
  match wsPhaseOf f with
  | Disconnected => wsDo (wsDialActions cfg) Dialing None f
  | Connected =>
      match wsAwaiting f with
      | Some _ =>
          wsDo (WsLog LevelError (noPongLine cfg) :: wsReconnect cfg)
               Dialing None f
      | None =>
          let payload := pingPayload (wsPings f) in
          mkWs Connected (Some payload) (S (wsPings f)) (wsStopped f)
               (wsDone f ++ [WsPing payload])
      end
  | Dialing | Closing => f
  end.

(** Modelled from the spec: a pong answers the outstanding ping when it
    carries the same payload. *)
Definition wsPongArrived (payload : bytes) (f : wsForwarder) : wsForwarder :=
  match wsPhaseOf f, wsAwaiting f with
  | Connected, Some expected =>
      if bytes_eqb expected payload then wsDo [] Connected None f else f
  | _, _ => f
  end.

(** Modelled from the spec: a record is sent as one text frame.  A record
    that arrives while there is no session is lost; when the forwarder is
    disconnected it makes it dial again (section 7). *)
Definition wsSend (cfg : wsConfig) (r : enrichedRecord) (f : wsForwarder)
  : wsForwarder :=
  match wsPhaseOf f with
  | Connected => wsDo [WsText (wsLine r)] Connected (wsAwaiting f) f
  | Disconnected => wsDo (wsDialActions cfg) Dialing None f
  | Dialing | Closing => f
  end.

(** The transition to [Connected] starts the heartbeat: no ping is
    outstanding. *)
Definition wsDialed (cfg : wsConfig) (err : error) (f : wsForwarder)
  : wsForwarder :=
  match wsPhaseOf f with
  | Dialing =>
      match err with
      | None => wsDo [WsEnter Connected] Connected None f
      | Some e =>
          wsDo [WsLog LevelError (wsDialError cfg e); WsEnter Disconnected]
               Disconnected None f
      end
  | _ => f
  end.

Definition wsSendFailed (cfg : wsConfig) (f : wsForwarder) : wsForwarder :=
  match wsPhaseOf f with
  | Connected => wsDo (wsReconnect cfg) Dialing None f
  | _ => f
  end.

(** After the supervisor's stop the forwarder is disconnected for good. *)
Definition wsStopNow (f : wsForwarder) : wsForwarder :=
  let acts :=
    match wsPhaseOf f with
    | Connected => [WsEnter Closing; WsClose; WsEnter Disconnected]
    | Dialing | Closing => [WsEnter Closing; WsEnter Disconnected]
    | Disconnected => []
    end in
  mkWs Disconnected None (wsPings f) true (wsDone f ++ acts).

(** Modelled from the spec: the state machine of section 4.6, one event
    at a time; nothing happens after the supervisor's stop. *)
Definition wsStep (cfg : wsConfig) (f : wsForwarder) (e : wsEvent)
  : wsForwarder :=
  if wsStopped f then f
  else
    match e with
    | WsTick => wsTick cfg f
    | WsPong payload => wsPongArrived payload f
    | WsRecord r => wsSend cfg r f
    | WsDialResult err => wsDialed cfg err f
    | WsSendError _ => wsSendFailed cfg f
    | WsStop => wsStopNow f
    end.

Definition wsRun (cfg : wsConfig) (f : wsForwarder) (evs : list wsEvent)
  : wsForwarder :=
  fold_left (wsStep cfg) evs f.

(** * Specification vocabulary *)

(** What [append(s, data...)] guarantees, whichever way it goes. *)
Record appended (s : slice) (data : bytes) (w : world) (s' : slice)
  (w' : world) : Prop := mkAppended {
  ap_len : len s' = (len s + length data)%nat;
  ap_read : read w' s' = read w s ++ data;
  ap_where : (arr s' = arr s /\ off s' = off s /\ cap s' = cap s /\
              next w' = next w) \/
             (arr s' = next w /\ off s' = 0%nat /\ next w' = S (next w));
  ap_frame : forall t, (arr t < next w)%nat ->
             (arr t <> arr s \/ off t + len t <= off s + len s \/
              off s + len s + length data <= off t)%nat ->
             read w' t = read w t;
  ap_cap : (len s' <= cap s')%nat;
  ap_trace : trace w' = trace w;
  ap_pool : pool w' = pool w;
  ap_now : now w' = now w;
  ap_env : env w' = env w
}.

(** Two worlds that differ at most in their trace. *)
Definition same_state (w w' : world) : Prop :=
  cells w' = cells w /\ next w' = next w /\ pool w' = pool w /\
  now w' = now w /\ env w' = env w.

(** The error [writePart] returns and the events it adds, for a buffer that
    holds [data]. *)
Definition writeOutcome (conn : netConn) (w : world) (data : bytes)
  : error * list event :=
  let k := length (trace w) in
  let setDeadline :=
    EvSetWriteDeadline (connId conn) (now w + forwardConnWriteTimeout) in
  match deadlineErr (env w) k with
  | Some e => (Some e, [setDeadline])
  | None =>
      let r := writeRes (env w) (S k) data in
      (match snd r with
       | Some e => Some e
       | None =>
           if fst r <? Z.of_nat (length data)
           then Some (shortWriteError conn) else None
       end,
       [setDeadline; EvWrite (connId conn) data (fst r) (snd r)])
  end.

(** The pooled buffers sit on distinct arrays that have been allocated. *)
Definition pool_ok (w : world) : Prop :=
  NoDup (map arr (pool w)) /\ Forall (fun s => (arr s < next w)%nat) (pool w).

(** Array [a] is allocated and no pooled buffer sits on it: whoever holds a
    slice on [a] is its only owner. *)
Definition owned (a : nat) (w : world) : Prop :=
  (a < next w)%nat /\ ~ In a (map arr (pool w)).

(** The slice [contentBuf[availableSz:]]. *)
Definition advance (cb : slice) (avail : Z) : slice :=
  Slice (arr cb) (off cb + Z.to_nat avail) (Z.to_nat (lenZ cb - avail))
        (cap cb - Z.to_nat avail).

(** The error [writePart] makes of what [conn.Write] reported for [d]. *)
Definition writeResult (conn : netConn) (d : bytes) (n : Z) (e : error)
  : error :=
  match e with
  | Some x => Some x
  | None =>
      if n <? Z.of_nat (length d) then Some (shortWriteError conn) else None
  end.

(** The events of one call of [writePart] on a buffer holding [d], and the
    error it returns. *)
Inductive write_attempt (conn : netConn) (deadline : Z) (d : bytes)
  : list event -> error -> Prop :=
| wa_deadline (e : bytes) :
    write_attempt conn deadline d
      [EvSetWriteDeadline (connId conn) deadline] (Some e)
| wa_write (n : Z) (e : error) :
    write_attempt conn deadline d
      [EvSetWriteDeadline (connId conn) deadline;
       EvWrite (connId conn) d n e]
      (writeResult conn d n e).

Inductive outcome : Type :=
| Returned (e : error)
| Exhausted.

(** The events of the splitting loop, for a header [H], a trailer [T], what
    is left of the content, and chunks of [avail] bytes.  [a] is the array of
    the message: the loop takes from and gives back to the pool buffers on
    other arrays only. *)
Inductive split_run (conn : netConn) (deadline : Z) (a : nat) (H T : bytes)
  (avail : nat) : nat -> bytes -> list event -> outcome -> Prop :=
| run_nothing (fuel : nat) :
    split_run conn deadline a H T avail fuel [] [] (Returned None)
| run_last (fuel : nat) (R : bytes) (evs : list event) (e : error) :
    R <> [] -> (length R <= avail)%nat ->
    write_attempt conn deadline (H ++ R ++ T) evs e ->
    split_run conn deadline a H T avail fuel R evs (Returned e)
| run_exhausted (R : bytes) :
    (avail < length R)%nat ->
    split_run conn deadline a H T avail 0 R [] Exhausted
| run_failed (fuel : nat) (R : bytes) (g p : slice) (evs : list event)
    (e : bytes) :
    (avail < length R)%nat -> arr g <> a -> arr p <> a ->
    write_attempt conn deadline (H ++ firstn avail R ++ T) evs (Some e) ->
    split_run conn deadline a H T avail (S fuel) R
      (EvGet g :: evs ++ [EvPut p]) (Returned (Some e))
| run_more (fuel : nat) (R : bytes) (g p : slice) (evs rest : list event)
    (o : outcome) :
    (avail < length R)%nat -> arr g <> a -> arr p <> a ->
    write_attempt conn deadline (H ++ firstn avail R ++ T) evs None ->
    split_run conn deadline a H T avail fuel (skipn avail R) rest o ->
    split_run conn deadline a H T avail (S fuel) R
      (EvGet g :: evs ++ EvPut p :: rest) o.

(** The payloads handed to [conn.Write], oldest first. *)
Definition datagrams (evs : list event) : list bytes :=
  flat_map (fun e => match e with EvWrite _ d _ _ => [d] | _ => [] end) evs.

(** The content region of a fragment whose header has [hlen] bytes and whose
    trailer has [tlen] bytes. *)
Definition contentRegion (hlen tlen : nat) (d : bytes) : bytes :=
  firstn (length d - hlen - tlen) (skipn hlen d).

(** Every write is directly preceded by the setting of the write deadline
    [deadline] on the same connection. *)
Inductive guarded (deadline : Z) : list event -> Prop :=
| guarded_nil : guarded deadline []
| guarded_write (c : nat) (d : bytes) (n : Z) (e : error)
    (rest : list event) :
    guarded deadline rest ->
    guarded deadline
      (EvSetWriteDeadline c deadline :: EvWrite c d n e :: rest)
| guarded_other (ev : event) (rest : list event) :
    (forall c d n e, ev <> EvWrite c d n e) ->
    guarded deadline rest ->
    guarded deadline (ev :: rest).

(** No pool traffic on array [a]. *)
Definition pool_event_off (a : nat) (e : event) : Prop :=
  match e with
  | EvGet s => arr s <> a
  | EvPut s => arr s <> a
  | _ => True
  end.

(** A message as [sendMessage] builds it: the indexes lie in the buffer in
    this order, and the buffer has the size of a Go slice. *)
Record msg_ok (m : bufferWithIdx) : Prop := mkMsgOk {
  mo_header : 0 <= headerIdx m;
  mo_content : headerIdx m <= contentIdx m;
  mo_len : contentIdx m <= lenZ (buffer m);
  mo_cap : (len (buffer m) <= cap (buffer m))%nat;
  mo_int : Z.of_nat (cap (buffer m)) < 2 ^ 63
}.

(** The three regions of a message. *)
Definition msgHeader (w : world) (m : bufferWithIdx) : bytes :=
  firstn (Z.to_nat (headerIdx m)) (read w (buffer m)).

Definition msgContent (w : world) (m : bufferWithIdx) : bytes :=
  firstn (Z.to_nat (contentIdx m - headerIdx m))
         (skipn (Z.to_nat (headerIdx m)) (read w (buffer m))).

Definition msgTrailer (w : world) (m : bufferWithIdx) : bytes :=
  skipn (Z.to_nat (contentIdx m)) (read w (buffer m)).

(** [availableSz] of [splitParts] for a limit, a header and a trailer. *)
Definition availableFor (limit : Z) (H T : bytes) : Z :=
  limit - (Z.of_nat (length H) + Z.of_nat (length T)).

(** The events of [splitParts]: one write of the whole message on the fast
    path, the splitting loop otherwise. *)
Inductive parts_run (conn : netConn) (deadline : Z) (a : nat) (limit : Z)
  (H C T : bytes) (fuel : nat) : list event -> outcome -> Prop :=
| parts_whole (evs : list event) (e : error) :
    limit <= 0 \/ Z.of_nat (length (H ++ C ++ T)) <= limit ->
    write_attempt conn deadline (H ++ C ++ T) evs e ->
    parts_run conn deadline a limit H C T fuel evs (Returned e)
| parts_split (evs : list event) (o : outcome) :
    0 < limit < Z.of_nat (length (H ++ C ++ T)) ->
    0 <= availableFor limit H T ->
    split_run conn deadline a H T (Z.to_nat (availableFor limit H T)) fuel
              C evs o ->
    parts_run conn deadline a limit H C T fuel evs o.

(** A datagram made of the header, at most [avail] bytes, and the trailer. *)
Definition fragment_of (H T : bytes) (avail : nat) (d : bytes) : Prop :=
  exists chunk, d = H ++ chunk ++ T /\ (length chunk <= avail)%nat.

(** The three slices [splitParts] takes of the buffer of a message. *)
Definition headerBufOf (m : bufferWithIdx) : slice :=
  Slice (arr (buffer m)) (off (buffer m) + Z.to_nat 0)
        (Z.to_nat (headerIdx m - 0)) (cap (buffer m) - Z.to_nat 0).

Definition trailerBufOf (m : bufferWithIdx) : slice :=
  Slice (arr (buffer m)) (off (buffer m) + Z.to_nat (contentIdx m))
        (Z.to_nat (lenZ (buffer m) - contentIdx m))
        (cap (buffer m) - Z.to_nat (contentIdx m)).

Definition contentBufOf (m : bufferWithIdx) : slice :=
  Slice (arr (buffer m)) (off (buffer m) + Z.to_nat (headerIdx m))
        (Z.to_nat (contentIdx m - headerIdx m))
        (cap (buffer m) - Z.to_nat (headerIdx m)).

(** A connection on which every deadline is accepted and every write is
    complete. *)
Definition reliable (o : oracle) : Prop :=
  forall k d, deadlineErr o k = None /\
              writeRes o k d = (Z.of_nat (length d), None).

(** ** The syslog line *)

Definition newline : ascii := ascii_of_nat 10.

(** The short container id: the first [containerIDTrimSize] bytes. *)
Definition shortContainerId (c : bytes) : bytes :=
  firstn (Z.to_nat containerIDTrimSize) c.

(** Everything up to the content: priority, stamp, identity, prefix. *)
Definition syslogHeader (loc : Location) (parts : rawLogParts)
  (appName processName prefix : bytes) : bytes :=
  b "<" ++ priority parts ++ b ">" ++ formatStamp loc (ts parts) ++ b " " ++
  shortContainerId (container parts) ++ b " " ++ appName ++ b "[" ++
  processName ++ b "]: " ++ prefix.

Definition syslogLine (loc : Location) (parts : rawLogParts)
  (appName processName prefix suffix : bytes) : bytes :=
  syslogHeader loc parts appName processName prefix ++ content parts ++
  suffix ++ [newline].

(** What [render] establishes about the message [m] it returns in [w']. *)
Record rendered (bk : syslogBackend) (loc : Location) (parts : rawLogParts)
  (appName processName : bytes) (w : world) (m : bufferWithIdx)
  (w' : world) : Prop := mkRendered {
  rd_line : read w' (buffer m) =
            syslogLine loc parts appName processName (syslogExtraStart bk)
                       (syslogExtraEnd bk);
  rd_header : headerIdx m =
              Z.of_nat (length (syslogHeader loc parts appName processName
                                             (syslogExtraStart bk)));
  rd_content : contentIdx m = headerIdx m + Z.of_nat (length (content parts));
  rd_cap : (len (buffer m) <= cap (buffer m))%nat;
  rd_trace : exists g, trace w' = trace w ++ [EvGet g];
  rd_pool : pool_ok w';
  rd_owned : owned (arr (buffer m)) w';
  rd_now : now w' = now w;
  rd_env : env w' = env w
}.

(** ** Fan-out *)

(** The messages offered to the channels, with the index of the channel and
    whether the send went through. *)
Definition sends (evs : list event) : list (nat * bufferWithIdx * bool) :=
  flat_map (fun e => match e with
                     | EvSend i m ok => [(i, m, ok)]
                     | _ => []
                     end) evs.

(** The buffers of the messages offered to the channels other than the last
    of [N]. *)
Definition copyBuffers (N : nat) (evs : list event) : list slice :=
  flat_map (fun e => match e with
                     | EvSend i m _ =>
                         if (i =? N - 1)%nat then [] else [buffer m]
                     | _ => []
                     end) evs.

(** The buffers taken from the pool. *)
Definition gets (evs : list event) : list slice :=
  flat_map (fun e => match e with EvGet s => [s] | _ => [] end) evs.

(** The buffers given back to the pool. *)
Definition puts (evs : list event) : list slice :=
  flat_map (fun e => match e with EvPut s => [s] | _ => [] end) evs.

(** The buffers [held] sit on distinct arrays, none of them in the pool, and
    each holds [line]. *)
Definition holds (w : world) (line : bytes) (held : list slice) : Prop :=
  NoDup (map arr held) /\
  Forall (fun s => owned (arr s) w /\ read w s = line) held.

Definition dropNotice : bytes :=
  b "Dropping log messages to syslog due to full channel buffer.".

(** The inner [select]: what a drop at time [t] logs and leaves of the
    timer. *)
Definition noticeAt (tm : option timer) (t : Z) : list event * option timer :=
  match tm with
  | Some tmr =>
      if timer_ready tmr t
      then ([EvLog t LevelError dropNotice], Some (Timer (Some (t + minute))))
      else ([], tm)
  | None => ([], None)
  end.

(** The events of the loop of [sendMessage] over the channels from index
    [i], the channels and the timer it leaves; [t] is the time of the call. *)
Inductive fanned (N : nat) (buf : slice) (hIdx cIdx : Z) (t : Z)
  : nat -> list chan -> option timer -> list event -> list chan ->
    option timer -> Prop :=
| fanned_nil (i : nat) (tm : option timer) :
    fanned N buf hIdx cIdx t i [] tm [] [] tm
| fanned_last (i : nat) (ch : chan) (rest : list chan) (tm : option timer)
    (evs : list event) (chs' : list chan) (tm' : option timer) :
    i = (N - 1)%nat ->
    let m := BufferWithIdx buf hIdx cIdx in
    let ok := chan_ready ch in
    let notice := if ok then ([], tm) else noticeAt tm t in
    fanned N buf hIdx cIdx t (S i) rest (snd notice) evs chs' tm' ->
    fanned N buf hIdx cIdx t i (ch :: rest) tm
      (EvSend i m ok :: fst notice ++ evs)
      ((if ok then chan_push m ch else ch) :: chs') tm'
| fanned_copy (i : nat) (ch : chan) (rest : list chan) (tm : option timer)
    (g copy : slice) (evs : list event) (chs' : list chan)
    (tm' : option timer) :
    i <> (N - 1)%nat ->
    let m := BufferWithIdx copy hIdx cIdx in
    let ok := chan_ready ch in
    let notice := if ok then ([], tm) else noticeAt tm t in
    fanned N buf hIdx cIdx t (S i) rest (snd notice) evs chs' tm' ->
    fanned N buf hIdx cIdx t i (ch :: rest) tm
      (EvGet g :: EvSend i m ok :: fst notice ++ evs)
      ((if ok then chan_push m ch else ch) :: chs') tm'.

(** A backend as [initialize] leaves it: with a channel come a location and
    a timer. *)
Definition backend_ok (bk : syslogBackend) : Prop :=
  msgChans bk = [] \/
  (syslogLocation bk <> None /\ nextNotify bk <> None).

(** ** The backend at work *)

(** The lines logged at error level, with the time of each. *)
Definition errorLog (evs : list event) : list (Z * bytes) :=
  flat_map (fun e => match e with
                     | EvLog t LevelError line => [(t, line)]
                     | _ => []
                     end) evs.

(** Any two of the times, in their order, are at least [gap] apart. *)
Definition apart (gap : Z) (times : list Z) : Prop :=
  ForallOrdPairs (fun t1 t2 => t1 + gap <= t2) times.

(** The timer is armed, for a time at least [minute] after every error
    logged so far, and the errors logged so far are a minute apart. *)
Definition notify_inv (tm : option timer) (logged : list (Z * bytes)) : Prop :=
  exists d,
    tm = Some (Timer (Some d)) /\
    Forall (fun t => t + minute <= d) (map fst logged) /\
    apart minute (map fst logged).

(** Some send of [evs] was refused: a message was dropped. *)
Definition dropped (evs : list event) : bool :=
  existsb (fun x => negb (snd x)) (sends evs).

(** The inner [select] at time [t] finds a tick of the timer. *)
Definition due (tm : option timer) (t : Z) : bool :=
  match tm with
  | Some tmr => timer_ready tmr t
  | None => false
  end.

(** At time [t] the timer is due, or it waits for the minute after a drop
    notice that was logged, at [t] or before. *)
Definition reported (tm : option timer) (t : Z) (logged : list (Z * bytes))
  : Prop :=
  exists d,
    tm = Some (Timer (Some d)) /\
    (d <= t \/ (In (d - minute, dropNotice) logged /\ d - minute <= t)).

(** What happens around the backend: a record is handed to [sendMessage],
    time passes, or the worker of a sink receives from its channel (it takes
    the oldest message, or blocks on the empty channel). *)
Inductive action : Type :=
| ActSend (parts : rawLogParts) (appName processName container : bytes)
| ActWait (dt : N)
| ActReceive (i : nat).

Definition chan_receive (c : chan) : chan :=
  match chQueue c with
  | [] => Chan (chCap c) [] true
  | _ :: q => Chan (chCap c) q false
  end.

Fixpoint update_nth {A : Type} (k : nat) (f : A -> A) (l : list A) : list A :=
  match l, k with
  | [], _ => []
  | x :: l', O => f x :: l'
  | x :: l', S k' => x :: update_nth k' f l'
  end.

Definition receive_from (i : nat) (bk : syslogBackend) : syslogBackend :=
  SyslogBackend (syslogLocation bk) (syslogExtraStart bk) (syslogExtraEnd bk)
                (update_nth i chan_receive (msgChans bk)) (nextNotify bk).

Fixpoint run (acts : list action) (bk : syslogBackend) : M syslogBackend :=
  match acts with
  | [] => ret bk
  | ActSend parts appName processName container :: rest =>
      bk' <- sendMessage bk parts appName processName container ;;
      run rest bk'
  | ActWait dt :: rest =>
      modify (fun w => set_now (now w + Z.of_N dt) w) ;;;
      run rest bk
  | ActReceive i :: rest => run rest (receive_from i bk)
  end.

(** The channel after a non-blocking send of some message: the message is
    queued when the channel was ready, and the channel is untouched when it
    was full. *)
Definition offered (ch ch' : chan) : Prop :=
  (chan_ready ch = true /\ exists m, ch' = chan_push m ch) \/
  (chan_ready ch = false /\ ch' = ch).

(** For each error line, the number of dropped sends since the error line
    before it (or since the beginning). *)
Fixpoint dropsPerNotice (count : nat) (evs : list event)
  : list (nat * bytes) :=
  match evs with
  | [] => []
  | EvSend _ _ false :: rest => dropsPerNotice (S count) rest
  | EvLog _ LevelError line :: rest => (count, line) :: dropsPerNotice 0 rest
  | _ :: rest => dropsPerNotice count rest
  end.

(** ** Host configuration read by [initialize] *)

(** The interface whose MTU is read: the value of
    [LOG_SYSLOG_MTU_NETWORK_INTERFACE], or ["eth0"]. *)
Definition configuredInterface (h : host) : bytes :=
  let v := getenv h (b "LOG_SYSLOG_MTU_NETWORK_INTERFACE") in
  if is_nil v then b "eth0" else v.

(** The MTU of that interface when it can be read and is positive, and the
    default otherwise. *)
Definition mtuOf (h : host) : Z :=
  match interfaceMTU h (configuredInterface h) with
  | inl ifaceMTU => if 0 <? ifaceMTU then ifaceMTU else udpMessageDefaultMTU
  | inr _ => udpMessageDefaultMTU
  end.

(** ** Concrete situations *)

(** An environment in which every dial, deadline and write succeeds, and the
    pool hands out its most recent buffer. *)
Definition quietOracle : oracle :=
  Oracle (fun _ => 0%nat) (fun _ => None)
         (fun _ d => (Z.of_nat (length d), None))
         (fun _ _ _ => inl (mkConn 7 (b "10.0.0.9:514") None)).

Definition emptyWorld : world :=
  World (fun _ _ => zero) 0 [] [] 0 quietOracle.

(** A world whose only array, number 0, holds [data]. *)
Definition worldWith (data : bytes) : world :=
  World (store (fun _ _ => zero) 0 0 data) 1 [] [] 0 quietOracle.

(** The message on array 0 with header [H], content [C] and trailer [T]. *)
Definition messageOf (H C T : bytes) : bufferWithIdx :=
  BufferWithIdx
    (Slice 0 0 (length (H ++ C ++ T)) (length (H ++ C ++ T)))
    (Z.of_nat (length H)) (Z.of_nat (length (H ++ C))).

Definition sampleHeader : bytes :=
  b "<30>Jun  5 12:13:47 0123456789ab app[web]: ".

Definition sampleContent : bytes :=
  b "0123456789abcdefghijklmnopqrstuvwxyzABCD".

Definition sampleTrailer : bytes := [newline].

Definition sampleMessage : bufferWithIdx :=
  messageOf sampleHeader sampleContent sampleTrailer.

Definition sampleWorld : world :=
  worldWith (sampleHeader ++ sampleContent ++ sampleTrailer).

Definition sampleConn : netConn := mkConn 7 (b "10.0.0.9:514") None.

Definition sampleURL : URL :=
  mkURL (b "udp") (b "10.0.0.9:514") (b "udp://10.0.0.9:514").

(** A forwarder as [connect] leaves it over UDP on an interface of MTU
    [m]. *)
Definition udpForwarder (m : Z) : syslogForwarder :=
  SyslogForwarder sampleURL m (m - udpHeaderSz).

(** A host without environment variables, whose interface ["eth0"] answers
    [iface], and whose one forward address is the sample URL. *)
Definition sampleHost (iface : Z + bytes) : host :=
  mkHost (fun _ => []) (fun s => s) [b "udp://10.0.0.9:514"]
         (fun _ => inr (b "unknown time zone")) UTC
         (fun _ => iface) (fun _ => inl sampleURL).

(** The call returned, with a nil error. *)
Definition returned_nil (r : res error) : bool :=
  match r with
  | Val None _ => true
  | _ => false
  end.

(** The buffers of the messages offered to the channels, in order. *)
Definition sentBuffers (evs : list event) : list slice :=
  map (fun x => buffer (snd (fst x))) (sends evs).

(** The record of the test suite, its identity, and a backend with three
    sinks, the second of which has a full channel. *)
Definition sampleParts : rawLogParts :=
  mkParts (mkInstant 1433520827 0) (b "30") (b "mymsg")
          (b "0123456789abcdef0123").

Definition grenada : Location := fixedZone (b "America/Grenada") (-4 * 3600).

Definition sampleBackend : syslogBackend :=
  SyslogBackend (Some grenada) [] []
                [Chan 2 [] false; Chan 0 [] false; Chan 2 [] false]
                (Some (Timer (Some 0))).

(** A backend whose only sink has a channel without room and without a
    receiver. *)
Definition fullBackend : syslogBackend :=
  SyslogBackend (Some grenada) [] [] [Chan 0 [] false]
                (Some (Timer (Some 0))).

Definition sampleSend : action :=
  ActSend sampleParts (b "coolappname") (b "procx") [].

(** The number of messages waiting in each channel of the backend a call
    returned. *)
Definition queued (r : res syslogBackend) : list nat :=
  match r with
  | Val bk _ => map (fun ch => length (chQueue ch)) (msgChans bk)
  | _ => []
  end.

(** The drop notices carry the number of drops since the notice before:
    some reading [count_of] of the logged line gives that number, in every
    run. *)
Definition notices_carry_count : Prop :=
  exists count_of : bytes -> nat,
    forall (acts : list action) (bk : syslogBackend),
      Forall (fun p => count_of (snd p) = fst p)
             (dropsPerNotice 0 (trace (world_of (run acts bk emptyWorld)))).

(** The start-up of the test [TestLogForwarderForwardConnError]: one forward
    address with an unknown scheme, which no dial accepts. *)
Definition xudpURL : URL :=
  mkURL (b "xudp") (b "127.0.0.1:1234") (b "xudp://127.0.0.1:1234").

Definition xudpHost : host :=
  mkHost (fun _ => []) (fun s => s) [b "xudp://127.0.0.1:1234"]
         (fun _ => inr (b "unknown time zone")) UTC
         (fun _ => inr (b "no such network interface"))
         (fun _ => inl xudpURL).

Definition refusingOracle : oracle :=
  Oracle (fun _ => 0%nat) (fun _ => None)
         (fun _ d => (Z.of_nat (length d), None))
         (fun _ _ _ => inr (b "dial xudp: unknown network xudp")).

Definition refusingWorld : world :=
  World (fun _ _ => zero) 0 [] [] 0 refusingOracle.

(** ** The websocket sink *)

(** The events that leave a session as it is: records and pongs. *)
Definition quiet (e : wsEvent) : bool :=
  match e with
  | WsRecord _ | WsPong _ => true
  | _ => false
  end.

(** The records among the events, in the order of arrival. *)
Fixpoint recordsOf (evs : list wsEvent) : list enrichedRecord :=
  match evs with
  | WsRecord r :: rest => r :: recordsOf rest
  | _ :: rest => recordsOf rest
  | [] => []
  end.

(** The text frames among the actions, oldest first, and the bytes the
    peer reads. *)
Fixpoint wsTexts (acts : list wsAction) : list bytes :=
  match acts with
  | WsText d :: rest => d :: wsTexts rest
  | _ :: rest => wsTexts rest
  | [] => []
  end.

Definition wsStream (acts : list wsAction) : bytes := List.concat (wsTexts acts).

(** What a session does once it is open: it sends frames. *)
Definition inSession (a : wsAction) : bool :=
  match a with
  | WsText _ | WsPing _ => true
  | _ => false
  end.

(** The forwarder is in a session that the dial [WsDial url header] opened:
    since that dial it connected and has only sent frames. *)
Definition sessionOf (url : bytes) (header : list (bytes * bytes))
    (f : wsForwarder) : Prop :=
  exists before since,
    wsDone f = before ++ WsDial url header :: WsEnter Connected :: since /\
    forallb inSession since = true.

(** [Header.Get]: the first value under a name. *)
Fixpoint headerGet (name : bytes) (header : list (bytes * bytes))
  : option bytes :=
  match header with
  | (k, v) :: rest => if bytes_eqb k name then Some v else headerGet name rest
  | [] => None
  end.

(** What the forwarder did in answer to the next event. *)
Definition wsAnswer (cfg : wsConfig) (f : wsForwarder) (e : wsEvent)
  : list wsAction :=
  skipn (length (wsDone f)) (wsDone (wsStep cfg f e)).

(** The payload of the ping that a tick makes the forwarder send now. *)
Definition sentPing (cfg : wsConfig) (f : wsForwarder) : option bytes :=
  match wsAnswer cfg f WsTick with
  | [WsPing p] => Some p
  | _ => None
  end.

(** A pong that carries [p] arrives before the next tick, if there is a
    next tick. *)
Fixpoint answered (p : bytes) (evs : list wsEvent) : bool :=
  match evs with
  | [] => true
  | WsTick :: _ => false
  | WsPong q :: rest => bytes_eqb p q || answered p rest
  | _ :: rest => answered p rest
  end.

(** Each ping receives its pong in time: whenever a tick sends a ping, the
    pong with its payload arrives before the tick after. *)
Fixpoint timely (cfg : wsConfig) (f : wsForwarder) (evs : list wsEvent)
  : bool :=
  match evs with
  | [] => true
  | e :: rest =>
      match e, sentPing cfg f with
      | WsTick, Some p => answered p rest
      | _, _ => true
      end && timely cfg (wsStep cfg f e) rest
  end.

(** An event in the interval after a ping with payload [p] that neither
    answers it nor ends the session: a record, a pong with another payload,
    the end of a dial nobody waits for. *)
Definition silentFor (p : bytes) (e : wsEvent) : bool :=
  match e with
  | WsRecord _ | WsDialResult _ => true
  | WsPong q => negb (bytes_eqb p q)
  | WsTick | WsSendError _ | WsStop => false
  end.

Definition isNoPong (cfg : wsConfig) (a : wsAction) : bool :=
  match a with
  | WsLog _ line => bytes_eqb line (noPongLine cfg)
  | _ => false
  end.

(** A peer: what it answers to a dial and to a ping. *)
Definition reply (peer : bytes -> option bytes) (a : wsAction)
  : list wsEvent :=
  match a with
  | WsDial _ _ => [WsDialResult None]
  | WsPing p =>
      match peer p with
      | Some q => [WsPong q]
      | None => []
      end
  | _ => []
  end.

(** One heartbeat interval against a peer: the tick, then the peer's
    answers to what the tick made the forwarder do. *)
Definition interval (cfg : wsConfig) (peer : bytes -> option bytes)
    (f : wsForwarder) : wsForwarder :=
  wsRun cfg (wsStep cfg f WsTick) (flat_map (reply peer) (wsAnswer cfg f WsTick)).

Fixpoint intervals (cfg : wsConfig) (peer : bytes -> option bytes) (n : nat)
    (f : wsForwarder) : wsForwarder :=
  match n with
  | O => f
  | S n' => intervals cfg peer n' (interval cfg peer f)
  end.

Definition echoPeer : bytes -> option bytes := fun p => Some p.
Definition deafPeer : bytes -> option bytes := fun _ => None.

(** The platform endpoint of the test suite and its two records. *)
Definition sampleConfig : wsConfig :=
  mkWsConfig (b "ws://127.0.0.1:8080/logs") (b "mytoken")
             (DefaultWsPingInterval * second).

Definition sampleRecord (content : string) : enrichedRecord :=
  mkEnriched (mkInstant 1433520827 0) (b content) (b "coolappname")
             (b "procx") (b "0123456789abcdef0123456789abcdef").

Definition connectedSample : wsForwarder :=
  wsRun sampleConfig (wsStart sampleConfig) [WsDialResult None].

(** What holds of the forwarder whatever happens: after a stop it is
    disconnected, a ping is outstanding only in a session, a dial in
    progress is the last thing done, and a session was opened by a dial
    with the configured settings. *)
Definition session_inv (cfg : wsConfig) (f : wsForwarder) : Prop :=
  (wsStopped f = true -> wsPhaseOf f = Disconnected) /\
  (wsAwaiting f <> None -> wsPhaseOf f = Connected) /\
  match wsPhaseOf f with
  | Dialing =>
      exists before, wsDone f = before ++ [WsDial (wsURL cfg) (wsHeader cfg)]
  | Connected => sessionOf (wsURL cfg) (wsHeader cfg) f
  | _ => True
  end.

(** * Settings, start-up and shutdown *)

(** ** config/config.go *)

(** The value of the first name whose variable [convert] accepts. *)
Fixpoint firstConverted (h : host) (A : Type) (convert : bytes -> option A)
    (envs : list bytes) : option A :=
  match envs with
  | [] => None
  | name :: rest =>
      match convert (getenv h name) with
      | Some v => Some v
      | None => firstConverted h convert rest
      end
  end.

(** The world after the lines [lines] were logged as warnings. *)
Definition warned (lines : list bytes) (w : world) : world :=
  World (cells w) (next w) (pool w)
        (trace w ++ map (EvLog (now w) LevelWarn) lines) (now w) (env w).

(** The part of [LoadConfig] that sets [Config.LogBackends]; [None] is the
    nil slice.  The two interval fields go through [SecondsEnvOrDefault],
    which parses and multiplies floating-point numbers, and are not
    modelled. *)
Definition LoadConfig_LogBackends (h : host) : M (option (list bytes)) :=
  logBackends <- StringEnvOrDefault h (b "tsuru,syslog") [b "LOG_BACKENDS"] ;;
  if negb (is_nil logBackends) then ret (Some (splitOn "," logBackends))
  else ret None.

(** ** Hosts for the examples *)

(** [os.Getenv] over a list of variables; a variable that is not set reads
    as the empty string. *)
Fixpoint lookupEnv (vars : list (bytes * bytes)) (name : bytes) : bytes :=
  match vars with
  | [] => []
  | (k, v) :: rest => if bytes_eqb k name then v else lookupEnv rest name
  end.

(** A host with the variables [vars] and the forward addresses [addrs];
    no time zone can be loaded, the interface [eth0] answers [iface], and
    every address parses to the sample URL. *)
Definition hostWith (vars : list (bytes * bytes)) (addrs : list bytes)
    (iface : Z + bytes) : host :=
  mkHost (lookupEnv vars) (fun s => s) addrs
         (fun _ => inr (b "unknown time zone")) UTC
         (fun _ => iface) (fun _ => inl sampleURL).

(** The value of a run of digits read after the value [acc]. *)
Definition digits_onto (acc : Z) (ds : bytes) : Z :=
  fold_left (fun a c => a * 10 + (Z.of_nat (nat_of_ascii c) - 48)) ds acc.

(** ** What [initialize] reads from the host *)

(** The first of the variables that is not empty, or the default. *)
Definition stringSetting (h : host) (defaultValue : bytes)
    (envs : list bytes) : bytes :=
  match firstConverted h (fun v => if is_nil v then None else Some v) envs with
  | Some v => v
  | None => defaultValue
  end.

(** The prefix and the suffix of the messages: the variable, expanded,
    with a space towards the content; without the variable, what the
    backend had. *)
Definition extraStartOf (h : host) (bk : syslogBackend) : bytes :=
  let extra := getenv h (b "LOG_SYSLOG_MESSAGE_EXTRA_START") in
  if is_nil extra then syslogExtraStart bk else expandEnv h extra ++ b " ".

Definition extraEndOf (h : host) (bk : syslogBackend) : bytes :=
  let extra := getenv h (b "LOG_SYSLOG_MESSAGE_EXTRA_END") in
  if is_nil extra then syslogExtraEnd bk else b " " ++ expandEnv h extra.

(** The warning the reading of the buffer size logs: none when
    [LOG_SYSLOG_BUFFER_SIZE] holds a number, the deprecation notice when only
    [LOG_BUFFER_SIZE] does, and the notice of the default otherwise. *)
Definition bufferSizeNotice (h : host) : list bytes :=
  match atoi (getenv h (b "LOG_SYSLOG_BUFFER_SIZE")),
        atoi (getenv h (b "LOG_BUFFER_SIZE")) with
  | Some _, _ => []
  | None, Some _ =>
      [b "The environment variable LOG_BUFFER_SIZE is deprecated. Please set LOG_SYSLOG_BUFFER_SIZE in the future."]
  | None, None =>
      [b "invalid value for LOG_SYSLOG_BUFFER_SIZE or LOG_BUFFER_SIZE. Using the default value of 1000000"]
  end.

(** The time zone asked for, and the location of the stamps: that time
    zone when there is one and it can be loaded, [time.Local] otherwise. *)
Definition configuredTimezone (h : host) : bytes :=
  stringSetting h [] [b "LOG_SYSLOG_TIMEZONE"; b "SYSLOG_TIMEZONE"].

Definition locationOf (h : host) : Location :=
  if is_nil (configuredTimezone h) then timeLocal h
  else
    match loadLocation h (configuredTimezone h) with
    | inl tz => tz
    | inr _ => timeLocal h
    end.

(** The warnings of the choice of the MTU: about the variable that names
    the interface when it is not set, and about the interface when its MTU
    cannot be used. *)
Definition interfaceNotice (h : host) : list bytes :=
  if is_nil (getenv h (b "LOG_SYSLOG_MTU_NETWORK_INTERFACE"))
  then [b "invalid value for LOG_SYSLOG_MTU_NETWORK_INTERFACE. Using the default value of eth0"]
  else [].

Definition mtuNotice (h : host) : list bytes :=
  match interfaceMTU h (configuredInterface h) with
  | inl ifaceMTU =>
      if 0 <? ifaceMTU then []
      else [b "unable to read mtu from interface, using default 1500: %!s(<nil>)"]
  | inr err =>
      [b "unable to read mtu from interface, using default 1500: " ++ err]
  end.

Definition isDial (e : event) : bool :=
  match e with
  | EvDial _ _ _ _ => true
  | _ => false
  end.

(** A host on which only the sample address parses. *)
Definition pickyHost : host :=
  mkHost (fun _ => []) (fun s => s) []
         (fun _ => inr (b "unknown time zone")) UTC
         (fun _ => inl 1500)
         (fun a => if bytes_eqb a (b "udp://10.0.0.9:514") then inl sampleURL
                   else inr (b "missing protocol scheme")).

(** ** Pool traffic *)

(** The takes from the pool ([true]) and the returns to it ([false]), in
    the order of the events. *)
Definition poolTraffic (evs : list event) : list bool :=
  flat_map (fun e => match e with
                     | EvGet _ => [true]
                     | EvPut _ => [false]
                     | _ => []
                     end) evs.

(** The world [w] once the events [evs] have been added to its trace. *)
Definition traced (evs : list event) (w : world) : world :=
  World (cells w) (next w) (pool w) (trace w ++ evs) (now w) (env w).

(** The call panicked. *)
Definition panicked {A : Type} (r : res A) : bool :=
  match r with
  | Panic _ _ => true
  | _ => false
  end.

Definition isWrite (e : event) : bool :=
  match e with
  | EvWrite _ _ _ _ => true
  | _ => false
  end.

(** The sample forward URL over TCP, and a forwarder for it as [initialize]
    makes it. *)
Definition tcpURL : URL :=
  mkURL (b "tcp") (b "10.0.0.9:514") (b "tcp://10.0.0.9:514").

(** ** [stop] *)

(** The quit channels of a backend, which the record [syslogBackend] above
    leaves out.  A channel is known by its identity, [None] being the nil
    channel; what [close] changes is the set of the channels that are
    closed. *)
Definition quitChan : Type := option nat.

Inductive stopResult : Type :=
| Stopped (closed : list nat)
| StopPanic (msg : string) (closed : list nat).

(** [stop]: the loop [for _, ch := range b.quitChans { close(ch) }], where
    [close] panics on a nil channel and on a channel that is closed. *)
Fixpoint stop (quitChans : list quitChan) (closed : list nat) : stopResult :=
  match quitChans with
  | [] => Stopped closed
  | None :: _ => StopPanic "close of nil channel" closed
  | Some ch :: rest =>
      if existsb (Nat.eqb ch) closed
      then StopPanic "close of closed channel" closed
      else stop rest (ch :: closed)
  end.

(** ** A record on its way to one sink *)

(** A backend with one sink, and a record whose line is longer than the
    limit of 60 bytes of the forwarder [udpForwarder 160]. *)
Definition oneSinkBackend : syslogBackend :=
  SyslogBackend (Some grenada) [] [] [Chan 2 [] false]
                (Some (Timer (Some 0))).

Definition longParts : rawLogParts :=
  mkParts (mkInstant 1433520827 0) (b "30") (b "0123456789abcdefghij")
          (b "0123456789abcdef0123").

(** The message [sendMessage] queues for the only sink, and the world it
    leaves. *)
Definition queuedMessage (r : res syslogBackend) : option bufferWithIdx :=
  match r with
  | Val bk _ =>
      match msgChans bk with
      | [ch] => head (chQueue ch)
      | _ => None
      end
  | _ => None
  end.

(** ** A connection that fails *)

(** The error a call returned, if it returned one. *)
Definition returnedError (r : res error) : option bytes :=
  match r with
  | Val (Some e) _ => Some e
  | _ => None
  end.

(** An environment in which the second write, and every write after it,
    is refused. *)
Definition refusingWrites : oracle :=
  Oracle (fun _ => 0%nat) (fun _ => None)
         (fun k d => if (k <? 4)%nat then (Z.of_nat (length d), None)
                     else (0, Some (b "connection refused")))
         (fun _ _ _ => inl (mkConn 7 (b "10.0.0.9:514") None)).

(** The sample world on that environment. *)
Definition brokenWorld : world :=
  World (cells sampleWorld) (next sampleWorld) [] [] 0 refusingWrites.

(** * Properties *)

(** ** Basic facts *)

Lemma bytes_eqb_eq (x y : bytes) : bytes_eqb x y = true <-> x = y.
Proof.
  unfold bytes_eqb. destruct (list_eq_dec ascii_dec x y); split; congruence.
Qed.

Lemma wrap_id (z : Z) : GoInt.in_range z -> GoInt.wrap z = z.
Proof.
  unfold GoInt.in_range, GoInt.wrap. intros Hz.
  rewrite Z.mod_small by lia. lia.
Qed.

Lemma wrap_in_range (z : Z) : GoInt.in_range (GoInt.wrap z).
Proof.
  unfold GoInt.in_range, GoInt.wrap.
  pose proof (Z.mod_pos_bound (z + 2 ^ 63) (2 ^ 64) ltac:(lia)). lia.
Qed.

Lemma add_id (x y : Z) : GoInt.in_range (x + y) -> GoInt.add x y = x + y.
Proof. apply wrap_id. Qed.

Lemma sub_id (x y : Z) : GoInt.in_range (x - y) -> GoInt.sub x y = x - y.
Proof. apply wrap_id. Qed.

(** ** The time layouts on the dates of the test suite *)

Example stamp_grenada :
  formatStamp (fixedZone (b "America/Grenada") (-4 * 3600))
              (mkInstant 1433520827 0) = b "Jun  5 12:13:47".
Proof. reflexivity. Qed.

Example stamp_fortaleza :
  formatStamp (fixedZone (b "America/Fortaleza") (-3 * 3600))
              (mkInstant 1433520827 0) = b "Jun  5 13:13:47".
Proof. reflexivity. Qed.

Example rfc3339_base :
  formatRFC3339UTC (mkInstant 1433520827 0) = b "2015-06-05T16:13:47Z".
Proof. reflexivity. Qed.

Example rfc3339_micro :
  formatRFC3339UTC (mkInstant 1061702055 3000) = b "2003-08-24T05:14:15.000003Z".
Proof. reflexivity. Qed.

Example civil_leap : civil 19782 = (2024, 2, 29) /\ civil (-1) = (1969, 12, 31).
Proof. split; reflexivity. Qed.

(** ** The store *)

Lemma length_load (c : store_t) (s : slice) : length (load c s) = len s.
Proof. unfold load. now rewrite length_map, length_seq. Qed.

Lemma load_ext (c c' : store_t) (s : slice) :
  (forall i, (off s <= i < off s + len s)%nat -> c' (arr s) i = c (arr s) i) ->
  load c' s = load c s.
Proof.
  intros H. unfold load. apply map_ext_in.
  intros i Hi. apply in_seq in Hi. apply H. lia.
Qed.

Lemma store_outside (c : store_t) (a pos : nat) (data : bytes) (a' i : nat) :
  (a' <> a \/ i < pos \/ pos + length data <= i)%nat ->
  store c a pos data a' i = c a' i.
Proof.
  intros H. unfold store.
  destruct (Nat.eqb_spec a' a); simpl; [|reflexivity].
  destruct (Nat.leb_spec pos i); simpl; [|reflexivity].
  destruct (Nat.ltb_spec i (pos + length data)); simpl; [|reflexivity].
  lia.
Qed.

Lemma store_inside (c : store_t) (a pos : nat) (data : bytes) (i : nat) :
  (pos <= i < pos + length data)%nat ->
  store c a pos data a i = nth (i - pos) data zero.
Proof.
  intros H. unfold store. rewrite Nat.eqb_refl. simpl.
  destruct (Nat.leb_spec pos i); simpl; [|lia].
  destruct (Nat.ltb_spec i (pos + length data)); simpl; [reflexivity|lia].
Qed.

Lemma map_nth_seq (data : bytes) (pos : nat) :
  map (fun i => nth (i - pos) data zero) (seq pos (length data)) = data.
Proof.
  revert pos. induction data as [|x data IH]; intros pos; simpl; [reflexivity|].
  rewrite Nat.sub_diag. f_equal.
  transitivity (map (fun i => nth (i - S pos) data zero)
                    (seq (S pos) (length data))); [|apply IH].
  apply map_ext_in. intros i Hi. apply in_seq in Hi.
  replace (i - pos)%nat with (S (i - S pos)) by lia. reflexivity.
Qed.

Lemma load_store_same (c : store_t) (a pos cp : nat) (data : bytes) :
  load (store c a pos data) (Slice a pos (length data) cp) = data.
Proof.
  unfold load. simpl.
  transitivity (map (fun i => nth (i - pos) data zero) (seq pos (length data))).
  - apply map_ext_in. intros i Hi. apply in_seq in Hi.
    apply store_inside. lia.
  - apply map_nth_seq.
Qed.

Lemma load_store_other (c : store_t) (a pos : nat) (data : bytes) (s : slice) :
  (arr s <> a \/ off s + len s <= pos \/ pos + length data <= off s)%nat ->
  load (store c a pos data) s = load c s.
Proof.
  intros H. apply load_ext. intros i Hi. apply store_outside. lia.
Qed.

Lemma load_split (c : store_t) (a o n m c1 c2 c3 : nat) :
  load c (Slice a o (n + m) c1) =
  load c (Slice a o n c2) ++ load c (Slice a (o + n) m c3).
Proof. unfold load. simpl. now rewrite seq_app, map_app. Qed.

Lemma load_cap (c : store_t) (a o n c1 c2 : nat) :
  load c (Slice a o n c1) = load c (Slice a o n c2).
Proof. reflexivity. Qed.

(** ** [append] *)

Lemma append_spec (s : slice) (data : bytes) (w : world) :
  (arr s < next w)%nat ->
  exists s' w', append s data w = Val s' w' /\ appended s data w s' w'.
Proof.
  intros Hs. unfold append.
  destruct (Nat.leb_spec (len s + length data) (cap s)) as [Hfit|Hgrow].
  - eexists _, _. split; [reflexivity|].
    constructor; simpl; try reflexivity; try lia.
    + unfold read. simpl.
      rewrite (load_split _ (arr s) (off s) (len s) (length data)
                          (cap s) (cap s) (cap s)).
      rewrite load_store_same. f_equal.
      destruct s as [a o n cp]. simpl in *.
      apply load_store_other. simpl. lia.
    + intros t _ Ht. unfold read. simpl.
      apply load_store_other. lia.
  - simpl. eexists _, _. split; [reflexivity|].
    constructor; simpl; try reflexivity; try lia.
    + unfold read at 1. simpl.
      replace (len s + length data)%nat with (length (read w s ++ data)).
      * apply load_store_same.
      * rewrite length_app. unfold read. now rewrite length_load.
    + intros t Ht _. unfold read. simpl.
      apply load_store_other. lia.
    + unfold growslice. lia.
Qed.

Lemma append_slice_spec (s src : slice) (w : world) :
  (arr s < next w)%nat ->
  exists s' w',
    append_slice s src w = Val s' w' /\ appended s (read w src) w s' w'.
Proof. intros Hs. unfold append_slice. now apply append_spec. Qed.

(** ** Stepping through monadic code *)

Lemma bind_val {A B : Type} (c : M A) (k : A -> M B) (w w' : world) (a : A) :
  c w = Val a w' -> bind c k w = k a w'.
Proof. intros E. unfold bind. now rewrite E. Qed.

Lemma bind_panic {A B : Type} (c : M A) (k : A -> M B) (w w' : world)
  (msg : string) :
  c w = Panic msg w' -> bind c k w = Panic msg w'.
Proof. intros E. unfold bind. now rewrite E. Qed.

Lemma bind_fuel {A B : Type} (c : M A) (k : A -> M B) (w w' : world) :
  c w = OutOfFuel w' -> bind c k w = OutOfFuel w'.
Proof. intros E. unfold bind. now rewrite E. Qed.

Arguments bind_val {A B c} k {w w' a} _.
Arguments bind_panic {A B c} k {w w' msg} _.
Arguments bind_fuel {A B c} k {w w'} _.

Lemma same_state_read (w w' : world) (s : slice) :
  same_state w w' -> read w' s = read w s.
Proof. intros (Hc & _). unfold read. now rewrite Hc. Qed.

Lemma length_snoc {A : Type} (l : list A) (x : A) :
  length (l ++ [x]) = S (length l).
Proof. rewrite length_app. simpl. lia. Qed.

(** ** [writePart] *)

Lemma writePart_spec (conn : netConn) (buf : slice) (w : world) :
  exists w',
    writePart conn buf w = Val (fst (writeOutcome conn w (read w buf))) w' /\
    trace w' = trace w ++ snd (writeOutcome conn w (read w buf)) /\
    same_state w w'.
Proof.
  unfold writePart, writeOutcome, bind, time_Now, conn_SetWriteDeadline.
  simpl.
  destruct (deadlineErr (env w) (length (trace w))) as [e|] eqn:Ed.
  - eexists. split; [reflexivity|]. split; [reflexivity|].
    repeat split.
  - unfold conn_Write, ret. simpl. rewrite length_snoc.
    change (read (emit _ w) buf) with (read w buf).
    set (r := writeRes (env w) (S (length (trace w))) (read w buf)).
    assert (Hlen : lenZ buf = Z.of_nat (length (read w buf))).
    { unfold lenZ, read. now rewrite length_load. }
    destruct (snd r) as [e|] eqn:Er.
    + eexists. split; [reflexivity|]. simpl. rewrite <- app_assoc.
      split; [reflexivity|]. repeat split.
    + rewrite Hlen.
      destruct (fst r <? Z.of_nat (length (read w buf)));
        (eexists; split; [reflexivity|]; simpl; rewrite <- app_assoc;
         split; [reflexivity|]; repeat split).
Qed.

(** ** The pool: ownership of backing arrays *)

Lemma remove_nth_split {A : Type} (l : list A) (k : nat) (x : A) :
  nth_error l k = Some x ->
  exists l1 l2, l = l1 ++ x :: l2 /\ remove_nth k l = l1 ++ l2.
Proof.
  revert k. induction l as [|y l IH]; intros [|k] H; simpl in *; try discriminate.
  - injection H as ->. now exists [], l.
  - destruct (IH k H) as (l1 & l2 & -> & E2).
    exists (y :: l1), l2. simpl. now rewrite E2.
Qed.

Lemma pool_Get_spec (w : world) :
  pool_ok w ->
  exists g w',
    pool_Get w = Val g w' /\
    trace w' = trace w ++ [EvGet g] /\
    pool_ok w' /\ owned (arr g) w' /\
    (forall a, owned a w -> owned a w' /\ a <> arr g) /\
    (forall t, (arr t < next w)%nat -> read w' t = read w t) /\
    (next w <= next w')%nat /\ now w' = now w /\ env w' = env w /\
    (forall s, In s (pool w') -> In s (pool w)).
Proof.
  intros (Hnd & Hlt). unfold pool_Get.
  destruct (nth_error (pool w) (poolPick (env w) (length (trace w))))
    as [g|] eqn:Eg.
  - destruct (remove_nth_split _ _ Eg) as (l1 & l2 & E1 & E2).
    exists g. eexists. split; [reflexivity|]. unfold owned, pool_ok. simpl.
    rewrite E2. rewrite E1 in Hnd, Hlt.
    rewrite map_app in Hnd. simpl in Hnd.
    pose proof (NoDup_remove _ _ _ Hnd) as (Hnd' & Hnotin).
    rewrite <- map_app in Hnd', Hnotin.
    apply Forall_app in Hlt as (Hl1 & Hl2).
    inversion Hl2 as [|? ? Hg Hl2']; subst.
    assert (Hsub : forall s, In s (l1 ++ l2) -> In s (pool w)).
    { intros s Hs. rewrite E1. apply in_app_iff in Hs. apply in_app_iff.
      destruct Hs; [left|right; right]; assumption. }
    split; [reflexivity|].
    split; [split; [exact Hnd'|apply Forall_app; split; assumption]|].
    split; [split; assumption|].
    split.
    { intros a (Ha & Hn). split; [split; [exact Ha|]|].
      - intros Hin. apply Hn. apply in_map_iff in Hin as (s & Es & Hs).
        apply in_map_iff. exists s. split; [exact Es|]. now apply Hsub.
      - intros ->. apply Hn. rewrite E1, map_app. simpl.
        apply in_app_iff. right. now left. }
    split; [reflexivity|].
    split; [lia|]. split; [reflexivity|]. split; [reflexivity|exact Hsub].
  - unfold pool_New. simpl.
    eexists. eexists. split; [reflexivity|]. unfold owned, pool_ok. simpl.
    assert (Hfresh : ~ In (next w) (map arr (pool w))).
    { intros Hin. apply in_map_iff in Hin as (s & Es & Hs).
      rewrite Forall_forall in Hlt. specialize (Hlt s Hs). lia. }
    split; [reflexivity|].
    split.
    { split; [exact Hnd|]. eapply Forall_impl; [|exact Hlt].
      simpl. intros; lia. }
    split; [split; [lia|exact Hfresh]|].
    split.
    { intros a (Ha & Hn). split; [split; [lia|exact Hn]|lia]. }
    split.
    { intros t Ht. unfold read. simpl. apply load_store_other. lia. }
    split; [lia|]. split; [reflexivity|]. split; [reflexivity|auto].
Qed.

Lemma pool_Put_ok (s : slice) (w : world) :
  pool_ok w -> owned (arr s) w ->
  pool_ok (world_of (pool_Put s w)).
Proof.
  intros (Hnd & Hlt) (Ha & Hn). split; simpl.
  - constructor; assumption.
  - constructor; assumption.
Qed.

Lemma pool_Put_owned (s : slice) (a : nat) (w : world) :
  owned a w -> a <> arr s -> owned a (world_of (pool_Put s w)).
Proof.
  intros (Ha & Hn) Hne. split; simpl; [assumption|].
  intros [E|Hin]; [congruence|contradiction].
Qed.

Lemma appended_owned (s : slice) (data : bytes) (w : world) (s' : slice)
  (w' : world) (a : nat) :
  appended s data w s' w' -> pool_ok w -> owned (arr s) w ->
  pool_ok w' /\ owned (arr s') w' /\
  (owned a w -> a <> arr s -> owned a w' /\ a <> arr s').
Proof.
  intros Ap (Hnd & Hlt) (Hs & Hns).
  destruct Ap as [_ _ Hwhere _ _ _ Hpool _ _].
  assert (Hnext : (next w <= next w')%nat) by (destruct Hwhere; lia).
  assert (Hok : pool_ok w').
  { split; rewrite Hpool; [assumption|].
    eapply Forall_impl; [|exact Hlt]. simpl. intros; lia. }
  split; [exact Hok|]. split.
  - split; [destruct Hwhere; lia|]. rewrite Hpool.
    destruct Hwhere as [(E & _)|(E & _)]; rewrite E; [assumption|].
    intros Hin. apply in_map_iff in Hin as (t & Et & Ht).
    rewrite Forall_forall in Hlt. specialize (Hlt t Ht). lia.
  - intros (Ha & Hna) Hne. split.
    + split; [lia|]. now rewrite Hpool.
    + destruct Hwhere as [(E & _)|(E & _)]; rewrite E; [assumption|lia].
Qed.

(** One [append] of a slice of the message array [a] to a buffer on another
    array. *)
Lemma append_slice_step (a : nat) (s src : slice) (w : world) :
  pool_ok w -> owned a w -> owned (arr s) w -> arr s <> a -> arr src = a ->
  exists s' w',
    append_slice s src w = Val s' w' /\
    read w' s' = read w s ++ read w src /\
    pool_ok w' /\ owned a w' /\ owned (arr s') w' /\ arr s' <> a /\
    (forall t, arr t = a -> read w' t = read w t) /\
    trace w' = trace w /\ now w' = now w /\ env w' = env w /\
    pool w' = pool w.
Proof.
  intros Hok Ha Hs Hne Hsrc.
  destruct (append_slice_spec s src w) as (s' & w' & E & Ap);
    [apply Hs|].
  destruct (appended_owned a Ap Hok Hs) as (Hok' & Hs' & Hrest).
  destruct (Hrest Ha (not_eq_sym Hne)) as (Ha' & Hne').
  exists s', w'. split; [exact E|].
  destruct Ap as [_ Hread _ Hframe _ Htr Hpool Hnow Henv].
  repeat split; auto; try apply Hok'; try apply Ha'; try apply Hs'.
  intros t Ht. apply Hframe.
  - rewrite Ht. apply Ha.
  - left. congruence.
Qed.

Lemma firstn_seq_le (n start k : nat) :
  (n <= k)%nat -> firstn n (seq start k) = seq start n.
Proof.
  revert start k. induction n as [|n IH]; intros start k Hn; [reflexivity|].
  destruct k as [|k]; [lia|]. simpl. f_equal. apply IH. lia.
Qed.

Lemma load_prefix (c : store_t) (s : slice) (n cp : nat) :
  (n <= len s)%nat ->
  load c (Slice (arr s) (off s) n cp) = firstn n (load c s).
Proof.
  intros Hn. unfold load. simpl.
  now rewrite firstn_map, firstn_seq_le.
Qed.

Lemma load_suffix (c : store_t) (s : slice) (n cp : nat) :
  load c (Slice (arr s) (off s + n) (len s - n) cp) = skipn n (load c s).
Proof. unfold load. simpl. now rewrite skipn_map, skipn_seq. Qed.

Lemma slice_to_zero (s : slice) :
  slice_to s 0 = Some (Slice (arr s) (off s + 0) 0 (cap s - 0)).
Proof.
  unfold slice_to, slice_range. simpl.
  destruct (Z.leb_spec 0 (Z.of_nat (cap s))); [reflexivity|lia].
Qed.

Lemma slice_range_ok (s : slice) (lo hi : Z) :
  0 <= lo <= hi -> hi <= Z.of_nat (cap s) ->
  slice_range s lo hi =
  Some (Slice (arr s) (off s + Z.to_nat lo) (Z.to_nat (hi - lo))
              (cap s - Z.to_nat lo)).
Proof.
  intros H1 H2. unfold slice_range.
  destruct (Z.leb_spec 0 lo); [|lia].
  destruct (Z.leb_spec lo hi); [|lia].
  destruct (Z.leb_spec hi (Z.of_nat (cap s))); [|lia].
  reflexivity.
Qed.

Lemma slice_range_panics (s : slice) (lo hi : Z) :
  lo < 0 \/ hi < lo \/ Z.of_nat (cap s) < hi ->
  slice_range s lo hi = None.
Proof.
  intros H. unfold slice_range.
  destruct (Z.leb_spec 0 lo); simpl; [|reflexivity].
  destruct (Z.leb_spec lo hi); simpl; [|reflexivity].
  destruct (Z.leb_spec hi (Z.of_nat (cap s))); simpl; [lia|reflexivity].
Qed.

(** ** One iteration of the splitting loop *)

Lemma splitLoop_step (fuel : nat) (conn : netConn) (avail : Z)
  (hb tb cb : slice) (a : nat) (w : world) :
  pool_ok w -> owned a w ->
  arr hb = a -> arr tb = a -> arr cb = a ->
  0 <= avail < lenZ cb -> (len cb <= cap cb)%nat ->
  let d := read w hb ++ firstn (Z.to_nat avail) (read w cb) ++ read w tb in
  exists g p w1 w2,
    arr g <> a /\ arr p <> a /\
    trace w1 = trace w ++ [EvGet g] /\ now w1 = now w /\ env w1 = env w /\
    trace w2 = trace w1 ++ snd (writeOutcome conn w1 d) ++ [EvPut p] /\
    pool_ok w2 /\ owned a w2 /\ now w2 = now w /\ env w2 = env w /\
    (forall t, arr t = a -> read w2 t = read w t) /\
    splitLoop (S fuel) conn avail hb tb cb w =
      match fst (writeOutcome conn w1 d) with
      | Some e => Val (Some e) w2
      | None => splitLoop fuel conn avail hb tb (advance cb avail) w2
      end.
Proof.
  intros Hok Ha Hhb Htb Hcb Havail Hcap d.
  unfold lenZ in Havail.
  (* Get *)
  destruct (pool_Get_spec Hok)
    as (g & w0 & EGet & Htr0 & Hok0 & Hg0 & Hown0 & Hrd0 & Hnx0 & Hnow0 &
        Henv0 & _).
  destruct (Hown0 a Ha) as (Ha0 & Hneg).
  pose (b0 := Slice (arr g) (off g + 0) 0 (cap g - 0)).
  assert (Hb0 : read w0 b0 = []) by reflexivity.
  (* header *)
  destruct (@append_slice_step a b0 hb w0 Hok0 Ha0 Hg0
              (not_eq_sym Hneg) Hhb)
    as (b1 & w1 & E1 & Hr1 & Hok1 & Ha1 & Hb1 & Hne1 & Hfr1 & Htr1 & Hnow1 &
        Henv1 & Hp1).
  (* chunk *)
  pose (chunk := Slice (arr cb) (off cb + Z.to_nat 0) (Z.to_nat (avail - 0))
                       (cap cb - Z.to_nat 0)).
  assert (Echunk : slice_to cb avail = Some chunk).
  { unfold slice_to. apply slice_range_ok; lia. }
  destruct (@append_slice_step a b1 chunk w1 Hok1 Ha1 Hb1 Hne1 Hcb)
    as (b2 & w2 & E2 & Hr2 & Hok2 & Ha2 & Hb2 & Hne2 & Hfr2 & Htr2 & Hnow2 &
        Henv2 & Hp2).
  (* trailer *)
  destruct (@append_slice_step a b2 tb w2 Hok2 Ha2 Hb2 Hne2 Htb)
    as (b3 & w3 & E3 & Hr3 & Hok3 & Ha3 & Hb3 & Hne3 & Hfr3 & Htr3 & Hnow3 &
        Henv3 & Hp3).
  assert (Hto_w : forall t, arr t = a -> read w0 t = read w t).
  { intros t Ht. apply Hrd0. rewrite Ht. apply Ha. }
  assert (Hd : read w3 b3 = d).
  { rewrite Hr3, Hr2, Hr1, Hb0. simpl. unfold d.
    rewrite (Hfr2 tb Htb), (Hfr1 tb Htb), (Hto_w tb Htb).
    rewrite (Hto_w hb Hhb). rewrite <- app_assoc. f_equal. f_equal.
    replace (read w1 chunk) with (firstn (Z.to_nat avail) (read w1 cb)).
    - now rewrite (Hfr1 cb Hcb), (Hto_w cb Hcb).
    - unfold read, chunk. rewrite Z.sub_0_r. simpl Z.to_nat.
      rewrite Nat.add_0_r. symmetry. apply load_prefix. lia. }
  (* write *)
  destruct (writePart_spec conn b3 w3) as (w4 & E4 & Htr4 & Hsame4).
  rewrite Hd in E4, Htr4.
  assert (Hwo : writeOutcome conn w3 d = writeOutcome conn w0 d).
  { unfold writeOutcome.
    rewrite Htr3, Htr2, Htr1, Hnow3, Hnow2, Hnow1, Henv3, Henv2, Henv1.
    reflexivity. }
  rewrite Hwo in E4, Htr4.
  destruct Hsame4 as (Hc4 & Hn4 & Hp4 & Hnow4 & Henv4).
  assert (Hok4 : pool_ok w4).
  { unfold pool_ok. rewrite Hp4, Hn4. exact Hok3. }
  assert (Ha4 : owned a w4).
  { unfold owned. rewrite Hp4, Hn4. exact Ha3. }
  assert (Hb4 : owned (arr b3) w4).
  { unfold owned. rewrite Hp4, Hn4. exact Hb3. }
  (* Put *)
  pose (w5 := world_of (pool_Put b3 w4)).
  exists g, b3, w0, w5.
  split; [congruence|]. split; [exact Hne3|].
  split; [exact Htr0|]. split; [exact Hnow0|]. split; [exact Henv0|].
  split.
  { unfold w5. simpl. rewrite Htr4, Htr3, Htr2, Htr1.
    now rewrite <- app_assoc. }
  split; [apply pool_Put_ok; assumption|].
  split; [apply pool_Put_owned; [assumption|congruence]|].
  split; [unfold w5; simpl; congruence|].
  split; [unfold w5; simpl; congruence|].
  split.
  { intros t Ht. unfold w5, read. simpl. rewrite Hc4.
    change (read w3 t = read w t).
    now rewrite (Hfr3 t Ht), (Hfr2 t Ht), (Hfr1 t Ht), (Hto_w t Ht). }
  (* the computation *)
  unfold splitLoop; fold splitLoop.
  destruct (Z.ltb_spec avail (lenZ cb)) as [_|Hcontra];
    [|unfold lenZ in Hcontra; lia].
  rewrite (bind_val _ EGet).
  rewrite slice_to_zero. unfold slicing at 1.
  rewrite (bind_val _ (eq_refl : ret b0 w0 = Val b0 w0)).
  rewrite (bind_val _ E1).
  rewrite Echunk. unfold slicing at 1.
  rewrite (bind_val _ (eq_refl : ret chunk w1 = Val chunk w1)).
  rewrite (bind_val _ E2).
  rewrite (bind_val _ E3).
  rewrite (bind_val _ E4).
  rewrite (bind_val _ (eq_refl : pool_Put b3 w4 = Val tt w5)).
  destruct (fst (writeOutcome conn w0 d)) as [e|]; [reflexivity|].
  unfold slice_from. rewrite slice_range_ok by (unfold lenZ; lia).
  reflexivity.
Qed.

Lemma writeOutcome_attempt (conn : netConn) (w : world) (d : bytes) :
  write_attempt conn (now w + forwardConnWriteTimeout) d
    (snd (writeOutcome conn w d)) (fst (writeOutcome conn w d)).
Proof.
  unfold writeOutcome.
  destruct (deadlineErr (env w) (length (trace w))) as [e|]; simpl.
  - constructor.
  - apply wa_write.
Qed.

(** ** The remainder, written from the original buffer in place *)

Lemma splitLoop_last (fuel : nat) (conn : netConn) (avail : Z)
  (hb tb cb : slice) (a : nat) (w : world) :
  (a < next w)%nat -> arr hb = a -> arr tb = a -> arr cb = a ->
  lenZ cb <= avail -> 0 < lenZ cb ->
  (off hb + len hb + len cb <= off tb)%nat ->
  let d := read w hb ++ read w cb ++ read w tb in
  exists w',
    splitLoop fuel conn avail hb tb cb w =
      Val (fst (writeOutcome conn w d)) w' /\
    trace w' = trace w ++ snd (writeOutcome conn w d) /\
    pool w' = pool w /\ (next w <= next w')%nat /\
    now w' = now w /\ env w' = env w.
Proof.
  intros Ha Hhb Htb Hcb Hle Hpos Hgeo d.
  assert (Hhb' : (arr hb < next w)%nat) by (rewrite Hhb; exact Ha).
  destruct (append_slice_spec hb cb w Hhb') as (b1 & w1 & E1 & Ap1).
  assert (Hb1 : (arr b1 < next w1)%nat).
  { destruct (ap_where Ap1) as [(E & _ & _ & En)|(E & _ & En)]; lia. }
  destruct (append_slice_spec b1 tb w1 Hb1) as (b2 & w2 & E2 & Ap2).
  assert (Htb1 : read w1 tb = read w tb).
  { apply (ap_frame Ap1); [rewrite Htb; exact Ha|].
    right. right. unfold read. rewrite length_load. exact Hgeo. }
  assert (Hd : read w2 b2 = d).
  { rewrite (ap_read Ap2), (ap_read Ap1), Htb1. unfold d.
    now rewrite <- app_assoc. }
  destruct (writePart_spec conn b2 w2) as (w3 & E3 & Htr3 & Hsame3).
  rewrite Hd in E3, Htr3.
  assert (Hwo : writeOutcome conn w2 d = writeOutcome conn w d).
  { unfold writeOutcome.
    now rewrite (ap_trace Ap2), (ap_trace Ap1), (ap_now Ap2), (ap_now Ap1),
      (ap_env Ap2), (ap_env Ap1). }
  rewrite Hwo in E3, Htr3.
  destruct Hsame3 as (Hc3 & Hn3 & Hp3 & Hnow3 & Henv3).
  exists w3.
  split.
  { assert (Hcode :
      splitLoop fuel conn avail hb tb cb w =
      (buffer <- append_slice hb cb ;;
       buffer <- append_slice buffer tb ;;
       writePart conn buffer) w).
    { destruct fuel; simpl;
        destruct (Z.ltb_spec avail (lenZ cb)); try lia;
        destruct (Z.ltb_spec 0 (lenZ cb)); try lia; reflexivity. }
    rewrite Hcode.
    rewrite (bind_val _ E1), (bind_val _ E2). exact E3. }
  split; [now rewrite Htr3, (ap_trace Ap2), (ap_trace Ap1)|].
  split; [now rewrite Hp3, (ap_pool Ap2), (ap_pool Ap1)|].
  split.
  { rewrite Hn3.
    destruct (ap_where Ap1) as [(_ & _ & _ & En1)|(_ & _ & En1)];
    destruct (ap_where Ap2) as [(_ & _ & _ & En2)|(_ & _ & En2)]; lia. }
  split; [now rewrite Hnow3, (ap_now Ap2), (ap_now Ap1)|].
  now rewrite Henv3, (ap_env Ap2), (ap_env Ap1).
Qed.

Lemma splitLoop_nothing (fuel : nat) (conn : netConn) (avail : Z)
  (hb tb cb : slice) (w : world) :
  0 <= avail -> len cb = 0%nat ->
  splitLoop fuel conn avail hb tb cb w = Val None w.
Proof.
  intros Hav Hlen. unfold lenZ.
  destruct fuel; simpl; unfold lenZ; rewrite Hlen; simpl;
    destruct (Z.ltb_spec avail 0); try lia; reflexivity.
Qed.

(** ** The whole loop *)

Lemma read_length (w : world) (s : slice) : length (read w s) = len s.
Proof. apply length_load. Qed.

Lemma read_advance (w : world) (cb : slice) (avail : Z) :
  0 <= avail ->
  read w (advance cb avail) = skipn (Z.to_nat avail) (read w cb).
Proof.
  intros Hav. unfold read, advance.
  replace (Z.to_nat (lenZ cb - avail)) with (len cb - Z.to_nat avail)%nat
    by (unfold lenZ; lia).
  apply load_suffix.
Qed.

Lemma grown_pool_ok (w w' : world) :
  pool w' = pool w -> (next w <= next w')%nat -> pool_ok w -> pool_ok w'.
Proof.
  intros Hp Hn (Hnd & Hlt). split; rewrite Hp; [exact Hnd|].
  eapply Forall_impl; [|exact Hlt]. simpl. intros; lia.
Qed.

Lemma grown_owned (a : nat) (w w' : world) :
  pool w' = pool w -> (next w <= next w')%nat -> owned a w -> owned a w'.
Proof. intros Hp Hn (Ha & Hnot). split; [lia|now rewrite Hp]. Qed.

Lemma splitLoop_run (conn : netConn) (avail : Z) (hb tb : slice) (a : nat) :
  forall (fuel : nat) (cb : slice) (w : world),
  pool_ok w -> owned a w -> arr hb = a -> arr tb = a -> arr cb = a ->
  0 <= avail -> (len cb <= cap cb)%nat ->
  (off hb + len hb + len cb <= off tb)%nat ->
  exists evs o w',
    split_run conn (now w + forwardConnWriteTimeout) a (read w hb)
              (read w tb) (Z.to_nat avail) fuel (read w cb) evs o /\
    splitLoop fuel conn avail hb tb cb w =
      match o with Returned e => Val e w' | Exhausted => OutOfFuel w' end /\
    trace w' = trace w ++ evs /\ pool_ok w' /\ owned a w' /\
    now w' = now w /\ env w' = env w.
Proof.
  induction fuel as [|fuel IH]; intros cb w Hok Ha Hhb Htb Hcb Hav Hcap Hgeo.
  all: destruct (Nat.eq_dec (len cb) 0) as [Hz|Hnz].
  1, 3: (exists [], (Returned None), w;
         assert (Hnil : read w cb = [])
           by (apply length_zero_iff_nil; now rewrite read_length);
         rewrite Hnil; split; [constructor|];
         split; [now apply splitLoop_nothing|];
         rewrite app_nil_r; auto).
  all: destruct (Z_lt_le_dec avail (lenZ cb)) as [Hlt|Hle].
  2: remember 0%nat as fuel0 eqn:Ef0.
  4: remember (S fuel) as fuel0 eqn:Ef0.
  2, 4: (destruct (@splitLoop_last fuel0 conn avail hb tb cb a w
                     (proj1 Ha) Hhb Htb Hcb Hle
                     ltac:(unfold lenZ; lia) Hgeo)
           as (w' & E & Htr & Hp & Hn & Hnow & Henv);
         eexists _, (Returned _), w';
         split; [apply run_last;
                 [intros Hnil; apply (f_equal (@List.length ascii)) in Hnil;
                  rewrite read_length in Hnil; simpl in Hnil; lia
                 |rewrite read_length; unfold lenZ in Hle; lia
                 |apply writeOutcome_attempt]|];
         split; [exact E|]; split; [exact Htr|];
         split; [eapply grown_pool_ok; eassumption|];
         split; [eapply grown_owned; eassumption|]; auto).
  - (* out of fuel *)
    exists [], Exhausted, w. split.
    + apply run_exhausted. rewrite read_length. unfold lenZ in Hlt. lia.
    + split.
      * simpl. destruct (Z.ltb_spec avail (lenZ cb)); [reflexivity|lia].
      * rewrite app_nil_r. auto.
  - (* one more iteration *)
    destruct (@splitLoop_step fuel conn avail hb tb cb a w Hok Ha Hhb Htb Hcb
                (conj Hav Hlt) Hcap)
      as (g & p & w1 & w2 & Hg & Hp & Htr1 & Hnow1 & Henv1 & Htr2 & Hok2 &
          Ha2 & Hnow2 & Henv2 & Hrd2 & E).
    set (d := read w hb ++ firstn (Z.to_nat avail) (read w cb) ++ read w tb)
      in *.
    assert (Hlen : (Z.to_nat avail < length (read w cb))%nat)
      by (rewrite read_length; unfold lenZ in Hlt; lia).
    pose proof (writeOutcome_attempt conn w1 d) as Hwa.
    rewrite Hnow1 in Hwa.
    destruct (fst (writeOutcome conn w1 d)) as [e|] eqn:Ee.
    + exists (EvGet g :: snd (writeOutcome conn w1 d) ++ [EvPut p]),
        (Returned (Some e)), w2.
      split; [now apply run_failed|].
      split; [exact E|].
      split; [rewrite Htr2, Htr1, <- app_assoc; reflexivity|]. auto.
    + destruct (IH (advance cb avail) w2 Hok2 Ha2 Hhb Htb Hcb Hav)
        as (rest & o & w' & Hrun & E' & Htr' & Hok' & Ha' & Hnow' & Henv').
      { unfold advance, lenZ. simpl. lia. }
      { unfold advance, lenZ. simpl. lia. }
      rewrite read_advance in Hrun by exact Hav.
      rewrite (Hrd2 hb Hhb), (Hrd2 tb Htb), (Hrd2 cb Hcb), Hnow2 in Hrun.
      exists (EvGet g :: snd (writeOutcome conn w1 d) ++ EvPut p :: rest),
        o, w'.
      split; [now apply run_more|].
      split; [now rewrite E|].
      split.
      { rewrite Htr', Htr2, Htr1. rewrite <- !app_assoc. reflexivity. }
      split; [exact Hok'|]. split; [exact Ha'|].
      split; congruence.
Qed.

(** ** What a run of the loop writes *)

Lemma datagrams_app (l1 l2 : list event) :
  datagrams (l1 ++ l2) = datagrams l1 ++ datagrams l2.
Proof. unfold datagrams. apply flat_map_app. Qed.

Lemma contentRegion_fragment (H chunk T : bytes) :
  contentRegion (length H) (length T) (H ++ chunk ++ T) = chunk.
Proof.
  unfold contentRegion.
  rewrite skipn_app, skipn_all, Nat.sub_diag. simpl.
  rewrite !length_app.
  replace (length H + (length chunk + length T) - length H - length T)%nat
    with (length chunk + 0)%nat by lia.
  rewrite firstn_app_2. simpl. apply app_nil_r.
Qed.

(** The datagrams of one [writePart]. *)
Lemma write_attempt_datagrams (conn : netConn) (dl : Z) (d : bytes)
  (evs : list event) (e : error) :
  write_attempt conn dl d evs e ->
  (datagrams evs = [] /\ e <> None) \/ datagrams evs = [d].
Proof.
  intros Hwa. destruct Hwa; [left|right]; simpl; [|reflexivity].
  split; [reflexivity|discriminate].
Qed.

Lemma write_attempt_guarded (conn : netConn) (dl : Z) (d : bytes)
  (evs : list event) (e : error) :
  write_attempt conn dl d evs e -> guarded dl evs.
Proof.
  intros Hwa. destruct Hwa.
  - apply guarded_other; [discriminate|constructor].
  - apply guarded_write. constructor.
Qed.

Lemma write_attempt_pool_off (conn : netConn) (dl : Z) (d : bytes)
  (evs : list event) (e : error) (a : nat) :
  write_attempt conn dl d evs e -> Forall (pool_event_off a) evs.
Proof. intros Hwa. destruct Hwa; repeat constructor. Qed.

Lemma guarded_app (dl : Z) (l1 l2 : list event) :
  guarded dl l1 -> guarded dl l2 -> guarded dl (l1 ++ l2).
Proof.
  intros H1 H2. induction H1; simpl.
  - exact H2.
  - now apply guarded_write.
  - now apply guarded_other.
Qed.

Lemma split_run_fragments (conn : netConn) (dl : Z) (a : nat) (H T : bytes)
  (avail fuel : nat) (R : bytes) (evs : list event) (o : outcome) :
  split_run conn dl a H T avail fuel R evs o ->
  Forall (fragment_of H T avail) (datagrams evs) /\
  exists rest,
    R = List.concat (map (contentRegion (length H) (length T)) (datagrams evs))
        ++ rest /\
    (o = Returned None -> rest = []).
Proof.
  induction 1 as [fuel|fuel R evs e Hne Hlen Hwa|R Hlen
                  |fuel R g p evs e Hlen Hg Hp Hwa
                  |fuel R g p evs rest o Hlen Hg Hp Hwa Hrun IH].
  - split; [constructor|]. exists []. auto.
  - destruct (write_attempt_datagrams Hwa) as [(E & He)|E]; rewrite E.
    + split; [constructor|]. exists R. split; [reflexivity|].
      intros Ho. injection Ho as ->. contradiction.
    + split; [repeat constructor; now exists R|].
      exists []. simpl. rewrite contentRegion_fragment, !app_nil_r. auto.
  - split; [constructor|]. exists R. split; [reflexivity|discriminate].
  - change (EvGet g :: evs ++ [EvPut p])
      with ([EvGet g] ++ evs ++ [EvPut p]).
    rewrite !datagrams_app. simpl. rewrite app_nil_r.
    destruct (write_attempt_datagrams Hwa) as [(E & He)|E]; rewrite E.
    + split; [constructor|]. exists R. split; [reflexivity|discriminate].
    + split.
      * repeat constructor. exists (firstn avail R). split; [reflexivity|].
        apply firstn_le_length.
      * exists (skipn avail R). simpl.
        rewrite contentRegion_fragment, app_nil_r, firstn_skipn.
        split; [reflexivity|discriminate].
  - destruct IH as (Hall & rest' & Erest & Hdone).
    change (EvGet g :: evs ++ EvPut p :: rest)
      with ([EvGet g] ++ evs ++ [EvPut p] ++ rest).
    rewrite !datagrams_app. simpl.
    destruct (write_attempt_datagrams Hwa) as [(E & He)|E];
      [contradiction He; reflexivity|].
    rewrite E. split.
    + simpl. constructor; [|exact Hall].
      exists (firstn avail R). split; [reflexivity|apply firstn_le_length].
    + exists rest'. simpl. rewrite contentRegion_fragment.
      split; [|exact Hdone].
      rewrite <- app_assoc, <- Erest. symmetry. apply firstn_skipn.
Qed.

(** With chunks of at least one byte the loop needs no more iterations than
    the content has bytes. *)
Lemma split_run_returns (conn : netConn) (dl : Z) (a : nat) (H T : bytes)
  (avail fuel : nat) (R : bytes) (evs : list event) (o : outcome) :
  split_run conn dl a H T avail fuel R evs o ->
  (0 < avail)%nat -> (length R <= fuel)%nat -> o <> Exhausted.
Proof.
  induction 1; intros Hav Hfuel; try discriminate.
  - lia.
  - apply IHsplit_run; [exact Hav|]. rewrite length_skipn. lia.
Qed.

Lemma split_run_guarded (conn : netConn) (dl : Z) (a : nat) (H T : bytes)
  (avail fuel : nat) (R : bytes) (evs : list event) (o : outcome) :
  split_run conn dl a H T avail fuel R evs o -> guarded dl evs.
Proof.
  induction 1.
  - constructor.
  - eapply write_attempt_guarded; eassumption.
  - constructor.
  - apply guarded_other; [discriminate|].
    apply guarded_app; [eapply write_attempt_guarded; eassumption|].
    apply guarded_other; [discriminate|constructor].
  - apply guarded_other; [discriminate|].
    apply guarded_app; [eapply write_attempt_guarded; eassumption|].
    apply guarded_other; [discriminate|assumption].
Qed.

Lemma split_run_pool_off (conn : netConn) (dl : Z) (a : nat) (H T : bytes)
  (avail fuel : nat) (R : bytes) (evs : list event) (o : outcome) :
  split_run conn dl a H T avail fuel R evs o ->
  Forall (pool_event_off a) evs.
Proof.
  induction 1.
  - constructor.
  - eapply write_attempt_pool_off; eassumption.
  - constructor.
  - constructor; [assumption|]. apply Forall_app. split.
    + eapply write_attempt_pool_off; eassumption.
    + repeat constructor. assumption.
  - constructor; [assumption|]. apply Forall_app. split.
    + eapply write_attempt_pool_off; eassumption.
    + constructor; assumption.
Qed.

(** ** [splitParts] *)

Lemma load_middle (c : store_t) (s : slice) (n k cp : nat) :
  (n + k <= len s)%nat ->
  load c (Slice (arr s) (off s + n) k cp) = firstn k (skipn n (load c s)).
Proof.
  intros Hnk. unfold load. simpl.
  rewrite skipn_map, skipn_seq, firstn_map, firstn_seq_le by lia.
  reflexivity.
Qed.

Lemma msg_regions (w : world) (m : bufferWithIdx) :
  msg_ok m ->
  read w (buffer m) = msgHeader w m ++ msgContent w m ++ msgTrailer w m /\
  length (msgHeader w m) = Z.to_nat (headerIdx m) /\
  length (msgContent w m) = Z.to_nat (contentIdx m - headerIdx m) /\
  length (msgTrailer w m) = (len (buffer m) - Z.to_nat (contentIdx m))%nat.
Proof.
  intros [H0 H1 H2 H3 _]. unfold lenZ in H2.
  unfold msgHeader, msgContent, msgTrailer.
  set (B := read w (buffer m)).
  assert (HB : length B = len (buffer m)) by apply read_length.
  split.
  - rewrite <- (firstn_skipn (Z.to_nat (headerIdx m)) B) at 1. f_equal.
    rewrite <- (firstn_skipn (Z.to_nat (contentIdx m - headerIdx m))
                  (skipn (Z.to_nat (headerIdx m)) B)) at 1.
    f_equal. rewrite skipn_skipn. f_equal. lia.
  - rewrite length_firstn, length_firstn, !length_skipn, HB. lia.
Qed.

Lemma splitParts_slow (fuel : nat) (f : syslogForwarder) (conn : netConn)
  (m : bufferWithIdx) (w : world) :
  msg_ok m -> GoInt.in_range (messageLimit f) ->
  0 < messageLimit f < lenZ (buffer m) ->
  splitParts fuel f conn m w =
    splitLoop fuel conn
      (availableFor (messageLimit f) (msgHeader w m) (msgTrailer w m))
      (headerBufOf m) (trailerBufOf m) (contentBufOf m) w /\
  read w (headerBufOf m) = msgHeader w m /\
  read w (trailerBufOf m) = msgTrailer w m /\
  read w (contentBufOf m) = msgContent w m.
Proof.
  intros Hm Hrange Hlim.
  destruct (msg_regions w Hm) as (HB & LH & LC & LT).
  pose proof Hm as [H0 H1 H2 H3 H4]. unfold lenZ in H2.
  assert (Rh : read w (headerBufOf m) = msgHeader w m).
  { unfold read, headerBufOf, msgHeader. rewrite Z.sub_0_r. simpl Z.to_nat.
    rewrite Nat.add_0_r. apply load_prefix. lia. }
  assert (Rt : read w (trailerBufOf m) = msgTrailer w m).
  { unfold read, trailerBufOf, msgTrailer.
    replace (Z.to_nat (lenZ (buffer m) - contentIdx m))
      with (len (buffer m) - Z.to_nat (contentIdx m))%nat
      by (unfold lenZ; lia).
    apply load_suffix. }
  assert (Rc : read w (contentBufOf m) = msgContent w m).
  { unfold read, contentBufOf, msgContent. apply load_middle. lia. }
  split; [|auto].
  unfold splitParts.
  destruct (Z.leb_spec (messageLimit f) 0); [lia|].
  destruct (Z.leb_spec (lenZ (buffer m)) (messageLimit f)); [lia|].
  change (false || false) with false. cbv iota.
  unfold slice_to, slice_from.
  rewrite !slice_range_ok by (unfold lenZ; lia).
  unfold slicing, bind, ret.
  fold (headerBufOf m) (trailerBufOf m) (contentBufOf m).
  unfold availableFor. rewrite LH, LT.
  assert (El : lenZ (headerBufOf m) + lenZ (trailerBufOf m) =
               Z.of_nat (Z.to_nat (headerIdx m)) +
               Z.of_nat (len (buffer m) - Z.to_nat (contentIdx m))).
  { unfold lenZ, headerBufOf, trailerBufOf. simpl. unfold lenZ. lia. }
  rewrite add_id by (unfold GoInt.in_range; rewrite El; lia).
  rewrite El.
  rewrite sub_id by (unfold GoInt.in_range in *; lia).
  reflexivity.
Qed.

Lemma splitParts_run (fuel : nat) (f : syslogForwarder) (conn : netConn)
  (m : bufferWithIdx) (w : world) :
  pool_ok w -> owned (arr (buffer m)) w -> msg_ok m ->
  GoInt.in_range (messageLimit f) ->
  messageLimit f <= 0 \/ lenZ (buffer m) <= messageLimit f \/
  0 <= availableFor (messageLimit f) (msgHeader w m) (msgTrailer w m) ->
  exists evs o w',
    parts_run conn (now w + forwardConnWriteTimeout) (arr (buffer m))
              (messageLimit f) (msgHeader w m) (msgContent w m)
              (msgTrailer w m) fuel evs o /\
    splitParts fuel f conn m w =
      match o with Returned e => Val e w' | Exhausted => OutOfFuel w' end /\
    trace w' = trace w ++ evs /\ pool_ok w' /\ owned (arr (buffer m)) w' /\
    now w' = now w /\ env w' = env w.
Proof.
  intros Hok Ha Hm Hrange Hcase.
  destruct (msg_regions w Hm) as (HB & LH & LC & LT).
  pose proof Hm as [H0 H1 H2 H3 H4]. unfold lenZ in H2.
  assert (HlenB : Z.of_nat (length (msgHeader w m ++ msgContent w m ++
                                   msgTrailer w m)) = lenZ (buffer m)).
  { rewrite <- HB, read_length. reflexivity. }
  destruct (Z_le_gt_dec (messageLimit f) 0) as [Hle0|Hpos];
    [|destruct (Z_le_gt_dec (lenZ (buffer m)) (messageLimit f))
        as [Hfits|Hbig]].
  1, 2: (* the message is written whole *)
    (destruct (writePart_spec conn (buffer m) w)
       as (w' & E & Htr & Hc & Hn & Hp & Hnow & Henv);
     eexists _, (Returned _), w'; split;
     [apply parts_whole;
      [rewrite HlenB; lia|rewrite <- HB; apply writeOutcome_attempt]|];
     split;
     [unfold splitParts;
      replace ((messageLimit f <=? 0) || (lenZ (buffer m) <=? messageLimit f))
        with true by (symmetry; apply orb_true_iff; lia);
      exact E|];
     split; [exact Htr|];
     split; [eapply grown_pool_ok; [exact Hp|lia|exact Hok]|];
     split; [eapply grown_owned; [exact Hp|lia|exact Ha]|]; auto).
  (* the content is split *)
  destruct Hcase as [Hc|[Hc|Hav]]; [lia|lia|].
  destruct (@splitParts_slow fuel f conn m w Hm Hrange ltac:(lia))
    as (E & Rh & Rt & Rc).
  destruct (@splitLoop_run conn
              (availableFor (messageLimit f) (msgHeader w m)
                            (msgTrailer w m))
              (headerBufOf m) (trailerBufOf m) (arr (buffer m)) fuel
              (contentBufOf m) w Hok Ha eq_refl eq_refl eq_refl Hav)
    as (evs & o & w' & Hrun & E' & Hrest).
  { unfold contentBufOf. simpl. lia. }
  { unfold headerBufOf, contentBufOf, trailerBufOf. simpl. lia. }
  rewrite Rh, Rt, Rc in Hrun.
  exists evs, o, w'. split; [|split; [now rewrite E|exact Hrest]].
  apply parts_split; [rewrite HlenB; lia|exact Hav|exact Hrun].
Qed.

(** ** The limit does not leave room for content *)

(** A header and a trailer that fill the limit exactly: every iteration
    writes them around an empty chunk and makes no progress. *)
Lemma splitLoop_spins (conn : netConn) (hb tb : slice) (a : nat) :
  forall (fuel : nat) (cb : slice) (w : world),
  reliable (env w) -> pool_ok w -> owned a w ->
  arr hb = a -> arr tb = a -> arr cb = a ->
  (0 < len cb <= cap cb)%nat ->
  exists w' evs,
    splitLoop fuel conn 0 hb tb cb w = OutOfFuel w' /\
    trace w' = trace w ++ evs /\
    datagrams evs = repeat (read w hb ++ read w tb) fuel.
Proof.
  induction fuel as [|fuel IH]; intros cb w Hrel Hok Ha Hhb Htb Hcb Hlen.
  - exists w, []. split; [|split; [now rewrite app_nil_r|reflexivity]].
    simpl. destruct (Z.ltb_spec 0 (lenZ cb)); [reflexivity|].
    unfold lenZ in *. lia.
  - destruct (@splitLoop_step fuel conn 0 hb tb cb a w Hok Ha Hhb Htb Hcb
                ltac:(unfold lenZ; lia) ltac:(lia))
      as (g & p & w1 & w2 & Hg & Hp & Htr1 & Hnow1 & Henv1 & Htr2 & Hok2 &
          Ha2 & Hnow2 & Henv2 & Hrd2 & E).
    assert (Hd : read w hb ++ firstn (Z.to_nat 0) (read w cb) ++ read w tb
                 = read w hb ++ read w tb) by reflexivity.
    rewrite Hd in Htr2, E. clear Hd.
    set (d := read w hb ++ read w tb) in *.
    assert (Hout : writeOutcome conn w1 d =
                   (None, [EvSetWriteDeadline (connId conn)
                             (now w1 + forwardConnWriteTimeout);
                           EvWrite (connId conn) d
                             (Z.of_nat (length d)) None])).
    { unfold writeOutcome. rewrite Henv1.
      destruct (Hrel (length (trace w1)) d) as (-> & _).
      destruct (Hrel (S (length (trace w1))) d) as (_ & ->). simpl.
      now rewrite Z.ltb_irrefl. }
    rewrite Hout in E, Htr2. cbn [fst snd] in E, Htr2.
    destruct (IH (advance cb 0) w2) as (w' & evs & E' & Htr' & Hd');
      try assumption.
    { now rewrite Henv2. }
    { unfold advance, lenZ. simpl. lia. }
    exists w'. eexists. split; [now rewrite E|].
    split.
    + rewrite Htr', Htr2, Htr1. rewrite <- !app_assoc. reflexivity.
    + simpl. rewrite Hd'. rewrite (Hrd2 hb Hhb), (Hrd2 tb Htb). reflexivity.
Qed.

Lemma splitParts_spins (fuel : nat) (f : syslogForwarder) (conn : netConn)
  (m : bufferWithIdx) (w : world) :
  reliable (env w) -> pool_ok w -> owned (arr (buffer m)) w -> msg_ok m ->
  0 < messageLimit f < lenZ (buffer m) -> messageLimit f < 2 ^ 63 ->
  availableFor (messageLimit f) (msgHeader w m) (msgTrailer w m) = 0 ->
  exists w' evs,
    splitParts fuel f conn m w = OutOfFuel w' /\
    trace w' = trace w ++ evs /\
    datagrams evs = repeat (msgHeader w m ++ msgTrailer w m) fuel.
Proof.
  intros Hrel Hok Ha Hm Hlim Hmax Hav.
  destruct (@splitParts_slow fuel f conn m w Hm
              ltac:(unfold GoInt.in_range; lia) Hlim)
    as (E & Rh & Rt & Rc).
  rewrite E, Hav, <- Rh, <- Rt.
  apply splitLoop_spins with (a := arr (buffer m)); auto.
  destruct (msg_regions w Hm) as (HB & LH & LC & LT).
  pose proof Hm as [H0 H1 H2 H3 H4].
  unfold availableFor in Hav. rewrite LH, LT in Hav.
  unfold contentBufOf, lenZ in *. simpl. lia.
Qed.

(** A header and a trailer that exceed the limit: the chunk expression
    [contentBuf[:availableSz]] has a negative bound. *)
Lemma splitParts_panics (fuel : nat) (f : syslogForwarder) (conn : netConn)
  (m : bufferWithIdx) (w : world) :
  pool_ok w -> owned (arr (buffer m)) w -> msg_ok m ->
  0 < messageLimit f < lenZ (buffer m) -> messageLimit f < 2 ^ 63 ->
  availableFor (messageLimit f) (msgHeader w m) (msgTrailer w m) < 0 ->
  exists w' g,
    splitParts (S fuel) f conn m w = Panic "slice bounds out of range" w' /\
    trace w' = trace w ++ [EvGet g].
Proof.
  intros Hok Ha Hm Hlim Hmax Hav.
  destruct (@splitParts_slow (S fuel) f conn m w Hm
              ltac:(unfold GoInt.in_range; lia) Hlim)
    as (E & Rh & Rt & Rc).
  rewrite E.
  set (avail := availableFor _ _ _) in *.
  unfold splitLoop; fold splitLoop.
  destruct (Z.ltb_spec avail (lenZ (contentBufOf m))) as [_|Hc];
    [|unfold lenZ in Hc; lia].
  destruct (pool_Get_spec Hok)
    as (g & w0 & EGet & Htr0 & Hok0 & Hg0 & Hown0 & _).
  destruct (Hown0 _ Ha) as (Ha0 & Hneg).
  rewrite (bind_val _ EGet).
  rewrite slice_to_zero. unfold slicing at 1.
  set (b0 := Slice (arr g) (off g + 0) 0 (cap g - 0)).
  rewrite (bind_val _ (eq_refl : ret b0 w0 = Val b0 w0)).
  destruct (@append_slice_step (arr (buffer m)) b0 (headerBufOf m) w0
              Hok0 Ha0 Hg0 (not_eq_sym Hneg) eq_refl)
    as (b1 & w1 & E1 & _ & _ & _ & _ & _ & _ & Htr1 & _).
  rewrite (bind_val _ E1).
  unfold slice_to. rewrite slice_range_panics by lia.
  exists w1, g. split; [reflexivity|congruence].
Qed.

(** ** [process] *)

Lemma parts_run_guarded (conn : netConn) (dl : Z) (a : nat) (limit : Z)
  (H C T : bytes) (fuel : nat) (evs : list event) (o : outcome) :
  parts_run conn dl a limit H C T fuel evs o -> guarded dl evs.
Proof.
  intros [evs' e _ Hwa|evs' o' _ _ Hrun].
  - eapply write_attempt_guarded; eassumption.
  - eapply split_run_guarded; eassumption.
Qed.

Lemma parts_run_pool_off (conn : netConn) (dl : Z) (a : nat) (limit : Z)
  (H C T : bytes) (fuel : nat) (evs : list event) (o : outcome) :
  parts_run conn dl a limit H C T fuel evs o -> Forall (pool_event_off a) evs.
Proof.
  intros [evs' e _ Hwa|evs' o' _ _ Hrun].
  - eapply write_attempt_pool_off; eassumption.
  - eapply split_run_pool_off; eassumption.
Qed.

Lemma process_run (fuel : nat) (f : syslogForwarder) (conn : netConn)
  (m : bufferWithIdx) (w : world) :
  pool_ok w -> owned (arr (buffer m)) w -> msg_ok m ->
  GoInt.in_range (messageLimit f) ->
  messageLimit f <= 0 \/ lenZ (buffer m) <= messageLimit f \/
  0 <= availableFor (messageLimit f) (msgHeader w m) (msgTrailer w m) ->
  exists evs o w',
    parts_run conn (now w + forwardConnWriteTimeout) (arr (buffer m))
              (messageLimit f) (msgHeader w m) (msgContent w m)
              (msgTrailer w m) fuel evs o /\
    match o with
    | Returned e =>
        process fuel f conn m w = Val e w' /\
        trace w' = trace w ++ evs ++ [EvPut (buffer m)] /\
        pool_ok w' /\ In (buffer m) (pool w')
    | Exhausted =>
        process fuel f conn m w = OutOfFuel w' /\
        trace w' = trace w ++ evs
    end.
Proof.
  intros Hok Ha Hm Hrange Hcase.
  destruct (@splitParts_run fuel f conn m w Hok Ha Hm Hrange Hcase)
    as (evs & o & w1 & Hrun & E & Htr & Hok1 & Ha1 & Hnow & Henv).
  destruct o as [e|].
  - exists evs, (Returned e), (world_of (pool_Put (buffer m) w1)).
    split; [exact Hrun|]. split.
    + unfold process. rewrite (bind_val _ E). reflexivity.
    + split; [simpl; now rewrite Htr, <- app_assoc|].
      split; [now apply pool_Put_ok|]. simpl. now left.
  - exists evs, Exhausted, w1. split; [exact Hrun|]. split; [|exact Htr].
    unfold process. now rewrite (bind_fuel _ E).
Qed.

(** *** [process] where the limit leaves no room for content *)

(** Header and trailer fill the limit: [process] stays in the loop of
    [splitParts] and does not reach its [Put]. *)
Lemma process_spins (fuel : nat) (f : syslogForwarder) (conn : netConn)
  (m : bufferWithIdx) (w : world) :
  reliable (env w) -> pool_ok w -> owned (arr (buffer m)) w -> msg_ok m ->
  0 < messageLimit f < lenZ (buffer m) -> messageLimit f < 2 ^ 63 ->
  availableFor (messageLimit f) (msgHeader w m) (msgTrailer w m) = 0 ->
  exists w' evs,
    process fuel f conn m w = OutOfFuel w' /\
    trace w' = trace w ++ evs /\
    Forall (pool_event_off (arr (buffer m))) evs /\
    datagrams evs = repeat (msgHeader w m ++ msgTrailer w m) fuel.
Proof.
  intros Hrel Hok Ha Hm Hlim Hmax Hav.
  destruct (@splitParts_spins fuel f conn m w Hrel Hok Ha Hm Hlim Hmax Hav)
    as (w' & evs & E & Htr & Hd).
  destruct (@splitParts_run fuel f conn m w Hok Ha Hm
              ltac:(unfold GoInt.in_range; lia) ltac:(right; right; lia))
    as (evs1 & o & w1 & Hrun & E1 & Htr1 & _).
  rewrite E in E1. destruct o as [e|]; [discriminate|].
  injection E1 as <-. rewrite Htr in Htr1. apply app_inv_head in Htr1.
  subst evs1.
  exists w', evs. split; [unfold process; now rewrite (bind_fuel _ E)|].
  split; [exact Htr|]. split; [|exact Hd].
  eapply parts_run_pool_off. exact Hrun.
Qed.

(** Header and trailer exceed the limit: the panic of [splitParts] is the
    panic of [process], before its [Put]. *)
Lemma process_panics (fuel : nat) (f : syslogForwarder) (conn : netConn)
  (m : bufferWithIdx) (w : world) :
  pool_ok w -> owned (arr (buffer m)) w -> msg_ok m ->
  0 < messageLimit f < lenZ (buffer m) -> messageLimit f < 2 ^ 63 ->
  availableFor (messageLimit f) (msgHeader w m) (msgTrailer w m) < 0 ->
  exists w' g,
    process (S fuel) f conn m w = Panic "slice bounds out of range" w' /\
    trace w' = trace w ++ [EvGet g].
Proof.
  intros Hok Ha Hm Hlim Hmax Hav.
  destruct (@splitParts_panics fuel f conn m w Hok Ha Hm Hlim Hmax Hav)
    as (w' & g & E & Htr).
  exists w', g. split; [unfold process; now rewrite (bind_panic _ E)|exact Htr].
Qed.

(** Header and trailer exceed the limit: [splitParts] does not return. *)
Lemma splitParts_stuck (fuel : nat) (f : syslogForwarder) (conn : netConn)
  (m : bufferWithIdx) (w : world) :
  pool_ok w -> owned (arr (buffer m)) w -> msg_ok m ->
  0 < messageLimit f < lenZ (buffer m) -> messageLimit f < 2 ^ 63 ->
  availableFor (messageLimit f) (msgHeader w m) (msgTrailer w m) < 0 ->
  forall e w', splitParts fuel f conn m w <> Val e w'.
Proof.
  intros Hok Ha Hm Hlim Hmax Hav e w' E.
  destruct fuel as [|fuel].
  - destruct (@splitParts_slow 0 f conn m w Hm
                ltac:(unfold GoInt.in_range; lia) Hlim) as (E0 & _).
    rewrite E0 in E. cbn [splitLoop] in E.
    destruct (Z.ltb_spec
                (availableFor (messageLimit f) (msgHeader w m)
                              (msgTrailer w m))
                (lenZ (contentBufOf m))) as [_|Hge]; [discriminate E|].
    unfold lenZ in Hge. lia.
  - destruct (@splitParts_panics fuel f conn m w Hok Ha Hm Hlim Hmax Hav)
      as (w1 & g & Ep & _).
    rewrite Ep in E. discriminate E.
Qed.

(** A call of [process] that returns has put the buffer of the message
    back, as its last event. *)
Lemma process_returned (fuel : nat) (f : syslogForwarder) (conn : netConn)
  (m : bufferWithIdx) (w : world) (e : error) (w' : world) :
  pool_ok w -> owned (arr (buffer m)) w -> msg_ok m ->
  GoInt.in_range (messageLimit f) ->
  process fuel f conn m w = Val e w' ->
  exists evs,
    trace w' = trace w ++ evs ++ [EvPut (buffer m)] /\
    Forall (pool_event_off (arr (buffer m))) evs /\
    In (buffer m) (pool w').
Proof.
  intros Hok Ha Hm Hrange E.
  assert (Hcases :
            (messageLimit f <= 0 \/ lenZ (buffer m) <= messageLimit f \/
             0 <= availableFor (messageLimit f) (msgHeader w m)
                               (msgTrailer w m)) \/
            (0 < messageLimit f < lenZ (buffer m) /\
             availableFor (messageLimit f) (msgHeader w m)
                          (msgTrailer w m) < 0)) by lia.
  destruct Hcases as [Hcase|(Hlim & Hneg)].
  - destruct (@process_run fuel f conn m w Hok Ha Hm Hrange Hcase)
      as (evs & o & w1 & Hrun & Hres).
    destruct o as [e1|].
    + destruct Hres as (E1 & Htr & _ & Hin).
      rewrite E1 in E. injection E as -> ->.
      exists evs. split; [exact Htr|]. split; [|exact Hin].
      eapply parts_run_pool_off. exact Hrun.
    + destruct Hres as (E1 & _). rewrite E1 in E. discriminate E.
  - exfalso. unfold process, bind in E.
    destruct (splitParts fuel f conn m w) as [e1 w1| |] eqn:Es;
      try discriminate E.
    revert Es. apply splitParts_stuck; try assumption.
    unfold GoInt.in_range in Hrange. lia.
Qed.

(** ** Rendering *)

Lemma append_step (s : slice) (data : bytes) (w : world) :
  pool_ok w -> owned (arr s) w ->
  exists s' w',
    append s data w = Val s' w' /\
    read w' s' = read w s ++ data /\
    lenZ s' = lenZ s + Z.of_nat (length data) /\
    (len s' <= cap s')%nat /\
    pool_ok w' /\ owned (arr s') w' /\
    trace w' = trace w /\ now w' = now w /\ env w' = env w /\
    pool w' = pool w /\
    (forall t, (arr t < next w)%nat -> arr t <> arr s ->
               (read w' t = read w t /\ arr t <> arr s')) /\
    (next w <= next w')%nat.
Proof.
  intros Hok Hs.
  destruct (append_spec s data w (proj1 Hs)) as (s' & w' & E & Ap).
  destruct (appended_owned (arr s) Ap Hok Hs) as (Hok' & Hs' & _).
  exists s', w'. split; [exact E|].
  destruct Ap as [Hlen Hread Hwhere Hframe Hcap Htr Hpool Hnow Henv].
  split; [exact Hread|]. split; [unfold lenZ; lia|].
  repeat (split; [assumption|]).
  split; [|destruct Hwhere; lia].
  intros t Ht Hne. split; [apply Hframe; auto|].
  destruct Hwhere as [(E1 & _)|(E1 & _)]; rewrite E1; [assumption|lia].
Qed.

Lemma shortContainerId_eq (c : bytes) :
  (if containerIDTrimSize <? Z.of_nat (length c)
   then firstn (Z.to_nat containerIDTrimSize) c else c) = shortContainerId c.
Proof.
  unfold shortContainerId.
  destruct (Z.ltb_spec containerIDTrimSize (Z.of_nat (length c)));
    [reflexivity|].
  symmetry. apply firstn_all2. lia.
Qed.

(** Right-nested normal form of concatenations. *)
Ltac app_norm :=
  repeat first [rewrite <- app_assoc | rewrite <- app_comm_cons
               | rewrite app_nil_r | progress simpl].

(** One [append] of [render]: the accumulated facts about the buffer move
    from the world before to the world after. *)
Ltac render_append :=
  match goal with
  | Hok : pool_ok ?w, Ho : owned (arr ?s) ?w, Hr : read ?w ?s = _,
    Htr : trace ?w = _, Hnow : now ?w = _, Henv : env ?w = _
    |- context [bind (append ?s ?data) _ ?w] =>
      let s' := fresh "s" in
      let w' := fresh "w" in
      let E := fresh "E" in
      let Hr' := fresh "Hr" in
      let Hl' := fresh "Hl" in
      let Hc' := fresh "Hc" in
      let Hok' := fresh "Hok" in
      let Ho' := fresh "Ho" in
      let Htr' := fresh "Htr" in
      let Hnow' := fresh "Hnow" in
      let Henv' := fresh "Henv" in
      destruct (@append_step s data w Hok Ho)
        as (s' & w' & E & Hr' & Hl' & Hc' & Hok' & Ho' & Htr' & Hnow' &
            Henv' & _);
      rewrite (bind_val _ E);
      rewrite Hr in Hr'; rewrite Htr in Htr'; rewrite Hnow in Hnow';
      rewrite Henv in Henv';
      clear E Hok Ho Hr Htr Hnow Henv
  end.

Lemma render_spec (bk : syslogBackend) (loc : Location) (parts : rawLogParts)
  (appName processName : bytes) (w : world) :
  pool_ok w -> syslogLocation bk = Some loc ->
  match render bk parts appName processName w with
  | Val m w' => rendered bk loc parts appName processName w m w'
  | _ => False
  end.
Proof.
  intros Hok Hloc. unfold render.
  rewrite shortContainerId_eq, Hloc.
  destruct (pool_Get_spec Hok)
    as (g & w0 & EGet & Htr0 & Hok0 & Hg0 & _ & _ & _ & Hnow0 & Henv0 & _).
  rewrite (bind_val _ EGet), slice_to_zero. unfold slicing at 1.
  set (b0 := Slice (arr g) (off g + 0) 0 (cap g - 0)).
  rewrite (bind_val _ (eq_refl : ret b0 w0 = Val b0 w0)).
  assert (Hr0 : read w0 b0 = []) by reflexivity.
  change (owned (arr b0) w0) in Hg0.
  do 3 render_append.
  unfold stampIn at 1.
  match goal with
  | |- context [bind (ret ?x) ?k ?w] =>
      rewrite (bind_val k (eq_refl : ret x w = Val x w))
  end.
  do 9 render_append.
  (* headerIdx *)
  match goal with
  | Hr : read ?w ?s = _ |- context [lenZ ?s] =>
      assert (Hhdr : lenZ s = Z.of_nat (length (read w s)))
        by (unfold lenZ; now rewrite read_length);
      rewrite Hr in Hhdr
  end.
  do 3 render_append.
  unfold ret.
  constructor; cbn [buffer headerIdx contentIdx]; try assumption.
  - match goal with Hr : read _ _ = _ |- _ => rewrite Hr end.
    unfold syslogLine, syslogHeader, newline, b. app_norm. reflexivity.
  - rewrite Hhdr. f_equal. f_equal.
    unfold syslogHeader, b. app_norm. reflexivity.
  - now exists g.
Qed.

(** ** Fan-out to the channels *)

Lemma holds_grown (w w' : world) (line : bytes) (held : list slice) :
  pool w' = pool w -> (next w <= next w')%nat ->
  (forall s, In s held -> read w' s = read w s) ->
  holds w line held -> holds w' line held.
Proof.
  intros Hp Hn Hr (Hnd & Hall). split; [exact Hnd|].
  rewrite Forall_forall in *. intros s Hs.
  destruct (Hall s Hs) as (Ho & Hl). split.
  - eapply grown_owned; eassumption.
  - rewrite Hr; assumption.
Qed.

(** Taking a pooled buffer and copying the rendered line into it. *)
Lemma copy_step (buf : slice) (line : bytes) (held : list slice) (w : world) :
  pool_ok w -> holds w line held -> In buf held ->
  exists g copy w',
    (got <- pool_Get ;;
     chBuffer <- slicing (slice_to got 0) ;;
     append_slice chBuffer buf) w = Val copy w' /\
    trace w' = trace w ++ [EvGet g] /\ pool_ok w' /\
    holds w' line (held ++ [copy]) /\ now w' = now w /\ env w' = env w.
Proof.
  intros Hok (Hnd & Hall) Hbuf.
  rewrite Forall_forall in Hall.
  destruct (pool_Get_spec Hok)
    as (g & w0 & EGet & Htr0 & Hok0 & Hg0 & Hown0 & Hrd0 & Hnx0 & Hnow0 &
        Henv0 & _).
  set (b0 := Slice (arr g) (off g + 0) 0 (cap g - 0)).
  change (owned (arr b0) w0) in Hg0.
  destruct (@append_step b0 (read w0 buf) w0 Hok0 Hg0)
    as (copy & w1 & E1 & Hr1 & _ & _ & Hok1 & Ho1 & Htr1 & Hnow1 & Henv1 &
        Hp1 & Hfr1 & Hnx1).
  exists g, copy, w1. split.
  { rewrite (bind_val _ EGet), slice_to_zero. unfold slicing at 1.
    rewrite (bind_val _ (eq_refl : ret b0 w0 = Val b0 w0)). exact E1. }
  split; [congruence|]. split; [exact Hok1|].
  assert (Hheld : forall s, In s held ->
            owned (arr s) w1 /\ read w1 s = line /\ arr s <> arr copy).
  { intros s Hs. destruct (Hall s Hs) as (Ho & Hl).
    destruct (Hown0 _ Ho) as (Ho0 & Hne).
    destruct (Hfr1 s (proj1 Ho0) Hne) as (Hrs & Hne1).
    split; [eapply grown_owned; eassumption|]. split; [|exact Hne1].
    rewrite Hrs, Hrd0; [exact Hl|apply Ho]. }
  split; [|split; congruence].
  split.
  - rewrite map_app. simpl. apply NoDup_app; [exact Hnd| |].
    + repeat constructor. intros [].
    + intros a Ha [<-|[]]. apply in_map_iff in Ha as (s & Es & Hs).
      destruct (Hheld s Hs) as (_ & _ & Hne). congruence.
  - apply Forall_app. split.
    + apply Forall_forall. intros s Hs.
      destruct (Hheld s Hs) as (Ho & Hl & _). auto.
    + constructor; [|constructor]. split; [exact Ho1|].
      rewrite Hr1. simpl. destruct (Hall buf Hbuf) as (Ho & Hl).
      rewrite Hrd0; [exact Hl|apply Ho].
Qed.

Lemma noticeAt_timer (tm : option timer) (t : Z) :
  tm <> None -> snd (noticeAt tm t) <> None.
Proof.
  intros Htm. destruct tm as [tmr|]; [|contradiction]. simpl.
  destruct (timer_ready tmr t); discriminate.
Qed.

Lemma notifyDrop_spec (tm : option timer) (w : world) :
  tm <> None ->
  exists w',
    notifyDrop tm w = Val (snd (noticeAt tm (now w))) w' /\
    trace w' = trace w ++ fst (noticeAt tm (now w)) /\ same_state w w'.
Proof.
  intros Htm. destruct tm as [tmr|]; [|contradiction].
  unfold notifyDrop, noticeAt, bind, get_world.
  destruct (timer_ready tmr (now w)).
  - eexists. split; [reflexivity|]. split; [reflexivity|]. repeat split.
  - exists w. split; [reflexivity|]. simpl. rewrite app_nil_r.
    repeat split.
Qed.

(** The outer [select] on one channel. *)
Lemma offer_spec (i : nat) (m : bufferWithIdx) (ch : chan)
  (tm : option timer) (w : world) :
  tm <> None ->
  let notice := if chan_ready ch then ([], tm) else noticeAt tm (now w) in
  exists w',
    (if chan_ready ch then
       modify (emit (EvSend i m true)) ;;;
       ret (chan_push m ch, tm)
     else
       modify (emit (EvSend i m false)) ;;;
       tm' <- notifyDrop tm ;;
       ret (ch, tm')) w =
      Val (if chan_ready ch then chan_push m ch else ch, snd notice) w' /\
    trace w' = trace w ++ EvSend i m (chan_ready ch) :: fst notice /\
    same_state w w' /\ snd notice <> None.
Proof.
  intros Htm notice. unfold notice. clear notice.
  destruct (chan_ready ch).
  - eexists. split; [reflexivity|]. split; [reflexivity|].
    split; [repeat split|exact Htm].
  - destruct (@notifyDrop_spec tm (emit (EvSend i m false) w) Htm)
      as (w' & E & Htr & Hsame).
    exists w'. split.
    + unfold bind at 1. unfold modify.
      rewrite (bind_val _ E). reflexivity.
    + split; [simpl in Htr; now rewrite Htr, <- app_assoc|].
      split; [|now apply noticeAt_timer].
      destruct Hsame as (H1 & H2 & H3 & H4 & H5). repeat split; assumption.
Qed.

Lemma holds_same_state (w w' : world) (line : bytes) (held : list slice) :
  same_state w w' -> holds w line held -> holds w' line held.
Proof.
  intros (Hc & Hn & Hp & _) Hh.
  eapply holds_grown; [exact Hp|lia| |exact Hh].
  intros s _. unfold read. now rewrite Hc.
Qed.

Lemma pool_ok_same_state (w w' : world) :
  same_state w w' -> pool_ok w -> pool_ok w'.
Proof. intros (_ & Hn & Hp & _). apply grown_pool_ok; [exact Hp|lia]. Qed.

Lemma fanOut_spec (N : nat) (buf : slice) (hIdx cIdx : Z) (line : bytes) :
  forall (chs : list chan) (i : nat) (tm : option timer)
         (held : list slice) (w : world),
  pool_ok w -> holds w line held -> In buf held -> tm <> None ->
  exists chs' tm' w' evs,
    fanOut N i chs buf hIdx cIdx tm w = Val (chs', tm') w' /\
    trace w' = trace w ++ evs /\
    fanned N buf hIdx cIdx (now w) i chs tm evs chs' tm' /\
    pool_ok w' /\ holds w' line (held ++ copyBuffers N evs) /\
    now w' = now w /\ env w' = env w /\ tm' <> None.
Proof.
  induction chs as [|ch rest IH]; intros i tm held w Hok Hheld Hbuf Htm.
  - exists [], tm, w, []. cbn [fanOut copyBuffers flat_map].
    rewrite !app_nil_r.
    split; [reflexivity|]. split; [reflexivity|].
    split; [constructor|]. auto.
  - cbn [fanOut].
    destruct (Nat.eqb_spec i (N - 1)) as [Hi|Hi].
    + (* the last channel takes the rendered buffer *)
      set (m := BufferWithIdx buf hIdx cIdx).
      rewrite (bind_val _ (eq_refl : ret buf w = Val buf w)).
      destruct (@offer_spec i m ch tm w Htm) as (w1 & E1 & Htr1 & Hs1 & Htm1).
      rewrite (bind_val _ E1). cbn [fst snd].
      set (notice := if chan_ready ch then ([], tm) else noticeAt tm (now w))
        in *.
      destruct (IH (S i) (snd notice) held w1)
        as (chs' & tm' & w' & evs & E & Htr & Hfan & Hok' & Hh' & Hnow' &
            Henv' & Htm'); auto.
      { eapply pool_ok_same_state; eassumption. }
      { eapply holds_same_state; eassumption. }
      destruct Hs1 as (_ & _ & _ & Hnow1 & Henv1).
      rewrite Hnow1 in Hfan.
      eexists _, tm', w', _. split; [rewrite (bind_val _ E); reflexivity|].
      split; [rewrite Htr, Htr1, <- app_assoc; reflexivity|].
      split; [apply fanned_last; [exact Hi|exact Hfan]|].
      split; [exact Hok'|]. split.
      { unfold copyBuffers. simpl. rewrite Hi, Nat.eqb_refl. simpl.
        rewrite flat_map_app.
        replace (flat_map _ (fst notice)) with (@nil slice); [exact Hh'|].
        unfold notice, noticeAt. destruct (chan_ready ch); [reflexivity|].
        destruct tm as [tmr|]; [|reflexivity].
        destruct (timer_ready tmr (now w)); reflexivity. }
      split; [congruence|]. split; [congruence|exact Htm'].
    + (* any other channel takes a copy in a pooled buffer *)
      destruct (@copy_step buf line held w Hok Hheld Hbuf)
        as (g & copy & w0 & E0 & Htr0 & Hok0 & Hh0 & Hnow0 & Henv0).
      set (m := BufferWithIdx copy hIdx cIdx).
      rewrite (bind_val _ E0).
      destruct (@offer_spec i m ch tm w0 Htm)
        as (w1 & E1 & Htr1 & Hs1 & Htm1).
      rewrite (bind_val _ E1). cbn [fst snd].
      rewrite Hnow0 in *.
      set (notice := if chan_ready ch then ([], tm) else noticeAt tm (now w))
        in *.
      destruct (IH (S i) (snd notice) (held ++ [copy]) w1)
        as (chs' & tm' & w' & evs & E & Htr & Hfan & Hok' & Hh' & Hnow' &
            Henv' & Htm'); auto.
      { eapply pool_ok_same_state; eassumption. }
      { eapply holds_same_state; eassumption. }
      { apply in_app_iff. now left. }
      destruct Hs1 as (_ & _ & _ & Hnow1 & Henv1).
      rewrite Hnow1, Hnow0 in Hfan.
      eexists _, tm', w', _. split; [rewrite (bind_val _ E); reflexivity|].
      split.
      { rewrite Htr, Htr1, Htr0, <- !app_assoc. reflexivity. }
      split; [apply fanned_copy with (g := g); [exact Hi|exact Hfan]|].
      split; [exact Hok'|]. split.
      { unfold copyBuffers. simpl.
        destruct (Nat.eqb_spec i (N - 1)) as [|_]; [contradiction|].
        simpl. rewrite flat_map_app.
        replace (flat_map _ (fst notice)) with (@nil slice).
        - rewrite <- app_assoc in Hh'. exact Hh'.
        - unfold notice, noticeAt. destruct (chan_ready ch); [reflexivity|].
          destruct tm as [tmr|]; [|reflexivity].
          destruct (timer_ready tmr (now w)); reflexivity. }
      split; [congruence|]. split; [congruence|exact Htm'].
Qed.

(** ** [sendMessage] *)

Lemma sendMessage_spec (bk : syslogBackend) (loc : Location)
  (parts : rawLogParts) (appName processName container_ : bytes) (w : world) :
  pool_ok w -> syslogLocation bk = Some loc -> nextNotify bk <> None ->
  msgChans bk <> [] ->
  exists m w0 g evs chs' tm' w',
    render bk parts appName processName w = Val m w0 /\
    rendered bk loc parts appName processName w m w0 /\
    sendMessage bk parts appName processName container_ w =
      Val (SyslogBackend (syslogLocation bk) (syslogExtraStart bk)
                         (syslogExtraEnd bk) chs' tm') w' /\
    trace w' = trace w ++ EvGet g :: evs /\
    fanned (length (msgChans bk)) (buffer m) (headerIdx m) (contentIdx m)
           (now w) 0 (msgChans bk) (nextNotify bk) evs chs' tm' /\
    pool_ok w' /\
    holds w' (syslogLine loc parts appName processName (syslogExtraStart bk)
                         (syslogExtraEnd bk))
          (buffer m :: copyBuffers (length (msgChans bk)) evs) /\
    now w' = now w /\ env w' = env w /\ tm' <> None.
Proof.
  intros Hok Hloc Htm Hch.
  pose proof (@render_spec bk loc parts appName processName w Hok Hloc) as Hr.
  destruct (render bk parts appName processName w) as [m w0| |] eqn:Er;
    try contradiction.
  destruct Hr as [Hline Hh Hc Hcap (g & Htr0) Hok0 Ho0 Hnow0 Henv0].
  set (line := syslogLine loc parts appName processName (syslogExtraStart bk)
                          (syslogExtraEnd bk)) in *.
  destruct (@fanOut_spec (length (msgChans bk)) (buffer m) (headerIdx m)
              (contentIdx m) line (msgChans bk) 0 (nextNotify bk)
              [buffer m] w0 Hok0)
    as (chs' & tm' & w' & evs & E & Htr & Hfan & Hok' & Hh' & Hnow' & Henv' &
        Htm'); auto.
  { split; [repeat constructor; intros []|].
    constructor; [split; assumption|constructor]. }
  { now left. }
  exists m, w0, g, evs, chs', tm', w'.
  split; [reflexivity|]. split; [constructor; eauto|].
  split.
  { unfold sendMessage.
    destruct (Nat.eqb_spec (length (msgChans bk)) 0) as [Hz|_].
    - apply length_zero_iff_nil in Hz. contradiction.
    - rewrite (bind_val _ Er), (bind_val _ E). reflexivity. }
  split; [rewrite Htr, Htr0, <- app_assoc; reflexivity|].
  rewrite Hnow0 in Hfan.
  split; [exact Hfan|]. split; [exact Hok'|]. split; [exact Hh'|].
  split; [congruence|]. split; [congruence|exact Htm'].
Qed.

Lemma sendMessage_idle (bk : syslogBackend) (parts : rawLogParts)
  (appName processName container_ : bytes) (w : world) :
  msgChans bk = [] ->
  sendMessage bk parts appName processName container_ w = Val bk w.
Proof. intros E. unfold sendMessage. now rewrite E. Qed.

(** *** What the loop over the channels offers *)

Lemma fanned_sends (N : nat) (buf : slice) (hIdx cIdx t : Z) (i : nat)
  (chs : list chan) (tm : option timer) (evs : list event)
  (chs' : list chan) (tm' : option timer) :
  fanned N buf hIdx cIdx t i chs tm evs chs' tm' ->
  map (fun x => fst (fst x)) (sends evs) = seq i (length chs) /\
  Forall (fun x => headerIdx (snd (fst x)) = hIdx /\
                   contentIdx (snd (fst x)) = cIdx /\
                   (fst (fst x) = (N - 1)%nat -> buffer (snd (fst x)) = buf) /\
                   (fst (fst x) <> (N - 1)%nat ->
                    In (buffer (snd (fst x))) (copyBuffers N evs)))
         (sends evs) /\
  length (gets evs) = length (copyBuffers N evs) /\
  Forall2 offered chs chs' /\
  Forall2 (fun ch x => snd x = chan_ready ch) chs (sends evs).
Proof.
  assert (Hnote : forall ok tm0,
            sends (fst (if ok : bool then ([], tm0) else noticeAt tm0 t)) = []
            /\ gets (fst (if ok then ([], tm0) else noticeAt tm0 t)) = []
            /\ copyBuffers N (fst (if ok then ([], tm0)
                                   else noticeAt tm0 t)) = []).
  { intros [|] [tmr|]; simpl; auto. destruct (timer_ready tmr t); auto. }
  induction 1 as [i tm|i ch rest tm evs chs' tm' Hi m ok notice Hfan IH
                  |i ch rest tm g copy evs chs' tm' Hi m ok notice Hfan IH].
  - simpl. repeat split; constructor.
  - destruct IH as (Hidx & Hall & Hg & Hoff & Hok).
    destruct (Hnote ok tm) as (N1 & N2 & N3). fold notice in N1, N2, N3.
    unfold sends, gets, copyBuffers in *.
    cbn [flat_map]. rewrite !flat_map_app, N1, N2, N3.
    destruct (Nat.eqb_spec i (N - 1)) as [_|]; [|contradiction].
    cbn [app map fst snd length seq].
    split; [f_equal; exact Hidx|].
    split.
    { constructor; [|exact Hall]. cbn [fst snd]. repeat split; auto.
      intros Hc. contradiction. }
    split; [exact Hg|]. split.
    { constructor; [|exact Hoff]. unfold offered, ok.
      destruct (chan_ready ch); [left|right]; eauto. }
    constructor; [reflexivity|exact Hok].
  - destruct IH as (Hidx & Hall & Hg & Hoff & Hok).
    destruct (Hnote ok tm) as (N1 & N2 & N3). fold notice in N1, N2, N3.
    unfold sends, gets, copyBuffers in *.
    cbn [flat_map]. rewrite !flat_map_app, N1, N2, N3.
    destruct (Nat.eqb_spec i (N - 1)) as [|_]; [contradiction|].
    cbn [app map fst snd length seq].
    split; [f_equal; exact Hidx|].
    split.
    { constructor.
      - cbn [fst snd]. repeat split; auto; [intros Hc; contradiction|].
        intros _. now left.
      - eapply Forall_impl; [|exact Hall]. cbn beta.
        intros x (H1 & H2 & H3 & H4). repeat split; auto.
        intros Hx. right. auto. }
    split; [now f_equal|]. split.
    { constructor; [|exact Hoff]. unfold offered, ok.
      destruct (chan_ready ch); [left|right]; eauto. }
    constructor; [reflexivity|exact Hok].
Qed.

(** ** The drop notice and its timer *)

Lemma apart_snoc (gap : Z) (l : list Z) (y : Z) :
  apart gap l -> Forall (fun x => x + gap <= y) l -> apart gap (l ++ [y]).
Proof.
  unfold apart. induction 1 as [|x l Hx Hl IH]; intros Hall; simpl.
  - repeat constructor.
  - inversion Hall as [|? ? Hxy Hall']; subst. constructor.
    + apply Forall_app. split; [exact Hx|]. repeat constructor. exact Hxy.
    + apply IH. exact Hall'.
Qed.

Lemma errorLog_app (l1 l2 : list event) :
  errorLog (l1 ++ l2) = errorLog l1 ++ errorLog l2.
Proof. unfold errorLog. apply flat_map_app. Qed.

Lemma minute_pos : 0 < minute.
Proof. reflexivity. Qed.

Lemma noticeAt_inv (tm : option timer) (t : Z) (logged : list (Z * bytes)) :
  notify_inv tm logged ->
  notify_inv (snd (noticeAt tm t)) (logged ++ errorLog (fst (noticeAt tm t)))
  /\ Forall (fun p => p = (t, dropNotice)) (errorLog (fst (noticeAt tm t))).
Proof.
  intros (d & -> & Hall & Hap). unfold noticeAt, timer_ready. simpl.
  destruct (Z.leb_spec d t) as [Hready|Hnot]; simpl.
  - split; [|repeat constructor].
    exists (t + minute). split; [reflexivity|].
    rewrite map_app. simpl. split.
    + apply Forall_app. split.
      * eapply Forall_impl; [|exact Hall]. simpl. intros x Hx.
        pose proof minute_pos. lia.
      * repeat constructor. lia.
    + apply apart_snoc; [exact Hap|].
      eapply Forall_impl; [|exact Hall]. simpl. intros x Hx. lia.
  - rewrite app_nil_r. split; [|constructor].
    exists d. auto.
Qed.

Lemma fanned_notify (N : nat) (buf : slice) (hIdx cIdx t : Z) (i : nat)
  (chs : list chan) (tm : option timer) (evs : list event)
  (chs' : list chan) (tm' : option timer) :
  fanned N buf hIdx cIdx t i chs tm evs chs' tm' ->
  forall logged,
    notify_inv tm logged ->
    notify_inv tm' (logged ++ errorLog evs) /\
    Forall (fun p => p = (t, dropNotice)) (errorLog evs).
Proof.
  assert (Hstep : forall (ok : bool) tm0 logged,
            notify_inv tm0 logged ->
            let notice := if ok then ([], tm0) else noticeAt tm0 t in
            notify_inv (snd notice) (logged ++ errorLog (fst notice)) /\
            Forall (fun p => p = (t, dropNotice)) (errorLog (fst notice))).
  { intros [|] tm0 logged Hinv; simpl.
    - rewrite app_nil_r. split; [exact Hinv|constructor].
    - now apply noticeAt_inv. }
  induction 1 as [i tm|i ch rest tm evs chs' tm' Hi m ok notice Hfan IH
                  |i ch rest tm g copy evs chs' tm' Hi m ok notice Hfan IH];
    intros logged Hinv.
  - simpl. rewrite app_nil_r. split; [exact Hinv|constructor].
  - destruct (Hstep ok tm logged Hinv) as (Hinv1 & Hl1). fold notice in Hinv1, Hl1.
    destruct (IH _ Hinv1) as (Hinv2 & Hl2).
    change (EvSend i m ok :: fst notice ++ evs)
      with ([EvSend i m ok] ++ fst notice ++ evs).
    rewrite !errorLog_app. simpl. rewrite <- app_assoc in Hinv2.
    split; [exact Hinv2|]. apply Forall_app. split; assumption.
  - destruct (Hstep ok tm logged Hinv) as (Hinv1 & Hl1). fold notice in Hinv1, Hl1.
    destruct (IH _ Hinv1) as (Hinv2 & Hl2).
    change (EvGet g :: EvSend i m ok :: fst notice ++ evs)
      with ([EvGet g; EvSend i m ok] ++ fst notice ++ evs).
    rewrite !errorLog_app. simpl. rewrite <- app_assoc in Hinv2.
    split; [exact Hinv2|]. apply Forall_app. split; assumption.
Qed.

Lemma notify_inv_timer (tm : option timer) (logged : list (Z * bytes)) :
  notify_inv tm logged -> tm <> None.
Proof. intros (d & -> & _). discriminate. Qed.

Lemma update_nth_length {A : Type} (k : nat) (f : A -> A) (l : list A) :
  length (update_nth k f l) = length l.
Proof.
  revert k. induction l as [|x l IH]; intros [|k]; simpl; auto.
Qed.

(** A call of [sendMessage] in a backend with its location and timer. *)
Lemma sendMessage_step (bk : syslogBackend) (parts : rawLogParts)
  (appName processName container_ : bytes) (w : world) :
  pool_ok w ->
  msgChans bk = [] \/ syslogLocation bk <> None ->
  notify_inv (nextNotify bk) (errorLog (trace w)) ->
  exists bk' w' evs,
    sendMessage bk parts appName processName container_ w = Val bk' w' /\
    trace w' = trace w ++ evs /\
    pool_ok w' /\
    (msgChans bk' = [] \/ syslogLocation bk' <> None) /\
    notify_inv (nextNotify bk') (errorLog (trace w')) /\
    Forall (fun p => p = (now w, dropNotice)) (errorLog evs) /\
    Forall2 offered (msgChans bk) (msgChans bk') /\
    Forall2 (fun ch x => snd x = chan_ready ch) (msgChans bk) (sends evs) /\
    now w' = now w /\ env w' = env w.
Proof.
  intros Hok Hloc Hinv.
  destruct (msgChans bk) as [|ch0 chs0] eqn:Ech.
  - exists bk, w, []. rewrite sendMessage_idle by exact Ech.
    rewrite app_nil_r, Ech.
    split; [reflexivity|]. split; [reflexivity|]. split; [exact Hok|].
    split; [now left|]. split; [exact Hinv|].
    split; [constructor|]. split; [constructor|]. split; [constructor|].
    auto.
  - destruct Hloc as [Hc|Hloc]; [discriminate|].
    destruct (syslogLocation bk) as [loc|] eqn:Eloc; [|contradiction].
    destruct (@sendMessage_spec bk loc parts appName processName container_ w
                Hok Eloc (notify_inv_timer Hinv)
                ltac:(rewrite Ech; discriminate))
      as (m & w0 & g & evs & chs' & tm' & w' & Er & Hrd & E & Htr & Hfan &
          Hok' & Hh' & Hnow' & Henv' & Htm').
    destruct (fanned_notify Hfan Hinv) as (Hinv' & Hlines).
    destruct (fanned_sends Hfan) as (_ & _ & _ & Hoff & Hoks).
    rewrite Ech in Hoff, Hoks.
    eexists _, w', (EvGet g :: evs). split; [rewrite E, Eloc; reflexivity|].
    split; [exact Htr|]. split; [exact Hok'|].
    cbn [msgChans syslogLocation nextNotify].
    split; [right; discriminate|].
    split.
    { rewrite Htr.
      change (EvGet g :: evs) with ([EvGet g] ++ evs).
      rewrite !errorLog_app. simpl. exact Hinv'. }
    split; [exact Hlines|]. split; [exact Hoff|].
    split; [exact Hoks|]. auto.
Qed.

Lemma run_spec (acts : list action) :
  forall (bk : syslogBackend) (w : world),
  pool_ok w ->
  msgChans bk = [] \/ syslogLocation bk <> None ->
  notify_inv (nextNotify bk) (errorLog (trace w)) ->
  exists bk' w' evs,
    run acts bk w = Val bk' w' /\
    trace w' = trace w ++ evs /\
    notify_inv (nextNotify bk') (errorLog (trace w')) /\
    Forall (fun p => snd p = dropNotice) (errorLog evs).
Proof.
  induction acts as [|act rest IH]; intros bk w Hok Hloc Hinv.
  - exists bk, w, []. rewrite app_nil_r.
    split; [reflexivity|]. split; [reflexivity|]. split; [exact Hinv|].
    constructor.
  - destruct act as [parts appName processName container_|dt|i]; cbn [run].
    + destruct (@sendMessage_step bk parts appName processName container_ w
                  Hok Hloc Hinv)
        as (bk1 & w1 & evs1 & E1 & Htr1 & Hok1 & Hloc1 & Hinv1 & Hl1 & _).
      destruct (IH bk1 w1 Hok1 Hloc1 Hinv1)
        as (bk' & w' & evs & E & Htr & Hinv' & Hl).
      exists bk', w', (evs1 ++ evs).
      split; [now rewrite (bind_val _ E1)|].
      split; [now rewrite Htr, Htr1, <- app_assoc|].
      split; [exact Hinv'|].
      rewrite errorLog_app. apply Forall_app. split; [|exact Hl].
      eapply Forall_impl; [|exact Hl1]. intros p ->. reflexivity.
    + destruct (IH bk (set_now (now w + Z.of_N dt) w))
        as (bk' & w' & evs & E & Htr & Hinv' & Hl); auto.
      exists bk', w', evs. auto.
    + destruct (IH (receive_from i bk) w)
        as (bk' & w' & evs & E & Htr & Hinv' & Hl); auto.
      { unfold receive_from. cbn [msgChans syslogLocation].
        destruct Hloc as [Hc|Hloc]; [left|right; exact Hloc].
        rewrite Hc. destruct i; reflexivity. }
      exists bk', w', evs. auto.
Qed.

(** *** The drops are reported *)

Lemma sends_app (l1 l2 : list event) :
  sends (l1 ++ l2) = sends l1 ++ sends l2.
Proof. unfold sends. apply flat_map_app. Qed.

Lemma dropped_app (l1 l2 : list event) :
  dropped (l1 ++ l2) = dropped l1 || dropped l2.
Proof. unfold dropped. now rewrite sends_app, existsb_app. Qed.

Lemma noticeAt_silent (tm : option timer) (t : Z) :
  dropped (fst (noticeAt tm t)) = false.
Proof.
  destruct tm as [tmr|]; simpl; [|reflexivity].
  destruct (timer_ready tmr t); reflexivity.
Qed.

Lemma fanned_notice (N : nat) (buf : slice) (hIdx cIdx t : Z) (i : nat)
  (chs : list chan) (tm : option timer) (evs : list event)
  (chs' : list chan) (tm' : option timer) :
  fanned N buf hIdx cIdx t i chs tm evs chs' tm' ->
  errorLog evs = (if dropped evs && due tm t then [(t, dropNotice)] else []) /\
  tm' = (if dropped evs && due tm t
         then Some (Timer (Some (t + minute))) else tm).
Proof.
  assert (Hstep : forall (ok : bool) tm0 rest_log (rest_dropped : bool) tm1,
            let notice := if ok then ([], tm0) else noticeAt tm0 t in
            rest_log = (if rest_dropped && due (snd notice) t
                        then [(t, dropNotice)] else []) ->
            tm1 = (if rest_dropped && due (snd notice) t
                   then Some (Timer (Some (t + minute))) else snd notice) ->
            errorLog (fst notice) ++ rest_log =
              (if (negb ok || (dropped (fst notice) || rest_dropped)) && due tm0 t
               then [(t, dropNotice)] else []) /\
            tm1 = (if (negb ok || (dropped (fst notice) || rest_dropped)) && due tm0 t
                   then Some (Timer (Some (t + minute))) else tm0)).
  { intros ok tm0 rest_log rd tm1 notice -> ->. subst notice.
    destruct ok; simpl.
    - split; reflexivity.
    - destruct tm0 as [tmr|]; simpl.
      + destruct (timer_ready tmr t) eqn:Er; simpl.
        * unfold timer_ready. simpl.
          pose proof minute_pos.
          destruct (Z.leb_spec (t + minute) t); [lia|].
          rewrite andb_false_r. split; reflexivity.
        * rewrite Er, !andb_false_r. split; reflexivity.
      + rewrite !andb_false_r. split; reflexivity. }
  induction 1 as [i tm|i ch rest tm evs chs' tm' Hi m ok notice Hfan IH
                  |i ch rest tm g copy evs chs' tm' Hi m ok notice Hfan IH].
  - simpl. split; reflexivity.
  - destruct IH as (IH1 & IH2).
    destruct (Hstep ok tm _ _ _ IH1 IH2) as (H1 & H2). fold notice in H1, H2.
    change (EvSend i m ok :: fst notice ++ evs)
      with ([EvSend i m ok] ++ fst notice ++ evs).
    rewrite !errorLog_app, !dropped_app.
    change (errorLog [EvSend i m ok]) with (@nil (Z * bytes)).
    change (dropped [EvSend i m ok]) with (negb ok || false).
    rewrite orb_false_r. simpl app. split; assumption.
  - destruct IH as (IH1 & IH2).
    destruct (Hstep ok tm _ _ _ IH1 IH2) as (H1 & H2). fold notice in H1, H2.
    change (EvGet g :: EvSend i m ok :: fst notice ++ evs)
      with ([EvGet g; EvSend i m ok] ++ fst notice ++ evs).
    rewrite !errorLog_app, !dropped_app.
    change (errorLog [EvGet g; EvSend i m ok]) with (@nil (Z * bytes)).
    change (dropped [EvGet g; EvSend i m ok]) with (negb ok || false).
    rewrite orb_false_r. simpl app. split; assumption.
Qed.

Lemma sendMessage_report (bk : syslogBackend) (parts : rawLogParts)
  (appName processName container_ : bytes) (w : world) :
  pool_ok w ->
  msgChans bk = [] \/ syslogLocation bk <> None ->
  notify_inv (nextNotify bk) (errorLog (trace w)) ->
  exists bk' w' evs,
    sendMessage bk parts appName processName container_ w = Val bk' w' /\
    trace w' = trace w ++ evs /\
    errorLog evs = (if dropped evs && due (nextNotify bk) (now w)
                    then [(now w, dropNotice)] else []) /\
    nextNotify bk' = (if dropped evs && due (nextNotify bk) (now w)
                      then Some (Timer (Some (now w + minute)))
                      else nextNotify bk).
Proof.
  intros Hok Hloc Hinv.
  destruct (msgChans bk) as [|ch0 chs0] eqn:Ech.
  - exists bk, w, []. rewrite sendMessage_idle by exact Ech.
    rewrite app_nil_r. repeat split.
  - destruct Hloc as [Hc|Hloc]; [discriminate|].
    destruct (syslogLocation bk) as [loc|] eqn:Eloc; [|contradiction].
    destruct (@sendMessage_spec bk loc parts appName processName container_ w
                Hok Eloc (notify_inv_timer Hinv)
                ltac:(rewrite Ech; discriminate))
      as (m & w0 & g & evs & chs' & tm' & w' & _ & _ & E & Htr & Hfan & _).
    destruct (fanned_notice Hfan) as (Hlog & Htm).
    eexists _, w', (EvGet g :: evs). split; [rewrite E, Eloc; reflexivity|].
    split; [exact Htr|].
    change (EvGet g :: evs) with ([EvGet g] ++ evs).
    rewrite errorLog_app, dropped_app. cbn [nextNotify].
    split; [exact Hlog|exact Htm].
Qed.

Lemma reported_later (tm : option timer) (t t' : Z) (l l' : list (Z * bytes)) :
  reported tm t l -> t <= t' -> reported tm t' (l ++ l').
Proof.
  intros (d & -> & [Hd|(Hin & Hd)]) Ht; exists d; (split; [reflexivity|]).
  - left. lia.
  - right. split; [apply in_or_app; now left|lia].
Qed.

(** A call of [sendMessage] keeps the drops reported, and a drop in the call
    has its notice within the minute before. *)
Lemma sendMessage_reported (bk : syslogBackend) (parts : rawLogParts)
  (appName processName container_ : bytes) (w : world) :
  pool_ok w ->
  msgChans bk = [] \/ syslogLocation bk <> None ->
  notify_inv (nextNotify bk) (errorLog (trace w)) ->
  reported (nextNotify bk) (now w) (errorLog (trace w)) ->
  exists bk' w' evs,
    sendMessage bk parts appName processName container_ w = Val bk' w' /\
    trace w' = trace w ++ evs /\
    pool_ok w' /\
    (msgChans bk' = [] \/ syslogLocation bk' <> None) /\
    notify_inv (nextNotify bk') (errorLog (trace w')) /\
    reported (nextNotify bk') (now w') (errorLog (trace w')) /\
    (dropped evs = true ->
     exists t, In (t, dropNotice) (errorLog (trace w')) /\
               now w - minute < t <= now w).
Proof.
  intros Hok Hloc Hinv Hrep.
  destruct (@sendMessage_step bk parts appName processName container_ w
              Hok Hloc Hinv)
    as (bk1 & w1 & evs1 & E1 & Htr1 & Hok1 & Hloc1 & Hinv1 & _ & _ & _ &
        Hnow1 & _).
  destruct (@sendMessage_report bk parts appName processName container_ w
              Hok Hloc Hinv)
    as (bk2 & w2 & evs2 & E2 & Htr2 & Hlog & Htm).
  rewrite E1 in E2. injection E2 as <- <-.
  rewrite Htr1 in Htr2. apply app_inv_head in Htr2. subst evs2.
  exists bk1, w1, evs1.
  split; [exact E1|]. split; [exact Htr1|]. split; [exact Hok1|].
  split; [exact Hloc1|]. split; [exact Hinv1|].
  rewrite Htr1, errorLog_app, Hnow1, Htm, Hlog.
  pose proof minute_pos as Hmin.
  destruct Hrep as (d & Ed & Hd). rewrite Ed.
  unfold due, timer_ready. cbn [fireAt].
  destruct (dropped evs1); cbn [andb].
  - destruct (Z.leb_spec d (now w)) as [Hdue|Hnot].
    + split.
      * exists (now w + minute). split; [reflexivity|]. right.
        replace (now w + minute - minute) with (now w) by lia.
        split; [apply in_or_app; right; now left|lia].
      * intros _. exists (now w). split; [apply in_or_app; right; now left|lia].
    + destruct Hd as [Hd|(Hin & Hd)]; [lia|]. split.
      * exists d. split; [reflexivity|]. right.
        split; [apply in_or_app; now left|exact Hd].
      * intros _. exists (d - minute).
        split; [apply in_or_app; now left|lia].
  - split; [|discriminate].
    rewrite app_nil_r. exists d. split; [reflexivity|exact Hd].
Qed.

Lemma run_reported (acts : list action) :
  forall (bk : syslogBackend) (w : world),
  pool_ok w ->
  msgChans bk = [] \/ syslogLocation bk <> None ->
  notify_inv (nextNotify bk) (errorLog (trace w)) ->
  reported (nextNotify bk) (now w) (errorLog (trace w)) ->
  exists bk' w',
    run acts bk w = Val bk' w' /\
    pool_ok w' /\
    (msgChans bk' = [] \/ syslogLocation bk' <> None) /\
    notify_inv (nextNotify bk') (errorLog (trace w')) /\
    reported (nextNotify bk') (now w') (errorLog (trace w')).
Proof.
  induction acts as [|act rest IH]; intros bk w Hok Hloc Hinv Hrep.
  - exists bk, w. auto.
  - destruct act as [parts appName processName container_|dt|i]; cbn [run].
    + destruct (@sendMessage_reported bk parts appName processName container_ w
                  Hok Hloc Hinv Hrep)
        as (bk1 & w1 & evs1 & E1 & _ & Hok1 & Hloc1 & Hinv1 & Hrep1 & _).
      destruct (IH bk1 w1 Hok1 Hloc1 Hinv1 Hrep1) as (bk' & w' & E & H).
      exists bk', w'. split; [now rewrite (bind_val _ E1)|exact H].
    + destruct (IH bk (set_now (now w + Z.of_N dt) w)) as (bk' & w' & E & H);
        auto.
      { pose proof (@reported_later _ _ (now w + Z.of_N dt) _ [] Hrep
                      ltac:(lia)) as H.
        rewrite app_nil_r in H. exact H. }
      exists bk', w'. auto.
    + destruct (IH (receive_from i bk) w) as (bk' & w' & E & H); auto.
      { unfold receive_from. cbn [msgChans syslogLocation].
        destruct Hloc as [Hc|Hloc]; [left|right; exact Hloc].
        rewrite Hc. destruct i; reflexivity. }
      exists bk', w'. auto.
Qed.

(** * The claims *)

(** ** Facts about the concrete situations *)

Lemma sampleWorld_pool_ok : pool_ok sampleWorld.
Proof. split; constructor. Qed.

Lemma sampleWorld_owned : owned (arr (buffer sampleMessage)) sampleWorld.
Proof. split; [simpl; lia|intros []]. Qed.

Lemma sampleMessage_ok : msg_ok sampleMessage.
Proof. constructor; vm_compute; try discriminate; reflexivity. Qed.

Lemma sampleMessage_regions :
  msgHeader sampleWorld sampleMessage = sampleHeader /\
  msgContent sampleWorld sampleMessage = sampleContent /\
  msgTrailer sampleWorld sampleMessage = sampleTrailer.
Proof. repeat split; vm_compute; reflexivity. Qed.

(** ** C8: the write deadline and short writes *)

Lemma process_guarded (fuel : nat) (f : syslogForwarder) (conn : netConn)
  (m : bufferWithIdx) (w : world) :
  pool_ok w -> owned (arr (buffer m)) w -> msg_ok m ->
  GoInt.in_range (messageLimit f) ->
  exists evs,
    trace (world_of (process fuel f conn m w)) = trace w ++ evs /\
    guarded (now w + forwardConnWriteTimeout) evs.
Proof.
  intros Hok Ha Hm Hrange.
  destruct (Z_lt_le_dec
              (availableFor (messageLimit f) (msgHeader w m) (msgTrailer w m))
              0) as [Hneg|Hav].
  - destruct (Z_le_gt_dec (messageLimit f) 0) as [Hle|Hpos];
      [|destruct (Z_le_gt_dec (lenZ (buffer m)) (messageLimit f))
          as [Hfit|Hbig]].
    1, 2: (destruct (@process_run fuel f conn m w Hok Ha Hm Hrange
                       ltac:(lia))
             as (evs & o & w' & Hrun & Hres);
           pose proof (parts_run_guarded Hrun) as Hg;
           destruct o as [e|]; [destruct Hres as (E & Htr & _)
                               |destruct Hres as (E & Htr)];
           rewrite E; simpl; rewrite Htr;
           [exists (evs ++ [EvPut (buffer m)]); split; [reflexivity|];
            apply guarded_app; [exact Hg|];
            apply guarded_other; [discriminate|constructor]
           |exists evs; split; [reflexivity|exact Hg]]).
    destruct fuel as [|fuel].
    + destruct (@splitParts_slow 0 f conn m w Hm Hrange ltac:(lia))
        as (E & _).
      exists []. rewrite app_nil_r. split; [|constructor].
      unfold process. unfold bind at 1. rewrite E. simpl.
      destruct (Z.ltb_spec
                  (availableFor (messageLimit f) (msgHeader w m)
                                (msgTrailer w m))
                  (lenZ (contentBufOf m))); [reflexivity|].
      unfold lenZ in *. lia.
    + destruct (@splitParts_panics fuel f conn m w Hok Ha Hm ltac:(lia)
                  ltac:(unfold GoInt.in_range in Hrange; lia) Hneg)
        as (w' & g & E & Htr).
      exists [EvGet g]. unfold process. rewrite (bind_panic _ E). simpl.
      split; [exact Htr|].
      apply guarded_other; [discriminate|constructor].
  - destruct (@process_run fuel f conn m w Hok Ha Hm Hrange ltac:(lia))
      as (evs & o & w' & Hrun & Hres).
    pose proof (parts_run_guarded Hrun) as Hg.
    destruct o as [e|]; [destruct Hres as (E & Htr & _)
                        |destruct Hres as (E & Htr)];
      rewrite E; simpl; rewrite Htr.
    + exists (evs ++ [EvPut (buffer m)]). split; [reflexivity|].
      apply guarded_app; [exact Hg|].
      apply guarded_other; [discriminate|constructor].
    + exists evs. split; [reflexivity|exact Hg].
Qed.

(** C8.  [writePart] sets the write deadline to two seconds from now before
    it writes, and does not write when the deadline cannot be set; a write
    that reports fewer bytes than the buffer holds makes [writePart] return
    an error (the error of the write, or the short-write error when the
    write reported none).  In a whole run of a sink worker on a message
    ([process]), every write comes directly after the setting of that
    deadline on the same connection. *)
Theorem writePart_deadline_and_short_write :
  (forall (conn : netConn) (buf : slice) (w : world),
     exists err w' evs,
       writePart conn buf w = Val err w' /\
       trace w' = trace w ++ evs /\
       ((exists e,
           evs = [EvSetWriteDeadline (connId conn) (now w + 2 * second)] /\
           err = Some e) \/
        (exists n e,
           evs = [EvSetWriteDeadline (connId conn) (now w + 2 * second);
                  EvWrite (connId conn) (read w buf) n e] /\
           err = writeResult conn (read w buf) n e /\
           (n < lenZ buf -> err <> None) /\
           (e = None -> n < lenZ buf -> err = Some (shortWriteError conn)) /\
           (e = None -> lenZ buf <= n -> err = None)))) /\
  (forall (fuel : nat) (f : syslogForwarder) (conn : netConn)
          (m : bufferWithIdx) (w : world),
     pool_ok w -> owned (arr (buffer m)) w -> msg_ok m ->
     GoInt.in_range (messageLimit f) ->
     exists evs,
       trace (world_of (process fuel f conn m w)) = trace w ++ evs /\
       guarded (now w + 2 * second) evs).
Proof.
  split; [|exact process_guarded].
  intros conn buf w.
  destruct (writePart_spec conn buf w) as (w' & E & Htr & _).
  exists (fst (writeOutcome conn w (read w buf))), w',
    (snd (writeOutcome conn w (read w buf))).
  split; [exact E|]. split; [exact Htr|].
  unfold writeOutcome.
  change forwardConnWriteTimeout with (2 * second).
  destruct (deadlineErr (env w) (length (trace w))) as [e|].
  - left. exists e. split; reflexivity.
  - right.
    set (r := writeRes (env w) (S (length (trace w))) (read w buf)).
    exists (fst r), (snd r). cbn [fst snd].
    assert (Hlen : lenZ buf = Z.of_nat (length (read w buf)))
      by (unfold lenZ; now rewrite read_length).
    rewrite Hlen. unfold writeResult.
    split; [reflexivity|]. split; [reflexivity|].
    destruct (snd r) as [x|].
    + split; [discriminate|]. split; discriminate.
    + destruct (Z.ltb_spec (fst r) (Z.of_nat (length (read w buf)))).
      * split; [discriminate|]. split; [reflexivity|]. intros; lia.
      * split; [intros; lia|]. split; [intros; lia|reflexivity].
Qed.

Lemma writePart_deadline_and_short_write_witness :
  exists evs,
    trace (world_of (process 40 (udpForwarder 160) sampleConn sampleMessage
                             sampleWorld)) = trace sampleWorld ++ evs /\
    guarded (now sampleWorld + 2 * second) evs.
Proof.
  apply (proj2 writePart_deadline_and_short_write).
  - exact sampleWorld_pool_ok.
  - exact sampleWorld_owned.
  - exact sampleMessage_ok.
  - unfold GoInt.in_range. simpl. lia.
Defined.

(** ** C10: the splitting loop without room for content *)

(** C10.  The claim that [splitParts] terminates whenever the limit is
    positive fails on the code.  On a UDP sink of MTU 144 (limit 44) the
    84-byte message whose header and trailer take 44 bytes makes the loop
    run for as long as it is given fuel, writing the header and the trailer
    around an empty chunk at every iteration; on a sink of MTU 130 (limit
    30) the same message makes the first iteration panic on the slice
    expression [contentBuf[:availableSz]] with a negative bound. *)
Theorem splitParts_without_room :
  (forall fuel : nat,
     exists w' evs,
       splitParts fuel (udpForwarder 144) sampleConn sampleMessage
                  sampleWorld = OutOfFuel w' /\
       trace w' = trace sampleWorld ++ evs /\
       datagrams evs = repeat (sampleHeader ++ sampleTrailer) fuel) /\
  (forall fuel : nat,
     exists w' g,
       splitParts (S fuel) (udpForwarder 130) sampleConn sampleMessage
                  sampleWorld = Panic "slice bounds out of range" w' /\
       trace w' = trace sampleWorld ++ [EvGet g]).
Proof.
  destruct sampleMessage_regions as (EH & EC & ET).
  split; intros fuel.
  - rewrite <- EH, <- ET. apply splitParts_spins.
    + intros k d. split; reflexivity.
    + exact sampleWorld_pool_ok.
    + exact sampleWorld_owned.
    + exact sampleMessage_ok.
    + vm_compute. split; reflexivity.
    + reflexivity.
    + rewrite EH, ET. reflexivity.
  - apply splitParts_panics.
    + exact sampleWorld_pool_ok.
    + exact sampleWorld_owned.
    + exact sampleMessage_ok.
    + vm_compute. split; reflexivity.
    + reflexivity.
    + rewrite EH, ET. reflexivity.
Qed.

(** ** C1: fragments of a UDP message *)

Lemma StringEnvOrDefault_single (h : host) (defaultValue name : bytes)
  (w : world) :
  defaultValue <> [] ->
  exists w',
    StringEnvOrDefault h defaultValue [name] w =
      Val (if is_nil (getenv h name) then defaultValue else getenv h name) w'
    /\ env w' = env w.
Proof.
  intros Hd. unfold StringEnvOrDefault, envOrDefault, envLookup, bind.
  destruct (getenv h name) as [|c v]; simpl.
  - destruct defaultValue; [contradiction|]. simpl. eexists.
    split; reflexivity.
  - eexists. split; reflexivity.
Qed.

Lemma chooseMTU_spec (h : host) (w : world) :
  (exists w', chooseMTU h w = Val (mtuOf h) w') /\ 0 < mtuOf h.
Proof.
  split.
  - unfold chooseMTU.
    destruct (@StringEnvOrDefault_single h (b "eth0")
                (b "LOG_SYSLOG_MTU_NETWORK_INTERFACE") w
                ltac:(discriminate)) as (w1 & E & _).
    rewrite (bind_val _ E). fold (configuredInterface h).
    assert (Hnn : is_nil (configuredInterface h) = false).
    { unfold configuredInterface.
      destruct (getenv h (b "LOG_SYSLOG_MTU_NETWORK_INTERFACE"));
        reflexivity. }
    rewrite Hnn. cbn [negb]. unfold mtuOf.
    destruct (interfaceMTU h (configuredInterface h)) as [v|err].
    + destruct (0 <? v); eexists; reflexivity.
    + eexists. reflexivity.
  - unfold mtuOf.
    destruct (interfaceMTU h (configuredInterface h)) as [v|err];
      [|reflexivity].
    destruct (Z.ltb_spec 0 v); [assumption|reflexivity].
Qed.

Lemma connect_udp (timeout : Z) (f0 : syslogForwarder) (w0 : world)
  (conn : netConn) (f : syslogForwarder) (w1 : world) :
  connect timeout f0 w0 = Val (inl conn, f) w1 ->
  bytes_eqb (Scheme (url f0)) (b "tcp") = false ->
  GoInt.in_range (mtu f0 - udpHeaderSz) ->
  messageLimit f = mtu f0 - udpHeaderSz.
Proof.
  intros E Hudp Hrange. unfold connect, bind, net_DialTimeout in E.
  destruct (dialRes (env w0) (length (trace w0)) (Scheme (url f0))
                    (Host (url f0))) as [c|err].
  - rewrite Hudp in E. unfold ret in E. injection E as _ <- _. simpl.
    now apply sub_id.
  - discriminate.
Qed.

Lemma parts_run_fragments (conn : netConn) (dl : Z) (a : nat) (limit : Z)
  (H C T : bytes) (fuel : nat) (evs : list event) (o : outcome) :
  parts_run conn dl a limit H C T fuel evs o ->
  0 < limit ->
  Forall (fun d => Z.of_nat (length d) <= limit /\
                   d = H ++ contentRegion (length H) (length T) d ++ T)
         (datagrams evs) /\
  exists rest,
    C = List.concat (map (contentRegion (length H) (length T))
                         (datagrams evs)) ++ rest /\
    (o = Returned None -> rest = []).
Proof.
  intros [evs' e Hfit Hwa|evs' o' Hbig Hav Hrun] Hpos.
  - destruct Hfit as [Hle|Hfit]; [lia|].
    destruct (write_attempt_datagrams Hwa) as [(E & He)|E]; rewrite E.
    + split; [constructor|]. exists C. split; [reflexivity|].
      intros Ho. injection Ho as ->. contradiction.
    + split.
      * repeat constructor; [exact Hfit|].
        now rewrite contentRegion_fragment.
      * exists []. simpl. rewrite contentRegion_fragment, !app_nil_r. auto.
  - destruct (split_run_fragments Hrun) as (Hall & Hrest).
    split; [|exact Hrest].
    eapply Forall_impl; [|exact Hall].
    intros d (chunk & -> & Hlen). rewrite contentRegion_fragment.
    split; [|reflexivity].
    rewrite !length_app. unfold availableFor in *. lia.
Qed.

(** Without a limit, or with a message that fits it, [splitParts] is one
    call of [writePart] on the whole buffer. *)
Lemma splitParts_whole (fuel : nat) (f : syslogForwarder) (conn : netConn)
  (m : bufferWithIdx) (w : world) :
  msg_ok m ->
  messageLimit f <= 0 \/ lenZ (buffer m) <= messageLimit f ->
  let d := msgHeader w m ++ msgContent w m ++ msgTrailer w m in
  exists w',
    splitParts fuel f conn m w = Val (fst (writeOutcome conn w d)) w' /\
    trace w' = trace w ++ snd (writeOutcome conn w d) /\
    same_state w w'.
Proof.
  intros Hm Hcase d.
  destruct (msg_regions w Hm) as (HB & _). subst d. rewrite <- HB.
  destruct (writePart_spec conn (buffer m) w) as (w' & E & Htr & Hsame).
  exists w'. split; [|split; assumption].
  unfold splitParts.
  replace ((messageLimit f <=? 0) || (lenZ (buffer m) <=? messageLimit f))
    with true by (symmetry; apply orb_true_iff; lia).
  exact E.
Qed.

Lemma writeOutcome_datagrams (conn : netConn) (w : world) (d : bytes) :
  datagrams (snd (writeOutcome conn w d)) =
    match deadlineErr (env w) (length (trace w)) with
    | Some _ => []
    | None => [d]
    end /\
  (forall e, deadlineErr (env w) (length (trace w)) = Some e ->
             fst (writeOutcome conn w d) = Some e).
Proof.
  unfold writeOutcome.
  destruct (deadlineErr (env w) (length (trace w))) as [e|]; simpl.
  - split; [reflexivity|]. intros e' [= <-]. reflexivity.
  - split; [reflexivity|]. discriminate.
Qed.

(** C1 (amended).  The MTU [initialize] settles on is the MTU of the
    configured interface when it can be read and is positive, and 1500
    otherwise.  A forwarder made with it and connected over a scheme other
    than [tcp] has [messageLimit = mtu - 100].  When that limit is not
    positive, or the message fits it, or header and trailer together are
    shorter than it, [splitParts] returns.  Every payload handed to the
    connection is the header, a chunk of the content and the trailer, and
    under a positive limit it is at most [messageLimit] bytes long; the
    chunks, in order, are a prefix of the content, and the whole content
    when [splitParts] returns no error.  Under a limit that is not positive
    (an MTU of at most 100) no size applies: [splitParts] is one call of
    [writePart] on the whole message, which hands the message to the
    connection in one payload, whatever its length, unless the write
    deadline cannot be set; then nothing is handed over and that error is
    returned. *)
Theorem splitParts_udp_fragments (h : host) (u : URL) (timeout : Z)
  (w0 w1 : world) (conn : netConn) (f : syslogForwarder)
  (fuel : nat) (m : bufferWithIdx) (w : world) :
  let limit := mtuOf h - udpHeaderSz in
  let H := msgHeader w m in
  let C := msgContent w m in
  let T := msgTrailer w m in
  connect timeout (SyslogForwarder u (mtuOf h) 0) w0 = Val (inl conn, f) w1 ->
  bytes_eqb (Scheme u) (b "tcp") = false ->
  mtuOf h < 2 ^ 63 ->
  pool_ok w -> owned (arr (buffer m)) w -> msg_ok m ->
  limit <= 0 \/ lenZ (buffer m) <= limit \/
  Z.of_nat (length H) + Z.of_nat (length T) < limit ->
  (length C <= fuel)%nat ->
  (exists w', chooseMTU h w0 = Val (mtuOf h) w') /\
  messageLimit f = limit /\
  exists err w' evs,
    splitParts fuel f conn m w = Val err w' /\
    trace w' = trace w ++ evs /\
    Forall (fun d => (0 < limit -> Z.of_nat (length d) <= limit) /\
                     d = H ++ contentRegion (length H) (length T) d ++ T)
           (datagrams evs) /\
    (exists rest,
       C = List.concat (map (contentRegion (length H) (length T))
                            (datagrams evs)) ++ rest /\
       (err = None -> rest = [])) /\
    (limit <= 0 ->
     (err, evs) = writeOutcome conn w (H ++ C ++ T) /\
     match deadlineErr (env w) (length (trace w)) with
     | Some e => err = Some e /\ datagrams evs = []
     | None => datagrams evs = [H ++ C ++ T]
     end).
Proof.
  intros limit H C T Econn Hudp Hmax Hok Ha Hm Hroom Hfuel.
  pose proof (chooseMTU_spec h w0) as (Hchoose & Hmtu).
  split; [exact Hchoose|].
  assert (Hlimit : messageLimit f = limit).
  { apply (@connect_udp _ _ _ _ _ _ Econn Hudp).
    unfold GoInt.in_range, udpHeaderSz. simpl mtu. lia. }
  split; [exact Hlimit|].
  assert (Hrange : GoInt.in_range (messageLimit f)).
  { rewrite Hlimit. unfold GoInt.in_range, limit, udpHeaderSz. lia. }
  destruct (Z_le_gt_dec limit 0) as [Hle|Hpos].
  - (* no limit: one write of the whole message *)
    destruct (@splitParts_whole fuel f conn m w Hm
                ltac:(left; rewrite Hlimit; exact Hle))
      as (w' & E & Htr & _).
    fold H C T in E, Htr.
    destruct (writeOutcome_datagrams conn w (H ++ C ++ T)) as (Hd & Herr).
    exists (fst (writeOutcome conn w (H ++ C ++ T))), w',
           (snd (writeOutcome conn w (H ++ C ++ T))).
    split; [exact E|]. split; [exact Htr|]. rewrite Hd.
    assert (Hreg : contentRegion (length H) (length T) (H ++ C ++ T) = C)
      by apply contentRegion_fragment.
    assert (Hpair : (fst (writeOutcome conn w (H ++ C ++ T)),
                     snd (writeOutcome conn w (H ++ C ++ T))) =
                    writeOutcome conn w (H ++ C ++ T))
      by (symmetry; apply surjective_pairing).
    destruct (deadlineErr (env w) (length (trace w))) as [e|].
    + split; [constructor|].
      split; [exists C; split; [reflexivity|]|].
      { rewrite (Herr e eq_refl). discriminate. }
      intros _. split; [exact Hpair|]. split; [now apply Herr|reflexivity].
    + split.
      { repeat constructor; [lia|now rewrite Hreg]. }
      split.
      { exists []. simpl. rewrite Hreg, !app_nil_r. auto. }
      intros _. split; [exact Hpair|reflexivity].
  - destruct (@splitParts_run fuel f conn m w Hok Ha Hm Hrange)
      as (evs & o & w' & Hrun & E & Htr & _).
    { rewrite Hlimit. unfold availableFor. fold H T. lia. }
    rewrite Hlimit in Hrun. fold H C T in Hrun.
    destruct (parts_run_fragments Hrun ltac:(lia))
      as (Hall & rest & Erest & Hdone).
    assert (Hret : o <> Exhausted).
    { destruct Hrun as [evs' e _ _|evs' o' Hbig Hav Hrun]; [discriminate|].
      apply (split_run_returns Hrun); [|exact Hfuel].
      destruct Hroom as [Hno|[Hfit|Hroom]]; [lia| |].
      - destruct (msg_regions w Hm) as (HB & _).
        fold H C T in HB.
        assert (Z.of_nat (length (H ++ C ++ T)) = lenZ (buffer m))
          by (rewrite <- HB, read_length; reflexivity).
        lia.
      - unfold availableFor. lia. }
    destruct o as [e|]; [|contradiction].
    exists e, w', evs. split; [exact E|]. split; [exact Htr|].
    split.
    { eapply Forall_impl; [|exact Hall]. intros d (Hd1 & Hd2). auto. }
    split.
    { exists rest. split; [exact Erest|]. intros ->. now apply Hdone. }
    lia.
Qed.

Lemma splitParts_udp_fragments_witness :
  ((exists w', chooseMTU (sampleHost (inl 160)) emptyWorld = Val 160 w') /\
   messageLimit (udpForwarder 160) = 60 /\
   exists err w' evs,
     splitParts 40 (udpForwarder 160) sampleConn sampleMessage sampleWorld =
       Val err w' /\
     trace w' = trace sampleWorld ++ evs /\
     Forall (fun d => Z.of_nat (length d) <= 60 /\
                      d = msgHeader sampleWorld sampleMessage ++
                          contentRegion
                            (length (msgHeader sampleWorld sampleMessage))
                            (length (msgTrailer sampleWorld sampleMessage)) d
                          ++ msgTrailer sampleWorld sampleMessage)
            (datagrams evs) /\
     exists rest,
       msgContent sampleWorld sampleMessage =
         List.concat
           (map (contentRegion
                   (length (msgHeader sampleWorld sampleMessage))
                   (length (msgTrailer sampleWorld sampleMessage)))
                (datagrams evs)) ++ rest /\
       (err = None -> rest = [])) /\
  ((exists w', chooseMTU (sampleHost (inl 100)) emptyWorld = Val 100 w') /\
   messageLimit (udpForwarder 100) = 0 /\
   exists err w' evs,
     splitParts 40 (udpForwarder 100) sampleConn sampleMessage sampleWorld =
       Val err w' /\
     trace w' = trace sampleWorld ++ evs /\
     (err, evs) =
       writeOutcome sampleConn sampleWorld
         (msgHeader sampleWorld sampleMessage ++
          msgContent sampleWorld sampleMessage ++
          msgTrailer sampleWorld sampleMessage) /\
     datagrams evs = [msgHeader sampleWorld sampleMessage ++
                      msgContent sampleWorld sampleMessage ++
                      msgTrailer sampleWorld sampleMessage]).
Proof.
  split.
  - destruct (@splitParts_udp_fragments (sampleHost (inl 160)) sampleURL
                second emptyWorld
                (emit (EvDial (b "udp") (b "10.0.0.9:514") second None)
                      emptyWorld)
                sampleConn (udpForwarder 160) 40 sampleMessage sampleWorld)
      as (Hmtu & Hlimit & err & w' & evs & E & Htr & Hall & Hrest & _).
    + reflexivity.
    + reflexivity.
    + reflexivity.
    + exact sampleWorld_pool_ok.
    + exact sampleWorld_owned.
    + exact sampleMessage_ok.
    + right. right. vm_compute. reflexivity.
    + vm_compute. repeat constructor.
    + split; [exact Hmtu|]. split; [exact Hlimit|].
      exists err, w', evs. split; [exact E|]. split; [exact Htr|].
      split; [|exact Hrest].
      eapply Forall_impl; [|exact Hall]. intros d (Hlen & Hd).
      split; [apply Hlen; reflexivity|exact Hd].
  - destruct (@splitParts_udp_fragments (sampleHost (inl 100)) sampleURL
                second emptyWorld
                (emit (EvDial (b "udp") (b "10.0.0.9:514") second None)
                      emptyWorld)
                sampleConn (udpForwarder 100) 40 sampleMessage sampleWorld)
      as (Hmtu & Hlimit & err & w' & evs & E & Htr & _ & _ & Hwhole).
    + reflexivity.
    + reflexivity.
    + reflexivity.
    + exact sampleWorld_pool_ok.
    + exact sampleWorld_owned.
    + exact sampleMessage_ok.
    + left. vm_compute. discriminate.
    + vm_compute. repeat constructor.
    + split; [exact Hmtu|]. split; [exact Hlimit|].
      exists err, w', evs. split; [exact E|]. split; [exact Htr|].
      apply Hwhole. vm_compute. discriminate.
Defined.

(** The fragments of the sample message under a limit of 60 bytes: chunks of
    16, 16 and 8 bytes between the header and the trailer. *)
Example sample_fragments :
  datagrams (trace (world_of (splitParts 40 (udpForwarder 160) sampleConn
                                         sampleMessage sampleWorld))) =
  [sampleHeader ++ b "0123456789abcdef" ++ sampleTrailer;
   sampleHeader ++ b "ghijklmnopqrstuv" ++ sampleTrailer;
   sampleHeader ++ b "wxyzABCD" ++ sampleTrailer].
Proof. vm_compute. reflexivity. Qed.

(** C1, as stated, fails on the code: on an interface of MTU 100 the limit
    is [100 - 100 = 0], the guard [f.messageLimit <= 0] of [splitParts]
    takes the fast path, and the 84-byte sample message goes out as one
    datagram, longer than the limit. *)
Lemma udp_limit_counterexample :
  (exists w', chooseMTU (sampleHost (inl 100)) emptyWorld = Val 100 w') /\
  (exists w1,
     connect second (SyslogForwarder sampleURL 100 0) emptyWorld =
       Val (inl sampleConn, udpForwarder 100) w1) /\
  messageLimit (udpForwarder 100) = 100 - 100 /\
  returned_nil (splitParts 40 (udpForwarder 100) sampleConn sampleMessage
                           sampleWorld) = true /\
  datagrams (trace (world_of (splitParts 40 (udpForwarder 100) sampleConn
                                         sampleMessage sampleWorld))) =
    [sampleHeader ++ sampleContent ++ sampleTrailer] /\
  ~ Forall (fun d => Z.of_nat (length d) <= messageLimit (udpForwarder 100))
           (datagrams (trace (world_of (splitParts 40 (udpForwarder 100)
                                                   sampleConn sampleMessage
                                                   sampleWorld)))).
Proof.
  split; [eexists; reflexivity|].
  split; [eexists; reflexivity|].
  split; [reflexivity|].
  split; [vm_compute; reflexivity|].
  split; [vm_compute; reflexivity|].
  intros Hall. inversion Hall as [|d l Hd _ E]. vm_compute in Hd.
  apply Hd. reflexivity.
Qed.

(** ** C7: who owns which buffer *)

Lemma fanned_nil_inv (N : nat) (buf : slice) (hIdx cIdx t : Z) (i : nat)
  (tm : option timer) (evs : list event) (chs' : list chan)
  (tm' : option timer) :
  fanned N buf hIdx cIdx t i [] tm evs chs' tm' -> evs = [].
Proof. intros Hf. inversion Hf. reflexivity. Qed.

Lemma fanned_buffers (N : nat) (buf : slice) (hIdx cIdx t : Z) (i : nat)
  (chs : list chan) (tm : option timer) (evs : list event)
  (chs' : list chan) (tm' : option timer) :
  fanned N buf hIdx cIdx t i chs tm evs chs' tm' ->
  (i + length chs = N)%nat -> chs <> [] ->
  sentBuffers evs = copyBuffers N evs ++ [buf] /\
  (length (copyBuffers N evs) + 1 = length chs)%nat.
Proof.
  assert (Hnote : forall ok tm0,
            sends (fst (if ok : bool then ([], tm0) else noticeAt tm0 t)) = []
            /\ copyBuffers N (fst (if ok then ([], tm0)
                                   else noticeAt tm0 t)) = []).
  { intros [|] [tmr|]; simpl; auto. destruct (timer_ready tmr t); auto. }
  induction 1 as [i tm|i ch rest tm evs chs' tm' Hi m ok notice Hfan IH
                  |i ch rest tm g copy evs chs' tm' Hi m ok notice Hfan IH];
    intros Hlen Hne.
  - contradiction.
  - destruct (Hnote ok tm) as (N1 & N2). fold notice in N1, N2.
    assert (Hrest : rest = []).
    { simpl in Hlen. apply length_zero_iff_nil. lia. }
    subst rest. apply fanned_nil_inv in Hfan. subst evs.
    unfold sentBuffers, sends, copyBuffers in *. cbn [flat_map].
    rewrite !flat_map_app, N1, N2.
    destruct (Nat.eqb_spec i (N - 1)) as [_|]; [|contradiction].
    simpl. auto.
  - destruct (Hnote ok tm) as (N1 & N2). fold notice in N1, N2.
    assert (Hrest : rest <> []).
    { intros ->. simpl in Hlen. lia. }
    destruct (IH ltac:(simpl in Hlen; lia) Hrest) as (IH1 & IH2).
    unfold sentBuffers, sends, copyBuffers in *. cbn [flat_map].
    rewrite !flat_map_app, N1, N2.
    destruct (Nat.eqb_spec i (N - 1)) as [|_]; [contradiction|].
    cbn [app map fst snd buffer length]. rewrite IH1.
    split; [reflexivity|]. simpl. lia.
Qed.

Lemma parts_run_returns (conn : netConn) (dl : Z) (a : nat) (limit : Z)
  (H C T : bytes) (fuel : nat) (evs : list event) (o : outcome) :
  parts_run conn dl a limit H C T fuel evs o ->
  (length C <= fuel)%nat ->
  limit <= 0 \/ Z.of_nat (length (H ++ C ++ T)) <= limit \/
  0 < availableFor limit H T ->
  o <> Exhausted.
Proof.
  intros [evs' e _ _|evs' o' Hbig Hav Hrun] Hfuel Hcase; [discriminate|].
  apply (split_run_returns Hrun); [|exact Hfuel]. lia.
Qed.

(** C7 (amended).  For a record fanned out to the [N >= 1] sinks of a
    backend, [sendMessage] offers one message to each channel, in order; the
    message for the last channel carries the rendered buffer itself and the
    [N - 1] others carry buffers taken from the pool for the purpose ([N]
    buffers are taken in all, one for rendering), each on an array of its
    own, each holding the rendered line.  A channel that is ready queues its
    message and a channel that is full is left as it was: its message is
    dropped.  After the call none of the [N] buffers is in the pool, those
    of the dropped messages included.  A sink worker whose handling of a
    message ([process]) returns has given the buffer of the message back to
    the pool once, as its last step, after all writes; before that step the
    run has no pool traffic on the array of the message.  With enough fuel
    [process] does return when no limit applies, the message fits the
    limit, or the limit leaves room for content; a run that is out of fuel
    before that has not given the buffer back. *)
Theorem fanout_buffer_ownership :
  (forall (bk : syslogBackend) (loc : Location) (parts : rawLogParts)
          (appName processName container_ : bytes) (w : world),
     pool_ok w -> syslogLocation bk = Some loc -> nextNotify bk <> None ->
     msgChans bk <> [] ->
     exists m0 w0 bk' w' evs,
       render bk parts appName processName w = Val m0 w0 /\
       sendMessage bk parts appName processName container_ w = Val bk' w' /\
       trace w' = trace w ++ evs /\
       map (fun x => fst (fst x)) (sends evs) =
         seq 0 (length (msgChans bk)) /\
       sentBuffers evs =
         copyBuffers (length (msgChans bk)) evs ++ [buffer m0] /\
       (length (copyBuffers (length (msgChans bk)) evs) + 1 =
        length (msgChans bk))%nat /\
       length (gets evs) = length (msgChans bk) /\
       holds w' (read w0 (buffer m0))
             (buffer m0 :: copyBuffers (length (msgChans bk)) evs) /\
       Forall2 offered (msgChans bk) (msgChans bk') /\
       Forall2 (fun ch x => snd x = chan_ready ch) (msgChans bk) (sends evs)) /\
  (forall (fuel : nat) (f : syslogForwarder) (conn : netConn)
          (m : bufferWithIdx) (w : world),
     pool_ok w -> owned (arr (buffer m)) w -> msg_ok m ->
     GoInt.in_range (messageLimit f) ->
     messageLimit f <= 0 \/ lenZ (buffer m) <= messageLimit f \/
     0 <= availableFor (messageLimit f) (msgHeader w m) (msgTrailer w m) ->
     exists evs o w',
       Forall (pool_event_off (arr (buffer m))) evs /\
       match o with
       | Returned e =>
           process fuel f conn m w = Val e w' /\
           trace w' = trace w ++ evs ++ [EvPut (buffer m)] /\
           In (buffer m) (pool w')
       | Exhausted =>
           process fuel f conn m w = OutOfFuel w' /\
           trace w' = trace w ++ evs
       end /\
       ((length (msgContent w m) <= fuel)%nat ->
        messageLimit f <= 0 \/ lenZ (buffer m) <= messageLimit f \/
        0 < availableFor (messageLimit f) (msgHeader w m) (msgTrailer w m) ->
        o <> Exhausted)) /\
  (forall (fuel : nat) (f : syslogForwarder) (conn : netConn)
          (m : bufferWithIdx) (w : world) (e : error) (w' : world),
     pool_ok w -> owned (arr (buffer m)) w -> msg_ok m ->
     GoInt.in_range (messageLimit f) ->
     process fuel f conn m w = Val e w' ->
     exists evs,
       trace w' = trace w ++ evs ++ [EvPut (buffer m)] /\
       Forall (pool_event_off (arr (buffer m))) evs /\
       In (buffer m) (pool w')).
Proof.
  split; [|split].
  - intros bk loc parts appName processName container_ w Hok Hloc Htm Hch.
    destruct (@sendMessage_spec bk loc parts appName processName container_ w
                Hok Hloc Htm Hch)
      as (m & w0 & g & evs & chs' & tm' & w' & Er & Hrd & E & Htr & Hfan &
          Hok' & Hh' & Hnow' & Henv' & Htm').
    destruct (fanned_sends Hfan) as (Hidx & _ & Hgets & Hoff & Hready).
    destruct (fanned_buffers Hfan eq_refl Hch) as (Hbufs & Hcount).
    exists m, w0. eexists _, w', (EvGet g :: evs).
    split; [exact Er|]. split; [exact E|]. split; [exact Htr|].
    split; [exact Hidx|]. split; [exact Hbufs|]. split; [exact Hcount|].
    split; [simpl; rewrite Hgets; lia|].
    split; [rewrite (rd_line Hrd); exact Hh'|].
    split; [exact Hoff|exact Hready].
  - intros fuel f conn m w Hok Ha Hm Hrange Hcase.
    destruct (@process_run fuel f conn m w Hok Ha Hm Hrange Hcase)
      as (evs & o & w' & Hrun & Hres).
    exists evs, o, w'.
    split; [eapply parts_run_pool_off; exact Hrun|].
    split.
    + destruct o; [destruct Hres as (E & Htr & _ & Hin)|]; auto.
    + intros Hfuel Hroom. apply (parts_run_returns Hrun Hfuel).
      destruct (msg_regions w Hm) as (HB & _).
      assert (Z.of_nat (length (msgHeader w m ++ msgContent w m ++
                                msgTrailer w m)) = lenZ (buffer m))
        by (rewrite <- HB, read_length; reflexivity).
      lia.
  - intros fuel f conn m w e w'. apply process_returned.
Qed.

Lemma fanout_buffer_ownership_witness :
  (exists m0 w0 bk' w' evs,
     render sampleBackend sampleParts (b "coolappname") (b "procx")
            emptyWorld = Val m0 w0 /\
     sendMessage sampleBackend sampleParts (b "coolappname") (b "procx") []
                 emptyWorld = Val bk' w' /\
     trace w' = trace emptyWorld ++ evs /\
     map (fun x => fst (fst x)) (sends evs) = seq 0 3 /\
     sentBuffers evs = copyBuffers 3 evs ++ [buffer m0] /\
     (length (copyBuffers 3 evs) + 1 = 3)%nat /\
     length (gets evs) = 3%nat /\
     holds w' (read w0 (buffer m0)) (buffer m0 :: copyBuffers 3 evs) /\
     Forall2 offered (msgChans sampleBackend) (msgChans bk') /\
     Forall2 (fun ch x => snd x = chan_ready ch) (msgChans sampleBackend)
             (sends evs)) /\
  (exists evs o w',
     Forall (pool_event_off (arr (buffer sampleMessage))) evs /\
     match o with
     | Returned e =>
         process 40 (udpForwarder 160) sampleConn sampleMessage sampleWorld =
           Val e w' /\
         trace w' = trace sampleWorld ++ evs ++ [EvPut (buffer sampleMessage)]
         /\ In (buffer sampleMessage) (pool w')
     | Exhausted =>
         process 40 (udpForwarder 160) sampleConn sampleMessage sampleWorld =
           OutOfFuel w' /\
         trace w' = trace sampleWorld ++ evs
     end /\
     ((length (msgContent sampleWorld sampleMessage) <= 40)%nat ->
      messageLimit (udpForwarder 160) <= 0 \/
      lenZ (buffer sampleMessage) <= messageLimit (udpForwarder 160) \/
      0 < availableFor (messageLimit (udpForwarder 160))
                       (msgHeader sampleWorld sampleMessage)
                       (msgTrailer sampleWorld sampleMessage) ->
      o <> Exhausted)) /\
  (exists evs,
     trace (world_of (process 40 (udpForwarder 160) sampleConn sampleMessage
                              sampleWorld)) =
       trace sampleWorld ++ evs ++ [EvPut (buffer sampleMessage)] /\
     Forall (pool_event_off (arr (buffer sampleMessage))) evs /\
     In (buffer sampleMessage)
        (pool (world_of (process 40 (udpForwarder 160) sampleConn
                                 sampleMessage sampleWorld)))).
Proof.
  split; [|split].
  - apply (proj1 fanout_buffer_ownership sampleBackend grenada).
    + split; constructor.
    + reflexivity.
    + discriminate.
    + discriminate.
  - apply (proj1 (proj2 fanout_buffer_ownership)).
    + exact sampleWorld_pool_ok.
    + exact sampleWorld_owned.
    + exact sampleMessage_ok.
    + unfold GoInt.in_range. simpl. lia.
    + right. right. vm_compute. discriminate.
  - apply (proj2 (proj2 fanout_buffer_ownership) 40%nat (udpForwarder 160)
             sampleConn sampleMessage sampleWorld None).
    + exact sampleWorld_pool_ok.
    + exact sampleWorld_owned.
    + exact sampleMessage_ok.
    + unfold GoInt.in_range. simpl. lia.
    + vm_compute. reflexivity.
Defined.

(** C7, as stated, fails on the code.  A full channel drops its message:
    of the three sinks of the sample backend the second, whose channel has
    no room, is handed nothing, and the buffer taken from the pool for it is
    not given back, neither by [sendMessage], which returns nothing to the
    pool, nor by a worker, which never receives it.  And where the limit
    does not leave room for content the worker does not return its buffer:
    [process] calls [Put] after [splitParts] and not in a deferred call, so
    on a sink of MTU 130 (limit 30, header and trailer 44 bytes) it panics
    with the take of the fragment buffer as its only pool event, and on a
    sink of MTU 144 (limit 44) it stays in the loop for as long as it is
    given fuel, with no pool traffic on the array of the message. *)
Lemma fanout_ownership_counterexample :
  (let r := sendMessage sampleBackend sampleParts (b "coolappname")
                        (b "procx") [] emptyWorld in
   map (fun x => (fst (fst x), snd x)) (sends (trace (world_of r))) =
     [(0%nat, true); (1%nat, false); (2%nat, true)] /\
   queued r = [1%nat; 0%nat; 1%nat] /\
   length (gets (trace (world_of r))) = 3%nat /\
   puts (trace (world_of r)) = [] /\
   pool (world_of r) = []) /\
  (forall fuel : nat,
     exists w' g,
       process (S fuel) (udpForwarder 130) sampleConn sampleMessage
               sampleWorld = Panic "slice bounds out of range" w' /\
       trace w' = trace sampleWorld ++ [EvGet g]) /\
  (forall fuel : nat,
     exists w' evs,
       process fuel (udpForwarder 144) sampleConn sampleMessage
               sampleWorld = OutOfFuel w' /\
       trace w' = trace sampleWorld ++ evs /\
       Forall (pool_event_off (arr (buffer sampleMessage))) evs /\
       datagrams evs = repeat (sampleHeader ++ sampleTrailer) fuel).
Proof.
  split; [vm_compute; repeat split; reflexivity|].
  destruct sampleMessage_regions as (EH & EC & ET).
  split; intros fuel.
  - apply process_panics.
    + exact sampleWorld_pool_ok.
    + exact sampleWorld_owned.
    + exact sampleMessage_ok.
    + vm_compute. split; reflexivity.
    + reflexivity.
    + rewrite EH, ET. reflexivity.
  - rewrite <- EH, <- ET. apply process_spins.
    + intros k d. split; reflexivity.
    + exact sampleWorld_pool_ok.
    + exact sampleWorld_owned.
    + exact sampleMessage_ok.
    + vm_compute. split; reflexivity.
    + reflexivity.
    + rewrite EH, ET. reflexivity.
Qed.

(** ** C2: the syslog line *)

Lemma civil_bounds (days : Z) :
  1 <= snd (fst (civil days)) <= 12 /\ 1 <= snd (civil days) <= 31.
Proof.
  unfold civil. cbv zeta. cbn [fst snd].
  set (z := days + 719468).
  set (era := z / 146097).
  set (doe := z - era * 146097).
  assert (Hdoe : 0 <= doe <= 146096).
  { unfold doe, era. pose proof (Z.mod_pos_bound z 146097 ltac:(lia)) as Hm.
    rewrite Z.mod_eq in Hm by lia. lia. }
  clearbody doe. clear era z.
  set (yoe := (doe - doe / 1460 + doe / 36524 - doe / 146096) / 365).
  set (doy := doe - (365 * yoe + yoe / 4 - yoe / 100)).
  assert (Hdoy : 0 <= doy <= 365).
  { unfold doy, yoe. Z.to_euclidean_division_equations; lia. }
  clearbody doy. clear yoe.
  set (mp := (5 * doy + 2) / 153).
  assert (Hmp : 0 <= mp <= 11)
    by (unfold mp; Z.to_euclidean_division_equations; lia).
  split.
  - destruct (Z.ltb_spec mp 10); lia.
  - unfold mp. Z.to_euclidean_division_equations; lia.
Qed.

Lemma monthName_length (m : Z) : 1 <= m <= 12 -> length (monthName m) = 3%nat.
Proof.
  intros Hm.
  assert (Hcases : m = 1 \/ m = 2 \/ m = 3 \/ m = 4 \/ m = 5 \/ m = 6 \/
                   m = 7 \/ m = 8 \/ m = 9 \/ m = 10 \/ m = 11 \/ m = 12)
    by lia.
  repeat (destruct Hcases as [->|Hcases]; [reflexivity|]).
  subst m. reflexivity.
Qed.

(** The layout [time.Stamp] always prints fifteen bytes. *)
Lemma formatStamp_length (loc : Location) (t : Instant) :
  length (formatStamp loc t) = 15%nat.
Proof.
  unfold formatStamp.
  pose proof (civil_bounds (wallSeconds loc t / 86400)) as (Hm & _).
  destruct (civil (wallSeconds loc t / 86400)) as [[y m] d].
  cbn [fst snd] in Hm.
  rewrite !length_app, (monthName_length Hm).
  unfold day_2. destruct (d <? 10); reflexivity.
Qed.

(** C2.  Every message [sendMessage] offers to a sink holds the line
    ['<' priority '>' stamp ' ' container-id[:12] ' ' appName '['
    processName ']: ' prefix content suffix '\n'], where the stamp is the
    timestamp of the record in the layout ["Jan _2 15:04:05"] in the
    location of the backend; [headerIdx] marks the end of the prefix and
    [contentIdx] the end of the content.  The location enters the line
    through the fifteen bytes of the stamp only. *)
Theorem syslog_line_format (bk : syslogBackend) (loc : Location)
  (parts : rawLogParts) (appName processName container_ : bytes)
  (w : world) :
  pool_ok w -> syslogLocation bk = Some loc -> nextNotify bk <> None ->
  msgChans bk <> [] ->
  exists bk' w' evs,
    sendMessage bk parts appName processName container_ w = Val bk' w' /\
    trace w' = trace w ++ evs /\
    length (sends evs) = length (msgChans bk) /\
    Forall (fun x =>
              let m := snd (fst x) in
              read w' (buffer m) =
                b "<" ++ priority parts ++ b ">" ++
                formatStamp loc (ts parts) ++ b " " ++
                firstn 12 (container parts) ++ b " " ++ appName ++ b "[" ++
                processName ++ b "]: " ++ syslogExtraStart bk ++
                content parts ++ syslogExtraEnd bk ++ [newline] /\
              headerIdx m =
                Z.of_nat (length (b "<" ++ priority parts ++ b ">" ++
                                  formatStamp loc (ts parts) ++ b " " ++
                                  firstn 12 (container parts) ++ b " " ++
                                  appName ++ b "[" ++ processName ++
                                  b "]: " ++ syslogExtraStart bk)) /\
              contentIdx m =
                headerIdx m + Z.of_nat (length (content parts)))
           (sends evs) /\
    (exists pre post,
       forall loc',
         syslogLine loc' parts appName processName (syslogExtraStart bk)
                    (syslogExtraEnd bk) =
           pre ++ formatStamp loc' (ts parts) ++ post /\
         length (formatStamp loc' (ts parts)) = 15%nat).
Proof.
  intros Hok Hloc Htm Hch.
  destruct (@sendMessage_spec bk loc parts appName processName container_ w
              Hok Hloc Htm Hch)
    as (m & w0 & g & evs & chs' & tm' & w' & Er & Hrd & E & Htr & Hfan &
        Hok' & Hh' & Hnow' & Henv' & Htm').
  destruct (fanned_sends Hfan) as (Hidx & Hall & _).
  destruct (fanned_buffers Hfan eq_refl Hch) as (Hbufs & _).
  eexists _, w', (EvGet g :: evs).
  split; [exact E|]. split; [exact Htr|].
  change (sends (EvGet g :: evs)) with (sends evs).
  split.
  { rewrite <- (length_map (fun x => fst (fst x))), Hidx. apply length_seq. }
  split.
  { destruct Hh' as (_ & Hheld). rewrite Forall_forall in Hheld, Hall.
    apply Forall_forall. intros x Hx. cbv zeta.
    destruct (Hall x Hx) as (Hh & Hc & _).
    assert (Hin : In (buffer (snd (fst x)))
                     (buffer m :: copyBuffers (length (msgChans bk)) evs)).
    { assert (Hs : In (buffer (snd (fst x))) (sentBuffers evs))
        by (unfold sentBuffers;
            apply (in_map (fun y => buffer (snd (fst y)))); exact Hx).
      rewrite Hbufs in Hs. apply in_app_iff in Hs.
      destruct Hs as [Hs|[<-|[]]]; [right; exact Hs|now left]. }
    destruct (Hheld _ Hin) as (_ & Hline).
    split; [rewrite Hline; unfold syslogLine, syslogHeader, shortContainerId;
            rewrite <- !app_assoc; reflexivity|].
    split; [rewrite Hh, (rd_header Hrd); unfold syslogHeader, shortContainerId;
            reflexivity|].
    rewrite Hc, Hh. exact (rd_content Hrd). }
  exists (b "<" ++ priority parts ++ b ">").
  exists (b " " ++ shortContainerId (container parts) ++ b " " ++ appName ++
          b "[" ++ processName ++ b "]: " ++ syslogExtraStart bk ++
          content parts ++ syslogExtraEnd bk ++ [newline]).
  intros loc'. split; [|apply formatStamp_length].
  unfold syslogLine, syslogHeader. rewrite <- !app_assoc. reflexivity.
Qed.

Lemma syslog_line_format_witness :
  exists bk' w' evs,
    sendMessage sampleBackend sampleParts (b "coolappname") (b "procx") []
                emptyWorld = Val bk' w' /\
    trace w' = trace emptyWorld ++ evs /\
    length (sends evs) = 3%nat /\
    Forall (fun x =>
              let m := snd (fst x) in
              read w' (buffer m) =
                b "<30>Jun  5 12:13:47 0123456789ab coolappname[procx]: mymsg"
                ++ [newline] /\
              headerIdx m = 53 /\
              contentIdx m = headerIdx m + 5)
           (sends evs) /\
    (exists pre post,
       forall loc',
         syslogLine loc' sampleParts (b "coolappname") (b "procx") [] [] =
           pre ++ formatStamp loc' (ts sampleParts) ++ post /\
         length (formatStamp loc' (ts sampleParts)) = 15%nat).
Proof.
  apply (@syslog_line_format sampleBackend grenada sampleParts
           (b "coolappname") (b "procx") [] emptyWorld).
  - split; constructor.
  - reflexivity.
  - discriminate.
  - discriminate.
Defined.

(** ** C3: submission to a full channel *)

(** C3 (amended).  In every sequence of submissions, waits and receptions
    the calls of [sendMessage] return: a submission does not wait for room
    in a channel.  A submission leaves a channel that is not ready as it
    was, so the message is dropped, and queues the message on a channel
    that is ready.  The only error line logged is ["Dropping log messages to
    syslog due to full channel buffer."], the same text at every notice, and
    any two of these lines are at least one minute apart: the timer is one
    per backend, shared by its sinks.  Drops are reported: a call logs the
    line, once and with the time of the call, exactly when it dropped a
    message while the timer of the backend was due, and logs nothing
    otherwise; and from a backend whose timer is due, or waits for the
    minute after a notice, as [initialize] leaves it, every call that drops
    a message, anywhere in a run, finds the line logged at the drop or less
    than a minute before it. *)
Theorem sendMessage_drops_without_blocking (acts : list action)
  (bk : syslogBackend) (w : world) :
  pool_ok w ->
  msgChans bk = [] \/ syslogLocation bk <> None ->
  notify_inv (nextNotify bk) (errorLog (trace w)) ->
  (exists bk' w' evs,
     run acts bk w = Val bk' w' /\
     trace w' = trace w ++ evs /\
     apart minute (map fst (errorLog (trace w'))) /\
     Forall (fun p => snd p = dropNotice) (errorLog evs)) /\
  (forall (parts : rawLogParts) (appName processName container_ : bytes),
     exists bk1 w1 evs1,
       sendMessage bk parts appName processName container_ w = Val bk1 w1 /\
       trace w1 = trace w ++ evs1 /\
       Forall2 offered (msgChans bk) (msgChans bk1) /\
       Forall2 (fun ch x => snd x = chan_ready ch) (msgChans bk)
               (sends evs1) /\
       errorLog evs1 = (if dropped evs1 && due (nextNotify bk) (now w)
                        then [(now w, dropNotice)] else [])) /\
  (reported (nextNotify bk) (now w) (errorLog (trace w)) ->
   forall (parts : rawLogParts) (appName processName container_ : bytes),
     exists bk1 w1 bk2 w2 evs2,
       run acts bk w = Val bk1 w1 /\
       sendMessage bk1 parts appName processName container_ w1 = Val bk2 w2 /\
       trace w2 = trace w1 ++ evs2 /\
       (dropped evs2 = true ->
        exists t, In (t, dropNotice) (errorLog (trace w2)) /\
                  now w1 - minute < t <= now w1)).
Proof.
  intros Hok Hloc Hinv. split; [|split].
  - destruct (@run_spec acts bk w Hok Hloc Hinv)
      as (bk' & w' & evs & E & Htr & (d & _ & _ & Hap) & Hl).
    exists bk', w', evs. auto.
  - intros parts appName processName container_.
    destruct (@sendMessage_step bk parts appName processName container_ w
                Hok Hloc Hinv)
      as (bk1 & w1 & evs1 & E1 & Htr1 & _ & _ & _ & _ & Hoff & Hoks & _).
    destruct (@sendMessage_report bk parts appName processName container_ w
                Hok Hloc Hinv)
      as (bk2 & w2 & evs2 & E2 & Htr2 & Hlog & _).
    rewrite E1 in E2. injection E2 as <- <-.
    rewrite Htr1 in Htr2. apply app_inv_head in Htr2. subst evs2.
    exists bk1, w1, evs1. auto.
  - intros Hrep parts appName processName container_.
    destruct (@run_reported acts bk w Hok Hloc Hinv Hrep)
      as (bk1 & w1 & E1 & Hok1 & Hloc1 & Hinv1 & Hrep1).
    destruct (@sendMessage_reported bk1 parts appName processName container_
                w1 Hok1 Hloc1 Hinv1 Hrep1)
      as (bk2 & w2 & evs2 & E2 & Htr2 & _ & _ & _ & _ & Hdrop).
    exists bk1, w1, bk2, w2, evs2. auto.
Qed.

Lemma sendMessage_drops_without_blocking_witness :
  (exists bk' w' evs,
     run [sampleSend; sampleSend; ActWait 60000000000; sampleSend]
         sampleBackend emptyWorld = Val bk' w' /\
     trace w' = trace emptyWorld ++ evs /\
     apart minute (map fst (errorLog (trace w'))) /\
     Forall (fun p => snd p = dropNotice) (errorLog evs)) /\
  (forall (parts : rawLogParts) (appName processName container_ : bytes),
     exists bk1 w1 evs1,
       sendMessage sampleBackend parts appName processName container_
                   emptyWorld = Val bk1 w1 /\
       trace w1 = trace emptyWorld ++ evs1 /\
       Forall2 offered (msgChans sampleBackend) (msgChans bk1) /\
       Forall2 (fun ch x => snd x = chan_ready ch) (msgChans sampleBackend)
               (sends evs1) /\
       errorLog evs1 =
         (if dropped evs1 && due (nextNotify sampleBackend) (now emptyWorld)
          then [(now emptyWorld, dropNotice)] else [])) /\
  (forall (parts : rawLogParts) (appName processName container_ : bytes),
     exists bk1 w1 bk2 w2 evs2,
       run [sampleSend; sampleSend; ActWait 60000000000; sampleSend]
           sampleBackend emptyWorld = Val bk1 w1 /\
       sendMessage bk1 parts appName processName container_ w1 = Val bk2 w2 /\
       trace w2 = trace w1 ++ evs2 /\
       (dropped evs2 = true ->
        exists t, In (t, dropNotice) (errorLog (trace w2)) /\
                  now w1 - minute < t <= now w1)).
Proof.
  destruct (@sendMessage_drops_without_blocking
              [sampleSend; sampleSend; ActWait 60000000000; sampleSend]
              sampleBackend emptyWorld) as (Hrun & Hcall & Hrep).
  - split; constructor.
  - right. discriminate.
  - exists 0. split; [reflexivity|]. split; constructor.
  - split; [exact Hrun|]. split; [exact Hcall|].
    apply Hrep. exists 0. split; [reflexivity|]. left. reflexivity.
Defined.

(** The run of the witness logs two notices, at times 0 and one minute. *)
Example sample_notices :
  errorLog (trace (world_of
    (run [sampleSend; sampleSend; ActWait 60000000000; sampleSend]
         sampleBackend emptyWorld))) =
  [(0, dropNotice); (minute, dropNotice)].
Proof. vm_compute. reflexivity. Qed.

(** Each of the three submissions of that run drops the message of the
    second sink, whose channel has no room; the third finds the channels of
    the other two sinks full as well. *)
Example sample_drops :
  map (fun x => (fst (fst x), snd x))
      (sends (trace (world_of
        (run [sampleSend; sampleSend; ActWait 60000000000; sampleSend]
             sampleBackend emptyWorld)))) =
  [(0, true); (1, false); (2, true);
   (0, true); (1, false); (2, true);
   (0, false); (1, false); (2, false)]%nat.
Proof. vm_compute. reflexivity. Qed.

(** C3, as stated, fails on the code: the notice carries no count.  On a
    sink whose channel is full, three submissions, the last one a minute
    after the second, log the notice twice: after one drop, and after two
    more.  The two lines are the same text, so no reading of the line gives
    the number of drops. *)
Lemma drop_notice_count_counterexample :
  dropsPerNotice 0 (trace (world_of
    (run [sampleSend; sampleSend; ActWait 60000000000; sampleSend]
         fullBackend emptyWorld))) =
    [(1%nat, dropNotice); (2%nat, dropNotice)] /\
  ~ notices_carry_count.
Proof.
  assert (Hrun : dropsPerNotice 0 (trace (world_of
            (run [sampleSend; sampleSend; ActWait 60000000000; sampleSend]
                 fullBackend emptyWorld))) =
            [(1%nat, dropNotice); (2%nat, dropNotice)])
    by (vm_compute; reflexivity).
  split; [exact Hrun|].
  intros (count_of & Hcount).
  specialize (Hcount [sampleSend; sampleSend; ActWait 60000000000; sampleSend]
                     fullBackend).
  rewrite Hrun in Hcount.
  inversion Hcount as [|p1 l1 H1 Hrest]; subst.
  inversion Hrest as [|p2 l2 H2 _]; subst.
  cbn [fst snd] in H1, H2. congruence.
Qed.

(** ** C9: a dial that fails *)

Lemma connect_spec (timeout : Z) (f : syslogForwarder) (w : world) :
  let dialled := dialRes (env w) (length (trace w)) (Scheme (url f))
                         (Host (url f)) in
  exists r f' w',
    connect timeout f w = Val (r, f') w' /\
    trace w' = trace w ++
               [EvDial (Scheme (url f)) (Host (url f)) timeout
                       (match dialled with inl _ => None | inr e => Some e end)]
    /\ env w' = env w /\
    match dialled with
    | inr cause => r = inr (connectError (url f) cause) /\ f' = f
    | inl _ => exists conn, r = inl conn
    end.
Proof.
  intros dialled. unfold connect, bind, net_DialTimeout. fold dialled.
  destruct dialled as [c|cause].
  - destruct (bytes_eqb (Scheme (url f)) (b "tcp")); unfold ret;
      eexists _, _, _; (split; [reflexivity|]); simpl; eauto.
  - unfold ret. eexists _, _, _. split; [reflexivity|]. simpl. auto.
Qed.

Lemma flat_map_plain (s : bytes) :
  forallb plain_byte s = true -> flat_map quote_byte s = s.
Proof.
  induction s as [|c s IH]; intros Hs; [reflexivity|].
  simpl in Hs. apply andb_true_iff in Hs as (Hc & Hs').
  cbn [flat_map]. rewrite (IH Hs').
  unfold plain_byte in Hc. unfold quote_byte.
  apply negb_true_iff in Hc.
  apply orb_false_iff in Hc as (Hc & H127).
  apply orb_false_iff in Hc as (Hc & H32).
  apply orb_false_iff in Hc as (H34 & H92).
  rewrite H34, H92.
  destruct (Nat.ltb_spec (nat_of_ascii c) 32) as [Hlt|Hge]; [discriminate|].
  assert (Hn : forall k, (k < 32)%nat -> (nat_of_ascii c =? k)%nat = false).
  { intros k Hk. apply Nat.eqb_neq. lia. }
  rewrite !Hn by lia. rewrite H127. reflexivity.
Qed.

(** On text without quotes, backslashes and control characters, [%q] puts
    the text between double quotes. *)
Lemma quote_plain (s : bytes) :
  forallb plain_byte s = true -> quote s = dquote :: s ++ [dquote].
Proof. intros Hs. unfold quote. now rewrite flat_map_plain. Qed.

Lemma envLookup_val (h : host) (A : Type) (convert : bytes -> option A)
  (first : bytes) (envs : list bytes) :
  forall (i : nat) (w : world),
  exists r w', envLookup h convert first i envs w = Val r w' /\
               env w' = env w.
Proof.
  induction envs as [|name rest IH]; intros i w; cbn [envLookup].
  - exists None, w. split; reflexivity.
  - destruct (convert (getenv h name)) as [v|]; [|apply IH].
    unfold bind. destruct (0 <? i)%nat; eexists _, _; split; reflexivity.
Qed.

Lemma envOrDefault_val (h : host) (A : Type) (convert : bytes -> option A)
  (isZero : A -> bool) (show : A -> bytes) (defaultValue : A)
  (envs : list bytes) (w : world) :
  exists v w', envOrDefault h convert isZero show defaultValue envs w = Val v w'
               /\ env w' = env w.
Proof.
  unfold envOrDefault.
  destruct (envLookup_val h convert (hd [] envs) envs 0 w)
    as (r & w1 & E & Henv).
  rewrite (bind_val _ E). destruct r as [v|].
  - exists v, w1. split; [reflexivity|exact Henv].
  - unfold bind. destruct (negb (isZero defaultValue));
      eexists _, _; (split; [reflexivity|exact Henv]).
Qed.

Lemma initSinks_first_fails (timeout : Z) (h : host) (mtu_ bufferSize : Z)
  (addr : bytes) (rest : list bytes) (bk : syslogBackend) (w : world)
  (u : URL) (cause : bytes) :
  urlParse h addr = inl u ->
  dialRes (env w) (length (trace w)) (Scheme u) (Host u) = inr cause ->
  exists w',
    initSinks timeout h mtu_ bufferSize (addr :: rest) bk w =
      Val (bk, Some (connectError u cause)) w' /\
    trace w' = trace w ++ [EvDial (Scheme u) (Host u) timeout (Some cause)].
Proof.
  intros Hparse Hdial. cbn [initSinks]. rewrite Hparse.
  unfold processMessages.
  destruct (connect_spec timeout (SyslogForwarder u mtu_ 0) w)
    as (r & f' & w' & E & Htr & _ & Hr).
  cbn [url Scheme Host] in *. rewrite Hdial in Hr, Htr.
  destruct Hr as (-> & ->).
  exists w'. split; [|exact Htr].
  unfold bind at 1. rewrite (bind_val _ E). reflexivity.
Qed.

(** An error of the loop over the forward addresses is a parse error, or the
    error of the [connect] of one address, after whose dial nothing else
    happened. *)
Lemma initSinks_error (timeout : Z) (h : host) (mtu_ bufferSize : Z) :
  forall (addrs : list bytes) (bk : syslogBackend) (w : world)
         (bk' : syslogBackend) (e : bytes) (w' : world),
  initSinks timeout h mtu_ bufferSize addrs bk w = Val (bk', Some e) w' ->
  (exists addr perr,
     In addr addrs /\ urlParse h addr = inr perr /\
     e = b "unable to parse " ++ quote addr ++ b ": " ++ perr) \/
  (exists addr u cause tr,
     In addr addrs /\ urlParse h addr = inl u /\
     e = connectError u cause /\
     trace w' = tr ++ [EvDial (Scheme u) (Host u) timeout (Some cause)]).
Proof.
  induction addrs as [|addr rest IH]; intros bk w bk' e w' E;
    cbn [initSinks] in E.
  - discriminate.
  - destruct (urlParse h addr) as [u|perr] eqn:Hparse.
    + unfold processMessages in E.
      destruct (connect_spec timeout (SyslogForwarder u mtu_ 0) w)
        as (r & f' & w1 & Ec & Htr & _ & Hr).
      cbn [url Scheme Host] in *.
      unfold bind at 1 in E. rewrite (bind_val _ Ec) in E.
      cbn [fst] in E.
      destruct (dialRes (env w) (length (trace w)) (Scheme u) (Host u))
        as [c|cause].
      * destruct Hr as (conn & ->). unfold ret in E.
        destruct (IH _ _ _ _ _ E) as [(a & p & Hin & Hp & He)
                                     |(a & u' & c' & tr & Hin & Hp & He & Ht)].
        -- left. exists a, p. split; [now right|auto].
        -- right. exists a, u', c', tr. split; [now right|auto].
      * destruct Hr as (-> & ->). unfold ret in E.
        injection E as <- <- <-.
        right. exists addr, u, cause, (trace w).
        split; [now left|]. auto.
    + unfold ret in E. injection E as <- <- <-.
      left. exists addr, perr. split; [now left|]. auto.
Qed.

Lemma chooseMTU_env (h : host) (w : world) :
  exists w', chooseMTU h w = Val (mtuOf h) w' /\ env w' = env w.
Proof.
  unfold chooseMTU.
  destruct (@StringEnvOrDefault_single h (b "eth0")
              (b "LOG_SYSLOG_MTU_NETWORK_INTERFACE") w
              ltac:(discriminate)) as (w1 & E & Henv).
  rewrite (bind_val _ E). fold (configuredInterface h).
  assert (Hnn : is_nil (configuredInterface h) = false).
  { unfold configuredInterface.
    destruct (getenv h (b "LOG_SYSLOG_MTU_NETWORK_INTERFACE"));
      reflexivity. }
  rewrite Hnn. cbn [negb]. unfold mtuOf.
  destruct (interfaceMTU h (configuredInterface h)) as [v|err].
  - destruct (0 <? v); eexists; (split; [reflexivity|exact Henv]).
  - eexists. split; [reflexivity|exact Henv].
Qed.

(** After its preamble [initialize] is the loop over the forward addresses,
    whose result it returns as it is. *)
Lemma initialize_sinks (timeout : Z) (h : host) (bk : syslogBackend)
  (w : world) :
  forwardAddressList h <> [] ->
  exists bk1 bufferSize w1,
    initialize timeout h bk w =
      initSinks timeout h (mtuOf h) bufferSize (forwardAddressList h) bk1 w1
    /\ env w1 = env w /\ msgChans bk1 = msgChans bk /\
    syslogLocation bk1 <> None /\ nextNotify bk1 <> None.
Proof.
  intros Haddrs. unfold initialize.
  destruct (envOrDefault_val h (fun v => if is_nil v then None else Some v)
              is_nil (fun v => v) []
              [b "LOG_SYSLOG_MESSAGE_EXTRA_START"] w)
    as (x1 & w1 & E1 & Henv1).
  unfold StringEnvOrDefault at 1. rewrite (bind_val _ E1).
  destruct (envOrDefault_val h (fun v => if is_nil v then None else Some v)
              is_nil (fun v => v) []
              [b "LOG_SYSLOG_MESSAGE_EXTRA_END"] w1)
    as (x2 & w2 & E2 & Henv2).
  unfold StringEnvOrDefault at 1. rewrite (bind_val _ E2).
  destruct (envOrDefault_val h atoi (fun v => v =? 0) decimal
              DefaultBufferSize
              [b "LOG_SYSLOG_BUFFER_SIZE"; b "LOG_BUFFER_SIZE"] w2)
    as (bs & w3 & E3 & Henv3).
  unfold IntEnvOrDefault. rewrite (bind_val _ E3).
  destruct (Nat.eqb_spec (length (forwardAddressList h)) 0) as [Hz|_].
  { apply length_zero_iff_nil in Hz. contradiction. }
  destruct (envOrDefault_val h (fun v => if is_nil v then None else Some v)
              is_nil (fun v => v) []
              [b "LOG_SYSLOG_TIMEZONE"; b "SYSLOG_TIMEZONE"] w3)
    as (tz & w4 & E4 & Henv4).
  unfold StringEnvOrDefault at 1. rewrite (bind_val _ E4).
  assert (Hlocn : exists location w5,
            (if negb (is_nil tz)
             then match loadLocation h tz with
                  | inl tz0 => ret tz0
                  | inr err =>
                      bslog_Warnf
                        (b "unable to parse syslog timezone format: " ++ err)
                      ;;; ret (timeLocal h)
                  end
             else ret (timeLocal h)) w4 = Val location w5 /\
            env w5 = env w4).
  { destruct (negb (is_nil tz)); [|eexists _, _; split; reflexivity].
    destruct (loadLocation h tz); eexists _, _; split; reflexivity. }
  destruct Hlocn as (location & w5 & E5 & Henv5).
  rewrite (bind_val _ E5).
  destruct (chooseMTU_env h w5) as (w6 & E6 & Henv6).
  rewrite (bind_val _ E6).
  unfold bind at 1. unfold modify. unfold bind at 1. unfold time_NewTimer.
  eexists _, bs, _. split; [reflexivity|].
  cbn [msgChans syslogLocation nextNotify].
  split; [simpl; congruence|]. split; [reflexivity|].
  split; discriminate.
Qed.



(** The error of the test [TestLogForwarderForwardConnError]. *)
Example xudp_start_error :
  (exists bk' w',
     initialize second xudpHost zeroBackend refusingWorld =
       Val (bk', Some (b "[log forwarder] unable to connect to " ++
                       [dquote] ++ b "xudp://127.0.0.1:1234" ++ [dquote] ++
                       b ": dial xudp: unknown network xudp")) w').
Proof. eexists _, _. vm_compute. reflexivity. Qed.

(** ** C6: the lenient parser *)

(** The three lines of [TestLenientParserParse]. *)
Example parse_iso_line :
  Parse 2015 (b "<30>2015-06-05T16:13:47Z vagrant-ubuntu-trusty-64 docker/00dfa98fe8e0[4843]: hey") =
  (mkLogParts 30 3 6 (Some (mkInstant 1433520827 0))
              (b "vagrant-ubuntu-trusty-64") (b "docker/00dfa98fe8e0")
              (b "4843") (b "hey")
              (b "<30>2015-06-05T16:13:47Z vagrant-ubuntu-trusty-64 docker/00dfa98fe8e0[4843]: hey")
              (b "00dfa98fe8e0"),
   None).
Proof. vm_compute. reflexivity. Qed.

Example parse_bsd_line :
  Parse 2015 (b "<31>Dec 26 05:08:46 hostname tag[296]: content") =
  (mkLogParts 31 3 7 (Some (mkInstant 1451106526 0))
              (b "hostname") (b "tag") [] (b "content")
              (b "<31>Dec 26 05:08:46 hostname tag[296]: content") [],
   None).
Proof. vm_compute. reflexivity. Qed.

Example parse_numbered_line :
  Parse 2015 (b "<165>1 2003-08-24T05:14:15.000003Z 192.0.2.1 myproc 8710 - - content") =
  (mkLogParts 165 20 5 (Some (mkInstant 1061702055 3000))
              (b "192.0.2.1") (b "myproc") (b "8710") (b "content")
              (b "<165>1 2003-08-24T05:14:15.000003Z 192.0.2.1 myproc 8710 - - content")
              [],
   None).
Proof. vm_compute. reflexivity. Qed.

Example parse_garbage :
  Parse 2015 (b "no priority here") =
  (mkLogParts 0 0 0 None [] [] [] [] (b "no priority here") [], None).
Proof. vm_compute. reflexivity. Qed.


(** ** The websocket sink: JSON text *)

Lemma json_unquote_escape_byte (c : ascii) (rest : bytes) :
  json_unquote (json_escape_byte c ++ rest) =
  match json_unquote rest with
  | Some (s, r) => Some (c :: s, r)
  | None => None
  end.
Proof.
  destruct c as [[|] [|] [|] [|] [|] [|] [|] [|]]; reflexivity.
Qed.

Lemma json_unquote_escaped (s rest : bytes) :
  json_unquote (flat_map json_escape_byte s ++ dquote :: rest) = Some (s, rest).
Proof.
  induction s as [|c s IH]; [reflexivity|].
  cbn [flat_map]. rewrite <- app_assoc, json_unquote_escape_byte, IH.
  reflexivity.
Qed.

Lemma json_string_at_string (s rest : bytes) :
  json_string_at (json_string s ++ rest) = Some (s, rest).
Proof.
  unfold json_string_at, json_string.
  change (([dquote] ++ flat_map json_escape_byte s ++ [dquote]) ++ rest)
    with (dquote :: (flat_map json_escape_byte s ++ [dquote]) ++ rest).
  rewrite <- app_assoc. cbn [expect obind app].
  change (Ascii.eqb dquote dquote) with true. cbn iota.
  apply json_unquote_escaped.
Qed.

Lemma json_member_read (kv : bytes * bytes) (rest : bytes) :
  (k <-? json_string_at (json_member kv ++ rest) ;;
   l1 <-? expect ":" (snd k) ;;
   v <-? json_string_at l1 ;;
   Some (fst k, fst v, snd v)) = Some (fst kv, snd kv, rest).
Proof.
  unfold json_member. rewrite <- app_assoc, json_string_at_string.
  cbn [obind snd fst]. rewrite <- app_assoc.
  change (expect ":" (b ":" ++ json_string (snd kv) ++ rest))
    with (Some (json_string (snd kv) ++ rest)).
  cbn [obind]. rewrite json_string_at_string. reflexivity.
Qed.

Lemma json_members_step (fuel : nat) (kv : bytes * bytes) (rest : bytes) :
  json_members (S fuel) (json_member kv ++ rest) =
  match rest with
  | c :: l2 =>
      if Ascii.eqb c "," then
        ms <-? json_members fuel l2 ;;
        Some (kv :: fst ms, snd ms)
      else if Ascii.eqb c "}" then Some ([kv], l2)
      else None
  | [] => None
  end.
Proof.
  pose proof (json_member_read kv rest) as H.
  cbn [json_members].
  destruct (json_string_at (json_member kv ++ rest)) as [k|];
    [|discriminate]. cbn [obind] in *.
  destruct (expect ":" (snd k)) as [l1|]; [|discriminate]. cbn [obind] in *.
  destruct (json_string_at l1) as [v|]; [|discriminate]. cbn [obind] in *.
  injection H as Hk Hv Hr. rewrite Hk, Hv, Hr.
  destruct kv; reflexivity.
Qed.

Lemma json_members_join (ms : list (bytes * bytes)) :
  forall (fuel : nat) (rest : bytes),
    ms <> [] -> (length ms <= fuel)%nat ->
    json_members fuel (join (b ",") (map json_member ms) ++ "}"%char :: rest)
    = Some (ms, rest).
Proof.
  induction ms as [|kv ms IH]; intros fuel rest Hne Hfuel; [congruence|].
  destruct fuel as [|fuel]; [cbn in Hfuel; lia|].
  destruct ms as [|kv' ms].
  - cbn [map join]. rewrite json_members_step. reflexivity.
  - change (join (b ",") (map json_member (kv :: kv' :: ms)))
      with (json_member kv ++ b "," ++
            join (b ",") (map json_member (kv' :: ms))).
    rewrite <- app_assoc, json_members_step.
    rewrite <- app_assoc. cbn [b list_ascii_of_string app].
    change (Ascii.eqb "," ",") with true. cbn iota.
    rewrite IH; [reflexivity|discriminate|cbn in *; lia].
Qed.

Lemma join_length (sep : bytes) (l : list bytes) :
  Forall (fun x => (1 <= length x)%nat) l ->
  (length l <= length (join sep l))%nat.
Proof.
  induction 1 as [|x l Hx Hl IH]; [cbn; lia|].
  destruct l as [|y l]; [cbn; lia|].
  change (join sep (x :: y :: l)) with (x ++ sep ++ join sep (y :: l)).
  rewrite !length_app. cbn [length] in *. lia.
Qed.

Lemma json_decode_object (ms : list (bytes * bytes)) :
  ms <> [] -> json_decode (json_object ms) = Some ms.
Proof.
  intros Hne. unfold json_decode, json_object.
  cbn [b list_ascii_of_string app expect].
  change (Ascii.eqb "{" "{") with true. cbn iota. cbn [obind].
  rewrite json_members_join; [reflexivity|assumption|].
  rewrite length_app. 
  pose proof (@join_length [","%char] (map json_member ms)) as H.
  rewrite length_map in H.
  assert (Hall : Forall (fun x => (1 <= length x)%nat) (map json_member ms)).
  { apply Forall_forall. intros x Hx. apply in_map_iff in Hx.
    destruct Hx as (kv & <- & _). unfold json_member, json_string.
    rewrite !length_app. cbn. lia. }
  specialize (H Hall). cbn [b list_ascii_of_string] in *. lia.
Qed.

Lemma json_escape_byte_one_line (c : ascii) :
  forallb (not_byte newline) (json_escape_byte c) = true.
Proof.
  destruct c as [[|] [|] [|] [|] [|] [|] [|] [|]]; reflexivity.
Qed.

Lemma json_string_one_line (s : bytes) :
  forallb (not_byte newline) (json_string s) = true.
Proof.
  unfold json_string. rewrite !forallb_app.
  assert (H : forallb (not_byte newline) (flat_map json_escape_byte s) = true).
  { induction s as [|c s IH]; [reflexivity|].
    cbn [flat_map]. rewrite forallb_app, json_escape_byte_one_line, IH.
    reflexivity. }
  rewrite H. reflexivity.
Qed.

Lemma json_object_one_line (ms : list (bytes * bytes)) :
  forallb (not_byte newline) (json_object ms) = true.
Proof.
  unfold json_object. rewrite !forallb_app.
  assert (H : forallb (not_byte newline)
                (join (b ",") (map json_member ms)) = true).
  { assert (Hm : forall kv, forallb (not_byte newline) (json_member kv) = true).
    { intros kv. unfold json_member.
      rewrite !forallb_app, !json_string_one_line. reflexivity. }
    induction ms as [|kv ms IH]; [reflexivity|].
    destruct ms as [|kv' ms]; [apply Hm|].
    change (join (b ",") (map json_member (kv :: kv' :: ms)))
      with (json_member kv ++ b "," ++
            join (b ",") (map json_member (kv' :: ms))).
    rewrite !forallb_app, Hm, IH. reflexivity. }
  rewrite H. reflexivity.
Qed.

Lemma splitOn_line (sep : ascii) (x rest : bytes) :
  forallb (not_byte sep) x = true ->
  splitOn sep (x ++ sep :: rest) = x :: splitOn sep rest.
Proof.
  induction x as [|c x IH]; intros H.
  - cbn [app splitOn]. rewrite Ascii.eqb_refl. reflexivity.
  - cbn [forallb] in H. apply andb_true_iff in H. destruct H as [Hc Hx].
    cbn [app splitOn]. unfold not_byte in Hc.
    apply negb_true_iff in Hc. rewrite Hc, (IH Hx). reflexivity.
Qed.

Lemma splitOn_lines (rs : list enrichedRecord) :
  splitOn newline (List.concat (map wsLine rs)) = map wsObject rs ++ [[]].
Proof.
  induction rs as [|r rs IH]; [reflexivity|].
  cbn [map List.concat]. unfold wsLine at 1.
  rewrite <- app_assoc. cbn [app].
  change (ascii_of_nat 10) with newline.
  rewrite splitOn_line by apply json_object_one_line.
  rewrite IH. reflexivity.
Qed.

(** ** The websocket sink: the session *)

Lemma skipn_length_app {A : Type} (l x : list A) :
  skipn (length l) (l ++ x) = x.
Proof. induction l; [reflexivity|assumption]. Qed.

Lemma wsTexts_app (x y : list wsAction) :
  wsTexts (x ++ y) = wsTexts x ++ wsTexts y.
Proof.
  induction x as [|a x IH]; [reflexivity|].
  destruct a; cbn [app wsTexts]; rewrite IH; reflexivity.
Qed.

Lemma wsTexts_lines (rs : list enrichedRecord) :
  wsTexts (map (fun r => WsText (wsLine r)) rs) = map wsLine rs.
Proof.
  induction rs as [|r rs IH]; [reflexivity|].
  cbn [map wsTexts]. rewrite IH. reflexivity.
Qed.

(** Records and pongs leave a session open; each record adds its line. *)
Lemma quiet_run (cfg : wsConfig) (evs : list wsEvent) :
  forall f : wsForwarder,
    wsPhaseOf f = Connected -> wsStopped f = false ->
    forallb quiet evs = true ->
    wsDone (wsRun cfg f evs) =
      wsDone f ++ map (fun r => WsText (wsLine r)) (recordsOf evs) /\
    wsPhaseOf (wsRun cfg f evs) = Connected /\
    wsStopped (wsRun cfg f evs) = false.
Proof.
  induction evs as [|e evs IH]; intros f Hc Hs Hq.
  - cbn. rewrite app_nil_r. auto.
  - cbn [forallb] in Hq. apply andb_true_iff in Hq. destruct Hq as [He Hq].
    cbn [wsRun fold_left]. fold (wsRun cfg (wsStep cfg f e) evs).
    destruct e; try discriminate.
    + (* a pong *)
      assert (Hstep : wsDone (wsStep cfg f (WsPong payload)) = wsDone f /\
                      wsPhaseOf (wsStep cfg f (WsPong payload)) = Connected /\
                      wsStopped (wsStep cfg f (WsPong payload)) = false).
      { unfold wsStep, wsPongArrived. rewrite Hs, Hc.
        destruct (wsAwaiting f) as [p|]; [|auto].
        destruct (bytes_eqb p payload); [|auto].
        cbn. rewrite app_nil_r. auto. }
      destruct Hstep as (Hd & Hp & Hst).
      destruct (IH _ Hp Hst Hq) as (H1 & H2 & H3).
      rewrite H1, Hd. auto.
    + (* a record *)
      assert (Hstep : wsDone (wsStep cfg f (WsRecord r)) =
                        wsDone f ++ [WsText (wsLine r)] /\
                      wsPhaseOf (wsStep cfg f (WsRecord r)) = Connected /\
                      wsStopped (wsStep cfg f (WsRecord r)) = false).
      { unfold wsStep, wsSend. rewrite Hs, Hc. cbn. auto. }
      destruct Hstep as (Hd & Hp & Hst).
      destruct (IH _ Hp Hst Hq) as (H1 & H2 & H3).
      rewrite H1, Hd, <- app_assoc. auto.
Qed.


Lemma sessionOf_extend (url : bytes) (header : list (bytes * bytes))
    (f g : wsForwarder) (acts : list wsAction) :
  wsDone g = wsDone f ++ acts -> forallb inSession acts = true ->
  sessionOf url header f -> sessionOf url header g.
Proof.
  intros Hg Hacts (before & since & Hf & Hsince).
  exists before, (since ++ acts). split.
  - rewrite Hg, Hf, <- app_assoc. reflexivity.
  - rewrite forallb_app, Hsince, Hacts. reflexivity.
Qed.

Lemma dialing_last (cfg : wsConfig) (done before : list wsAction) :
  exists l, done ++ before ++ wsDialActions cfg =
            l ++ [WsDial (wsURL cfg) (wsHeader cfg)].
Proof.
  exists (done ++ before ++ [WsEnter Dialing]).
  unfold wsDialActions. rewrite <- !app_assoc. reflexivity.
Qed.

Lemma session_inv_start (cfg : wsConfig) : session_inv cfg (wsStart cfg).
Proof.
  split; [discriminate|]. split; [intros H; contradiction H; reflexivity|].
  exists [WsEnter Dialing]. reflexivity.
Qed.

Lemma session_inv_step (cfg : wsConfig) (f : wsForwarder) (e : wsEvent) :
  session_inv cfg f -> session_inv cfg (wsStep cfg f e).
Proof.
  intros Hinv. unfold wsStep.
  destruct (wsStopped f) eqn:Hs; [exact Hinv|].
  assert (Hdial : forall before : list wsAction,
             session_inv cfg (wsDo (before ++ wsDialActions cfg) Dialing None f)).
  { intros before. split; [cbn; congruence|].
    split; [intros H; contradiction H; reflexivity|].
    cbn. apply dialing_last. }
  assert (Hsent : forall (acts : list wsAction) (awaiting : option bytes)
                         (pings : nat),
             wsPhaseOf f = Connected -> forallb inSession acts = true ->
             session_inv cfg (mkWs Connected awaiting pings false
                                   (wsDone f ++ acts))).
  { intros acts awaiting pings Hp Hacts. destruct Hinv as (_ & _ & Hses).
    rewrite Hp in Hses. split; [discriminate|]. split; [reflexivity|].
    cbn [wsPhaseOf]. eapply sessionOf_extend; [|exact Hacts|exact Hses].
    reflexivity. }
  destruct e.
  - (* tick *)
    unfold wsTick. destruct (wsPhaseOf f) eqn:Hp; try exact Hinv.
    + exact (Hdial []).
    + destruct (wsAwaiting f) as [p|] eqn:Ha.
      * exact (Hdial [WsLog LevelError (noPongLine cfg); WsEnter Closing;
                      WsClose; WsEnter Disconnected]).
      * rewrite Hs. apply Hsent; reflexivity.
  - (* pong *)
    unfold wsPongArrived. destruct (wsPhaseOf f) eqn:Hp; try exact Hinv.
    destruct (wsAwaiting f) as [p|] eqn:Ha; [|exact Hinv].
    destruct (bytes_eqb p payload); [|exact Hinv].
    unfold wsDo. rewrite Hs. apply Hsent; reflexivity.
  - (* record *)
    unfold wsSend. destruct (wsPhaseOf f) eqn:Hp; try exact Hinv.
    + exact (Hdial []).
    + unfold wsDo. rewrite Hs. apply Hsent; reflexivity.
  - (* the dial ended *)
    unfold wsDialed. destruct (wsPhaseOf f) eqn:Hp; try exact Hinv.
    destruct err as [cause|].
    + split; [cbn; congruence|].
      split; [intros H; contradiction H; reflexivity|]. exact I.
    + destruct Hinv as (_ & _ & Hses). rewrite Hp in Hses.
      split; [cbn; congruence|]. split; [reflexivity|]. cbn [wsPhaseOf wsDo].
      destruct Hses as (before & Hb). exists before, []. split; [|reflexivity].
      cbn [wsDone wsDo]. rewrite Hb, <- app_assoc. reflexivity.
  - (* a send failed *)
    unfold wsSendFailed. destruct (wsPhaseOf f) eqn:Hp; try exact Hinv.
    exact (Hdial [WsEnter Closing; WsClose; WsEnter Disconnected]).
  - (* stop *)
    unfold wsStopNow. split; [reflexivity|].
    split; [intros H; contradiction H; reflexivity|]. exact I.
Qed.

Lemma session_inv_run (cfg : wsConfig) (evs : list wsEvent) :
  forall f, session_inv cfg f -> session_inv cfg (wsRun cfg f evs).
Proof.
  induction evs as [|e evs IH]; intros f Hf; [assumption|].
  apply IH, session_inv_step, Hf.
Qed.

Lemma wsRun_app (cfg : wsConfig) (f : wsForwarder) (x y : list wsEvent) :
  wsRun cfg f (x ++ y) = wsRun cfg (wsRun cfg f x) y.
Proof. apply fold_left_app. Qed.

Lemma wsMembers_names (r : enrichedRecord) :
  map fst (wsMembers r) =
  [b "Date"; b "Message"; b "Source"; b "AppName"; b "Unit"].
Proof. reflexivity. Qed.



(** ** The websocket sink: the heartbeat *)

Lemma bytes_eqb_refl (x : bytes) : bytes_eqb x x = true.
Proof. apply bytes_eqb_eq. reflexivity. Qed.

Lemma wsAnswer_app (cfg : wsConfig) (f : wsForwarder) (e : wsEvent)
    (acts : list wsAction) :
  wsDone (wsStep cfg f e) = wsDone f ++ acts -> wsAnswer cfg f e = acts.
Proof.
  intros H. unfold wsAnswer. rewrite H. apply skipn_length_app.
Qed.

Lemma wsAnswer_same (cfg : wsConfig) (f : wsForwarder) (e : wsEvent) :
  wsStep cfg f e = f -> wsAnswer cfg f e = [].
Proof.
  intros H. apply wsAnswer_app. rewrite H, app_nil_r. reflexivity.
Qed.

(** A tick sends a ping exactly in a session in which none is outstanding. *)
Lemma sentPing_spec (cfg : wsConfig) (f : wsForwarder) (p : bytes) :
  sentPing cfg f = Some p <->
  wsStopped f = false /\ wsPhaseOf f = Connected /\ wsAwaiting f = None /\
  p = pingPayload (wsPings f).
Proof.
  unfold sentPing. split.
  - intros H.
    destruct (wsStopped f) eqn:Hs.
    { rewrite wsAnswer_same in H; [discriminate|].
      unfold wsStep. rewrite Hs. reflexivity. }
    destruct (wsPhaseOf f) eqn:Hp.
    + rewrite (@wsAnswer_app cfg f WsTick (wsDialActions cfg)) in H;
        [discriminate|].
      unfold wsStep, wsTick. rewrite Hs, Hp. reflexivity.
    + rewrite wsAnswer_same in H; [discriminate|].
      unfold wsStep, wsTick. rewrite Hs, Hp. reflexivity.
    + destruct (wsAwaiting f) as [q|] eqn:Ha.
      * rewrite (@wsAnswer_app cfg f WsTick
                   (WsLog LevelError (noPongLine cfg) :: wsReconnect cfg)) in H;
          [discriminate|].
        unfold wsStep, wsTick. rewrite Hs, Hp, Ha. reflexivity.
      * rewrite (@wsAnswer_app cfg f WsTick [WsPing (pingPayload (wsPings f))])
          in H.
        { injection H as <-. auto. }
        unfold wsStep, wsTick. rewrite Hs, Hp, Ha. reflexivity.
    + rewrite wsAnswer_same in H; [discriminate|].
      unfold wsStep, wsTick. rewrite Hs, Hp. reflexivity.
  - intros (Hs & Hp & Ha & ->).
    rewrite (@wsAnswer_app cfg f WsTick [WsPing (pingPayload (wsPings f))]);
      [reflexivity|].
    unfold wsStep, wsTick. rewrite Hs, Hp, Ha. reflexivity.
Qed.

(** While nothing answers the ping and nothing ends the session, the ping
    stays outstanding. *)
Lemma silent_run (cfg : wsConfig) (p : bytes) (evs : list wsEvent) :
  forall f : wsForwarder,
    wsStopped f = false -> wsPhaseOf f = Connected ->
    wsAwaiting f = Some p -> forallb (silentFor p) evs = true ->
    wsStopped (wsRun cfg f evs) = false /\
    wsPhaseOf (wsRun cfg f evs) = Connected /\
    wsAwaiting (wsRun cfg f evs) = Some p.
Proof.
  induction evs as [|e evs IH]; intros f Hs Hp Ha Hev; [auto|].
  cbn [forallb] in Hev. apply andb_true_iff in Hev. destruct Hev as [He Hev].
  cbn [wsRun fold_left]. fold (wsRun cfg (wsStep cfg f e) evs).
  apply IH; try assumption;
    destruct e; try discriminate; unfold wsStep; rewrite Hs;
    unfold wsPongArrived, wsSend, wsDialed; rewrite Hp; try rewrite Ha;
    try assumption; try reflexivity;
    cbn [silentFor] in He; apply negb_true_iff in He; rewrite He; assumption.
Qed.

Lemma wsDialError_is_not_no_pong (cfg : wsConfig) (cause : bytes) :
  isNoPong cfg (WsLog LevelError (wsDialError cfg cause)) = false.
Proof.
  cbn [isNoPong].
  destruct (bytes_eqb (wsDialError cfg cause) (noPongLine cfg)) eqn:E;
    [|reflexivity].
  apply bytes_eqb_eq in E. unfold wsDialError, noPongLine in E.
  cbn [b list_ascii_of_string app] in E. congruence.
Qed.

(** Only a tick in a session with a ping outstanding logs the line. *)
Lemma wsStep_cases (cfg : wsConfig) (f : wsForwarder) (e : wsEvent) :
  (e = WsTick /\ wsStopped f = false /\ wsPhaseOf f = Connected /\
   exists p, wsAwaiting f = Some p) \/
  (exists acts,
      wsDone (wsStep cfg f e) = wsDone f ++ acts /\
      forallb (fun a => negb (isNoPong cfg a)) acts = true).
Proof.
  assert (Hsame : wsStep cfg f e = f ->
            exists acts,
              wsDone (wsStep cfg f e) = wsDone f ++ acts /\
              forallb (fun a => negb (isNoPong cfg a)) acts = true).
  { intros H. exists []. rewrite H, app_nil_r. auto. }
  unfold wsStep in *.
  destruct (wsStopped f) eqn:Hs; [right; apply Hsame; reflexivity|].
  destruct e.
  - unfold wsTick in *. destruct (wsPhaseOf f) eqn:Hp;
      try (right; apply Hsame; reflexivity).
    + right. eexists. split; reflexivity.
    + destruct (wsAwaiting f) as [p|] eqn:Ha.
      * left. eauto.
      * right. eexists. split; reflexivity.
  - right. unfold wsPongArrived in *.
    destruct (wsPhaseOf f); try (apply Hsame; reflexivity).
    destruct (wsAwaiting f) as [p|]; [|apply Hsame; reflexivity].
    destruct (bytes_eqb p payload); [|apply Hsame; reflexivity].
    exists []. auto.
  - right. unfold wsSend in *.
    destruct (wsPhaseOf f); try (apply Hsame; reflexivity);
      eexists; split; reflexivity.
  - right. unfold wsDialed in *.
    destruct (wsPhaseOf f); try (apply Hsame; reflexivity).
    destruct err as [cause|].
    + eexists. split; [reflexivity|].
      cbn [forallb]. rewrite wsDialError_is_not_no_pong. reflexivity.
    + eexists. split; reflexivity.
  - right. unfold wsSendFailed in *.
    destruct (wsPhaseOf f); try (apply Hsame; reflexivity).
    eexists. split; reflexivity.
  - right. unfold wsStopNow. eexists. split; [reflexivity|].
    destruct (wsPhaseOf f); reflexivity.
Qed.

(** Where an outstanding ping comes from: the tick that sent it, or the
    state before, when the event was not its pong. *)
Lemma awaiting_step (cfg : wsConfig) (f : wsForwarder) (e : wsEvent)
    (q : bytes) :
  session_inv cfg f -> wsAwaiting (wsStep cfg f e) = Some q ->
  match e with
  | WsTick => sentPing cfg f = Some q
  | WsPong payload => wsAwaiting f = Some q /\ bytes_eqb q payload = false
  | _ => wsAwaiting f = Some q
  end.
Proof.
  intros (Hstop & Hwait & _) H.
  assert (Hsame : wsAwaiting f = Some q -> wsPhaseOf f = Connected).
  { intros Hq. apply Hwait. congruence. }
  unfold wsStep in H. destruct (wsStopped f) eqn:Hs.
  { specialize (Hsame H). rewrite Hstop in Hsame by reflexivity.
    discriminate. }
  destruct e.
  - unfold wsTick in H. destruct (wsPhaseOf f) eqn:Hp.
    + discriminate.
    + specialize (Hsame H). discriminate.
    + destruct (wsAwaiting f) as [p|] eqn:Ha; [discriminate|].
      cbn in H. injection H as <-. apply sentPing_spec. auto.
    + specialize (Hsame H). discriminate.
  - unfold wsPongArrived in H. destruct (wsPhaseOf f) eqn:Hp;
      try (specialize (Hsame H); discriminate).
    destruct (wsAwaiting f) as [p|] eqn:Ha; [|rewrite Ha in H; discriminate].
    destruct (bytes_eqb p payload) eqn:Heq; [discriminate|].
    rewrite Ha in H. injection H as <-. auto.
  - unfold wsSend in H. destruct (wsPhaseOf f) eqn:Hp;
      try (specialize (Hsame H); discriminate); try discriminate.
    exact H.
  - unfold wsDialed in H. destruct (wsPhaseOf f) eqn:Hp; try exact H.
    destruct err; discriminate.
  - unfold wsSendFailed in H. destruct (wsPhaseOf f) eqn:Hp; try exact H.
    discriminate.
  - discriminate.
Qed.

(** When the pong of the outstanding ping is known to come before the next
    tick, and each later ping receives its pong in time, the line is not
    logged. *)
Lemma timely_run (cfg : wsConfig) (evs : list wsEvent) :
  forall f : wsForwarder,
    session_inv cfg f ->
    (forall p, wsAwaiting f = Some p -> answered p evs = true) ->
    timely cfg f evs = true ->
    exists acts,
      wsDone (wsRun cfg f evs) = wsDone f ++ acts /\
      forallb (fun a => negb (isNoPong cfg a)) acts = true.
Proof.
  induction evs as [|e evs IH]; intros f Hinv Hf Ht.
  - exists []. cbn. rewrite app_nil_r. auto.
  - cbn [timely] in Ht. apply andb_true_iff in Ht. destruct Ht as [Hnow Ht].
    cbn [wsRun fold_left]. fold (wsRun cfg (wsStep cfg f e) evs).
    destruct (wsStep_cases cfg f e)
      as [(-> & Hs & Hp & p & Ha)|(acts & Hacts & Hno)].
    { specialize (Hf p Ha). discriminate. }
    destruct (IH (wsStep cfg f e)) as (acts' & Hacts' & Hno');
      [apply session_inv_step, Hinv| |exact Ht|].
    { intros q Hq. pose proof (awaiting_step e Hinv Hq) as Hfrom.
      destruct e.
      - rewrite Hfrom in Hnow. exact Hnow.
      - destruct Hfrom as [Hq' Hne]. specialize (Hf q Hq').
        cbn [answered] in Hf. rewrite Hne in Hf. exact Hf.
      - exact (Hf q Hfrom).
      - exact (Hf q Hfrom).
      - exact (Hf q Hfrom).
      - exact (Hf q Hfrom). }
    exists (acts ++ acts'). split.
    + rewrite Hacts', Hacts, app_assoc. reflexivity.
    + rewrite forallb_app, Hno, Hno'. reflexivity.
Qed.

(** C5.  The heartbeat of a websocket session.  First: when a tick makes
    the forwarder send a ping with payload [p], and until the next tick
    nothing arrives but records and pongs that carry other payloads, that
    next tick makes the forwarder log exactly one line, at error level,
    [no pong response in <duration>] with the heartbeat interval as the
    duration, close the session and dial again with the same settings, and
    nothing else.  Second: when in a run of the forwarder from its start
    each ping receives the pong with its payload before the next tick, that
    line is not logged at any level. *)
Theorem heartbeat_no_pong (cfg : wsConfig) (f : wsForwarder) (p : bytes)
    (waited evs : list wsEvent) :
  (sentPing cfg f = Some p -> forallb (silentFor p) waited = true ->
   wsAnswer cfg (wsRun cfg f (WsTick :: waited)) WsTick =
     [ WsLog LevelError (b "no pong response in " ++
                         durationString (wsPingInterval cfg));
       WsEnter Closing; WsClose; WsEnter Disconnected;
       WsEnter Dialing; WsDial (wsURL cfg) (wsHeader cfg) ] /\
   wsPhaseOf (wsRun cfg f (WsTick :: waited ++ [WsTick])) = Dialing) /\
  (timely cfg (wsStart cfg) evs = true ->
   forall level,
     ~ In (WsLog level (noPongLine cfg))
          (wsDone (wsRun cfg (wsStart cfg) evs))).
Proof.
  split.
  - intros Hsent Hsilent. apply sentPing_spec in Hsent.
    destruct Hsent as (Hs & Hp & Ha & ->).
    cbn [wsRun fold_left]. fold (wsRun cfg (wsStep cfg f WsTick) waited).
    set (g := wsStep cfg f WsTick).
    assert (Hg : wsStopped g = false /\ wsPhaseOf g = Connected /\
                 wsAwaiting g = Some (pingPayload (wsPings f))).
    { subst g. unfold wsStep, wsTick. rewrite Hs, Hp, Ha. auto. }
    destruct Hg as (Hgs & Hgp & Hga).
    destruct (@silent_run cfg _ waited g Hgs Hgp Hga Hsilent)
      as (Hhs & Hhp & Hha).
    assert (Hstep : wsStep cfg (wsRun cfg g waited) WsTick =
                    wsDo (WsLog LevelError (noPongLine cfg) :: wsReconnect cfg)
                         Dialing None (wsRun cfg g waited)).
    { unfold wsStep, wsTick. rewrite Hhs, Hhp, Hha. reflexivity. }
    split.
    + apply wsAnswer_app. rewrite Hstep. reflexivity.
    + change (fold_left (wsStep cfg) (waited ++ [WsTick]) g)
        with (wsRun cfg g (waited ++ [WsTick])).
      rewrite wsRun_app. cbn [wsRun fold_left].
      fold (wsRun cfg g waited). rewrite Hstep. reflexivity.
  - intros Htimely level Hin.
    destruct (@timely_run cfg evs (wsStart cfg)) as (acts & Hacts & Hno);
      [apply session_inv_start|discriminate|exact Htimely|].
    rewrite Hacts in Hin. apply in_app_or in Hin. destruct Hin as [Hin|Hin].
    + cbn in Hin. destruct Hin as [Hin|[Hin|[]]]; discriminate.
    + rewrite forallb_forall in Hno. specialize (Hno _ Hin).
      cbn [isNoPong] in Hno. rewrite bytes_eqb_refl in Hno. discriminate.
Qed.

(** The two sessions of the heartbeat tests, with a record in the interval:
    a peer that does not answer the first ping, and a peer that answers
    each ping with the same payload. *)
Lemma heartbeat_no_pong_witness :
  wsAnswer sampleConfig
    (wsRun sampleConfig connectedSample
           [WsTick; WsRecord (sampleRecord "mymsg"); WsPong (b "7")]) WsTick =
    [ WsLog LevelError (b "no pong response in 30s");
      WsEnter Closing; WsClose; WsEnter Disconnected;
      WsEnter Dialing; WsDial (wsURL sampleConfig) (wsHeader sampleConfig) ] /\
  forall level,
    ~ In (WsLog level (noPongLine sampleConfig))
         (wsDone (wsRun sampleConfig (wsStart sampleConfig)
                    [WsDialResult None; WsTick; WsPong (b "0");
                     WsRecord (sampleRecord "mymsg"); WsTick; WsPong (b "1");
                     WsTick])).
Proof.
  destruct (@heartbeat_no_pong sampleConfig connectedSample (b "0")
              [WsRecord (sampleRecord "mymsg"); WsPong (b "7")]
              [WsDialResult None; WsTick; WsPong (b "0");
               WsRecord (sampleRecord "mymsg"); WsTick; WsPong (b "1");
               WsTick]) as (Hmiss & Hok).
  split.
  - apply Hmiss; reflexivity.
  - apply Hok. reflexivity.
Defined.

(** Scenario 7 of the specification: against a peer that ignores pings one
    line is logged within two intervals; against a peer that echoes them
    none is. *)
Example table_tennis :
  filter (isNoPong sampleConfig)
         (wsDone (intervals sampleConfig deafPeer 2 connectedSample))
    = [WsLog LevelError (b "no pong response in 30s")] /\
  filter (isNoPong sampleConfig)
         (wsDone (intervals sampleConfig echoPeer 20 connectedSample)) = [].
Proof. split; vm_compute; reflexivity. Qed.

(** * The settings, the start-up and the sinks at work *)

(** ** [envOrDefault] and the functions made of it *)

Lemma envLookup_skips (h : host) (A : Type) (convert : bytes -> option A)
    (first : bytes) (skipped rest : list bytes) :
  Forall (fun n => convert (getenv h n) = None) skipped ->
  forall (i : nat) (w : world),
    envLookup h convert first i (skipped ++ rest) w =
    envLookup h convert first (i + length skipped) rest w.
Proof.
  induction 1 as [|n skipped Hn _ IH]; intros i w.
  - cbn. rewrite Nat.add_0_r. reflexivity.
  - cbn [app envLookup]. rewrite Hn, IH. cbn [length].
    rewrite Nat.add_succ_r. reflexivity.
Qed.

Lemma envLookup_none (h : host) (A : Type) (convert : bytes -> option A)
    (first : bytes) (envs : list bytes) :
  Forall (fun n => convert (getenv h n) = None) envs ->
  forall (i : nat) (w : world),
    envLookup h convert first i envs w = Val None w.
Proof.
  induction 1 as [|n envs Hn _ IH]; intros i w; [reflexivity|].
  cbn [envLookup]. rewrite Hn. apply IH.
Qed.

(** X1.  [envOrDefault] returns the converted value of the first name, in
    the order given, whose variable the converter accepts, and does not
    look at the names after it.  When that name is not the first one it
    logs one warning, which says that the name is deprecated and names the
    first one; when it is the first one nothing is logged. *)
Theorem envOrDefault_first_accepted (h : host) (A : Type)
    (convert : bytes -> option A) (isZero : A -> bool) (show : A -> bytes)
    (defaultValue v : A) (skipped : list bytes) (name : bytes)
    (later : list bytes) (w : world) :
  Forall (fun n => convert (getenv h n) = None) skipped ->
  convert (getenv h name) = Some v ->
  envOrDefault h convert isZero show defaultValue (skipped ++ name :: later) w
  = Val v match skipped with
          | [] => w
          | first :: _ =>
              emit (EvLog (now w) LevelWarn
                          (b "The environment variable " ++ name ++
                           b " is deprecated. Please set " ++ first ++
                           b " in the future.")) w
          end.
Proof.
  intros Hskip Hname. unfold envOrDefault, bind.
  rewrite (@envLookup_skips h A convert _ skipped (name :: later) Hskip).
  cbn [envLookup Nat.add]. rewrite Hname.
  destruct skipped as [|first skipped]; reflexivity.
Qed.

Lemma envOrDefault_first_accepted_witness :
  envOrDefault (hostWith [(b "LOG_BUFFER_SIZE", b "512")] [] (inl 1500))
               atoi (fun v => v =? 0) decimal 1000000
               ([b "LOG_SYSLOG_BUFFER_SIZE"] ++ b "LOG_BUFFER_SIZE" :: [])
               emptyWorld
  = Val 512
        (emit (EvLog 0 LevelWarn
                 (b "The environment variable LOG_BUFFER_SIZE is deprecated. Please set LOG_SYSLOG_BUFFER_SIZE in the future."))
              emptyWorld).
Proof.
  apply (@envOrDefault_first_accepted
           (hostWith [(b "LOG_BUFFER_SIZE", b "512")] [] (inl 1500)) Z atoi
           (fun v => v =? 0) decimal 1000000 512
           [b "LOG_SYSLOG_BUFFER_SIZE"] (b "LOG_BUFFER_SIZE") [] emptyWorld).
  - repeat constructor.
  - reflexivity.
Defined.

(** X2.  When the converter accepts the variable of none of the names,
    [envOrDefault] returns the default value.  It then logs one warning,
    which lists the names joined by [" or "] and shows the default, unless
    the default is the zero value of its type, in which case nothing is
    logged.  This is also what happens without any name. *)
Theorem envOrDefault_falls_back (h : host) (A : Type)
    (convert : bytes -> option A) (isZero : A -> bool) (show : A -> bytes)
    (defaultValue : A) (envs : list bytes) (w : world) :
  Forall (fun n => convert (getenv h n) = None) envs ->
  envOrDefault h convert isZero show defaultValue envs w
  = Val defaultValue
        (if isZero defaultValue then w
         else emit (EvLog (now w) LevelWarn
                          (b "invalid value for " ++ join (b " or ") envs ++
                           b ". Using the default value of " ++
                           show defaultValue)) w).
Proof.
  intros Hnone. unfold envOrDefault, bind.
  rewrite (envLookup_none h convert _ Hnone).
  destruct (isZero defaultValue); reflexivity.
Qed.

Lemma envOrDefault_falls_back_witness :
  envOrDefault (hostWith [(b "LOG_BUFFER_SIZE", b "12k")] [] (inl 1500))
               atoi (fun v => v =? 0) decimal 1000000
               [b "LOG_SYSLOG_BUFFER_SIZE"; b "LOG_BUFFER_SIZE"] emptyWorld
  = Val 1000000
        (emit (EvLog 0 LevelWarn
                 (b "invalid value for LOG_SYSLOG_BUFFER_SIZE or LOG_BUFFER_SIZE. Using the default value of 1000000"))
              emptyWorld).
Proof.
  apply (@envOrDefault_falls_back
           (hostWith [(b "LOG_BUFFER_SIZE", b "12k")] [] (inl 1500)) Z atoi
           (fun v => v =? 0) decimal 1000000
           [b "LOG_SYSLOG_BUFFER_SIZE"; b "LOG_BUFFER_SIZE"] emptyWorld).
  repeat constructor.
Defined.

(** The names split at the first one whose variable is accepted, if any. *)
Lemma first_accepted (h : host) (A : Type) (convert : bytes -> option A)
    (envs : list bytes) :
  Forall (fun n => convert (getenv h n) = None) envs \/
  exists skipped name later v,
    envs = skipped ++ name :: later /\
    Forall (fun n => convert (getenv h n) = None) skipped /\
    convert (getenv h name) = Some v.
Proof.
  induction envs as [|n envs IH]; [left; constructor|].
  destruct (convert (getenv h n)) as [v|] eqn:Hn.
  - right. exists [], n, envs, v. repeat split; [constructor|exact Hn].
  - destruct IH as [IH|(skipped & name & later & v & -> & Hs & Hv)].
    + left. constructor; assumption.
    + right. exists (n :: skipped), name, later, v.
      repeat split; [constructor; assumption|exact Hv].
Qed.

Lemma string_converter_none (v : bytes) :
  (if is_nil v then None else Some v) = None <-> v = [].
Proof. destruct v; cbn; split; intros; congruence. Qed.

(** X3.  [StringEnvOrDefault] returns the value of the first name whose
    variable is not empty, and the default when there is none: a variable
    set to the empty string counts as not set, so the result is empty only
    when the default is. *)
Theorem StringEnvOrDefault_first_not_empty (h : host)
    (defaultValue : bytes) (envs : list bytes) (w : world) :
  exists v w',
    StringEnvOrDefault h defaultValue envs w = Val v w' /\
    ((v = defaultValue /\ Forall (fun n => getenv h n = []) envs) \/
     (v <> [] /\
      exists skipped name later,
        envs = skipped ++ name :: later /\
        Forall (fun n => getenv h n = []) skipped /\
        getenv h name = v)) /\
    (v = [] -> defaultValue = []).
Proof.
  unfold StringEnvOrDefault.
  set (convert := fun v : bytes => if is_nil v then None else Some v).
  assert (Hunset : forall l,
            Forall (fun n => convert (getenv h n) = None) l ->
            Forall (fun n => getenv h n = []) l).
  { intros l Hl. eapply Forall_impl; [|exact Hl].
    intros n Hn. apply string_converter_none. exact Hn. }
  destruct (first_accepted h convert envs)
    as [Hnone|(skipped & name & later & v & -> & Hs & Hv)].
  - unfold envOrDefault, bind. rewrite (envLookup_none h convert _ Hnone).
    destruct (is_nil defaultValue); eexists _, _;
      (split; [reflexivity|]); (split; [left; auto|auto]).
  - unfold envOrDefault, bind.
    rewrite (@envLookup_skips h _ convert _ skipped (name :: later) Hs).
    cbn [envLookup Nat.add]. rewrite Hv.
    assert (Hval : getenv h name = v /\ v <> []).
    { subst convert. cbn beta in Hv.
      destruct (getenv h name); [discriminate|].
      injection Hv as <-. split; [reflexivity|discriminate]. }
    destruct Hval as (Hval & Hne).
    cbn [Nat.add]. unfold bind.
    destruct (0 <? length skipped)%nat; eexists _, _;
      (split; [reflexivity|]);
      (split; [right; split; [exact Hne|]; exists skipped, name, later; auto
              |intros; contradiction]).
Qed.

(** *** Integers in the environment *)

Lemma digit_code (n : Z) :
  nat_of_ascii (digit n) = (48 + Z.to_nat (n mod 10))%nat.
Proof.
  unfold digit. apply nat_ascii_embedding.
  pose proof (Z.mod_pos_bound n 10 ltac:(lia)). lia.
Qed.

Lemma digit_is_digit (n : Z) : is_digit (digit n) = true.
Proof.
  unfold is_digit. rewrite digit_code.
  pose proof (Z.mod_pos_bound n 10 ltac:(lia)).
  apply andb_true_iff. split; apply Nat.leb_le; lia.
Qed.

Lemma digits_value_digits (ds : bytes) :
  Forall (fun c => is_digit c = true) ds ->
  forall acc, digits_value acc ds = Some (digits_onto acc ds).
Proof.
  induction 1 as [|c ds Hc _ IH]; intros acc; [reflexivity|].
  cbn [digits_value]. rewrite Hc. apply IH.
Qed.

Lemma decimal_fuel_digits (fuel : nat) :
  forall (n : Z) (acc : bytes),
    (1 <= fuel)%nat -> 0 <= n < 10 ^ Z.of_nat fuel ->
    exists ds,
      decimal_fuel fuel n acc = ds ++ acc /\ ds <> [] /\
      Forall (fun c => is_digit c = true) ds /\
      forall a, digits_onto a ds = a * 10 ^ Z.of_nat (length ds) + n.
Proof.
  induction fuel as [|fuel IH]; intros n acc Hfuel Hn; [lia|].
  cbn [decimal_fuel]. destruct (Z.ltb_spec n 10) as [Hsmall|Hbig].
  - exists [digit n]. split; [reflexivity|]. split; [discriminate|].
    split; [repeat constructor; apply digit_is_digit|].
    intros a. unfold digits_onto. cbn [fold_left length].
    rewrite digit_code, Z.mod_small by lia. 
    change (Z.of_nat 1) with 1. lia.
  - assert (Hfuel' : (1 <= fuel)%nat).
    { destruct fuel; [|lia]. change (10 ^ Z.of_nat 1) with 10 in Hn. lia. }
    assert (Hdiv : 0 <= n / 10 < 10 ^ Z.of_nat fuel).
    { rewrite Nat2Z.inj_succ, Z.pow_succ_r in Hn by lia.
      split; [apply Z.div_pos; lia|].
      apply Z.div_lt_upper_bound; lia. }
    destruct (IH (n / 10) (digit n :: acc) Hfuel' Hdiv)
      as (ds & E & Hne & Hall & Hval).
    exists (ds ++ [digit n]). split; [rewrite E, <- app_assoc; reflexivity|].
    split; [destruct ds; discriminate|].
    split; [apply Forall_app; split;
            [exact Hall|repeat constructor; apply digit_is_digit]|].
    intros a. unfold digits_onto in *. rewrite fold_left_app, Hval.
    cbn [fold_left]. rewrite digit_code, length_app. cbn [length].
    rewrite Nat.add_1_r, Nat2Z.inj_succ, Z.pow_succ_r by lia.
    pose proof (Z.mod_pos_bound n 10 ltac:(lia)).
    pose proof (Z.div_mod n 10 ltac:(lia)).
    rewrite Nat2Z.inj_add, Z2Nat.id by lia. change (Z.of_nat 48) with 48.
    lia.
Qed.

Lemma decimal_digits (n : Z) :
  0 <= n ->
  exists ds,
    decimal_fuel (S (Z.to_nat (Z.log2 n))) n [] = ds /\ ds <> [] /\
    Forall (fun c => is_digit c = true) ds /\ digits_onto 0 ds = n.
Proof.
  intros Hn.
  destruct (@decimal_fuel_digits (S (Z.to_nat (Z.log2 n))) n []
              ltac:(lia)) as (ds & E & Hne & Hall & Hval).
  { split; [exact Hn|].
    rewrite Nat2Z.inj_succ, Z2Nat.id by apply Z.log2_nonneg.
    destruct (Z.eq_dec n 0) as [->|Hnz]; [reflexivity|].
    pose proof (Z.log2_spec n ltac:(lia)) as [_ Hlt].
    eapply Z.lt_le_trans; [exact Hlt|].
    apply Z.pow_le_mono_l. pose proof (Z.log2_nonneg n). lia. }
  exists ds. rewrite app_nil_r in E. split; [exact E|].
  split; [exact Hne|]. split; [exact Hall|]. rewrite Hval. lia.
Qed.

Lemma digit_first_unsigned (c : ascii) (r : bytes) (X : Type)
    (minus plus other : X) :
  is_digit c = true ->
  match c :: r with
  | "-"%char :: _ => minus
  | "+"%char :: _ => plus
  | _ => other
  end = other.
Proof.
  destruct c as [[|] [|] [|] [|] [|] [|] [|] [|]];
    intros H; try reflexivity; discriminate H.
Qed.

(** [strconv.Atoi] reads back what [%d] writes. *)
Lemma atoi_decimal (n : Z) :
  - 2 ^ 63 <= n < 2 ^ 63 -> atoi (decimal n) = Some n.
Proof.
  intros Hn. unfold decimal. destruct (Z.ltb_spec n 0) as [Hneg|Hpos].
  - destruct (@decimal_digits (- n) ltac:(lia))
      as (ds & -> & Hne & Hall & Hval).
    unfold atoi. destruct ds as [|c ds]; [contradiction|].
    cbn [is_nil]. rewrite (digits_value_digits Hall), Hval.
    replace (- - n) with n by lia.
    replace ((- 2 ^ 63 <=? n) && (n <? 2 ^ 63)) with true; [reflexivity|].
    symmetry. apply andb_true_iff. split; [apply Z.leb_le|apply Z.ltb_lt]; lia.
  - destruct (@decimal_digits n Hpos) as (ds & -> & Hne & Hall & Hval).
    unfold atoi. destruct ds as [|c ds]; [contradiction|].
    rewrite (@digit_first_unsigned c ds _ _ _ (false, c :: ds))
      by (inversion Hall; assumption).
    cbn [is_nil]. rewrite (digits_value_digits Hall), Hval.
    replace ((- 2 ^ 63 <=? n) && (n <? 2 ^ 63)) with true; [reflexivity|].
    symmetry. apply andb_true_iff. split; [apply Z.leb_le|apply Z.ltb_lt]; lia.
Qed.

(** X4.  [IntEnvOrDefault] returns the integer [n] when the variable of its
    first name holds [n] in decimal, as [%d] writes it, with a minus sign
    when it is negative, for every [n] that fits an [int]; nothing is
    logged and no other name is looked at. *)
Theorem IntEnvOrDefault_reads_decimal (h : host) (defaultValue n : Z)
    (name : bytes) (later : list bytes) (w : world) :
  - 2 ^ 63 <= n < 2 ^ 63 ->
  getenv h name = decimal n ->
  IntEnvOrDefault h defaultValue (name :: later) w = Val n w.
Proof.
  intros Hn Hvar. unfold IntEnvOrDefault, envOrDefault, bind.
  cbn [envLookup hd]. rewrite Hvar, (atoi_decimal Hn). reflexivity.
Qed.

Lemma IntEnvOrDefault_reads_decimal_witness :
  IntEnvOrDefault (hostWith [(b "LOG_SYSLOG_BUFFER_SIZE", b "-9223372036854775808")]
                            [] (inl 1500))
                  1000000 [b "LOG_SYSLOG_BUFFER_SIZE"; b "LOG_BUFFER_SIZE"]
                  emptyWorld
  = Val (- 9223372036854775808) emptyWorld.
Proof.
  apply (@IntEnvOrDefault_reads_decimal
           (hostWith [(b "LOG_SYSLOG_BUFFER_SIZE", b "-9223372036854775808")]
                     [] (inl 1500))
           1000000 (- 9223372036854775808) (b "LOG_SYSLOG_BUFFER_SIZE")
           [b "LOG_BUFFER_SIZE"] emptyWorld).
  - lia.
  - vm_compute. reflexivity.
Defined.

(** *** The list of log backends *)

Lemma splitOn_not_nil (sep : ascii) (s : bytes) : splitOn sep s <> [].
Proof.
  destruct s as [|c s]; cbn [splitOn]; [discriminate|].
  destruct (Ascii.eqb c sep); [discriminate|].
  destruct (splitOn sep s); discriminate.
Qed.

Lemma join_splitOn (sep : ascii) (s : bytes) :
  join [sep] (splitOn sep s) = s.
Proof.
  induction s as [|c s IH]; [reflexivity|].
  cbn [splitOn]. destruct (Ascii.eqb_spec c sep) as [->|Hne].
  - pose proof (splitOn_not_nil sep s) as Hnn.
    destruct (splitOn sep s) as [|y r]; [contradiction|].
    change (join [sep] ([] :: y :: r)) with ([sep] ++ join [sep] (y :: r)).
    rewrite IH. reflexivity.
  - pose proof (splitOn_not_nil sep s) as Hnn.
    destruct (splitOn sep s) as [|y r]; [contradiction|].
    destruct r as [|z r].
    + cbn [join] in *. rewrite IH. reflexivity.
    + change (join [sep] ((c :: y) :: z :: r))
        with (c :: (y ++ [sep] ++ join [sep] (z :: r))).
      change (join [sep] (y :: z :: r))
        with (y ++ [sep] ++ join [sep] (z :: r)) in IH.
      rewrite IH. reflexivity.
Qed.

Lemma splitOn_parts (sep : ascii) (s : bytes) :
  Forall (fun x => forallb (not_byte sep) x = true) (splitOn sep s).
Proof.
  induction s as [|c s IH]; [repeat constructor|].
  cbn [splitOn]. destruct (Ascii.eqb c sep) eqn:E.
  - constructor; [reflexivity|exact IH].
  - destruct (splitOn sep s) as [|y r]; [repeat constructor|].
    + cbn. unfold not_byte. rewrite E. reflexivity.
    + inversion IH as [|? ? Hy Hr]. constructor; [|exact Hr].
      cbn [forallb]. unfold not_byte at 1. rewrite E. exact Hy.
Qed.

(** X5.  [LoadConfig] never leaves [Config.LogBackends] nil or empty: the
    variable [LOG_BACKENDS], or the default [tsuru,syslog] when it is not
    set or is empty, is split at the commas, so that the names contain no
    comma and joined by commas give the setting back.  An empty
    [LOG_BACKENDS] therefore selects the two default backends, not none. *)
Theorem LoadConfig_LogBackends_never_empty (h : host) (w : world) :
  let setting :=
    if is_nil (getenv h (b "LOG_BACKENDS")) then b "tsuru,syslog"
    else getenv h (b "LOG_BACKENDS") in
  exists names w',
    LoadConfig_LogBackends h w = Val (Some names) w' /\
    names <> [] /\
    join (b ",") names = setting /\
    Forall (fun name => ~ In ","%char name) names /\
    (getenv h (b "LOG_BACKENDS") = [] -> names = [b "tsuru"; b "syslog"]).
Proof.
  intros setting. unfold LoadConfig_LogBackends.
  destruct (@StringEnvOrDefault_single h (b "tsuru,syslog")
              (b "LOG_BACKENDS") w ltac:(discriminate)) as (w' & E & _).
  rewrite (bind_val _ E). fold setting.
  assert (Hne : is_nil setting = false).
  { subst setting. destruct (getenv h (b "LOG_BACKENDS")); reflexivity. }
  rewrite Hne. cbn [negb].
  exists (splitOn "," setting), w'. split; [reflexivity|].
  split; [apply splitOn_not_nil|].
  split; [apply (join_splitOn "," setting)|].
  split.
  - eapply Forall_impl; [|apply splitOn_parts].
    intros name Hname Hin. rewrite forallb_forall in Hname.
    specialize (Hname _ Hin). discriminate Hname.
  - intros Hunset. subst setting. rewrite Hunset. reflexivity.
Qed.

(** ** [initialize] *)

Lemma warned_nil (w : world) : warned [] w = w.
Proof. destruct w. unfold warned. cbn. rewrite app_nil_r. reflexivity. Qed.

Lemma warned_app (l1 l2 : list bytes) (w : world) :
  warned l2 (warned l1 w) = warned (l1 ++ l2) w.
Proof.
  unfold warned. cbn. rewrite map_app, app_assoc. reflexivity.
Qed.

Lemma firstConverted_skips (h : host) (A : Type) (convert : bytes -> option A)
    (skipped rest : list bytes) :
  Forall (fun n => convert (getenv h n) = None) skipped ->
  firstConverted h convert (skipped ++ rest) = firstConverted h convert rest.
Proof.
  induction 1 as [|n skipped Hn _ IH]; [reflexivity|].
  cbn [app firstConverted]. rewrite Hn. exact IH.
Qed.

(** [envOrDefault] returns the first accepted value or the default, and
    does nothing but log at most one warning. *)
Lemma envOrDefault_warned (h : host) (A : Type) (convert : bytes -> option A)
    (isZero : A -> bool) (show : A -> bytes) (defaultValue : A)
    (envs : list bytes) (w : world) :
  exists lines,
    envOrDefault h convert isZero show defaultValue envs w =
      Val match firstConverted h convert envs with
          | Some v => v
          | None => defaultValue
          end (warned lines w).
Proof.
  destruct (first_accepted h convert envs)
    as [Hnone|(skipped & name & later & v & -> & Hs & Hv)].
  - unfold envOrDefault, bind. rewrite (envLookup_none h convert _ Hnone).
    replace (firstConverted h convert envs) with (@None A).
    2: { rewrite <- (app_nil_r envs).
         rewrite (firstConverted_skips h convert [] Hnone). reflexivity. }
    destruct (isZero defaultValue); cbn [negb].
    + exists []. rewrite warned_nil. reflexivity.
    + eexists [_]. reflexivity.
  - unfold envOrDefault, bind.
    rewrite (@envLookup_skips h _ convert _ skipped (name :: later) Hs).
    rewrite (firstConverted_skips h convert (name :: later) Hs).
    cbn [envLookup firstConverted Nat.add]. rewrite Hv. unfold bind.
    destruct (0 <? length skipped)%nat.
    + eexists [_]. reflexivity.
    + exists []. rewrite warned_nil. reflexivity.
Qed.

Lemma StringEnvOrDefault_warned (h : host) (defaultValue : bytes)
    (envs : list bytes) (w : world) :
  exists lines,
    StringEnvOrDefault h defaultValue envs w =
      Val (stringSetting h defaultValue envs) (warned lines w).
Proof. apply envOrDefault_warned. Qed.

Lemma stringSetting_single (h : host) (defaultValue name : bytes) :
  stringSetting h defaultValue [name] =
  if is_nil (getenv h name) then defaultValue else getenv h name.
Proof.
  unfold stringSetting. cbn [firstConverted].
  destruct (getenv h name); reflexivity.
Qed.

Lemma emit_warned (l : list bytes) (line : bytes) (w : world) :
  emit (EvLog (now (warned l w)) LevelWarn line) (warned l w) =
  warned (l ++ [line]) w.
Proof.
  unfold emit, warned. cbn. rewrite map_app, app_assoc. reflexivity.
Qed.

Lemma StringEnvOrDefault_one (h : host) (defaultValue name : bytes)
    (w : world) :
  StringEnvOrDefault h defaultValue [name] w =
  Val (if is_nil (getenv h name) then defaultValue else getenv h name)
      (warned (if is_nil (getenv h name) && negb (is_nil defaultValue)
               then [b "invalid value for " ++ name ++
                     b ". Using the default value of " ++ defaultValue]
               else []) w).
Proof.
  unfold StringEnvOrDefault, envOrDefault, bind. cbn [envLookup hd join].
  destruct (getenv h name) as [|c v]; cbn [is_nil andb].
  - destruct defaultValue; cbn [is_nil negb];
      [rewrite warned_nil|]; reflexivity.
  - cbn. rewrite warned_nil. reflexivity.
Qed.

(** X6.  To choose the MTU, [initialize] always asks for an interface:
    the one named by [LOG_SYSLOG_MTU_NETWORK_INTERFACE], or [eth0] when the
    variable is not set, and then it logs that the value of the variable is
    invalid.  It takes the MTU of the interface when it is positive.  When
    the interface cannot be read it takes 1500 and logs a warning that ends
    with the error; when the interface reports an MTU that is not positive
    it takes 1500 and the warning ends with [%!s(<nil>)], since there is no
    error to print.  Nothing else happens. *)
Theorem chooseMTU_warnings (h : host) (w : world) :
  chooseMTU h w =
  Val match interfaceMTU h (if is_nil (getenv h (b "LOG_SYSLOG_MTU_NETWORK_INTERFACE"))
                            then b "eth0"
                            else getenv h (b "LOG_SYSLOG_MTU_NETWORK_INTERFACE")) with
      | inl ifaceMTU => if 0 <? ifaceMTU then ifaceMTU else 1500
      | inr _ => 1500
      end
      (warned (interfaceNotice h ++ mtuNotice h) w).
Proof.
  unfold chooseMTU.
  rewrite (bind_val _ (StringEnvOrDefault_one h (b "eth0")
                         (b "LOG_SYSLOG_MTU_NETWORK_INTERFACE") w)).
  unfold interfaceNotice, mtuNotice, configuredInterface.
  set (name := getenv h (b "LOG_SYSLOG_MTU_NETWORK_INTERFACE")).
  set (iface := if is_nil name then b "eth0" else name).
  assert (Hne : is_nil iface = false).
  { subst iface. destruct name; reflexivity. }
  rewrite Hne. cbn [negb].
  replace (is_nil name && negb (is_nil (b "eth0"))) with (is_nil name)
    by (destruct (is_nil name); reflexivity).
  destruct (interfaceMTU h iface) as [v|err].
  - destruct (0 <? v).
    + rewrite app_nil_r. reflexivity.
    + unfold bind, bslog_Warnf, ret. rewrite emit_warned. reflexivity.
  - unfold bind, bslog_Warnf, ret. rewrite emit_warned. reflexivity.
Qed.


Lemma IntEnvOrDefault_warned (h : host) (defaultValue : Z)
    (envs : list bytes) (w : world) :
  exists lines v, IntEnvOrDefault h defaultValue envs w = Val v (warned lines w).
Proof.
  destruct (envOrDefault_warned h atoi (fun v => v =? 0) decimal defaultValue
              envs w) as (lines & E).
  eexists lines, _. exact E.
Qed.

(** The first three settings [initialize] reads. *)
Lemma initialize_settings (timeout : Z) (h : host) (bk : syslogBackend)
    (w : world) :
  exists lines bufferSize,
    initialize timeout h bk w =
    (let forwardAddresses := forwardAddressList h in
     if (length forwardAddresses =? 0)%nat then
       ret (SyslogBackend (syslogLocation bk) (extraStartOf h bk)
                          (extraEndOf h bk) (msgChans bk) (nextNotify bk),
            None)
     else
       syslogTimezone <-
         StringEnvOrDefault h []
           [b "LOG_SYSLOG_TIMEZONE"; b "SYSLOG_TIMEZONE"] ;;
       location <-
         (if negb (is_nil syslogTimezone) then
            match loadLocation h syslogTimezone with
            | inl tz => ret tz
            | inr err =>
                bslog_Warnf (b "unable to parse syslog timezone format: " ++
                             err) ;;;
                ret (timeLocal h)
            end
          else ret (timeLocal h)) ;;
       mtu_ <- chooseMTU h ;;
       modify (set_pool []) ;;;
       notify <- time_NewTimer 0 ;;
       initSinks timeout h mtu_ bufferSize forwardAddresses
         (SyslogBackend (Some location) (extraStartOf h bk) (extraEndOf h bk)
                        (msgChans bk) (Some notify))) (warned lines w).
Proof.
  unfold initialize.
  rewrite (bind_val _ (StringEnvOrDefault_one h []
                         (b "LOG_SYSLOG_MESSAGE_EXTRA_START") w)).
  rewrite (bind_val _ (StringEnvOrDefault_one h []
                         (b "LOG_SYSLOG_MESSAGE_EXTRA_END") _)).
  rewrite warned_app.
  match goal with
  | |- context [warned ?l w] => set (lines := l)
  end.
  destruct (IntEnvOrDefault_warned h DefaultBufferSize
              [b "LOG_SYSLOG_BUFFER_SIZE"; b "LOG_BUFFER_SIZE"]
              (warned lines w)) as (lines' & bufferSize & E).
  rewrite (bind_val _ E), warned_app.
  exists (lines ++ lines'), bufferSize.
  unfold extraStartOf, extraEndOf.
  destruct (getenv h (b "LOG_SYSLOG_MESSAGE_EXTRA_START")) as [|c1 v1];
    destruct (getenv h (b "LOG_SYSLOG_MESSAGE_EXTRA_END")) as [|c2 v2];
    reflexivity.
Qed.

(** The buffer size [initialize] reads, and the one warning the reading can
    log. *)
Lemma IntEnvOrDefault_bufferSize (h : host) (w : world) :
  exists bufferSize,
    IntEnvOrDefault h DefaultBufferSize
                    [b "LOG_SYSLOG_BUFFER_SIZE"; b "LOG_BUFFER_SIZE"] w =
      Val bufferSize (warned (bufferSizeNotice h) w).
Proof.
  unfold IntEnvOrDefault, envOrDefault, bind, bufferSizeNotice.
  cbn [envLookup hd].
  destruct (atoi (getenv h (b "LOG_SYSLOG_BUFFER_SIZE"))) as [v1|].
  - exists v1. cbn. rewrite warned_nil. reflexivity.
  - destruct (atoi (getenv h (b "LOG_BUFFER_SIZE"))) as [v2|].
    + exists v2. reflexivity.
    + exists DefaultBufferSize. reflexivity.
Qed.

(** X7.  Without forward addresses [initialize] returns no error after it
    has read the prefix, the suffix and the buffer size, and leaves the world
    as it was but for the one warning the reading of the buffer size can
    log: none when [LOG_SYSLOG_BUFFER_SIZE] holds a number, the deprecation
    notice when only [LOG_BUFFER_SIZE] does, and the notice of the default
    otherwise.  It logs no warning about a time zone or an MTU, dials
    nothing and leaves the pool alone; the location, the timer and the
    channels of the backend stay as they were.  A backend without channels
    then ignores every record handed to [sendMessage], also when its
    location and its timer are nil. *)
Theorem initialize_without_addresses (timeout : Z) (h : host)
    (bk : syslogBackend) (w : world) :
  forwardAddressList h = [] ->
  initialize timeout h bk w =
    Val (SyslogBackend (syslogLocation bk) (extraStartOf h bk)
                       (extraEndOf h bk) (msgChans bk) (nextNotify bk),
         None)
        (warned (bufferSizeNotice h) w) /\
  (msgChans bk = [] ->
   forall (parts : rawLogParts) (appName processName container_ : bytes)
          (w2 : world),
     sendMessage (SyslogBackend (syslogLocation bk) (extraStartOf h bk)
                                (extraEndOf h bk) (msgChans bk)
                                (nextNotify bk))
                 parts appName processName container_ w2 =
     Val (SyslogBackend (syslogLocation bk) (extraStartOf h bk)
                        (extraEndOf h bk) (msgChans bk) (nextNotify bk))
         w2).
Proof.
  intros Hnone. split.
  - unfold initialize.
    rewrite (bind_val _ (StringEnvOrDefault_one h []
                           (b "LOG_SYSLOG_MESSAGE_EXTRA_START") w)).
    rewrite (bind_val _ (StringEnvOrDefault_one h []
                           (b "LOG_SYSLOG_MESSAGE_EXTRA_END") _)).
    rewrite warned_app.
    replace (warned _ w) with w.
    2: { destruct (getenv h (b "LOG_SYSLOG_MESSAGE_EXTRA_START")) as [|c1 v1];
         destruct (getenv h (b "LOG_SYSLOG_MESSAGE_EXTRA_END")) as [|c2 v2];
         cbn [is_nil andb negb app]; now rewrite warned_nil. }
    destruct (IntEnvOrDefault_bufferSize h w) as (bufferSize & E).
    rewrite (bind_val _ E), Hnone. cbn [length Nat.eqb].
    unfold extraStartOf, extraEndOf.
    destruct (getenv h (b "LOG_SYSLOG_MESSAGE_EXTRA_START")) as [|c1 v1];
      destruct (getenv h (b "LOG_SYSLOG_MESSAGE_EXTRA_END")) as [|c2 v2];
      reflexivity.
  - intros Hch parts appName processName container_ w2.
    apply sendMessage_idle. exact Hch.
Qed.

Lemma initialize_without_addresses_witness :
  initialize second (hostWith [] [] (inl 1500)) zeroBackend emptyWorld =
    Val (zeroBackend, None)
        (warned [b "invalid value for LOG_SYSLOG_BUFFER_SIZE or LOG_BUFFER_SIZE. Using the default value of 1000000"]
                emptyWorld) /\
  (msgChans zeroBackend = [] ->
   forall (parts : rawLogParts) (appName processName container_ : bytes)
          (w2 : world),
     sendMessage zeroBackend parts appName processName container_ w2 =
     Val zeroBackend w2).
Proof.
  exact (@initialize_without_addresses second (hostWith [] [] (inl 1500))
           zeroBackend emptyWorld eq_refl).
Defined.

(** What the loop over the forward addresses does to the backend: it adds
    channels and touches nothing else; what it does to the world: it dials. *)
Lemma initSinks_keeps (timeout : Z) (h : host) (mtu_ bufferSize : Z)
    (addrs : list bytes) :
  forall (bk : syslogBackend) (w : world),
  exists bk' e w' evs added,
    initSinks timeout h mtu_ bufferSize addrs bk w = Val (bk', e) w' /\
    trace w' = trace w ++ evs /\ forallb isDial evs = true /\
    syslogLocation bk' = syslogLocation bk /\
    syslogExtraStart bk' = syslogExtraStart bk /\
    syslogExtraEnd bk' = syslogExtraEnd bk /\
    nextNotify bk' = nextNotify bk /\
    msgChans bk' = msgChans bk ++ added /\
    (length added <= length addrs)%nat /\
    (e = None -> length added = length addrs).
Proof.
  induction addrs as [|addr rest IH]; intros bk w; cbn [initSinks].
  - exists bk, None, w, [], []. rewrite !app_nil_r. repeat split; auto.
  - destruct (urlParse h addr) as [u|perr].
    + unfold processMessages.
      destruct (connect_spec timeout (SyslogForwarder u mtu_ 0) w)
        as (r & f' & w1 & Ec & Htr & _ & Hr).
      unfold bind at 1. rewrite (bind_val _ Ec). cbn [fst].
      destruct r as [conn|err]; unfold ret.
      * match goal with
        | |- context [initSinks _ _ _ _ rest ?bk1 w1] =>
            destruct (IH bk1 w1)
              as (bk' & e & w' & evs & added & E & Htr' & Hd & H1 & H2 & H3 &
                  H4 & H5 & H6 & H7)
        end.
        cbn [syslogLocation syslogExtraStart syslogExtraEnd nextNotify
             msgChans] in *.
        eexists bk', e, w', (_ :: evs), (_ :: added).
        split; [exact E|].
        split; [rewrite Htr', Htr, <- app_assoc; reflexivity|].
        split; [exact Hd|].
        repeat (split; [assumption|]).
        split; [rewrite H5, <- app_assoc; reflexivity|].
        split; [cbn [length]; lia|]. intros He. cbn [length]. auto.
      * eexists bk, _, w1, [_], []. split; [reflexivity|].
        split; [exact Htr|]. rewrite app_nil_r.
        repeat (split; [reflexivity|]).
        split; [cbn [length]; lia|discriminate].
    + unfold ret. eexists bk, _, w, [], []. rewrite !app_nil_r.
      split; [reflexivity|]. repeat (split; [reflexivity|]).
      split; [cbn [length]; lia|discriminate].
Qed.

(** With forward addresses [initialize] ends with the loop over them, on a
    backend with the location and a timer that is due at once. *)
Lemma initialize_loop (timeout : Z) (h : host) (bk : syslogBackend)
    (w : world) :
  forwardAddressList h <> [] ->
  exists lines bufferSize,
    initialize timeout h bk w =
      initSinks timeout h (mtuOf h) bufferSize (forwardAddressList h)
        (SyslogBackend (Some (locationOf h)) (extraStartOf h bk)
                       (extraEndOf h bk) (msgChans bk)
                       (Some (Timer (Some (now w)))))
        (set_pool [] (warned lines w)) /\
    forall err,
      configuredTimezone h <> [] ->
      loadLocation h (configuredTimezone h) = inr err ->
      In (b "unable to parse syslog timezone format: " ++ err) lines.
Proof.
  intros Haddrs.
  destruct (initialize_settings timeout h bk w) as (lines & bufferSize & E).
  rewrite E. cbv zeta.
  destruct (Nat.eqb_spec (length (forwardAddressList h)) 0) as [Hz|_].
  { apply length_zero_iff_nil in Hz. contradiction. }
  destruct (StringEnvOrDefault_warned h []
              [b "LOG_SYSLOG_TIMEZONE"; b "SYSLOG_TIMEZONE"] (warned lines w))
    as (ltz & Etz).
  rewrite (bind_val _ Etz), warned_app. fold (configuredTimezone h).
  assert (Hloc : exists lloc,
            (if negb (is_nil (configuredTimezone h)) then
               match loadLocation h (configuredTimezone h) with
               | inl tz => ret tz
               | inr err =>
                   bslog_Warnf
                     (b "unable to parse syslog timezone format: " ++ err) ;;;
                   ret (timeLocal h)
               end
             else ret (timeLocal h)) (warned (lines ++ ltz) w) =
            Val (locationOf h) (warned ((lines ++ ltz) ++ lloc) w) /\
            forall err,
              configuredTimezone h <> [] ->
              loadLocation h (configuredTimezone h) = inr err ->
              In (b "unable to parse syslog timezone format: " ++ err) lloc).
  { unfold locationOf. destruct (configuredTimezone h) as [|c tz] eqn:Htz.
    - exists []. rewrite app_nil_r. split; [reflexivity|].
      intros err Hne. contradiction.
    - cbn [is_nil negb]. destruct (loadLocation h (c :: tz)) as [l|err].
      + exists []. rewrite app_nil_r. split; [reflexivity|]. discriminate.
      + exists [b "unable to parse syslog timezone format: " ++ err].
        split.
        * unfold bind, bslog_Warnf, ret. rewrite emit_warned. reflexivity.
        * intros err' _ Herr. injection Herr as <-. left. reflexivity. }
  destruct Hloc as (lloc & Eloc & Hwarn).
  rewrite (bind_val _ Eloc).
  assert (Emtu : exists lmtu,
            chooseMTU h (warned ((lines ++ ltz) ++ lloc) w) =
            Val (mtuOf h) (warned (((lines ++ ltz) ++ lloc) ++ lmtu) w)).
  { unfold chooseMTU.
    rewrite (bind_val _ (StringEnvOrDefault_one h (b "eth0")
                           (b "LOG_SYSLOG_MTU_NETWORK_INTERFACE") _)).
    rewrite warned_app. unfold mtuOf, configuredInterface.
    set (name := getenv h (b "LOG_SYSLOG_MTU_NETWORK_INTERFACE")).
    set (iface := if is_nil name then b "eth0" else name).
    assert (Hne : is_nil iface = false).
    { subst iface. destruct name; reflexivity. }
    rewrite Hne. cbn [negb].
    match goal with
    | |- context [warned (?l0 ++ ?l1) w] => set (l := l1)
    end.
    destruct (interfaceMTU h iface) as [v|err].
    - destruct (0 <? v).
      + exists l. reflexivity.
      + eexists (l ++ [_]). unfold bind, bslog_Warnf, ret.
        rewrite emit_warned, <- app_assoc. reflexivity.
    - eexists (l ++ [_]). unfold bind, bslog_Warnf, ret.
      rewrite emit_warned, <- app_assoc. reflexivity. }
  destruct Emtu as (lmtu & Emtu).
  rewrite (bind_val _ Emtu).
  exists ((((lines ++ ltz) ++ lloc) ++ lmtu)), bufferSize.
  split.
  - unfold bind at 1. unfold modify. unfold bind at 1. unfold time_NewTimer.
    cbn [now set_pool warned]. rewrite Z.add_0_r. reflexivity.
  - intros err Hne Herr. apply in_or_app. left. apply in_or_app. right.
    exact (Hwarn err Hne Herr).
Qed.

(** X8.  Whatever [initialize] returns, an error included, it has set the
    prefix and the suffix of the messages from the environment: the prefix
    is the expansion of [LOG_SYSLOG_MESSAGE_EXTRA_START] followed by a
    space, the suffix a space followed by the expansion of
    [LOG_SYSLOG_MESSAGE_EXTRA_END]; a variable that is not set or empty
    leaves what the backend had.  [initialize] always returns. *)
Theorem initialize_message_extras (timeout : Z) (h : host)
    (bk : syslogBackend) (w : world) :
  exists bk' e w',
    initialize timeout h bk w = Val (bk', e) w' /\
    syslogExtraStart bk' =
      (if is_nil (getenv h (b "LOG_SYSLOG_MESSAGE_EXTRA_START"))
       then syslogExtraStart bk
       else expandEnv h (getenv h (b "LOG_SYSLOG_MESSAGE_EXTRA_START")) ++
            b " ") /\
    syslogExtraEnd bk' =
      (if is_nil (getenv h (b "LOG_SYSLOG_MESSAGE_EXTRA_END"))
       then syslogExtraEnd bk
       else b " " ++
            expandEnv h (getenv h (b "LOG_SYSLOG_MESSAGE_EXTRA_END"))).
Proof.
  assert (Hcase : forwardAddressList h = [] \/ forwardAddressList h <> []).
  { destruct (forwardAddressList h); [left; reflexivity|right; discriminate]. }
  destruct Hcase as [Haddrs|Haddrs].
  - destruct (initialize_settings timeout h bk w) as (lines & bufferSize & E).
    rewrite E, Haddrs. eexists _, _, _. split; [reflexivity|].
    split; reflexivity.
  - destruct (@initialize_loop timeout h bk w Haddrs)
      as (lines & bufferSize & E & _).
    rewrite E.
    match goal with
    | |- context [initSinks _ _ ?m ?bs ?addrs ?bk1 ?w1] =>
        destruct (initSinks_keeps timeout h m bs addrs bk1 w1)
          as (bk' & e & w' & evs & added & E' & _ & _ & _ & Hs & He & _)
    end.
    exists bk', e, w'. split; [exact E'|].
    split; [exact Hs|exact He].
Qed.

(** X9.  With at least one forward address, whatever [initialize] returns,
    an error included, the backend has a location for the stamps (the time
    zone of [LOG_SYSLOG_TIMEZONE], or of [SYSLOG_TIMEZONE], when it can be
    loaded, and [time.Local] otherwise) and a timer that is due at once, so
    that the first drop is reported without delay.  When it returns no
    error the backend has gained one channel per forward address, after
    those it had, and [sendMessage] returns on it for every record: it
    cannot meet a nil location or a nil timer. *)
Theorem initialize_ready (timeout : Z) (h : host) (bk : syslogBackend)
    (w : world) :
  forwardAddressList h <> [] ->
  exists bk' e w',
    initialize timeout h bk w = Val (bk', e) w' /\
    syslogLocation bk' = Some (locationOf h) /\
    nextNotify bk' = Some (Timer (Some (now w))) /\
    timer_ready (Timer (Some (now w))) (now w) = true /\
    (e = None ->
     (exists added,
        msgChans bk' = msgChans bk ++ added /\
        length added = length (forwardAddressList h)) /\
     forall (parts : rawLogParts) (appName processName container_ : bytes)
            (w2 : world),
       pool_ok w2 ->
       exists bk2 w3,
         sendMessage bk' parts appName processName container_ w2 =
         Val bk2 w3).
Proof.
  intros Haddrs.
  destruct (@initialize_loop timeout h bk w Haddrs)
    as (lines & bufferSize & E & _).
  rewrite E.
  match goal with
  | |- context [initSinks _ _ ?m ?bs ?addrs ?bk1 ?w1] =>
      destruct (initSinks_keeps timeout h m bs addrs bk1 w1)
        as (bk' & e & w' & evs & added & E' & _ & _ & Hl & _ & _ & Ht & Hch &
            _ & Hn)
  end.
  cbn [syslogLocation nextNotify msgChans] in *.
  exists bk', e, w'. split; [exact E'|]. split; [exact Hl|].
  split; [exact Ht|].
  split; [unfold timer_ready; cbn; apply Z.leb_refl|].
  intros He. split; [exists added; auto|].
  intros parts appName processName container_ w2 Hok.
  destruct (@sendMessage_spec bk' (locationOf h) parts appName processName
              container_ w2 Hok Hl)
    as (m & w0 & g & evs' & chs' & tm' & w3 & _ & _ & Es & _).
  - rewrite Ht. discriminate.
  - rewrite Hch. specialize (Hn He).
    destruct added; [|destruct (msgChans bk); discriminate].
    cbn in Hn. destruct (forwardAddressList h); [contradiction|discriminate].
  - eexists _, w3. exact Es.
Qed.

Lemma initialize_ready_witness :
  exists bk' e w',
    initialize second (hostWith [] [b "udp://10.0.0.9:514"] (inl 1500))
               zeroBackend emptyWorld = Val (bk', e) w' /\
    syslogLocation bk' = Some UTC /\
    nextNotify bk' = Some (Timer (Some 0)) /\
    timer_ready (Timer (Some 0)) 0 = true /\
    (e = None ->
     (exists added,
        msgChans bk' = [] ++ added /\ length added = 1%nat) /\
     forall (parts : rawLogParts) (appName processName container_ : bytes)
            (w2 : world),
       pool_ok w2 ->
       exists bk2 w3,
         sendMessage bk' parts appName processName container_ w2 =
         Val bk2 w3).
Proof.
  exact (@initialize_ready second
           (hostWith [] [b "udp://10.0.0.9:514"] (inl 1500))
           zeroBackend emptyWorld ltac:(discriminate)).
Defined.

(** A start with one sink and a buffer of eight messages: no error, one
    warning, one dial. *)
Example sample_start :
  exists w',
    initialize second
               (hostWith [(b "LOG_SYSLOG_BUFFER_SIZE", b "8")]
                         [b "udp://10.0.0.9:514"] (inl 1500))
               zeroBackend emptyWorld =
    Val (SyslogBackend (Some UTC) [] [] [Chan 8 [] false]
                       (Some (Timer (Some 0))), None) w' /\
    trace w' =
      [EvLog 0 LevelWarn
         (b "invalid value for LOG_SYSLOG_MTU_NETWORK_INTERFACE. Using the default value of eth0");
       EvDial (b "udp") (b "10.0.0.9:514") second None].
Proof. eexists. split; vm_compute; reflexivity. Qed.

(** X10.  When the time zone that is configured cannot be loaded,
    [initialize] does not fail: it logs the warning
    [unable to parse syslog timezone format: <error>] and stamps the
    messages in [time.Local]. *)
Theorem initialize_timezone_fallback (timeout : Z) (h : host)
    (bk : syslogBackend) (w : world) (err : bytes) :
  forwardAddressList h <> [] ->
  configuredTimezone h <> [] ->
  loadLocation h (configuredTimezone h) = inr err ->
  exists bk' e w',
    initialize timeout h bk w = Val (bk', e) w' /\
    syslogLocation bk' = Some (timeLocal h) /\
    In (EvLog (now w) LevelWarn
              (b "unable to parse syslog timezone format: " ++ err))
       (trace w').
Proof.
  intros Haddrs Htz Herr.
  destruct (@initialize_loop timeout h bk w Haddrs)
    as (lines & bufferSize & E & Hwarn).
  rewrite E.
  match goal with
  | |- context [initSinks _ _ ?m ?bs ?addrs ?bk1 ?w1] =>
      destruct (initSinks_keeps timeout h m bs addrs bk1 w1)
        as (bk' & e & w' & evs & added & E' & Htr & _ & Hl & _)
  end.
  cbn [syslogLocation] in Hl.
  exists bk', e, w'. split; [exact E'|]. split.
  - rewrite Hl. unfold locationOf.
    destruct (configuredTimezone h); [contradiction|].
    cbn [is_nil]. rewrite Herr. reflexivity.
  - rewrite Htr. apply in_or_app. left. cbn [trace set_pool warned].
    apply in_or_app. right. apply in_map. exact (Hwarn err Htz Herr).
Qed.

Lemma initialize_timezone_fallback_witness :
  exists bk' e w',
    initialize second
               (hostWith [(b "SYSLOG_TIMEZONE", b "Mars/Olympus")]
                         [b "udp://10.0.0.9:514"] (inl 1500))
               zeroBackend emptyWorld = Val (bk', e) w' /\
    syslogLocation bk' = Some UTC /\
    In (EvLog 0 LevelWarn
              (b "unable to parse syslog timezone format: unknown time zone"))
       (trace w').
Proof.
  exact (@initialize_timezone_fallback second
           (hostWith [(b "SYSLOG_TIMEZONE", b "Mars/Olympus")]
                     [b "udp://10.0.0.9:514"] (inl 1500))
           zeroBackend emptyWorld (b "unknown time zone")
           ltac:(discriminate) ltac:(discriminate) eq_refl).
Defined.

(** The loop over the addresses goes on, after the first ones, from the
    backend and the world they left, unless they ended in an error. *)
Lemma initSinks_app (timeout : Z) (h : host) (mtu_ bufferSize : Z)
    (done rest : list bytes) :
  forall (bk : syslogBackend) (w : world),
    initSinks timeout h mtu_ bufferSize (done ++ rest) bk w =
    match initSinks timeout h mtu_ bufferSize done bk w with
    | Val (bk1, None) w1 => initSinks timeout h mtu_ bufferSize rest bk1 w1
    | r => r
    end.
Proof.
  induction done as [|addr done IH]; intros bk w; [reflexivity|].
  cbn [app initSinks]. destruct (urlParse h addr) as [u|perr]; [|reflexivity].
  unfold bind.
  destruct (processMessages timeout (SyslogForwarder u mtu_ 0) bufferSize w)
    as [[ch|err] w1| |]; try reflexivity.
  apply IH.
Qed.

(** X11.  The loop of [initialize] over the forward addresses stops at the
    first address that [url.Parse] refuses, with the error
    [unable to parse "<address>": <error>].  The sinks of the addresses
    before it have been started and their channels stay in the backend;
    the addresses after it are neither parsed nor dialled. *)
Theorem initSinks_stops_at_unparsable (timeout : Z) (h : host)
    (mtu_ bufferSize : Z) (done : list bytes) (addr : bytes)
    (later : list bytes) (perr : bytes) (bk bk1 : syslogBackend)
    (w w1 : world) :
  initSinks timeout h mtu_ bufferSize done bk w = Val (bk1, None) w1 ->
  urlParse h addr = inr perr ->
  initSinks timeout h mtu_ bufferSize (done ++ addr :: later) bk w =
    Val (bk1, Some (b "unable to parse " ++ quote addr ++ b ": " ++ perr)) w1
  /\ exists added,
       msgChans bk1 = msgChans bk ++ added /\ length added = length done.
Proof.
  intros Edone Hparse. split.
  - rewrite initSinks_app, Edone. cbn [initSinks]. rewrite Hparse.
    reflexivity.
  - destruct (initSinks_keeps timeout h mtu_ bufferSize done bk w)
      as (bk' & e & w' & evs & added & E' & _ & _ & _ & _ & _ & _ & Hch & _ &
          Hn).
    rewrite Edone in E'. injection E' as <- <- <-.
    exists added. split; [exact Hch|]. apply Hn. reflexivity.
Qed.

Lemma initSinks_stops_at_unparsable_witness :
  initSinks second pickyHost 1500 8
            ([b "udp://10.0.0.9:514"] ++ b "://bad" :: [b "udp://10.0.0.9:514"])
            zeroBackend emptyWorld =
    Val (SyslogBackend None [] [] [Chan 8 [] false] None,
         Some (b "unable to parse " ++ quote (b "://bad") ++ b ": " ++
               b "missing protocol scheme"))
        (emit (EvDial (b "udp") (b "10.0.0.9:514") second None) emptyWorld)
  /\ exists added,
       msgChans (SyslogBackend None [] [] [Chan 8 [] false] None) =
         msgChans zeroBackend ++ added /\
       length added = length [b "udp://10.0.0.9:514"].
Proof.
  exact (@initSinks_stops_at_unparsable second pickyHost 1500 8
           [b "udp://10.0.0.9:514"] (b "://bad") [b "udp://10.0.0.9:514"]
           (b "missing protocol scheme") zeroBackend
           (SyslogBackend None [] [] [Chan 8 [] false] None) emptyWorld
           (emit (EvDial (b "udp") (b "10.0.0.9:514") second None) emptyWorld)
           eq_refl eq_refl).
Defined.

(** ** [connect] and [splitParts] over TCP *)

(** X12.  A forwarder as [initialize] makes it, connected over [tcp], keeps
    the message limit 0 whatever the MTU, and its connection is the
    buffered one, flushed every second.  [splitParts] then never splits:
    whatever the size of the message and whatever its indexes, it is one
    call of [writePart] on the whole buffer, which sets the deadline and
    writes the buffer at most once; no buffer is taken from the pool. *)
Theorem tcp_sink_never_splits (timeout : Z) (u : URL) (mtu_ : Z)
    (w0 w1 : world) (conn : netConn) (f : syslogForwarder) (fuel : nat)
    (m : bufferWithIdx) (w : world) :
  connect timeout (SyslogForwarder u mtu_ 0) w0 = Val (inl conn, f) w1 ->
  Scheme u = b "tcp" ->
  messageLimit f = 0 /\ flushPeriod conn = Some second /\
  splitParts fuel f conn m w = writePart conn (buffer m) w /\
  exists err w' evs,
    splitParts fuel f conn m w = Val err w' /\
    trace w' = trace w ++ evs /\
    (datagrams evs = [] \/ datagrams evs = [read w (buffer m)]) /\
    poolTraffic evs = [] /\ pool w' = pool w.
Proof.
  intros Econn Htcp. unfold connect, bind, net_DialTimeout in Econn.
  cbn [url Scheme Host mtu] in Econn.
  destruct (dialRes (env w0) (length (trace w0)) (Scheme u) (Host u))
    as [c|err]; [|discriminate].
  rewrite Htcp in Econn. change (bytes_eqb (b "tcp") (b "tcp")) with true in Econn.
  unfold ret in Econn. injection Econn as <- <- _.
  split; [reflexivity|]. split; [reflexivity|].
  assert (Efast : splitParts fuel (SyslogForwarder u mtu_ 0)
                    (newBufferedConn c second) m w =
                  writePart (newBufferedConn c second) (buffer m) w).
  { unfold splitParts. cbn [messageLimit]. reflexivity. }
  split; [exact Efast|]. rewrite Efast.
  destruct (writePart_spec (newBufferedConn c second) (buffer m) w)
    as (w' & E & Htr & _ & _ & Hpool & _).
  eexists _, w', _. split; [exact E|]. split; [exact Htr|].
  unfold writeOutcome.
  destruct (deadlineErr (env w) (length (trace w))); cbn [snd].
  - split; [left; reflexivity|]. split; [reflexivity|exact Hpool].
  - split; [right; reflexivity|]. split; [reflexivity|exact Hpool].
Qed.

Lemma tcp_sink_never_splits_witness :
  messageLimit (SyslogForwarder tcpURL 160 0) = 0 /\
  flushPeriod (newBufferedConn sampleConn second) = Some second /\
  splitParts 0 (SyslogForwarder tcpURL 160 0)
             (newBufferedConn sampleConn second) sampleMessage sampleWorld =
    writePart (newBufferedConn sampleConn second) (buffer sampleMessage)
              sampleWorld /\
  exists err w' evs,
    splitParts 0 (SyslogForwarder tcpURL 160 0)
               (newBufferedConn sampleConn second) sampleMessage sampleWorld =
      Val err w' /\
    trace w' = trace sampleWorld ++ evs /\
    (datagrams evs = [] \/
     datagrams evs = [read sampleWorld (buffer sampleMessage)]) /\
    poolTraffic evs = [] /\ pool w' = pool sampleWorld.
Proof.
  exact (@tcp_sink_never_splits second tcpURL 160 emptyWorld
           (emit (EvDial (b "tcp") (b "10.0.0.9:514") second None) emptyWorld)
           (newBufferedConn sampleConn second) (SyslogForwarder tcpURL 160 0)
           0 sampleMessage sampleWorld eq_refl eq_refl).
Defined.

(** ** The fragments of [splitParts] *)

Lemma datagrams_cons_other (e : event) (evs : list event) :
  isWrite e = false -> datagrams (e :: evs) = datagrams evs.
Proof. destruct e; intros H; try discriminate H; reflexivity. Qed.

(** A run of the splitting loop that ends without error on a content that
    is not empty: chunks of exactly [avail] bytes, then a last chunk of 1 to
    [avail] bytes. *)
Lemma split_run_sizes (conn : netConn) (dl : Z) (a : nat) (H T : bytes)
    (avail fuel : nat) (R : bytes) (evs : list event) (o : outcome) :
  split_run conn dl a H T avail fuel R evs o ->
  o = Returned None -> (0 < avail)%nat -> R <> [] ->
  exists full last,
    datagrams evs = map (fun c => H ++ c ++ T) (full ++ [last]) /\
    Forall (fun c => length c = avail) full /\
    length full = ((length R - 1) / avail)%nat /\
    (1 <= length last <= avail)%nat /\
    R = List.concat full ++ last.
Proof.
  induction 1 as [fuel|fuel R evs e Hne Hlen Hwa|R Hlen
                  |fuel R g p evs e Hlen Hg Hp Hwa
                  |fuel R g p evs rest o Hlen Hg Hp Hwa Hrun IH];
    intros Ho Hav HR; try discriminate Ho.
  - contradiction.
  - injection Ho as ->.
    destruct (write_attempt_datagrams Hwa) as [(_ & He)|E]; [contradiction|].
    exists [], R. split; [rewrite E; reflexivity|]. split; [constructor|].
    assert (0 < length R)%nat by (destruct R; [contradiction|cbn; lia]).
    split; [cbn [length]; symmetry; apply Nat.div_small; lia|].
    split; [lia|reflexivity].
  - destruct (write_attempt_datagrams Hwa) as [(_ & He)|E]; [contradiction|].
    destruct (IH Ho Hav) as (full & last & Ed & Hfull & Hcount & Hlast & ER).
    { intros Hnil. apply (f_equal (@length ascii)) in Hnil.
      rewrite length_skipn in Hnil. cbn in Hnil. lia. }
    exists (firstn avail R :: full), last.
    split.
    { rewrite datagrams_cons_other by reflexivity.
      rewrite datagrams_app, E. rewrite datagrams_cons_other by reflexivity.
      rewrite Ed. reflexivity. }
    split; [constructor; [rewrite length_firstn; lia|exact Hfull]|].
    split.
    { cbn [length]. rewrite Hcount, length_skipn.
      replace (length R - 1)%nat with ((length R - avail - 1) + 1 * avail)%nat
        by lia.
      rewrite Nat.div_add by lia. lia. }
    split; [exact Hlast|].
    cbn [List.concat]. rewrite <- app_assoc, <- ER. symmetry.
    apply firstn_skipn.
Qed.

(** X13.  When a message does not fit the limit and the limit leaves room
    for content, a run of [splitParts] in which no write fails hands to the
    connection, in order, the header, a chunk of the content and the
    trailer, where every chunk but the last has exactly the bytes the limit
    leaves ([messageLimit] minus header and trailer), so that every
    datagram but the last is exactly [messageLimit] bytes long, and the
    last chunk is not empty.  The chunks, in order, make up the content;
    their number is the length of the content divided by the room,
    rounded up. *)
Theorem splitParts_fragment_sizes (fuel : nat) (f : syslogForwarder)
    (conn : netConn) (m : bufferWithIdx) (w : world) :
  let H := msgHeader w m in
  let C := msgContent w m in
  let T := msgTrailer w m in
  let room := availableFor (messageLimit f) H T in
  pool_ok w -> owned (arr (buffer m)) w -> msg_ok m ->
  GoInt.in_range (messageLimit f) ->
  messageLimit f < lenZ (buffer m) -> 0 < room ->
  returned_nil (splitParts fuel f conn m w) = true ->
  exists evs full last,
    trace (world_of (splitParts fuel f conn m w)) = trace w ++ evs /\
    datagrams evs = map (fun c => H ++ c ++ T) (full ++ [last]) /\
    Forall (fun c => Z.of_nat (length c) = room) full /\
    Forall (fun c => Z.of_nat (length (H ++ c ++ T)) = messageLimit f) full /\
    0 < Z.of_nat (length last) <= room /\
    C = List.concat full ++ last /\
    Z.of_nat (length full) = (Z.of_nat (length C) - 1) / room.
Proof.
  intros H C T room Hok Ha Hm Hrange Hbig Hroom Hret.
  destruct (@splitParts_run fuel f conn m w Hok Ha Hm Hrange)
    as (evs & o & w' & Hrun & E & Htr & _).
  { right. right. fold H T room. lia. }
  fold H C T in Hrun. rewrite E in Hret |- *.
  destruct o as [[e|]|]; try discriminate Hret. cbn [world_of].
  destruct (msg_regions w Hm) as (HB & _).
  fold H C T in HB.
  assert (HlenB : Z.of_nat (length (H ++ C ++ T)) = lenZ (buffer m)).
  { rewrite <- HB, read_length. reflexivity. }
  inversion Hrun as [evs' e' Hfit _ Eevs Eo|evs' o' _ Hav Hrun' Eevs Eo];
    subst evs' .
  { unfold room, availableFor in Hroom. lia. }
  subst o'. fold room in Hrun'.
  assert (HC : C <> []).
  { intros HC. rewrite HC in HlenB. rewrite !length_app in HlenB.
    cbn [length] in HlenB. unfold room, availableFor in Hroom. lia. }
  destruct (split_run_sizes Hrun' eq_refl ltac:(lia) HC)
    as (full & last & Ed & Hfull & Hcount & Hlast & EC).
  exists evs, full, last. split; [exact Htr|]. split; [exact Ed|].
  split.
  { eapply Forall_impl; [|exact Hfull]. intros c Hc. cbv beta in Hc. lia. }
  split.
  { eapply Forall_impl; [|exact Hfull]. intros c Hc. cbv beta in Hc.
    rewrite !length_app. unfold room, availableFor in *. lia. }
  split; [lia|]. split; [exact EC|].
  rewrite Hcount.
  assert (0 < length C)%nat by (destruct C; [contradiction|cbn; lia]).
  rewrite Nat2Z.inj_div, Nat2Z.inj_sub by lia.
  rewrite Z2Nat.id by lia. reflexivity.
Qed.

Lemma splitParts_fragment_sizes_witness :
  exists evs full last,
    trace (world_of (splitParts 40 (udpForwarder 160) sampleConn sampleMessage
                                sampleWorld)) = trace sampleWorld ++ evs /\
    datagrams evs =
      map (fun c => msgHeader sampleWorld sampleMessage ++ c ++
                    msgTrailer sampleWorld sampleMessage) (full ++ [last]) /\
    Forall (fun c => Z.of_nat (length c) =
                     availableFor 60 (msgHeader sampleWorld sampleMessage)
                                  (msgTrailer sampleWorld sampleMessage)) full /\
    Forall (fun c => Z.of_nat (length (msgHeader sampleWorld sampleMessage ++
                                       c ++
                                       msgTrailer sampleWorld sampleMessage))
                     = 60) full /\
    0 < Z.of_nat (length last) <=
      availableFor 60 (msgHeader sampleWorld sampleMessage)
                   (msgTrailer sampleWorld sampleMessage) /\
    msgContent sampleWorld sampleMessage = List.concat full ++ last /\
    Z.of_nat (length full) =
      (Z.of_nat (length (msgContent sampleWorld sampleMessage)) - 1) /
      availableFor 60 (msgHeader sampleWorld sampleMessage)
                   (msgTrailer sampleWorld sampleMessage).
Proof.
  apply (@splitParts_fragment_sizes 40 (udpForwarder 160) sampleConn
           sampleMessage sampleWorld).
  - exact sampleWorld_pool_ok.
  - exact sampleWorld_owned.
  - exact sampleMessage_ok.
  - unfold GoInt.in_range. cbn. lia.
  - reflexivity.
  - vm_compute. reflexivity.
  - vm_compute. reflexivity.
Defined.

(** ** Pool traffic of [splitParts] and of [sendMessage] *)

Lemma poolTraffic_app (l1 l2 : list event) :
  poolTraffic (l1 ++ l2) = poolTraffic l1 ++ poolTraffic l2.
Proof. unfold poolTraffic. apply flat_map_app. Qed.

Lemma write_attempt_traffic (conn : netConn) (dl : Z) (d : bytes)
    (evs : list event) (e : error) :
  write_attempt conn dl d evs e -> poolTraffic evs = [].
Proof. intros Hwa. destruct Hwa; reflexivity. Qed.

Lemma split_run_traffic (conn : netConn) (dl : Z) (a : nat) (H T : bytes)
    (avail fuel : nat) (R : bytes) (evs : list event) (o : outcome) :
  split_run conn dl a H T avail fuel R evs o ->
  exists k,
    poolTraffic evs = List.concat (repeat [true; false] k) /\
    (o = Returned None -> R <> [] -> length (datagrams evs) = S k).
Proof.
  induction 1 as [fuel|fuel R evs e Hne Hlen Hwa|R Hlen
                  |fuel R g p evs e Hlen Hg Hp Hwa
                  |fuel R g p evs rest o Hlen Hg Hp Hwa Hrun IH].
  - exists 0%nat. split; [reflexivity|]. intros _ HR. contradiction.
  - exists 0%nat. split; [eapply write_attempt_traffic; eassumption|].
    intros Ho _. injection Ho as ->.
    destruct (write_attempt_datagrams Hwa) as [(_ & He)|E]; [contradiction|].
    rewrite E. reflexivity.
  - exists 0%nat. split; [reflexivity|discriminate].
  - exists 1%nat. split; [|discriminate].
    change (EvGet g :: evs ++ [EvPut p])
      with ([EvGet g] ++ evs ++ [EvPut p]).
    rewrite !poolTraffic_app, (write_attempt_traffic Hwa). reflexivity.
  - destruct IH as (k & Hk & Hn). exists (S k). split.
    + change (EvGet g :: evs ++ EvPut p :: rest)
        with ([EvGet g] ++ evs ++ [EvPut p] ++ rest).
      rewrite !poolTraffic_app, (write_attempt_traffic Hwa), Hk. reflexivity.
    + intros Ho _.
      destruct (write_attempt_datagrams Hwa) as [(_ & He)|E];
        [contradiction|].
      rewrite datagrams_cons_other by reflexivity.
      rewrite datagrams_app, E.
      rewrite datagrams_cons_other by reflexivity.
      cbn [length app]. f_equal. apply Hn; [exact Ho|].
      intros Hnil. apply (f_equal (@length ascii)) in Hnil.
      rewrite length_skipn in Hnil. cbn in Hnil. lia.
Qed.

(** X14.  [splitParts] gives every buffer it takes from the pool back to
    the pool before it takes another one, and before it returns: in its
    events takes and returns alternate, the first is a take and the last a
    return.  This holds whatever the connection reports, also when a write
    fails and the split is given up, and in the runs that do not end.  The
    one exception is the panic of [splitParts]: it panics exactly when the
    message exceeds a positive limit that header and trailer exceed as well
    (and an iteration is run at all), and then its only pool event is the
    take of the first fragment buffer, which is not returned.  When
    [splitParts] returns no error it has taken one buffer for each datagram
    but the last, which is written from the buffer of the message. *)
Theorem splitParts_returns_pooled_buffers (fuel : nat) (f : syslogForwarder)
    (conn : netConn) (m : bufferWithIdx) (w : world) :
  pool_ok w -> owned (arr (buffer m)) w -> msg_ok m ->
  GoInt.in_range (messageLimit f) ->
  exists evs k,
    trace (world_of (splitParts fuel f conn m w)) = trace w ++ evs /\
    poolTraffic evs =
      List.concat (repeat [true; false] k) ++
      (if panicked (splitParts fuel f conn m w) then [true] else []) /\
    (returned_nil (splitParts fuel f conn m w) = true ->
     length (datagrams evs) = S k) /\
    (panicked (splitParts fuel f conn m w) = true <->
     fuel <> 0%nat /\ 0 < messageLimit f < lenZ (buffer m) /\
     availableFor (messageLimit f) (msgHeader w m) (msgTrailer w m) < 0).
Proof.
  intros Hok Ha Hm Hrange.
  assert (Hcases :
            (messageLimit f <= 0 \/ lenZ (buffer m) <= messageLimit f \/
             0 <= availableFor (messageLimit f) (msgHeader w m)
                               (msgTrailer w m)) \/
            (0 < messageLimit f < lenZ (buffer m) /\
             availableFor (messageLimit f) (msgHeader w m)
                          (msgTrailer w m) < 0)) by lia.
  destruct Hcases as [Hcase|(Hlim & Hneg)].
  - destruct (@splitParts_run fuel f conn m w Hok Ha Hm Hrange Hcase)
      as (evs & o & w' & Hrun & E & Htr & _).
    assert (Hw : world_of (splitParts fuel f conn m w) = w').
    { rewrite E. destruct o; reflexivity. }
    assert (Hnil : returned_nil (splitParts fuel f conn m w) = true ->
                   o = Returned None).
    { rewrite E. destruct o as [[e|]|]; try discriminate. reflexivity. }
    assert (Hpanic : panicked (splitParts fuel f conn m w) = false).
    { rewrite E. destruct o; reflexivity. }
    rewrite Hw, Hpanic. exists evs.
    destruct (msg_regions w Hm) as (HB & _).
    assert (HlenB : Z.of_nat (length (msgHeader w m ++ msgContent w m ++
                                     msgTrailer w m)) = lenZ (buffer m)).
    { rewrite <- HB, read_length. reflexivity. }
    assert (Hiff : false = true <->
                   fuel <> 0%nat /\ 0 < messageLimit f < lenZ (buffer m) /\
                   availableFor (messageLimit f) (msgHeader w m)
                                (msgTrailer w m) < 0).
    { split; [discriminate|]. intros (_ & Hl & Hn). lia. }
    inversion Hrun as [evs' e Hfit Hwa Eevs Eo|evs' o' Hbig Hav Hrun' Eevs Eo];
      subst evs'.
    + exists 0%nat. split; [exact Htr|].
      split; [eapply write_attempt_traffic; eassumption|].
      split; [|exact Hiff].
      intros Hret. specialize (Hnil Hret). rewrite Hnil in Eo.
      injection Eo as ->.
      destruct (write_attempt_datagrams Hwa) as [(_ & He)|Ed];
        [contradiction|].
      rewrite Ed. reflexivity.
    + subst o'. destruct (split_run_traffic Hrun') as (k & Hk & Hn).
      exists k. split; [exact Htr|].
      split; [rewrite app_nil_r; exact Hk|].
      split; [|exact Hiff].
      intros Hret. apply Hn; [exact (Hnil Hret)|].
      intros HC. rewrite HC in Hbig. rewrite !length_app in Hbig.
      cbn [length] in Hbig. unfold availableFor in Hav. lia.
  - destruct fuel as [|fuel].
    + destruct (@splitParts_slow 0 f conn m w Hm Hrange Hlim) as (E & _).
      assert (E0 : splitParts 0 f conn m w = OutOfFuel w).
      { rewrite E. cbn [splitLoop].
        destruct (Z.ltb_spec
                    (availableFor (messageLimit f) (msgHeader w m)
                                  (msgTrailer w m))
                    (lenZ (contentBufOf m))) as [_|Hge]; [reflexivity|].
        unfold lenZ in Hge. lia. }
      rewrite E0. exists [], 0%nat. cbn [world_of panicked returned_nil].
      split; [now rewrite app_nil_r|]. split; [reflexivity|].
      split; [discriminate|].
      split; [discriminate|]. intros (Hf & _). contradiction.
    + destruct (@splitParts_panics fuel f conn m w Hok Ha Hm Hlim
                  ltac:(unfold GoInt.in_range in Hrange; lia) Hneg)
        as (w' & g & E & Htr).
      rewrite E. exists [EvGet g], 0%nat.
      cbn [world_of panicked returned_nil].
      split; [exact Htr|]. split; [reflexivity|].
      split; [discriminate|].
      split; [intros _|reflexivity].
      split; [discriminate|]. split; assumption.
Qed.

Lemma splitParts_returns_pooled_buffers_witness :
  exists evs k,
    trace (world_of (splitParts 40 (udpForwarder 160) sampleConn sampleMessage
                                sampleWorld)) = trace sampleWorld ++ evs /\
    poolTraffic evs =
      List.concat (repeat [true; false] k) ++
      (if panicked (splitParts 40 (udpForwarder 160) sampleConn sampleMessage
                               sampleWorld) then [true] else []) /\
    (returned_nil (splitParts 40 (udpForwarder 160) sampleConn sampleMessage
                              sampleWorld) = true ->
     length (datagrams evs) = S k) /\
    (panicked (splitParts 40 (udpForwarder 160) sampleConn sampleMessage
                          sampleWorld) = true <->
     40%nat <> 0%nat /\
     0 < messageLimit (udpForwarder 160) < lenZ (buffer sampleMessage) /\
     availableFor (messageLimit (udpForwarder 160))
                  (msgHeader sampleWorld sampleMessage)
                  (msgTrailer sampleWorld sampleMessage) < 0).
Proof.
  apply (@splitParts_returns_pooled_buffers 40 (udpForwarder 160) sampleConn
           sampleMessage sampleWorld).
  - exact sampleWorld_pool_ok.
  - exact sampleWorld_owned.
  - exact sampleMessage_ok.
  - unfold GoInt.in_range. cbn. lia.
Defined.

(** The pool traffic of the sample message under a limit of 60 bytes, two
    fragments through the pool and the third from the buffer of the message,
    and under a limit of 30 bytes, less than header and trailer. *)
Example sample_pool_traffic :
  poolTraffic (trace (world_of (splitParts 40 (udpForwarder 160) sampleConn
                                           sampleMessage sampleWorld))) =
    [true; false; true; false] /\
  poolTraffic (trace (world_of (splitParts 40 (udpForwarder 130) sampleConn
                                           sampleMessage sampleWorld))) =
    [true].
Proof. split; vm_compute; reflexivity. Qed.

Lemma notice_silent (tm : option timer) (t : Z) (ok : bool) :
  let evs := fst (if ok then ([], tm) else noticeAt tm t) in
  poolTraffic evs = [] /\ datagrams evs = [] /\ gets evs = [].
Proof.
  destruct ok; [repeat split|].
  unfold noticeAt. destruct tm as [tmr|]; [|repeat split].
  destruct (timer_ready tmr t); repeat split.
Qed.

Lemma gets_app (l1 l2 : list event) : gets (l1 ++ l2) = gets l1 ++ gets l2.
Proof. unfold gets. apply flat_map_app. Qed.

Lemma fanned_traffic (N : nat) (buf : slice) (hIdx cIdx t : Z) (i : nat)
    (chs : list chan) (tm : option timer) (evs : list event)
    (chs' : list chan) (tm' : option timer) :
  fanned N buf hIdx cIdx t i chs tm evs chs' tm' ->
  poolTraffic evs = repeat true (length (gets evs)) /\ datagrams evs = [].
Proof.
  induction 1 as [i tm|i ch rest tm evs chs' tm' Hi m ok notice Hfan IH
                  |i ch rest tm g copy evs chs' tm' Hi m ok notice Hfan IH].
  - split; reflexivity.
  - destruct (notice_silent tm t ok) as (N1 & N2 & N3). fold notice in N1, N2, N3.
    destruct IH as (IH1 & IH2).
    change (EvSend i m ok :: fst notice ++ evs)
      with ([EvSend i m ok] ++ fst notice ++ evs).
    rewrite !poolTraffic_app, !datagrams_app, !gets_app, N1, N2, N3, IH1, IH2.
    split; reflexivity.
  - destruct (notice_silent tm t ok) as (N1 & N2 & N3). fold notice in N1, N2, N3.
    destruct IH as (IH1 & IH2).
    change (EvGet g :: EvSend i m ok :: fst notice ++ evs)
      with ([EvGet g; EvSend i m ok] ++ fst notice ++ evs).
    rewrite !poolTraffic_app, !datagrams_app, !gets_app, N1, N2, N3, IH1, IH2.
    split; reflexivity.
Qed.

(** X15.  For a record handed to a backend with [N >= 1] sinks,
    [sendMessage] takes [N] buffers from the pool and returns none, whether
    the channels accept the messages or not: the buffer of a message that a
    full channel refuses is not given back to the pool.  [sendMessage]
    writes to no connection. *)
Theorem sendMessage_takes_buffers (bk : syslogBackend) (loc : Location)
    (parts : rawLogParts) (appName processName container_ : bytes)
    (w : world) :
  pool_ok w -> syslogLocation bk = Some loc -> nextNotify bk <> None ->
  msgChans bk <> [] ->
  exists bk' w' evs,
    sendMessage bk parts appName processName container_ w = Val bk' w' /\
    trace w' = trace w ++ evs /\
    poolTraffic evs = repeat true (length (msgChans bk)) /\
    length (sends evs) = length (msgChans bk) /\
    datagrams evs = [].
Proof.
  intros Hok Hloc Htm Hch.
  destruct (@sendMessage_spec bk loc parts appName processName container_ w
              Hok Hloc Htm Hch)
    as (m & w0 & g & evs & chs' & tm' & w' & _ & _ & E & Htr & Hfan & _).
  destruct (fanned_traffic Hfan) as (Htraffic & Hd).
  destruct (fanned_sends Hfan) as (Hidx & _ & Hgets & _).
  destruct (fanned_buffers Hfan eq_refl Hch) as (_ & Hcount).
  eexists _, w', (EvGet g :: evs). split; [exact E|]. split; [exact Htr|].
  split.
  { change (EvGet g :: evs) with ([EvGet g] ++ evs).
    rewrite poolTraffic_app, Htraffic, Hgets.
    set (n := length (copyBuffers (length (msgChans bk)) evs)) in *.
    rewrite <- Hcount, Nat.add_1_r. reflexivity. }
  split.
  { change (sends (EvGet g :: evs)) with (sends evs).
    apply (f_equal (@length nat)) in Hidx.
    rewrite length_map, length_seq in Hidx. exact Hidx. }
  rewrite datagrams_cons_other by reflexivity. exact Hd.
Qed.

Lemma sendMessage_takes_buffers_witness :
  exists bk' w' evs,
    sendMessage fullBackend sampleParts (b "coolappname") (b "procx") []
                emptyWorld = Val bk' w' /\
    trace w' = trace emptyWorld ++ evs /\
    poolTraffic evs = repeat true (length (msgChans fullBackend)) /\
    length (sends evs) = length (msgChans fullBackend) /\
    datagrams evs = [].
Proof.
  apply (@sendMessage_takes_buffers fullBackend grenada sampleParts
           (b "coolappname") (b "procx") [] emptyWorld).
  - split; constructor.
  - reflexivity.
  - discriminate.
  - discriminate.
Defined.

(** ** From the record to the wire *)

Lemma regions_of_line (w : world) (m : bufferWithIdx) (H C T : bytes) :
  read w (buffer m) = H ++ C ++ T ->
  headerIdx m = Z.of_nat (length H) ->
  contentIdx m = headerIdx m + Z.of_nat (length C) ->
  msgHeader w m = H /\ msgContent w m = C /\ msgTrailer w m = T.
Proof.
  intros Hr Hh Hc. unfold msgHeader, msgContent, msgTrailer.
  rewrite Hr, Hc, Hh.
  replace (Z.to_nat (Z.of_nat (length H) + Z.of_nat (length C) -
                     Z.of_nat (length H))) with (length C) by lia.
  replace (Z.to_nat (Z.of_nat (length H) + Z.of_nat (length C)))
    with (length H + length C)%nat by lia.
  rewrite Nat2Z.id.
  split; [|split].
  - rewrite firstn_app, Nat.sub_diag, firstn_all. cbn. apply app_nil_r.
  - rewrite skipn_app, Nat.sub_diag, skipn_all. cbn.
    rewrite firstn_app, Nat.sub_diag, firstn_all. cbn. apply app_nil_r.
  - rewrite app_assoc, skipn_app, length_app, Nat.sub_diag.
    rewrite skipn_all2 by (rewrite length_app; lia). reflexivity.
Qed.

(** X16.  From the record to the wire, for the sink that gets the rendered
    buffer (the last sink of the backend; its only sink when it has one):
    [sendMessage] offers it a message that [process] can handle as it is.
    Under a positive limit that leaves room for content, with fuel for the
    content, [process] returns; every datagram it hands to the connection
    is a complete syslog line of at most [messageLimit] bytes, made of the
    header of the record (priority, stamp, container, application, process
    and prefix), a chunk of the content, the suffix and the newline; and
    the chunks, in order, are a prefix of the content of the record, all of
    it when [process] returns no error. *)
Theorem record_reaches_wire (bk : syslogBackend) (loc : Location)
    (parts : rawLogParts) (appName processName container_ : bytes)
    (w : world) (fuel : nat) (f : syslogForwarder) (conn : netConn) :
  let H := syslogHeader loc parts appName processName (syslogExtraStart bk) in
  let T := syslogExtraEnd bk ++ [newline] in
  pool_ok w -> syslogLocation bk = Some loc -> nextNotify bk <> None ->
  msgChans bk <> [] ->
  0 < messageLimit f < 2 ^ 63 ->
  Z.of_nat (length H) + Z.of_nat (length T) < messageLimit f ->
  (length (content parts) <= fuel)%nat ->
  exists m bk' w' evs,
    sendMessage bk parts appName processName container_ w = Val bk' w' /\
    trace w' = trace w ++ evs /\
    In (length (msgChans bk) - 1, m, chan_ready (last (msgChans bk) (Chan 0 [] false)))%nat
       (sends evs) /\
    (Z.of_nat (cap (buffer m)) < 2 ^ 63 ->
     exists err w2 evs2,
       process fuel f conn m w' = Val err w2 /\
       trace w2 = trace w' ++ evs2 ++ [EvPut (buffer m)] /\
       Forall (fun d => Z.of_nat (length d) <= messageLimit f /\
                        d = H ++ contentRegion (length H) (length T) d ++ T)
              (datagrams evs2) /\
       exists rest,
         content parts =
           List.concat (map (contentRegion (length H) (length T))
                            (datagrams evs2)) ++ rest /\
         (err = None -> rest = [])).
Proof.
  intros H T Hok Hloc Htm Hch Hlimit Hroom Hfuel.
  destruct (@sendMessage_spec bk loc parts appName processName container_ w
              Hok Hloc Htm Hch)
    as (m & w0 & g & evs & chs' & tm' & w' & _ & Hrd & E & Htr & Hfan & Hok' &
        Hh' & _).
  destruct Hrd as [Hline Hh Hc Hcap _ _ _ _ _].
  destruct Hh' as (_ & Hall). inversion Hall as [|? ? (Hown & Hread) _]. subst.
  exists m. eexists _, w', (EvGet g :: evs).
  split; [exact E|]. split; [exact Htr|].
  split.
  { change (sends (EvGet g :: evs)) with (sends evs).
    clear - Hfan Hch.
    assert (Hgen : forall i chs tm evs chs' tm',
              fanned (length (msgChans bk)) (buffer m) (headerIdx m)
                     (contentIdx m) (now w) i chs tm evs chs' tm' ->
              (i + length chs = length (msgChans bk))%nat -> chs <> [] ->
              In ((length (msgChans bk) - 1)%nat, m,
                  chan_ready (last chs (Chan 0 [] false))) (sends evs)).
    { clear. intros i chs tm evs chs' tm' Hfan.
      induction Hfan as [i tm|i ch rest tm evs chs' tm' Hi m0 ok notice Hfan IH
                         |i ch rest tm g copy evs chs' tm' Hi m0 ok notice
                            Hfan IH]; intros Hlen Hne.
      - contradiction.
      - assert (Hrest : rest = []).
        { cbn [length] in Hlen. apply length_zero_iff_nil. lia. }
        subst rest. left. subst m0 ok. cbn [last]. rewrite Hi.
        destruct m; reflexivity.
      - assert (Hrest : rest <> []).
        { intros ->. cbn [length] in Hlen. lia. }
        specialize (IH ltac:(cbn [length] in Hlen; lia) Hrest).
        change (EvGet g :: EvSend i m0 ok :: fst notice ++ evs)
          with ([EvGet g; EvSend i m0 ok] ++ fst notice ++ evs).
        unfold sends in *. rewrite !flat_map_app.
        apply in_or_app. right. apply in_or_app. right.
        destruct rest; [contradiction|]. exact IH. }
    apply (Hgen _ _ _ _ _ _ Hfan eq_refl Hch). }
  intros Hint.
  fold H in Hh.
  assert (Hline' : read w' (buffer m) = H ++ content parts ++ T).
  { rewrite Hread. unfold syslogLine, H, T. reflexivity. }
  destruct (regions_of_line w' m H (content parts) T Hline' Hh Hc)
    as (RH & RC & RT).
  assert (Hm : msg_ok m).
  { constructor; [lia|lia| |exact Hcap|exact Hint].
    unfold lenZ. rewrite <- (read_length w' (buffer m)), Hline'.
    rewrite !length_app. lia. }
  assert (Hrange : GoInt.in_range (messageLimit f)).
  { unfold GoInt.in_range. lia. }
  destruct (@process_run fuel f conn m w' Hok' Hown Hm Hrange)
    as (evs2 & o & w2 & Hrun & Hres).
  { right. right. rewrite RH, RT. unfold availableFor. lia. }
  rewrite RH, RC, RT in Hrun.
  assert (Hret : o <> Exhausted).
  { apply (parts_run_returns Hrun Hfuel). right. right.
    unfold availableFor. lia. }
  destruct o as [e|]; [|contradiction].
  destruct Hres as (Ep & Htr2 & _).
  destruct (parts_run_fragments Hrun ltac:(lia)) as (Hfrag & rest & Erest & Hdone).
  exists e, w2, evs2. split; [exact Ep|]. split; [exact Htr2|].
  split; [exact Hfrag|]. exists rest. split; [exact Erest|].
  intros ->. apply Hdone. reflexivity.
Qed.

(** ** [stop] *)

Lemma stop_closes (quitChans : list quitChan) :
  forall closed closed',
    stop quitChans closed = Stopped closed' ->
    exists ids,
      quitChans = map Some ids /\ closed' = rev ids ++ closed /\
      NoDup ids /\ (forall c, In c ids -> ~ In c closed).
Proof.
  induction quitChans as [|[ch|] rest IH]; intros closed closed' E;
    cbn [stop] in E.
  - injection E as <-. exists []. repeat split; [constructor|intros c []].
  - destruct (existsb (Nat.eqb ch) closed) eqn:Hin; [discriminate|].
    destruct (IH _ _ E) as (ids & -> & -> & Hnd & Hfresh).
    exists (ch :: ids). split; [reflexivity|].
    split; [cbn [rev]; rewrite <- app_assoc; reflexivity|].
    split.
    + constructor; [|exact Hnd]. intros Hch. apply (Hfresh ch Hch). now left.
    + intros c [<-|Hc] Hcl.
      * assert (existsb (Nat.eqb ch) closed = true)
          by (apply existsb_exists; exists ch; split;
              [exact Hcl|apply Nat.eqb_refl]).
        congruence.
      * apply (Hfresh c Hc). now right.
  - discriminate.
Qed.

(** X17.  [stop] closes the quit channels in order and returns when none
    of them is nil or closed already and no channel comes twice; all of
    them are closed then.  It is not idempotent: after a [stop] that
    returned, a second [stop] of a backend with at least one sink panics
    with [close of closed channel], at the first channel, and closes
    nothing; only a backend without sinks can be stopped again. *)
Theorem stop_twice_panics (quitChans : list quitChan)
    (closed closed' : list nat) :
  stop quitChans closed = Stopped closed' ->
  (forall ch, In (Some ch) quitChans -> In ch closed') /\
  (quitChans = [] -> stop quitChans closed' = Stopped closed') /\
  (quitChans <> [] ->
   stop quitChans closed' = StopPanic "close of closed channel" closed').
Proof.
  intros E. destruct (stop_closes _ _ E) as (ids & -> & -> & _ & _).
  split; [|split].
  - intros ch Hin. apply in_map_iff in Hin. destruct Hin as (c & Ec & Hc).
    injection Ec as ->. apply in_or_app. left. apply in_rev in Hc. exact Hc.
  - intros Hnil. destruct ids; [reflexivity|discriminate].
  - intros Hne. destruct ids as [|c ids]; [contradiction|].
    cbn [map stop].
    replace (existsb (Nat.eqb c) (rev (c :: ids) ++ closed)) with true;
      [reflexivity|].
    symmetry. apply existsb_exists. exists c. split; [|apply Nat.eqb_refl].
    apply in_or_app. left. apply in_rev. rewrite rev_involutive. now left.
Qed.

Lemma stop_twice_panics_witness :
  (forall ch, In (Some ch) [Some 1; Some 2]%nat -> In ch [2; 1]%nat) /\
  ([Some 1; Some 2]%nat = [] ->
   stop [Some 1; Some 2]%nat [2; 1]%nat = Stopped [2; 1]%nat) /\
  ([Some 1; Some 2]%nat <> [] ->
   stop [Some 1; Some 2]%nat [2; 1]%nat =
   StopPanic "close of closed channel" [2; 1]%nat).
Proof.
  exact (@stop_twice_panics [Some 1; Some 2]%nat [] [2; 1]%nat eq_refl).
Defined.

Lemma record_reaches_wire_witness :
  let H := syslogHeader grenada longParts (b "coolappname") (b "procx") [] in
  let T := [] ++ [newline] in
  exists m bk' w' evs,
    sendMessage oneSinkBackend longParts (b "coolappname") (b "procx") []
                emptyWorld = Val bk' w' /\
    trace w' = trace emptyWorld ++ evs /\
    In (length (msgChans oneSinkBackend) - 1, m,
        chan_ready (last (msgChans oneSinkBackend) (Chan 0 [] false)))%nat
       (sends evs) /\
    (Z.of_nat (cap (buffer m)) < 2 ^ 63 ->
     exists err w2 evs2,
       process 20 (udpForwarder 160) sampleConn m w' = Val err w2 /\
       trace w2 = trace w' ++ evs2 ++ [EvPut (buffer m)] /\
       Forall (fun d => Z.of_nat (length d) <= 60 /\
                        d = H ++ contentRegion (length H) (length T) d ++ T)
              (datagrams evs2) /\
       exists rest,
         content longParts =
           List.concat (map (contentRegion (length H) (length T))
                            (datagrams evs2)) ++ rest /\
         (err = None -> rest = [])).
Proof.
  apply (@record_reaches_wire oneSinkBackend grenada longParts
           (b "coolappname") (b "procx") [] emptyWorld 20 (udpForwarder 160)
           sampleConn).
  - split; constructor.
  - reflexivity.
  - discriminate.
  - discriminate.
  - cbn. lia.
  - vm_compute. reflexivity.
  - vm_compute. repeat constructor.
Defined.

(** The long record on the wire: four datagrams, each a syslog line of its
    own. *)
Example long_record_on_the_wire :
  match queuedMessage (sendMessage oneSinkBackend longParts (b "coolappname")
                                   (b "procx") [] emptyWorld) with
  | Some m =>
      datagrams
        (trace (world_of
                  (process 20 (udpForwarder 160) sampleConn m
                     (world_of (sendMessage oneSinkBackend longParts
                                            (b "coolappname") (b "procx") []
                                            emptyWorld)))))
  | None => []
  end =
  [ b "<30>Jun  5 12:13:47 0123456789ab coolappname[procx]: 012345" ++ [newline];
    b "<30>Jun  5 12:13:47 0123456789ab coolappname[procx]: 6789ab" ++ [newline];
    b "<30>Jun  5 12:13:47 0123456789ab coolappname[procx]: cdefgh" ++ [newline];
    b "<30>Jun  5 12:13:47 0123456789ab coolappname[procx]: ij" ++ [newline] ].
Proof. vm_compute. reflexivity. Qed.

(** ** A write that fails *)

Lemma writeOutcome_ext (conn : netConn) (w1 w2 : world) (d : bytes) :
  trace w1 = trace w2 -> now w1 = now w2 -> env w1 = env w2 ->
  writeOutcome conn w1 d = writeOutcome conn w2 d.
Proof. intros Ht Hn He. unfold writeOutcome. now rewrite Ht, Hn, He. Qed.

Lemma writeOutcome_here (conn : netConn) (w : world) (d : bytes) :
  writeOutcome conn (traced [] w) d = writeOutcome conn w d.
Proof. apply writeOutcome_ext; try reflexivity. cbn. apply app_nil_r. Qed.

(** An error of the splitting loop is the outcome of its last call of
    [writePart]. *)
Lemma splitLoop_error (conn : netConn) (avail : Z) (hb tb : slice) (a : nat) :
  forall (fuel : nat) (cb : slice) (w : world) (e : bytes),
  pool_ok w -> owned a w -> arr hb = a -> arr tb = a -> arr cb = a ->
  0 <= avail -> (len cb <= cap cb)%nat ->
  (off hb + len hb + len cb <= off tb)%nat ->
  returnedError (splitLoop fuel conn avail hb tb cb w) = Some e ->
  exists before d rest,
    trace (world_of (splitLoop fuel conn avail hb tb cb w)) =
      trace w ++ before ++ snd (writeOutcome conn (traced before w) d) ++ rest
    /\ fst (writeOutcome conn (traced before w) d) = Some e
    /\ (rest = [] \/ exists p, rest = [EvPut p]).
Proof.
  induction fuel as [|fuel IH];
    intros cb w e Hok Ha Hhb Htb Hcb Hav Hcap Hgeo Herr.
  all: destruct (Nat.eq_dec (len cb) 0) as [Hz|Hnz].
  1, 3: (rewrite splitLoop_nothing in Herr by assumption; discriminate Herr).
  all: destruct (Z_lt_le_dec avail (lenZ cb)) as [Hlt|Hle].
  2: remember 0%nat as fuel0 eqn:Ef0.
  4: remember (S fuel) as fuel0 eqn:Ef0.
  2, 4: (destruct (@splitLoop_last fuel0 conn avail hb tb cb a w
                     (proj1 Ha) Hhb Htb Hcb Hle
                     ltac:(unfold lenZ; lia) Hgeo)
           as (w' & E & Htr & _);
         rewrite E in Herr |- *; cbn [world_of returnedError] in Herr |- *;
         eexists [], _, [];
         rewrite writeOutcome_here, app_nil_r;
         split; [exact Htr|]; split; [|now left];
         destruct (fst (writeOutcome conn w _)) as [e0|];
         [injection Herr as ->; reflexivity|discriminate Herr]).
  - (* out of fuel *)
    simpl in Herr.
    destruct (Z.ltb_spec avail (lenZ cb)); [discriminate Herr|lia].
  - (* one more iteration *)
    destruct (@splitLoop_step fuel conn avail hb tb cb a w Hok Ha Hhb Htb Hcb
                (conj Hav Hlt) Hcap)
      as (g & p & w1 & w2 & Hg & Hp & Htr1 & Hnow1 & Henv1 & Htr2 & Hok2 &
          Ha2 & Hnow2 & Henv2 & Hrd2 & E).
    set (d := read w hb ++ firstn (Z.to_nat avail) (read w cb) ++ read w tb)
      in *.
    assert (Hw1 : writeOutcome conn (traced [EvGet g] w) d =
                  writeOutcome conn w1 d).
    { apply writeOutcome_ext; cbn; congruence. }
    rewrite E in Herr |- *.
    destruct (fst (writeOutcome conn w1 d)) as [e0|] eqn:Ee.
    + cbn [world_of returnedError] in Herr |- *. injection Herr as ->.
      exists [EvGet g], d, [EvPut p]. rewrite Hw1.
      split; [rewrite Htr2, Htr1, <- app_assoc; reflexivity|].
      split; [exact Ee|]. right. exists p. reflexivity.
    + destruct (IH (advance cb avail) w2 e Hok2 Ha2 Hhb Htb Hcb Hav)
        as (before & d' & rest & Htr' & He' & Hrest).
      { unfold advance, lenZ. simpl. lia. }
      { unfold advance, lenZ. simpl. lia. }
      { exact Herr. }
      exists ([EvGet g] ++ snd (writeOutcome conn w1 d) ++ [EvPut p] ++ before),
        d', rest.
      assert (Hw2 : writeOutcome conn
                      (traced ([EvGet g] ++ snd (writeOutcome conn w1 d) ++
                               [EvPut p] ++ before) w) d' =
                    writeOutcome conn (traced before w2) d').
      { apply writeOutcome_ext; cbn [traced trace now env]; try congruence.
        rewrite Htr2, Htr1, <- !app_assoc. reflexivity. }
      rewrite Hw2. split; [|split; assumption].
      rewrite Htr', Htr2, Htr1, <- !app_assoc. reflexivity.
Qed.

(** X18.  When [splitParts] returns an error, it is the error of its last
    call of [writePart]: the error of the write deadline when the deadline
    could not be set, in which case nothing was handed to the connection in
    that call; otherwise the error of the write, or the short-write error
    when the connection took fewer bytes than it was given.  Nothing is done
    on the connection after that call; at most the pooled buffer of that
    fragment is given back to the pool. *)
Theorem splitParts_error_ends_the_split (fuel : nat) (f : syslogForwarder)
    (conn : netConn) (m : bufferWithIdx) (w : world) (e : bytes) :
  pool_ok w -> owned (arr (buffer m)) w -> msg_ok m ->
  GoInt.in_range (messageLimit f) ->
  returnedError (splitParts fuel f conn m w) = Some e ->
  exists before d attempt rest,
    let k := length (trace w ++ before) in
    let setDeadline :=
      EvSetWriteDeadline (connId conn) (now w + forwardConnWriteTimeout) in
    trace (world_of (splitParts fuel f conn m w)) =
      trace w ++ before ++ attempt ++ rest /\
    (rest = [] \/ exists p, rest = [EvPut p]) /\
    match deadlineErr (env w) k with
    | Some e' => e = e' /\ attempt = [setDeadline]
    | None =>
        let r := writeRes (env w) (S k) d in
        attempt = [setDeadline; EvWrite (connId conn) d (fst r) (snd r)] /\
        match snd r with
        | Some e' => e = e'
        | None => fst r < Z.of_nat (length d) /\ e = shortWriteError conn
        end
    end.
Proof.
  intros Hok Ha Hm Hrange Herr.
  assert (Hmain : exists before d rest,
    trace (world_of (splitParts fuel f conn m w)) =
      trace w ++ before ++ snd (writeOutcome conn (traced before w) d) ++ rest
    /\ fst (writeOutcome conn (traced before w) d) = Some e
    /\ (rest = [] \/ exists p, rest = [EvPut p])).
  { destruct (Z_le_gt_dec (messageLimit f) 0) as [Hle0|Hpos];
      [|destruct (Z_le_gt_dec (lenZ (buffer m)) (messageLimit f))
          as [Hfits|Hbig]].
    1, 2: (destruct (@splitParts_whole fuel f conn m w Hm ltac:(lia))
             as (w' & E & Htr & _);
           rewrite E in Herr |- *; cbn [world_of returnedError] in Herr |- *;
           eexists [], _, [];
           rewrite writeOutcome_here, app_nil_r;
           split; [exact Htr|]; split; [|now left];
           destruct (fst (writeOutcome conn w _)) as [e0|];
           [injection Herr as ->; reflexivity|discriminate Herr]).
    destruct (@splitParts_slow fuel f conn m w Hm Hrange ltac:(lia))
      as (E & _).
    pose proof Hm as [H0 H1 H2 H3 H4]. unfold lenZ in H2.
    destruct (msg_regions w Hm) as (HB & LH & LC & LT).
    destruct (Z_lt_le_dec
                (availableFor (messageLimit f) (msgHeader w m)
                              (msgTrailer w m)) 0) as [Hneg|Hav].
    - (* no room: no error is returned *)
      destruct fuel as [|fuel].
      + rewrite E in Herr. cbn [splitLoop] in Herr.
        destruct (Z.ltb_spec
                    (availableFor (messageLimit f) (msgHeader w m)
                                  (msgTrailer w m))
                    (lenZ (contentBufOf m))) as [_|Hge];
          [discriminate Herr|unfold lenZ in Hge; lia].
      + destruct (@splitParts_panics fuel f conn m w Hok Ha Hm
                    ltac:(lia) ltac:(unfold GoInt.in_range in Hrange; lia)
                    Hneg) as (w' & g & Ep & _).
        rewrite Ep in Herr. discriminate Herr.
    - rewrite E in Herr |- *.
      apply (@splitLoop_error conn _ (headerBufOf m) (trailerBufOf m)
               (arr (buffer m)) fuel (contentBufOf m) w e Hok Ha
               eq_refl eq_refl eq_refl Hav); [| |exact Herr].
      + unfold contentBufOf. simpl. lia.
      + unfold headerBufOf, contentBufOf, trailerBufOf. simpl. lia. }
  destruct Hmain as (before & d & rest & Htr & He & Hrest).
  exists before, d, (snd (writeOutcome conn (traced before w) d)), rest.
  cbv zeta.
  split; [exact Htr|]. split; [exact Hrest|].
  revert He. unfold writeOutcome. cbn [traced trace now env].
  destruct (deadlineErr (env w) (length (trace w ++ before))) as [e'|].
  - cbn [fst snd]. intros [= ->]. split; reflexivity.
  - cbn [fst snd].
    destruct (snd (writeRes (env w) (S (length (trace w ++ before))) d))
      as [e'|].
    + intros [= ->]. split; reflexivity.
    + destruct (Z.ltb_spec
                  (fst (writeRes (env w) (S (length (trace w ++ before))) d))
                  (Z.of_nat (length d))) as [Hshort|_].
      * intros [= <-]. split; [reflexivity|]. split; [exact Hshort|reflexivity].
      * discriminate.
Qed.

Lemma brokenWorld_pool_ok : pool_ok brokenWorld.
Proof. split; constructor. Qed.

Lemma brokenWorld_owned : owned (arr (buffer sampleMessage)) brokenWorld.
Proof. split; [cbn; lia|intros []]. Qed.

Lemma splitParts_error_ends_the_split_witness :
  exists before d attempt rest,
    let k := length (trace brokenWorld ++ before) in
    let setDeadline :=
      EvSetWriteDeadline (connId sampleConn)
                         (now brokenWorld + forwardConnWriteTimeout) in
    trace (world_of (splitParts 40 (udpForwarder 160) sampleConn sampleMessage
                                brokenWorld)) =
      trace brokenWorld ++ before ++ attempt ++ rest /\
    (rest = [] \/ exists p, rest = [EvPut p]) /\
    match deadlineErr (env brokenWorld) k with
    | Some e' => b "connection refused" = e' /\ attempt = [setDeadline]
    | None =>
        let r := writeRes (env brokenWorld) (S k) d in
        attempt = [setDeadline;
                   EvWrite (connId sampleConn) d (fst r) (snd r)] /\
        match snd r with
        | Some e' => b "connection refused" = e'
        | None => fst r < Z.of_nat (length d) /\
                  b "connection refused" = shortWriteError sampleConn
        end
    end.
Proof.
  apply (@splitParts_error_ends_the_split 40 (udpForwarder 160) sampleConn
           sampleMessage brokenWorld (b "connection refused")).
  - exact brokenWorld_pool_ok.
  - exact brokenWorld_owned.
  - exact sampleMessage_ok.
  - unfold GoInt.in_range. cbn. lia.
  - vm_compute. reflexivity.
Defined.

(** The split of the sample message on that connection: the first fragment
    goes out, the second write is refused, the third fragment is not
    tried. *)
Example broken_split :
  datagrams (trace (world_of (splitParts 40 (udpForwarder 160) sampleConn
                                         sampleMessage brokenWorld))) =
  [sampleHeader ++ b "0123456789abcdef" ++ sampleTrailer;
   sampleHeader ++ b "ghijklmnopqrstuv" ++ sampleTrailer] /\
  poolTraffic (trace (world_of (splitParts 40 (udpForwarder 160) sampleConn
                                           sampleMessage brokenWorld))) =
  [true; false; true; false].
Proof. split; vm_compute; reflexivity. Qed.
